(* ===== verification/_CoqProject ===== *)
-Q . S2P
Prelude.v
KList.v
Bitmap.v
Klib.v
Printf.v
Buddy.v
PageAlloc.v
Slice.v
Galloc.v
Kqueue.v
Paging.v
MemArea.v
Zones.v
Sched.v
Mutex.v
Timers.v
Vfs.v
Fs.v
Cpio.v
Switch.v
Exec.v
Console.v
Segments.v
Irq.v
Trap.v
Profile.v
Keyboard.v
Serial.v
Message.v
Mpipe.v
Syscall.v
Ustring.v
Malloc.v
Qsort.v
Unum.v
Uprintf.v
Uscanf.v
Zcheck.v
Inftrees.v
Huffman.v
Hufftab.v
Huffcode.v
