(* ===== verification/Prelude.v ===== *)
(** * Koowaldah: a verification library for the Koowaldah kernel

    Koowaldah is a small kernel for the i386 written in C and assembler.  Its
    parts, from the bottom up: intrusive lists, bitmaps and a string library;
    a buddy allocator of pages, a slab allocator on top of it ("slices") and a
    general allocator on top of both; page tables, memory areas and mappings;
    threads, thread queues, a round robin scheduler, mutexes and timers; a
    virtual file system with a root file system that a cpio archive fills; the
    loader of programs with fork and exec; descriptor tables, interrupts, traps
    and the context switch; the consoles; a profiler; drivers of keyboard and
    serial port; messages and pipes between processes; system calls; and above
    them the C library of the user programs (usr/klibc).  The development
    translates the code under src/ function by function and proves what each
    part promises to the parts above it.

    ** How the code is translated

    A C function is a Rocq function with the name it has in the source.  In
    front of each a comment names the file, the lines and the symbol.  Integers
    are [Z], cut to their width ([u8], [u16], [u32]) where the C type does it;
    char is unsigned, as the makefiles say.
    Pointers are integers, or names of nodes where the code only links them.
    The state of a component is a record; mutation is passing the state, with
    the monad [M] of this file where a function threads it through many calls.
    The result is an [outcome]: [Ok], [Bug] for bug(), bug_on() and panic(),
    [Fault] for a NULL dereference or an index outside an array, and [Hang]
    for loops that use up their fuel.  Console output that does not feed back
    into the state is left out, except in Console.v, Segments.v and Profile.v
    where it is what the code is for.

    ** Files and the code they model

    - Prelude.v: outcomes, the monad, its notations, tactics and hint database,
      integers of fixed width (include/khui/i386/types.h).
    - KList.v (include/klist0.h): a heap of nodes with two pointers; [rep h L]
      says that a heap holds the family of lists [L].  All lists of the kernel
      rest on it.
    - Bitmap.v (kernel/lib/bitmap.c, include/bitmap.h): arrays of words.
    - Klib.v (kernel/lib/klib.c, include/lib.h): strings and numbers on a byte
      memory.  Printf.v (kernel/lib/vsnprintf.c): formatted output.
    - Buddy.v, PageAlloc.v (kernel/page_alloc.c): the first holds the arithmetic
      of buddies and the abstract state, the set of free piles; the second the
      code on linked lists, a refinement of the first.
    - Slice.v (kernel/slice.c), Galloc.v (kernel/galloc.c), Kqueue.v
      (kernel/lib/kqueue.c): proved against the class [PageSource], the promise
      of a page allocator; PageAlloc.v is an instance of it.
    - Paging.v (arch/i386/paging.c, include/i386/pages.h): directories and
      tables as words of memory, and the translation the processor makes of
      them.  MemArea.v (kernel/mem_area.c, kernel/brk.c): areas and mappings
      over pages, slices and tables.
    - Sched.v (kernel/thread_queue.c, kernel/sched0.c, kernel/scheduler.c,
      kernel/thread.c, spin locks), Mutex.v (include/mutex.h), Timers.v
      (kernel/timecore.c).
    - Vfs.v (kernel/fs/super.c, inode.c, namespace.c, mount.c, device.c,
      stat.c), Fs.v (kernel/fs/file.c, fs.c), Cpio.v (kernel/fs/cpio.c,
      virtfs.c, virtfs_proc.c, virtfs_dev.c).
    - Switch.v (arch/i386/asm/context_switch.S, arch/i386/thread.c): registers,
      stacks and the instructions of the switch.
    - Exec.v (kernel/exec.c, fork.c, exit.c, kernel/fs/aout.c, load_init of
      kernel/init.c): programs and processes over nearly all of the above.
    - Console.v (arch/i386/vga_console.c, serial_console.c, console.c,
      kernel/textio.c): the screen and the port behind kprintf.
    - Segments.v (arch/i386/segments.c, include/i386/segments.h), Irq.v
      (arch/i386/pic.c, irq.c, timer.c, asm/irq.S, asm/interrupt.S), Trap.v
      (arch/i386/trap.c): descriptors, interrupts, page faults.
    - Profile.v (kernel/debug/profile.c, sysrq.c, kernel/symtab.c).
    - Zones.v (kernel/mm_zone.c, arch/i386/bootmem_zone.c): the division of the
      memory at boot.
    - Keyboard.v (drivers/keyboard), Serial.v (drivers/serial): rings, queues
      and interrupts over the scheduler and the queues of Kqueue.v.
    - Message.v (kernel/fs/message.c), Mpipe.v (kernel/fs/mpipe.c): messages and
      pipes over the scheduler, the memory areas and the page tables.
    - Syscall.v (arch/i386/syscalls.c, usr/klibc/arch/i386/syscalls.c): the two
      ends of a system call.
    - Ustring.v, Qsort.v, Unum.v, Uprintf.v, Uscanf.v (usr/klibc): memory and
      string functions, sorting and searching, character classes and numbers,
      formatted output and input, on the byte memory of Klib.v.
    - Malloc.v (usr/klibc/malloc.c, realloc.c, sbrk.c, brk.c): the heap of a
      program, proved against the class [BreakLaws], the promise of sbrk; the
      system call of MemArea.v is an instance of it.
    - Zcheck.v (usr/klibc/zlib/adler32.c, crc32.c, crc32.h): check sums.
    - Inftrees.v (zlib/inftrees.c, inftrees.h, inffixed.h): the decoding tables
      of compressed data, on arrays with checked indices.  Huffman.v has the
      theory of its steps (bits in the other order, counting sort, depth of a
      bucket of codes), Hufftab.v the invariant of its loop, and Huffcode.v the
      canonical code and the theorem about the tables of a block, with the
      look-up of zlib/inflate.c.

    ** What the theorems show

    - Allocators: in every run the piles and objects handed out are aligned,
      disjoint and inside their zone or page; allocation fails only when
      nothing fits; release gives back exactly what was taken.
    - Data structures: lists, bitmaps, queues and page tables implement the
      abstract lists, sets, byte sequences and translations.
    - Threads: a mutex has one holder in every interleaving; the scheduler is a
      round robin; sleepers wake at their time; a thread that is switched away
      or interrupted resumes with its registers; system calls preserve them.
    - Files: paths resolve component by component; what is inserted is found,
      what is stored is read back; the errors are those documented; an archive
      is the sequence of its insertions.
    - Programs: sections load byte for byte; created threads run.
    - Hardware tables: descriptors keep their widths and mean what they were
      made from; the masks of the controllers follow the handlers; page faults
      grow the right area.
    - Output: kprintf shows the text its format means; the profiler loses no
      event.
    - Drivers and messages: keys and bytes arrive in order; a blocking message
      is a rendezvous that copies the sender's bytes.
    - User library: the regions malloc hands out are disjoint and lie in the
      data segment; qsort sorts; searches find the first occurrence; numbers
      printed are read back.
    - Compression library: the optimised check sums are the textbook ones; the
      decoding tables of every complete code fit in the space reserved for
      them, with the exact maxima 852 and 592 of the entries, and decode the
      code words of RFC 1951.
    Where the code does not do what it is meant to, the theorem states what it
    does and an example or lemma exhibits the case (kqueue_push across pages,
    generic_read of more than a page, kill_user_map, the size class of galloc,
    and others named in the files).

    ** Fuel

    Loops with a bound of their own (orders, bits, digits, entries of a table)
    recurse on it: 12 steps for the orders of piles, 32 or 33 for digits.
    Walks over linked lists and strings take fuel; theorems about them assume
    no more than that the fuel exceeds the length of the list or string, and
    conclude [Ok], so that they include termination.  The searches of malloc
    take 2^27 steps: a block takes at least 32 bytes of the address space.  The
    loop of inflate_table takes one step for each symbol.
    Where the code really does not end, the theorem says [Hang] for all fuel.

    ** Not modelled

    - Other processors and interrupts between the instructions of C code: the
      code protects itself by switching interrupts off; Mutex.v has the
      interleavings of its instructions, Irq.v interrupts of whole threads.
    - Boot code and loaders (arch/i386/boot, arch/i386/loader): real mode
      assembler that runs before the kernel.
    - arch/dummy: the kernel as a program of the host, on system calls of the
      host; konfig/ and tools/: programs of the build; tests/ and kernel/init/:
      test code.
    - Of usr/: wrappers of single system calls, the environment, files of
      usr/klibc that its makefile does not build, and the programs in usr/init.
    - Of usr/klibc/zlib: the compressor (deflate.c, trees.c) and the files in
      gzip format (gzio.c) are large machines of their own; of inflate.c only
      the tables and the look-up of a code. *)

From Stdlib Require Export ZArith Lia.
From stdpp Require Export prelude gmap.

#[global] Open Scope Z_scope.

(** ** Outcomes of kernel code

    A kernel function returns, or stops in [bug()], [bug_on()] or [panic()]
    (which print and then halt for ever), or touches memory it has no right
    to touch (a NULL dereference, an index outside an array), or does not
    return within the given number of steps. *)

Inductive outcome (A : Type) : Type :=
| Ok (a : A)
| Bug
| Fault
| Hang.
Arguments Ok {A} a.
Arguments Bug {A}.
Arguments Fault {A}.
Arguments Hang {A}.

#[global] Instance outcome_ret : MRet outcome := λ A a, Ok a.
#[global] Instance outcome_bind : MBind outcome := λ A B f o,
  match o with
  | Ok a => f a
  | Bug => Bug
  | Fault => Fault
  | Hang => Hang
  end.
#[global] Instance outcome_fmap : FMap outcome := λ A B f o,
  match o with
  | Ok a => Ok (f a)
  | Bug => Bug
  | Fault => Fault
  | Hang => Hang
  end.

#[global] Instance outcome_eq_dec `{EqDecision A} : EqDecision (outcome A).
Proof. solve_decision. Defined.

(** The state monad of kernel code over a component's state [S]. *)
Definition M (S A : Type) : Type := S → outcome (A * S).

#[global] Instance M_ret S : MRet (M S) := λ A a s, Ok (a, s).
#[global] Instance M_bind S : MBind (M S) := λ A B f m s,
  match m s with
  | Ok (a, s') => f a s'
  | Bug => Bug
  | Fault => Fault
  | Hang => Hang
  end.

Definition bug {S A} : M S A := λ _, Bug.
Definition fault {S A} : M S A := λ _, Fault.
Definition hang {S A} : M S A := λ _, Hang.
Definition bug_on {S} (c : bool) : M S unit := λ s, if c then Bug else Ok (tt, s).
Definition get {S} : M S S := λ s, Ok (s, s).
Definition gets {S A} (f : S → A) : M S A := λ s, Ok (f s, s).
Definition put {S} (s' : S) : M S unit := λ _, Ok (tt, s').
Definition modify {S} (f : S → S) : M S unit := λ s, Ok (tt, f s).
Definition lift {S A} (o : outcome A) : M S A := λ s,
  match o with Ok a => Ok (a, s) | Bug => Bug | Fault => Fault | Hang => Hang end.

Definition of_option {A} (o : option A) : outcome A :=
  match o with Some a => Ok a | None => Fault end.

Lemma bind_ok {S A B} (m : M S A) (f : A → M S B) s r :
  mbind f m s = Ok r ↔ ∃ a s', m s = Ok (a, s') ∧ f a s' = Ok r.
Proof.
  unfold mbind, M_bind. destruct (m s) as [[a s']| | |]; split;
    try (by intros (? & ? & ? & ?)); [by eauto| |done..].
  by intros (? & ? & [= -> ->] & ?).
Qed.

(** Running a bind whose first part is known. *)
Lemma bind_run {S A B} (m : M S A) (f : A → M S B) s a s' : m s = Ok (a, s') → mbind f m s = f a s'.
Proof. intros E. unfold mbind, M_bind. by rewrite E. Qed.
Lemma bind_gets {S A B} (g : S → A) (f : A → M S B) s : mbind f (gets g) s = f (g s) s.
Proof. done. Qed.
Lemma bind_modify {S B} (g : S → S) (f : unit → M S B) s : mbind f (modify g) s = f tt (g s).
Proof. done. Qed.
Lemma bind_mret {S A B} (a : A) (f : A → M S B) s : mbind f (mret a : M S A) s = f a s.
Proof. done. Qed.
Lemma bind_bug_on {S B} (f : unit → M S B) (s : S) : mbind f (bug_on false) s = f tt s.
Proof. done. Qed.
Lemma bind_bind {S A B C} (m : M S A) (g : A → M S B) (f : B → M S C) s :
  mbind f (mbind g m) s = mbind (λ a, mbind f (g a)) m s.
Proof. unfold mbind, M_bind. by destruct (m s) as [[]| | |]. Qed.

(** One pass over the binds of a kernel function whose parts are known. *)
Create Rewrite HintDb mrun.
#[global] Hint Rewrite @bind_gets @bind_modify @bind_mret @bind_bug_on @bind_bind : mrun.
Ltac mrun := repeat (progress (autorewrite with mrun; cbn beta)).

Lemma obind_ok {A B} (m : outcome A) (f : A → outcome B) r :
  mbind f m = Ok r ↔ ∃ a, m = Ok a ∧ f a = Ok r.
Proof.
  destruct m; cbn; split; try (by intros (? & ? & ?)); [by eauto| |done..].
  by intros (? & [= ->] & ?).
Qed.

(** Inversion of a bind that returned: the value of its first part and the
    rest. *)
Tactic Notation "bind_inv" hyp(H) "as" simple_intropattern(x) simple_intropattern(Hx) :=
  apply obind_ok in H; destruct H as (x & Hx & H).

(** ** Machine integers of the i386 port *)

(* include/khui/i386/types.h:32-32 __u32 *)
Definition u32 (x : Z) : Z := x `mod` 2 ^ 32.
Definition u16 (x : Z) : Z := x `mod` 2 ^ 16.
Definition u8 (x : Z) : Z := x `mod` 2 ^ 8.
Definition s32 (x : Z) : Z := (x + 2 ^ 31) `mod` 2 ^ 32 - 2 ^ 31.

(** A property of the numbers below [n] checked one by one. *)
Lemma range_check (P : Z → bool) n : forallb P (seqZ 0 n) = true → ∀ c, 0 ≤ c < n → P c = true.
Proof.
  intros H c Hc. rewrite forallb_forall in H. apply H. apply list_elem_of_In, elem_of_seqZ. lia.
Qed.

Definition is_u32 (x : Z) : Prop := 0 ≤ x < 2 ^ 32.

Lemma u32_small x : is_u32 x → u32 x = x.
Proof. intros. by apply Z.mod_small. Qed.
Lemma u32_range x : is_u32 (u32 x).
Proof. by apply Z.mod_pos_bound. Qed.

Lemma land_is_u32 a b : is_u32 a → 0 ≤ b → is_u32 (Z.land a b).
Proof.
  intros [H1 H2] Hb. split; [by apply Z.land_nonneg; left|].
  destruct (decide (Z.land a b = 0)) as [->|Hz]; [done|].
  assert (0 ≤ Z.land a b) by (apply Z.land_nonneg; lia).
  apply Z.log2_lt_cancel. eapply Z.le_lt_trans; [apply Z.log2_land; lia|].
  destruct (decide (a = 0)) as [->|]; [by rewrite Z.land_0_l in Hz|].
  eapply Z.le_lt_trans; [apply Z.le_min_l|]. change (Z.log2 (2 ^ 32)) with 32. apply Z.log2_lt_pow2; lia.
Qed.
Lemma lor_is_u32 a b : is_u32 a → is_u32 b → is_u32 (Z.lor a b).
Proof.
  intros [H1 H2] [H3 H4]. split; [by apply Z.lor_nonneg|].
  destruct (decide (Z.lor a b = 0)) as [->|Hz]; [done|].
  assert (0 ≤ Z.lor a b) by (apply Z.lor_nonneg; lia).
  apply Z.log2_lt_cancel. rewrite Z.log2_lor by lia. change (Z.log2 (2 ^ 32)) with 32.
  apply Z.max_lub_lt.
  - destruct (decide (a = 0)) as [->|]; [done|]. apply Z.log2_lt_pow2; lia.
  - destruct (decide (b = 0)) as [->|]; [done|]. apply Z.log2_lt_pow2; lia.
Qed.

(** A power of two picks one bit. *)
Lemma land_pow2 x n : 0 ≤ n → Z.land x (2 ^ n) = if Z.testbit x n then 2 ^ n else 0.
Proof.
  intros. apply Z.bits_inj'. intros i Hi. rewrite Z.land_spec, Z.pow2_bits_eqb by lia.
  destruct (Z.eqb_spec n i) as [->|].
  - rewrite andb_true_r. destruct (Z.testbit x i); [by rewrite Z.pow2_bits_true|].
    by rewrite Z.bits_0.
  - rewrite andb_false_r. destruct (Z.testbit x n); [|by rewrite Z.bits_0].
    by rewrite Z.pow2_bits_false.
Qed.

(** A number below 2^n is one without bits from [n] on. *)
Lemma bound_bits n a : 0 ≤ n → 0 ≤ a < 2 ^ n ↔ ∀ i, n ≤ i → Z.testbit a i = false.
Proof.
  intros Hn. split.
  - intros Ha i Hi. rewrite <- (Z.mod_small a (2 ^ n)) by done. apply Z.mod_pow2_bits_high. lia.
  - intros H.
    replace a with (a `mod` 2 ^ n); [apply Z.mod_pos_bound; apply Z.pow_pos_nonneg; lia|].
    apply Z.bits_inj'. intros i Hi. destruct (decide (i < n)).
    + by apply Z.mod_pow2_bits_low.
    + rewrite Z.mod_pow2_bits_high by lia. symmetry. apply H. lia.
Qed.
Lemma lxor_bound n a b : 0 ≤ n → 0 ≤ a < 2 ^ n → 0 ≤ b < 2 ^ n → 0 ≤ Z.lxor a b < 2 ^ n.
Proof.
  intros Hn Ha Hb. rewrite bound_bits in * by done. intros i Hi. by rewrite Z.lxor_spec, Ha, Hb.
Qed.
Lemma shiftr_bound n k a : 0 ≤ k ≤ n → 0 ≤ a < 2 ^ n → 0 ≤ Z.shiftr a k < 2 ^ (n - k).
Proof.
  intros Hk Ha. rewrite bound_bits in * by lia. intros i Hi. rewrite Z.shiftr_spec by lia. apply Ha. lia.
Qed.

Lemma lxor_add a b k : 0 ≤ k → 0 ≤ a < 2 ^ k → a + 2 ^ k * b = Z.lxor a (Z.shiftl b k).
Proof.
  intros Hk Ha. rewrite <- Z.add_nocarry_lxor; [rewrite Z.shiftl_mul_pow2 by done; lia|].
  apply Z.bits_inj'. intros i Hi. rewrite Z.land_spec, Z.bits_0. destruct (decide (i < k)).
  - rewrite Z.shiftl_spec_low by done. apply andb_false_r.
  - rewrite bound_bits in Ha by done. by rewrite Ha by lia.
Qed.

(** A part above bit [n] and a part below it do not share bits. *)
Lemma lor_shiftl a b n : 0 ≤ n → 0 ≤ b < 2 ^ n → Z.lor (Z.shiftl a n) b = a * 2 ^ n + b.
Proof.
  intros Hn Hb. rewrite <- Z.add_nocarry_lor; [by rewrite Z.shiftl_mul_pow2|].
  apply Z.bits_inj_0. intros j. rewrite Z.land_spec. destruct (decide (j < 0)); [by rewrite !Z.testbit_neg_r by lia|].
  destruct (decide (j < n)); [by rewrite Z.shiftl_spec_low by lia|].
  rewrite <- (Z.mod_small b (2 ^ n)) by lia. rewrite Z.mod_pow2_bits_high by lia. apply andb_false_r.
Qed.
Lemma lor_shiftl_mod x n : 0 ≤ n → Z.lor (Z.shiftl (x / 2 ^ n) n) (x mod 2 ^ n) = x.
Proof.
  intros Hn. assert (0 < 2 ^ n) by (apply Z.pow_pos_nonneg; lia).
  rewrite lor_shiftl by (try apply Z.mod_pos_bound; lia). pose proof (Z.div_mod x (2 ^ n)). lia.
Qed.

Lemma u32_add_l a b : u32 (u32 a + b) = u32 (a + b).
Proof. unfold u32. by rewrite Zplus_mod_idemp_l. Qed.

Lemma u32_sub_l a b : u32 (u32 a - b) = u32 (a - b).
Proof. unfold u32. by rewrite Zminus_mod_idemp_l. Qed.

(** ** Error numbers *)

(* include/khui/errno.h:43-43 ENOENT *)
Definition ENOENT : Z := 2.
(* include/khui/errno.h:45-45 EIO *)
Definition EIO : Z := 5.
(* include/khui/errno.h:46-46 ENOEXEC *)
Definition ENOEXEC : Z := 8.
(* include/khui/errno.h:47-47 EBADF *)
Definition EBADF : Z := 9.
(* include/khui/errno.h:48-48 EAGAIN *)
Definition EAGAIN : Z := 11.
(* include/khui/errno.h:49-49 ENOMEM *)
Definition ENOMEM : Z := 12.
(* include/khui/errno.h:51-51 EBUSY *)
Definition EBUSY : Z := 16.
(* include/khui/errno.h:52-52 ENODEV *)
Definition ENODEV : Z := 19.
(* include/khui/errno.h:53-53 ENOTDIR *)
Definition ENOTDIR : Z := 20.
(* include/khui/errno.h:54-54 EISDIR *)
Definition EISDIR : Z := 21.
(* include/khui/errno.h:55-55 EINVAL *)
Definition EINVAL : Z := 22.
(* include/khui/errno.h:61-61 ENOSYS *)
Definition ENOSYS : Z := 78.
