(* ===== verification/KList.v ===== *)
(** * Intrusive doubly linked lists (include/klist0.h)

    A heap maps every [struct klist0_node] (named by an abstract address) to
    its two links.  The operations below perform the stores of the C code in
    the order of the C code, so aliasing between the arguments is modelled.
    [ring h hd l] says that the node [hd] heads a well-formed circular list
    whose members, in [klist0_for_each] order, are [l]. *)

From S2P Require Import Prelude.

Section klist.
Context {N : Type} `{!EqDecision N}.
Implicit Types (n x a b hd : N) (l : list N).

(* include/klist0.h:44-50 klist0_node *)
Record klist0_node := Node { prev : N; next : N }.

Definition heap := N → klist0_node.

Definition set_next n v (h : heap) : heap := λ m,
  if decide (m = n) then Node (prev (h m)) v else h m.
Definition set_prev n v (h : heap) : heap := λ m,
  if decide (m = n) then Node v (next (h m)) else h m.

(* include/klist0.h:58-59 KLIST0_INIT *)
Definition KLIST0_INIT list (h : heap) : heap :=
  set_next list list (set_prev list list h).

(* include/klist0.h:61-73 klist0_prepend *)
Definition klist0_prepend node list (h : heap) : heap :=
  let h := set_next node list h in
  let h := set_prev node (prev (h list)) h in
  let h := set_next (prev (h list)) node h in
  set_prev list node h.

(* include/klist0.h:75-88 klist0_append *)
Definition klist0_append node list (h : heap) : heap :=
  let h := set_next node (next (h list)) h in
  let h := set_prev node list h in
  let h := set_prev (next (h list)) node h in
  set_next list node h.

(* include/klist0.h:90-102 klist0_unlink *)
Definition klist0_unlink node (h : heap) : heap :=
  let h := set_next (prev (h node)) (next (h node)) h in
  let h := set_prev (next (h node)) (prev (h node)) h in
  let h := set_next node node h in
  set_prev node node h.

(* include/klist0.h:121-128 klist0_empty *)
Definition klist0_empty list (h : heap) : bool :=
  bool_decide (next (h list) = list).

(* include/klist0.h:130-141 klist0_reparent *)
Definition klist0_reparent from_head to_head (h : heap) : heap :=
  let h : heap := λ m, if decide (m = to_head) then h from_head else h m in
  let h := set_prev (next (h to_head)) to_head h in
  let h := set_next (prev (h to_head)) to_head h in
  KLIST0_INIT from_head h.

(** The nodes a [klist0_for_each] loop visits, from the node [n] on, when
    its body does not touch the links; [None] when the head is not met
    within [fuel] steps. *)
Fixpoint nodes_from (fuel : nat) (h : heap) n list : option (Datatypes.list N) :=
  match fuel with
  | O => None
  | S f => if decide (n = list) then Some []
           else cons n <$> nodes_from f h (next (h n)) list
  end.

(* include/klist0.h:113-119 klist0_for_each *)
Definition klist0_for_each (fuel : nat) (h : heap) list : option (Datatypes.list N) :=
  nodes_from fuel h (next (h list)) list.

(** ** Well-formed lists *)

(** [seg h a l b]: following [next] from [a] visits [l] and then [b], and
    the [prev] links lead back. *)
Fixpoint seg (h : heap) a l b : Prop :=
  match l with
  | [] => next (h a) = b ∧ prev (h b) = a
  | x :: l => next (h a) = x ∧ prev (h x) = a ∧ seg h x l b
  end.

Definition ring (h : heap) hd l : Prop := seg h hd l hd ∧ NoDup (hd :: l).

Lemma set_next_same n v h : next (set_next n v h n) = v.
Proof. unfold set_next. by rewrite decide_True. Qed.
Lemma set_next_ne n m v h : m ≠ n → set_next n v h m = h m.
Proof. intros. unfold set_next. by rewrite decide_False. Qed.
Lemma set_next_prev n m v h : prev (set_next n v h m) = prev (h m).
Proof. unfold set_next. by case_decide. Qed.
Lemma set_prev_same n v h : prev (set_prev n v h n) = v.
Proof. unfold set_prev. by rewrite decide_True. Qed.
Lemma set_prev_ne n m v h : m ≠ n → set_prev n v h m = h m.
Proof. intros. unfold set_prev. by rewrite decide_False. Qed.
Lemma set_prev_next n m v h : next (set_prev n v h m) = next (h m).
Proof. unfold set_prev. by case_decide. Qed.

Lemma seg_app h a l1 x l2 b :
  seg h a (l1 ++ x :: l2) b ↔ seg h a l1 x ∧ seg h x l2 b.
Proof. revert a. induction l1; intros; simpl; rewrite ?IHl1; tauto. Qed.

Lemma seg_ext h h' a l b :
  (∀ m, m ∈ a :: l → next (h' m) = next (h m)) →
  (∀ m, m ∈ l ++ [b] → prev (h' m) = prev (h m)) →
  seg h a l b → seg h' a l b.
Proof.
  revert a. induction l as [|x l IH]; simpl; intros a Hn Hp.
  - intros [??]. by rewrite Hn, Hp by set_solver.
  - intros (? & ? & Hs). rewrite Hn, Hp by set_solver. split_and!; [done..|].
    apply IH; [| |done]; intros; [apply Hn|apply Hp]; set_solver.
Qed.

Lemma ring_ext h h' hd l :
  (∀ m, m ∈ hd :: l → h' m = h m) → ring h hd l → ring h' hd l.
Proof.
  intros Hm [Hs Hd]. split; [|done].
  eapply seg_ext, Hs; intros; rewrite Hm by set_solver; done.
Qed.

Lemma ring_rotate h hd l1 x l2 :
  ring h hd (l1 ++ x :: l2) ↔ ring h x (l2 ++ hd :: l1).
Proof.
  unfold ring. rewrite !seg_app.
  rewrite !NoDup_cons, !NoDup_app, !NoDup_cons. set_solver.
Qed.

Lemma seg_closed h a l b x :
  seg h a l b → x ∈ a :: l → next (h x) ∈ l ++ [b].
Proof.
  revert a. induction l as [|y l IH]; simpl; intros a.
  - intros [Hn ?] ->%list_elem_of_singleton. rewrite Hn. set_solver.
  - intros (Hn & ? & Hs) [->|Hx]%elem_of_cons; [rewrite Hn; set_solver|].
    right. by eapply IH.
Qed.
Lemma seg_closed_prev h a l b x :
  seg h a l b → x ∈ l ++ [b] → prev (h x) ∈ a :: l.
Proof.
  revert a. induction l as [|y l IH]; simpl; intros a.
  - intros [? Hp] ->%list_elem_of_singleton. rewrite Hp. set_solver.
  - intros (? & Hp & Hs) [->|Hx]%elem_of_cons; [rewrite Hp; set_solver|].
    right. by eapply IH.
Qed.

(** A list is closed under both links. *)
Lemma ring_closed h hd l x :
  ring h hd l → x ∈ hd :: l → next (h x) ∈ hd :: l ∧ prev (h x) ∈ hd :: l.
Proof.
  intros [Hs _] Hx. split.
  - pose proof (seg_closed _ _ _ _ _ Hs Hx). set_solver.
  - eapply seg_closed_prev; [done|]. set_solver.
Qed.

(** ** The operations on well-formed lists *)

Lemma KLIST0_INIT_ring hd h : ring (KLIST0_INIT hd h) hd [].
Proof.
  unfold KLIST0_INIT. split; [|apply NoDup_singleton]; simpl.
  by rewrite set_next_same, set_next_prev, set_prev_same.
Qed.

(** The links after each operation, as functions of the links before it. *)
Lemma klist0_append_next node list h m :
  node ≠ list →
  next (klist0_append node list h m) =
    if decide (m = list) then node
    else if decide (m = node) then next (h list) else next (h m).
Proof.
  intros. unfold klist0_append, set_next, set_prev.
  repeat (case_decide; simplify_eq/=); done.
Qed.
Lemma klist0_append_prev node list h m :
  node ≠ list →
  prev (klist0_append node list h m) =
    if decide (m = next (h list)) then node
    else if decide (m = node) then list else prev (h m).
Proof.
  intros. unfold klist0_append, set_next, set_prev.
  repeat (case_decide; simplify_eq/=); done.
Qed.
Lemma klist0_prepend_next node list h m :
  node ≠ list →
  next (klist0_prepend node list h m) =
    if decide (m = prev (h list)) then node
    else if decide (m = node) then list else next (h m).
Proof.
  intros. unfold klist0_prepend, set_next, set_prev.
  repeat (case_decide; simplify_eq/=); done.
Qed.
Lemma klist0_prepend_prev node list h m :
  node ≠ list →
  prev (klist0_prepend node list h m) =
    if decide (m = list) then node
    else if decide (m = node) then prev (h list) else prev (h m).
Proof.
  intros. unfold klist0_prepend, set_next, set_prev.
  repeat (case_decide; simplify_eq/=); done.
Qed.
Lemma klist0_unlink_next node h m :
  next (klist0_unlink node h m) =
    if decide (m = node) then node
    else if decide (m = prev (h node)) then next (h node) else next (h m).
Proof.
  unfold klist0_unlink, set_next, set_prev.
  repeat (case_decide; simplify_eq/=); done.
Qed.
Lemma klist0_unlink_prev node h m :
  prev (h node) ≠ node →
  prev (klist0_unlink node h m) =
    if decide (m = node) then node
    else if decide (m = next (h node)) then prev (h node) else prev (h m).
Proof.
  intros. unfold klist0_unlink, set_next, set_prev.
  repeat (case_decide; simplify_eq/=); done.
Qed.

(** [klist0_append] puts the node right after the head. *)
Lemma klist0_append_ring node hd h l :
  ring h hd l → node ∉ hd :: l →
  ring (klist0_append node hd h) hd (node :: l).
Proof.
  intros [Hs Hd] Hn. apply not_elem_of_cons in Hn as [Hnh Hnl].
  split; [|rewrite NoDup_cons in Hd; rewrite !NoDup_cons; set_solver].
  simpl. rewrite !klist0_append_next, !klist0_append_prev by done.
  rewrite decide_True by done.
  assert (next (h hd) ≠ node).
  { pose proof (seg_closed _ _ _ _ hd Hs). set_solver. }
  rewrite decide_False, decide_True by done. split_and!; [done..|].
  apply NoDup_cons in Hd as [Hhl Hd].
  destruct l as [|x l]; simpl in Hs |- *; destruct Hs as [Hf Hs];
    rewrite klist0_append_next, klist0_append_prev, Hf, decide_False, !decide_True by done.
  - done.
  - destruct Hs as [Hp Hs]. split_and!; [done..|].
    apply NoDup_cons in Hd as [Hxl Hd].
    eapply seg_ext, Hs; intros m Hm;
      rewrite ?klist0_append_next, ?klist0_append_prev, ?Hf by done;
      clear - Hm Hhl Hxl Hnl Hnh; by rewrite !decide_False by set_solver.
Qed.

Lemma ring_last h hd l : ring h hd l → prev (h hd) = default hd (last l).
Proof.
  intros [Hs _]. destruct l as [|y l' _] using rev_ind; [by destruct Hs|].
  rewrite last_snoc. by apply seg_app in Hs as [_ [_ ?]].
Qed.

Lemma ring_next_prev h hd l x : ring h hd l → x ∈ hd :: l → next (h (prev (h x))) = x.
Proof.
  intros Hr Hx. assert (∃ l', ring h x l') as [l' Hr'].
  { apply elem_of_cons in Hx as [->|Hx]; [by eauto|].
    apply list_elem_of_split in Hx as (l1 & l2 & ->).
    eexists. by apply ring_rotate. }
  rewrite (ring_last _ _ _ Hr'). destruct Hr' as [Hs _].
  destruct l' as [|y l' _] using rev_ind; [by destruct Hs|].
  rewrite last_snoc. by apply seg_app in Hs as [_ [? _]].
Qed.

(** Inserting before a node is inserting after its predecessor. *)
Lemma klist0_prepend_append node h hd l m :
  ring h hd l → node ∉ hd :: l →
  klist0_prepend node hd h m = klist0_append node (prev (h hd)) h m.
Proof.
  intros Hr Hn.
  assert (node ≠ hd) by set_solver.
  assert (prev (h hd) ≠ node).
  { destruct (ring_closed h hd l hd Hr) as [_ Hp]; [set_solver|]. congruence. }
  pose proof (ring_next_prev h hd l hd Hr ltac:(set_solver)) as Hnp.
  assert (∀ n1 n2 : klist0_node, prev n1 = prev n2 → next n1 = next n2 → n1 = n2) as Heq.
  { intros [] []; simpl; congruence. }
  apply Heq; [rewrite klist0_prepend_prev, klist0_append_prev by done
             |rewrite klist0_prepend_next, klist0_append_next by done]; by rewrite Hnp.
Qed.

(** [klist0_prepend] puts the node at the end of the list. *)
Lemma klist0_prepend_ring node hd h l :
  ring h hd l → node ∉ hd :: l →
  ring (klist0_prepend node hd h) hd (l ++ [node]).
Proof.
  intros Hr Hn.
  eapply ring_ext; [intros m _; by apply (klist0_prepend_append _ _ _ l)|].
  rewrite (ring_last _ _ _ Hr).
  destruct l as [|y l _] using rev_ind; simpl; [by apply klist0_append_ring|].
  rewrite last_snoc, <- app_assoc. simpl. apply ring_rotate. simpl.
  apply klist0_append_ring; [by apply ring_rotate in Hr|set_solver].
Qed.

(** Both insertions work at any node of the list. *)
Lemma klist0_append_after node hd h l1 x l2 :
  ring h hd (l1 ++ x :: l2) → node ∉ hd :: l1 ++ x :: l2 →
  ring (klist0_append node x h) hd (l1 ++ x :: node :: l2).
Proof.
  intros Hr%ring_rotate Hn. apply ring_rotate.
  apply (klist0_append_ring node) in Hr; [done|set_solver].
Qed.
Lemma klist0_prepend_before node hd h l1 x l2 :
  ring h hd (l1 ++ x :: l2) → node ∉ hd :: l1 ++ x :: l2 →
  ring (klist0_prepend node x h) hd (l1 ++ node :: x :: l2).
Proof.
  intros Hr%ring_rotate Hn.
  replace (l1 ++ node :: x :: l2) with ((l1 ++ [node]) ++ x :: l2) by by rewrite <- app_assoc.
  apply ring_rotate.
  apply (klist0_prepend_ring node) in Hr; [by rewrite <- app_assoc in Hr|set_solver].
Qed.

Lemma seg_unlink h a l1 x l2 b :
  seg h a l1 x → seg h x l2 b →
  NoDup (x :: l1 ++ l2) → x ≠ a → x ≠ b → a ∉ l1 ++ l2 → b ∉ l1 ++ l2 →
  seg (klist0_unlink x h) a (l1 ++ l2) b.
Proof.
  intros Hs1 Hs2 Hd Hxa Hxb Ha Hb.
  assert (prev (h x) ≠ x) as Hpx.
  { apply NoDup_cons in Hd as [Hx _]. clear Hs2.
    pose proof (seg_closed_prev h a l1 x x Hs1 ltac:(set_solver)) as Hc.
    intros E. rewrite E in Hc. clear Hs1. set_solver. }
  revert a Hs1 Hd Hxa Ha. induction l1 as [|y l1 IH]; simpl; intros a Hs1 Hd Hxa Ha.
  - destruct Hs1 as [Hna Hpa]. destruct l2 as [|f l2]; simpl in *.
    + destruct Hs2 as [Hn2 Hp2].
      rewrite klist0_unlink_next, klist0_unlink_prev, Hpa, Hn2 by done.
      by repeat (case_decide; try congruence).
    + destruct Hs2 as (Hn2 & Hp2 & Hs2). rewrite !NoDup_cons in Hd.
      rewrite klist0_unlink_next, klist0_unlink_prev, Hpa, Hn2 by done.
      assert (f ≠ x) by (clear - Hd; set_solver).
      rewrite !(decide_False (P := _ = x)), !decide_True by done. split_and!; [done..|].
      eapply seg_ext, Hs2; intros m Hm;
        rewrite ?klist0_unlink_next, ?klist0_unlink_prev, ?Hpa, ?Hn2 by done;
        clear - Hm Hb Hxb Hd Ha; by rewrite !decide_False by set_solver.
  - destruct Hs1 as (Hna & Hpa & Hs1). apply NoDup_cons in Hd as [Hx Hd].
    apply NoDup_cons in Hd as [Hy Hd].
    pose proof (seg_closed_prev h y l1 x x Hs1 ltac:(set_solver)) as Hc.
    pose proof (seg_closed h x l2 b x Hs2 ltac:(set_solver)) as Hc'.
    assert (y ≠ x ∧ y ≠ b ∧ (y ∉ l2) ∧ (x ∉ l1 ++ l2) ∧ (b ∉ l1 ++ l2) ∧ (a ∉ y :: l1)) as
      (? & ? & ? & ? & ? & ?) by (clear - Hx Hy Hb Ha; set_solver).
    rewrite klist0_unlink_next, klist0_unlink_prev by done.
    rewrite !decide_False; [split_and!; [done..|]|..]; try congruence.
    + apply IH; [done..|by apply NoDup_cons|by intros ->|done].
    + intros E. rewrite <- E in Hc'. clear - Hc' H0 H1. set_solver.
Qed.

Lemma ring_prev_ne h hd l x : ring h hd l → x ∈ l → prev (h x) ≠ x.
Proof.
  intros [Hs Hd] (l1 & l2 & ->)%list_elem_of_split. apply seg_app in Hs as [Hs _].
  rewrite NoDup_cons, NoDup_app, NoDup_cons in Hd.
  pose proof (seg_closed_prev h hd l1 x x Hs ltac:(set_solver)) as Hc.
  intros E. rewrite E in Hc. clear Hs. set_solver.
Qed.

(** [klist0_unlink] takes the node out and leaves it an empty list. *)
Lemma klist0_unlink_ring hd h l1 x l2 :
  ring h hd (l1 ++ x :: l2) →
  ring (klist0_unlink x h) hd (l1 ++ l2) ∧ ring (klist0_unlink x h) x [].
Proof.
  intros Hr. pose proof (ring_prev_ne _ _ _ x Hr ltac:(set_solver)).
  destruct Hr as [Hs Hd]. apply seg_app in Hs as [Hs1 Hs2].
  rewrite NoDup_cons, NoDup_app, NoDup_cons in Hd.
  destruct Hd as (Hhd & Hd1 & Hd2 & Hx & Hd3).
  split; split.
  - apply seg_unlink; [done..| | | | |]; rewrite ?NoDup_cons, ?NoDup_app;
      clear Hs1 Hs2; set_solver.
  - rewrite NoDup_cons, NoDup_app. clear Hs1 Hs2. set_solver.
  - simpl. rewrite klist0_unlink_next, klist0_unlink_prev by done. by rewrite !decide_True.
  - apply NoDup_singleton.
Qed.

(** Unlinking a node that is alone changes nothing. *)
Lemma klist0_unlink_alone h x : ring h x [] → ring (klist0_unlink x h) x [].
Proof.
  intros [[Hn Hp] _]. split; [|apply NoDup_singleton]. simpl.
  unfold klist0_unlink, set_next, set_prev. rewrite Hn, Hp.
  repeat (case_decide; simplify_eq/=); done.
Qed.

Lemma klist0_empty_ring h hd l : ring h hd l → klist0_empty hd h = bool_decide (l = []).
Proof.
  intros [Hs Hd]. unfold klist0_empty. apply bool_decide_ext.
  destruct l as [|x l]; simpl in Hs; [naive_solver|].
  destruct Hs as [-> _]. apply NoDup_cons in Hd as [Hd _]. split; [|done].
  intros ->. set_solver.
Qed.

Lemma nodes_from_seg fuel h a l b :
  seg h a l b → b ∉ l → (length l < fuel)%nat → nodes_from fuel h (next (h a)) b = Some l.
Proof.
  revert a fuel. induction l as [|x l IH]; intros a [|fuel] Hs Hb Hf; simpl in *; try lia.
  - destruct Hs as [-> _]. by rewrite decide_True.
  - destruct Hs as (-> & _ & Hs). rewrite decide_False by set_solver.
    rewrite (IH x fuel); [done|done|set_solver|lia].
Qed.

(** A [klist0_for_each] loop over a well-formed list ends after visiting
    every member once, in order. *)
Lemma klist0_for_each_ring fuel h hd l :
  ring h hd l → (length l < fuel)%nat → klist0_for_each fuel h hd = Some l.
Proof.
  intros [Hs Hd] Hf. apply NoDup_cons in Hd as [Hd _]. by apply nodes_from_seg.
Qed.

(** ** Frame: a list the arguments do not belong to is left alone *)

Lemma node_eq (n1 n2 : klist0_node) : prev n1 = prev n2 → next n1 = next n2 → n1 = n2.
Proof. destruct n1, n2; simpl; congruence. Qed.

Lemma klist0_append_other node at_ h hd1 l1 hd l :
  ring h hd1 l1 → at_ ∈ hd1 :: l1 → node ∉ hd :: l →
  (∀ m, m ∈ hd1 :: l1 → m ∉ hd :: l) →
  node ≠ at_ → ring h hd l → ring (klist0_append node at_ h) hd l.
Proof.
  intros Hr1 Hat Hn Hdis Hne. apply ring_ext. intros m Hm.
  destruct (ring_closed _ _ _ _ Hr1 Hat) as [Hc _].
  pose proof (Hdis _ Hc). pose proof (Hdis _ Hat).
  apply node_eq; rewrite ?klist0_append_next, ?klist0_append_prev by done;
    rewrite !decide_False by congruence; done.
Qed.

Lemma klist0_prepend_other node at_ h hd1 l1 hd l :
  ring h hd1 l1 → at_ ∈ hd1 :: l1 → node ∉ hd :: l →
  (∀ m, m ∈ hd1 :: l1 → m ∉ hd :: l) →
  node ≠ at_ → ring h hd l → ring (klist0_prepend node at_ h) hd l.
Proof.
  intros Hr1 Hat Hn Hdis Hne. apply ring_ext. intros m Hm.
  destruct (ring_closed _ _ _ _ Hr1 Hat) as [_ Hc].
  pose proof (Hdis _ Hc). pose proof (Hdis _ Hat).
  apply node_eq; rewrite ?klist0_prepend_next, ?klist0_prepend_prev by done;
    rewrite !decide_False by congruence; done.
Qed.

Lemma klist0_unlink_other x h hd1 l1 hd l :
  ring h hd1 l1 → x ∈ l1 → (∀ m, m ∈ hd1 :: l1 → m ∉ hd :: l) →
  ring h hd l → ring (klist0_unlink x h) hd l.
Proof.
  intros Hr1 Hx Hdis. apply ring_ext. intros m Hm.
  assert (x ∈ hd1 :: l1) as Hx' by by right.
  destruct (ring_closed _ _ _ _ Hr1 Hx') as [Hc1 Hc2].
  pose proof (Hdis _ Hc1). pose proof (Hdis _ Hc2). pose proof (Hdis _ Hx').
  apply node_eq; rewrite ?klist0_unlink_next.
  - rewrite klist0_unlink_prev by by eapply ring_prev_ne. rewrite !decide_False by congruence; done.
  - rewrite !decide_False by congruence; done.
Qed.

(** ** The heap as a family of lists

    [rep h L]: every node is either the head of the well-formed list [L n]
    (a node linked nowhere heads the empty list), or a member of the list of
    exactly one head.  The operations of klist0.h act on [L] the way their
    names say. *)

Definition upd (L : N → list N) hd l : N → list N :=
  λ m, if decide (m = hd) then l else L m.

Definition is_head (L : N → list N) n : Prop := ∀ y, n ∉ L y.
Definition detached (L : N → list N) n : Prop := is_head L n ∧ L n = [].

Record rep (h : heap) (L : N → list N) : Prop := {
  rep_ring n : is_head L n → ring h n (L n);
  rep_uniq x y z : x ∈ L y → x ∈ L z → y = z;
  rep_leaf x y : x ∈ L y → L x = [];
  rep_total x : is_head L x ∨ ∃ y, x ∈ L y;
}.

Lemma upd_eq L hd l : upd L hd l hd = l.
Proof. unfold upd. by rewrite decide_True. Qed.
Lemma upd_ne L hd l m : m ≠ hd → upd L hd l m = L m.
Proof. intros. unfold upd. by rewrite decide_False. Qed.

Lemma rep_head_of h L x y : rep h L → x ∈ L y → is_head L y.
Proof. intros HR Hx z Hy. rewrite (rep_leaf _ _ HR y z) in Hx; set_solver. Qed.

Lemma rep_disjoint h L hd hd' m :
  rep h L → is_head L hd → is_head L hd' → hd ≠ hd' →
  m ∈ hd :: L hd → m ∉ hd' :: L hd'.
Proof.
  intros HR H1 H2 Hne [->|Hm]%elem_of_cons [->|Hm']%elem_of_cons; [done|..].
  - by apply (H1 hd').
  - by apply (H2 hd).
  - apply Hne. by eapply rep_uniq.
Qed.

Lemma rep_ext h h' L : rep h L → (∀ n, h' n = h n) → rep h' L.
Proof.
  intros [Hr Hu Hl Ht] E. constructor; [|done..]. intros n Hn. eapply ring_ext; [|by apply Hr].
  intros m _. by rewrite E.
Qed.

Lemma rep_detached h L n : rep h L → detached L n → h n = Node n n.
Proof.
  intros HR [Hh He]. destruct (rep_ring _ _ HR n Hh) as [Hs _]. rewrite He in Hs.
  destruct Hs as [Hn Hp]. destruct (h n). simpl in *. by subst.
Qed.

Lemma rep_init h L n : rep h L → detached L n → rep (KLIST0_INIT n h) L.
Proof.
  intros HR [Hh He]. constructor; [|apply HR..].
  intros m Hm. destruct (decide (m = n)) as [->|Hne].
  { rewrite He. apply KLIST0_INIT_ring. }
  eapply ring_ext, rep_ring; [|done..]. intros k Hk. unfold KLIST0_INIT.
  assert (k ≠ n).
  { intros ->. apply elem_of_cons in Hk as [->|Hk]; [done|]. by apply (Hh m). }
  by rewrite set_next_ne, set_prev_ne.
Qed.

(** What inserting the detached node [node] into the list of [hd] does to the
    family, whatever the position. *)
Lemma rep_insert h h' L hd node l' :
  rep h L → is_head L hd → detached L node → node ≠ hd →
  (∀ x, x ∈ l' ↔ x = node ∨ x ∈ L hd) →
  ring h' hd l' →
  (∀ m, is_head L m → m ≠ hd → m ≠ node → ring h' m (L m)) →
  rep h' (upd L hd l').
Proof.
  intros HR Hhd [Hnh Hne] Hneq Hl' Hr Hoth. constructor.
  - intros m Hm. destruct (decide (m = hd)) as [->|Hmh].
    { by rewrite upd_eq. }
    rewrite upd_ne by done. apply Hoth; [|done|].
    + intros y Hy. destruct (decide (y = hd)) as [->|].
      * apply (Hm hd). rewrite upd_eq. apply Hl'. by right.
      * apply (Hm y). by rewrite upd_ne.
    + intros ->. apply (Hm hd). rewrite upd_eq. apply Hl'. by left.
  - intros x y z. unfold upd. repeat case_decide; subst; [done|..|by eapply rep_uniq].
    + intros [->|Hx]%Hl' Hz; [by destruct (Hnh _ Hz)|]. by eapply rep_uniq.
    + intros Hy [->|Hx]%Hl'; [by destruct (Hnh _ Hy)|]. by eapply rep_uniq.
  - intros x y. unfold upd. repeat case_decide; subst.
    + intros [->|Hx]%Hl'; [done|]. by destruct (Hhd _ Hx).
    + intros [->|Hx]%Hl'; [done|]. by eapply rep_leaf.
    + intros Hx. by destruct (Hhd _ Hx).
    + by eapply rep_leaf.
  - intros x. destruct (decide (x = node)) as [->|Hx].
    { right. exists hd. rewrite upd_eq. apply Hl'. by left. }
    destruct (rep_total _ _ HR x) as [Hh|[y Hy]]; [left|right].
    + intros y. unfold upd. case_decide; [|apply Hh]. rewrite Hl'. intros [?|Hi]; [done|by apply (Hh hd)].
    + exists y. unfold upd. case_decide; [|done]. subst. apply Hl'. by right.
Qed.

Lemma rep_append h L hd node :
  rep h L → is_head L hd → detached L node → node ≠ hd →
  rep (klist0_append node hd h) (upd L hd (node :: L hd)).
Proof.
  intros HR Hhd Hn Hne. pose proof (rep_ring _ _ HR _ Hhd) as Hr.
  assert (node ∉ hd :: L hd) as Hnl.
  { intros [->|Hx]%elem_of_cons; [done|]. by destruct (proj1 Hn _ Hx). }
  eapply rep_insert; [done..| | |].
  - intros x. apply elem_of_cons.
  - by apply klist0_append_ring.
  - intros m Hm Hmh Hmn. eapply (klist0_append_other _ _ _ hd); [done|by left| | |done|].
    + intros [?|Hx]%elem_of_cons; [done|]. by destruct (proj1 Hn _ Hx).
    + intros k Hk. by apply (rep_disjoint h L hd m k).
    + by apply rep_ring.
Qed.

Lemma rep_prepend h L hd node :
  rep h L → is_head L hd → detached L node → node ≠ hd →
  rep (klist0_prepend node hd h) (upd L hd (L hd ++ [node])).
Proof.
  intros HR Hhd Hn Hne. pose proof (rep_ring _ _ HR _ Hhd) as Hr.
  assert (node ∉ hd :: L hd) as Hnl.
  { intros [->|Hx]%elem_of_cons; [done|]. by destruct (proj1 Hn _ Hx). }
  eapply rep_insert; [done..| | |].
  - intros x. rewrite elem_of_app, list_elem_of_singleton. tauto.
  - by apply klist0_prepend_ring.
  - intros m Hm Hmh Hmn. eapply (klist0_prepend_other _ _ _ hd); [done|by left| | |done|].
    + intros [?|Hx]%elem_of_cons; [done|]. by destruct (proj1 Hn _ Hx).
    + intros k Hk. by apply (rep_disjoint h L hd m k).
    + by apply rep_ring.
Qed.

(** Inserting before a member, as the timer queue does. *)
Lemma rep_prepend_before h L hd node l1 x l2 :
  rep h L → L hd = l1 ++ x :: l2 → detached L node → node ≠ hd →
  rep (klist0_prepend node x h) (upd L hd (l1 ++ node :: x :: l2)).
Proof.
  intros HR HL Hn Hne.
  assert (x ∈ L hd) as Hx by (rewrite HL; set_solver).
  pose proof (rep_head_of _ _ _ _ HR Hx) as Hhd.
  pose proof (rep_ring _ _ HR _ Hhd) as Hr.
  assert (node ∉ hd :: L hd) as Hnl.
  { intros [->|Hx']%elem_of_cons; [done|]. by destruct (proj1 Hn _ Hx'). }
  eapply rep_insert; [done..| | |].
  - intros y. rewrite HL. set_solver.
  - apply klist0_prepend_before; by rewrite <- HL.
  - intros m Hm Hmh Hmn. eapply (klist0_prepend_other _ _ _ hd); [done|by right| | | |].
    + intros [?|Hx']%elem_of_cons; [done|]. by destruct (proj1 Hn _ Hx').
    + intros k Hk. by apply (rep_disjoint h L hd m k).
    + intros ->. by destruct (proj1 Hn _ Hx).
    + by apply rep_ring.
Qed.

Lemma rep_unlink h L hd l1 x l2 :
  rep h L → L hd = l1 ++ x :: l2 →
  rep (klist0_unlink x h) (upd L hd (l1 ++ l2)).
Proof.
  intros HR HL.
  assert (x ∈ L hd) as Hx by (rewrite HL; set_solver).
  pose proof (rep_head_of _ _ _ _ HR Hx) as Hhd.
  pose proof (rep_ring _ _ HR _ Hhd) as Hr. rewrite HL in Hr.
  destruct (klist0_unlink_ring _ _ _ _ _ Hr) as [Hr1 Hr2].
  assert (∀ y, y ∈ l1 ++ l2 → y ∈ L hd) as Hsub by (rewrite HL; set_solver).
  constructor.
  - intros m Hm. destruct (decide (m = hd)) as [->|Hmh]; [by rewrite upd_eq|].
    rewrite upd_ne by done. destruct (decide (m = x)) as [->|Hmx].
    { by rewrite (rep_leaf _ _ HR _ _ Hx). }
    assert (is_head L m) as Hm'.
    { intros y Hy. destruct (decide (y = hd)) as [->|].
      - apply (Hm hd). rewrite upd_eq. rewrite HL in Hy. set_solver.
      - apply (Hm y). by rewrite upd_ne. }
    eapply (klist0_unlink_other _ _ hd); [by rewrite <- HL in Hr|done| |by apply rep_ring].
    intros k Hk. by apply (rep_disjoint h L hd m k).
  - intros a b c. unfold upd. repeat case_decide; subst; [done|..|by eapply rep_uniq].
    + intros Ha%Hsub Hc. by eapply rep_uniq.
    + intros Hb Ha%Hsub. by eapply rep_uniq.
  - intros a b. unfold upd. repeat case_decide; subst.
    + intros Ha%Hsub. by destruct (Hhd _ Ha).
    + intros Ha%Hsub. by eapply rep_leaf.
    + intros Ha. by destruct (Hhd _ Ha).
    + by eapply rep_leaf.
  - intros a. destruct (decide (a = x)) as [->|Hax].
    + left. destruct Hr as [_ Hnd]. rewrite NoDup_cons, NoDup_app, NoDup_cons in Hnd.
      intros y. unfold upd. case_decide; [set_solver|]. intros Hy.
      by pose proof (rep_uniq _ _ HR _ _ _ Hx Hy).
    + destruct (rep_total _ _ HR a) as [Hh|[y Hy]]; [left|right].
      * intros y. unfold upd. case_decide; [|apply Hh]. intros Ha%Hsub. by apply (Hh hd).
      * exists y. unfold upd. case_decide; [|done]. subst y. rewrite HL in Hy. set_solver.
Qed.

(** An unlinked node is linked nowhere. *)
Lemma rep_unlink_detached h L hd l1 x l2 :
  rep h L → L hd = l1 ++ x :: l2 → detached (upd L hd (l1 ++ l2)) x.
Proof.
  intros HR HL. assert (x ∈ L hd) as Hx by (rewrite HL; set_solver).
  pose proof (rep_head_of _ _ _ _ HR Hx) as Hhd.
  pose proof (rep_ring _ _ HR _ Hhd) as [_ Hd]. rewrite HL in Hd.
  rewrite NoDup_cons, NoDup_app, NoDup_cons in Hd. split.
  - intros y. unfold upd. case_decide; [set_solver|].
    intros Hy. by pose proof (rep_uniq _ _ HR _ _ _ Hx Hy).
  - rewrite upd_ne; [by eapply rep_leaf|]. set_solver.
Qed.

Lemma rep_empty_head h L hd :
  rep h L → is_head L hd → klist0_empty hd h = bool_decide (L hd = []).
Proof. intros HR Hh. by apply klist0_empty_ring, rep_ring. Qed.

(** A member of a list is not an empty list. *)
Lemma rep_empty_member h L x hd : rep h L → x ∈ L hd → klist0_empty x h = false.
Proof.
  intros HR Hx. pose proof (rep_ring _ _ HR _ (rep_head_of _ _ _ _ HR Hx)) as Hr.
  apply list_elem_of_split in Hx as (l1 & l2 & E). rewrite E in Hr. apply ring_rotate in Hr.
  rewrite (klist0_empty_ring _ _ _ Hr). apply bool_decide_eq_false. by destruct l2.
Qed.

Lemma rep_next h L hd : rep h L → is_head L hd → next (h hd) = default hd (head (L hd)).
Proof.
  intros HR Hh. destruct (rep_ring _ _ HR _ Hh) as [Hs _]. by destruct (L hd); destruct Hs.
Qed.

(** Following [next] inside a list. *)
Lemma rep_next_member h L hd l1 x l2 :
  rep h L → L hd = l1 ++ x :: l2 → next (h x) = default hd (head l2).
Proof.
  intros HR HL. assert (x ∈ L hd) as Hx by (rewrite HL; set_solver).
  destruct (rep_ring _ _ HR _ (rep_head_of _ _ _ _ HR Hx)) as [Hs _]. rewrite HL in Hs.
  apply seg_app in Hs as [_ Hs]. by destruct l2; destruct Hs.
Qed.

(** Moving a non-empty list to another head. *)
Lemma klist0_reparent_ring h from to l :
  ring h from l → l ≠ [] → to ∉ from :: l →
  ring (klist0_reparent from to h) to l ∧ ring (klist0_reparent from to h) from [].
Proof.
  intros Hr Hl Hto.
  pose proof (ring_last _ _ _ Hr) as Hlast. destruct Hr as [Hs Hd].
  apply not_elem_of_cons in Hto as [Htf Htl]. apply NoDup_cons in Hd as [Hfl Hd].
  destruct l as [|e l _] using rev_ind; [done|]. clear Hl.
  rewrite last_snoc in Hlast. simpl in Hlast.
  apply seg_app in Hs as [Hs [He _]].
  split; [|unfold klist0_reparent; apply KLIST0_INIT_ring].
  assert (next (h from) ∈ l ++ [e]) as Hfl' by (eapply seg_closed; [done|by left]).
  remember (next (h from)) as f eqn:Hf.
  assert (e ≠ to ∧ e ≠ from ∧ f ≠ to ∧ f ≠ from) as (? & ? & ? & ?).
  { split_and!; intros ->; set_solver. }
  remember (klist0_reparent from to h) as h' eqn:Hh'.
  assert (∀ m, m ≠ from →
    next (h' m) = if decide (m = e) then to
                  else if decide (m = to) then f else next (h m)) as Hnext.
  { intros m Hm. rewrite Hh'. unfold klist0_reparent, KLIST0_INIT.
    rewrite set_next_ne, set_prev_next by done. unfold set_next, set_prev.
    repeat (case_decide; simpl in *; try congruence). }
  assert (∀ m, m ≠ from →
    prev (h' m) = if decide (m = f) then to
                  else if decide (m = to) then e else prev (h m)) as Hprev.
  { intros m Hm. rewrite Hh'. unfold klist0_reparent, KLIST0_INIT.
    rewrite set_next_prev, set_prev_ne, set_next_prev by done. unfold set_prev.
    repeat (case_decide; simpl in *; try congruence). }
  split; [|by apply NoDup_cons].
  apply seg_app. simpl. rewrite (Hnext e), (Hprev to) by done.
  rewrite (decide_True (P := e = e)), (decide_False (P := to = f)), decide_True by done.
  split; [|done].
  destruct l as [|f' l]; simpl in *; [destruct Hs as [Hs _]|destruct Hs as (Hn & Hp & Hs)].
  - rewrite Hnext, Hprev by done. by repeat (case_decide; try congruence).
  - assert (f' = f) as -> by congruence.
    rewrite (Hnext to), (Hprev f) by done.
    rewrite (decide_False (P := to = e)), !decide_True by done. split_and!; [done..|].
    apply NoDup_cons in Hd as [Hfn Hd]. apply NoDup_app in Hd as (Hd & Hel & _).
    assert (∀ m, m ∈ f :: l ++ [e] → m ≠ from ∧ m ≠ to) as Hne.
    { intros m Hm. split; intros ->; [by apply Hfl|by apply Htl]. }
    eapply seg_ext, Hs; intros m Hm.
    + rewrite Hnext by (apply Hne; set_solver).
      rewrite !decide_False; [done|apply Hne; set_solver|].
      intros ->. apply elem_of_cons in Hm as [->|Hm]; [|set_solver].
      apply Hfn. set_solver.
    + rewrite Hprev by (apply Hne; set_solver).
      rewrite !decide_False; [done|apply Hne; set_solver|]. congruence.
Qed.

End klist.

Arguments klist0_node : clear implicits.
Arguments heap : clear implicits.

(** ** What klist0.h promises its users *)

(** C4: Over a heap whose nodes form well-formed lists, the operations of
    klist0.h are the list operations their comments describe: a
    [klist0_for_each] loop visits the members once each and stops,
    [klist0_empty] tests emptiness, [klist0_append] adds a node in front,
    [klist0_prepend] at the end, and [klist0_unlink] removes exactly the given
    node and leaves it linked nowhere; every other list of the heap is
    unchanged. *)
Theorem klist0_refines_lists {N} `{!EqDecision N} (h : heap N) (L : N → list N) (hd : N) :
  rep h L → is_head L hd →
  (∀ fuel, (length (L hd) < fuel)%nat → klist0_for_each fuel h hd = Some (L hd)) ∧
  klist0_empty hd h = bool_decide (L hd = []) ∧
  (∀ node, detached L node → node ≠ hd →
     rep (klist0_append node hd h) (upd L hd (node :: L hd)) ∧
     rep (klist0_prepend node hd h) (upd L hd (L hd ++ [node]))) ∧
  (∀ l1 x l2, L hd = l1 ++ x :: l2 →
     rep (klist0_unlink x h) (upd L hd (l1 ++ l2)) ∧
     detached (upd L hd (l1 ++ l2)) x).
Proof.
  intros HR Hhd. pose proof (rep_ring _ _ HR _ Hhd) as Hr. split_and!.
  - intros. by apply klist0_for_each_ring.
  - by apply klist0_empty_ring.
  - intros. split; [by apply rep_append|by apply rep_prepend].
  - intros. split; [by apply rep_unlink|by eapply rep_unlink_detached].
Qed.

(** A heap of nodes that are all linked nowhere. *)
Definition empty_heap {N} : heap N := λ n, Node n n.

Lemma empty_heap_rep {N} `{!EqDecision N} : rep (empty_heap (N := N)) (λ _, []).
Proof.
  constructor; [|set_solver..|left; intros y; apply not_elem_of_nil].
  intros n _. split; [done|apply NoDup_singleton].
Qed.

Lemma klist0_refines_lists_witness :
  klist0_for_each 1 (empty_heap (N := nat)) 0%nat = Some [] ∧
  rep (klist0_append 1%nat 0%nat empty_heap) (upd (λ _, []) 0%nat [1%nat]).
Proof.
  destruct (klist0_refines_lists empty_heap (λ _, []) 0%nat) as (Hf & _ & Ha & _).
  - apply empty_heap_rep.
  - intros y. apply not_elem_of_nil.
  - split; [apply Hf; simpl; lia|].
    apply Ha; [split; [intros y; apply not_elem_of_nil|reflexivity]|lia].
Defined.

(** [klist0_reparent] moves a non-empty list, in order, to a head that is
    linked elsewhere, and leaves the old head an empty list. *)
Theorem klist0_reparent_moves {N} `{!EqDecision N} (h : heap N) from to l :
  ring h from l → l ≠ [] → to ∉ from :: l →
  ring (klist0_reparent from to h) to l ∧ ring (klist0_reparent from to h) from [].
Proof. apply klist0_reparent_ring. Qed.

Lemma klist0_reparent_moves_witness :
  ring (klist0_reparent 0%nat 2%nat (klist0_append 1%nat 0%nat empty_heap)) 2%nat [1%nat].
Proof.
  apply (klist0_reparent_moves (klist0_append 1%nat 0%nat empty_heap) 0%nat 2%nat [1%nat]).
  - split; [vm_compute; tauto|]. apply NoDup_cons; split; [set_solver|apply NoDup_singleton].
  - discriminate.
  - set_solver.
Defined.
