(* ===== verification/Bitmap.v ===== *)
(** * Bitmaps (include/bitmap.h, kernel/lib/bitmap.c)

    A bitmap is an array of 32-bit words ([unsigned long] on i386); [w i] is
    the word at index [i] from the pointer the C code is given, in range of
    the array or not, so a store past the array is a visible change of [w].
    [bit w i] is the i-th bit of the bitmap. *)

From S2P Require Import Prelude.

Definition words := Z → Z.

Definition wset (w : words) (i v : Z) : words := λ j, if decide (j = i) then v else w j.

(* include/bitmap.h:42-43 BITS_PER_LONG *)
Definition BITS_PER_LONG : Z := 32.
Definition LONG_MASK : Z := BITS_PER_LONG - 1.

(* include/bitmap.h:45-49 BITMAP_SIZE *)
Definition BITMAP_SIZE (nbits : Z) : Z :=
  Z.land (u32 (nbits + LONG_MASK)) (u32 (Z.lnot LONG_MASK)) / 8.

Definition ULONG_MAX : Z := 2 ^ 32 - 1.

(** C leaves a shift by 32 or more undefined; the i386 shift instructions use
    the low five bits of the count. *)
Definition shl (x n : Z) : Z := u32 (Z.shiftl x (n `mod` 32)).
Definition shr (x n : Z) : Z := Z.shiftr x (n `mod` 32).

(* include/bitmap.h:54-64 bitmap_zero *)
Definition bitmap_zero (dst : words) (bits : Z) : words :=
  let dst : words :=
    if decide (bits / BITS_PER_LONG ≠ 0)
    then (* memory_set(dst, 0, (bits & ~31) / 8) *)
      λ i, if decide (0 ≤ i < bits / BITS_PER_LONG) then 0 else dst i
    else dst in
  wset dst 0 (Z.land (dst 0) (shl ULONG_MAX (bits `mod` BITS_PER_LONG))).

(** The loop of [bitmap_fill] from the word [p] on. *)
Fixpoint fill_words (n : nat) (dst : words) (p bits : Z) : words * Z * Z :=
  match n with
  | O => (dst, p, bits)
  | S n => if decide (BITS_PER_LONG ≤ bits)
           then fill_words n (wset dst p ULONG_MAX) (p + 1) (bits - BITS_PER_LONG)
           else (dst, p, bits)
  end.

(* include/bitmap.h:66-76 bitmap_fill *)
Definition bitmap_fill (dst : words) (bits : Z) : words :=
  let '(dst, p, bits) := fill_words (Z.to_nat bits) dst 0 bits in
  wset dst p (Z.lor (dst p) (shr ULONG_MAX (u32 (bits - BITS_PER_LONG)))).

(* include/bitmap.h:78-84 bitmap_bit_set *)
Definition bitmap_bit_set (dst : words) (bit : Z) : words :=
  wset dst (bit / BITS_PER_LONG)
    (Z.lor (dst (bit / BITS_PER_LONG)) (shl 1 (bit `mod` BITS_PER_LONG))).

(* include/bitmap.h:86-92 bitmap_bit_clear *)
Definition bitmap_bit_clear (dst : words) (bit : Z) : words :=
  wset dst (bit / BITS_PER_LONG)
    (Z.land (dst (bit / BITS_PER_LONG)) (u32 (Z.lnot (shl 1 (bit `mod` BITS_PER_LONG))))).

(* include/bitmap.h:94-100 bitmap_bit_get *)
Definition bitmap_bit_get (dst : words) (bit : Z) : Z :=
  s32 (Z.land (dst (bit / BITS_PER_LONG)) (shl 1 (bit `mod` BITS_PER_LONG))).

(** The common loop of the two seek functions: [bit] counts up to [limit],
    [tmp] is the position inside the word [p]; the loop runs [n] more
    times. *)
Fixpoint seek_loop (want : bool) (n : nat) (dst : words) (bit tmp p : Z) : Z :=
  match n with
  | O => -1
  | S n =>
      let '(tmp, p) := if decide (tmp = BITS_PER_LONG) then (0, p + 1) else (tmp, p) in
      if Bool.eqb (bool_decide (Z.land (dst p) (shl 1 tmp) ≠ 0)) want then bit
      else seek_loop want n dst (bit + 1) (tmp + 1) p
  end.

(* kernel/lib/bitmap.c:26-46 bitmap_seek_set *)
Definition bitmap_seek_set (dst : words) (limit : Z) : Z :=
  seek_loop true (Z.to_nat limit) dst 0 0 0.

(* kernel/lib/bitmap.c:48-66 bitmap_seek_unset *)
Definition bitmap_seek_unset (dst : words) (limit : Z) : Z :=
  seek_loop false (Z.to_nat limit) dst 0 0 0.

(** The loops of [bitmap_all_set] and [bitmap_all_unset]. *)
Fixpoint all_set_loop (n : nat) (dst : words) (p limit : Z) : bool :=
  match n with
  | S n =>
      if decide (BITS_PER_LONG ≤ limit) then
        if decide (dst p ≠ ULONG_MAX) then false
        else all_set_loop n dst (p + 1) (limit - BITS_PER_LONG)
      else if decide (limit = 0) then true
      else bool_decide (Z.land (u32 (Z.lnot (dst p)))
                               (shr ULONG_MAX (BITS_PER_LONG - limit)) = 0)
  | O => true
  end.
Fixpoint all_unset_loop (n : nat) (dst : words) (p limit : Z) : bool :=
  match n with
  | S n =>
      if decide (BITS_PER_LONG ≤ limit) then
        if decide (dst p ≠ 0) then false
        else all_unset_loop n dst (p + 1) (limit - BITS_PER_LONG)
      else if decide (limit = 0) then true
      else bool_decide (Z.land (dst p) (shr ULONG_MAX (BITS_PER_LONG - limit)) = 0)
  | O => true
  end.

(* kernel/lib/bitmap.c:68-81 bitmap_all_set *)
Definition bitmap_all_set (dst : words) (limit : Z) : bool :=
  all_set_loop (S (Z.to_nat limit)) dst 0 limit.

(* kernel/lib/bitmap.c:84-96 bitmap_all_unset *)
Definition bitmap_all_unset (dst : words) (limit : Z) : bool :=
  all_unset_loop (S (Z.to_nat limit)) dst 0 limit.

(* kernel/lib/bitmap.c:98-104 bitmap_print_ulong *)
Definition bitmap_print_ulong (data nbits : Z) : list Z :=
  ((λ i, if decide (Z.land data (shl 1 i) ≠ 0) then 49 else 48) <$> seqZ 0 nbits) ++ [32].

(** The characters [bitmap_print] prints, word by word. *)
Fixpoint print_loop (n : nat) (dst : words) (p bits : Z) : list Z :=
  match n with
  | S n => if decide (BITS_PER_LONG ≤ bits)
           then bitmap_print_ulong (dst p) BITS_PER_LONG
                  ++ print_loop n dst (p + 1) (bits - BITS_PER_LONG)
           else bitmap_print_ulong (dst p) bits
  | O => []
  end.

(* kernel/lib/bitmap.c:106-117 bitmap_print *)
Definition bitmap_print (dst : words) (bits : Z) : list Z :=
  print_loop (S (Z.to_nat bits)) dst 0 bits ++ [10].

(** ** Bits of a bitmap *)

Definition bit (w : words) (i : Z) : bool :=
  Z.testbit (w (i / BITS_PER_LONG)) (i `mod` BITS_PER_LONG).

Definition words_ok (w : words) : Prop := ∀ i, is_u32 (w i).

Lemma shl1_pow2 n : 0 ≤ n < 32 → shl 1 n = 2 ^ n.
Proof.
  intros. unfold shl. rewrite (Z.mod_small n) by lia. rewrite Z.shiftl_1_l.
  apply Z.mod_small. split; [lia|]. apply Z.pow_lt_mono_r; lia.
Qed.

Lemma land_shl1 x n : 0 ≤ n < 32 → bool_decide (Z.land x (shl 1 n) ≠ 0) = Z.testbit x n.
Proof.
  intros. rewrite shl1_pow2, land_pow2 by lia.
  assert (2 ^ n ≠ 0) by (apply Z.pow_nonzero; lia).
  destruct (Z.testbit x n); [by rewrite bool_decide_true|by rewrite bool_decide_false by tauto].
Qed.

Lemma u32_testbit x i : 0 ≤ i < 32 → Z.testbit (u32 x) i = Z.testbit x i.
Proof. intros. apply Z.mod_pow2_bits_low. lia. Qed.

Lemma is_u32_high x i : is_u32 x → 32 ≤ i → Z.testbit x i = false.
Proof. intros Hx Hi. rewrite <- (u32_small x) by done. apply Z.mod_pow2_bits_high. lia. Qed.

Lemma shr_max_testbit k i :
  0 ≤ k < 32 → 0 ≤ i → Z.testbit (shr ULONG_MAX k) i = bool_decide (i < 32 - k).
Proof.
  intros. unfold shr. rewrite (Z.mod_small k), Z.shiftr_spec by lia.
  change ULONG_MAX with (Z.ones 32).
  case_bool_decide; [rewrite Z.ones_spec_low by lia; done|].
  by rewrite Z.ones_spec_high by lia.
Qed.

Lemma shl_max_testbit k i :
  0 ≤ k < 32 → 0 ≤ i < 32 → Z.testbit (shl ULONG_MAX k) i = bool_decide (k ≤ i).
Proof.
  intros. unfold shl. rewrite (Z.mod_small k), u32_testbit, Z.shiftl_spec by lia.
  change ULONG_MAX with (Z.ones 32). case_bool_decide.
  - by rewrite Z.ones_spec_low by lia.
  - by rewrite Z.testbit_neg_r by lia.
Qed.

Lemma bit_wset w p v i :
  bit (wset w p v) i =
    if decide (i / 32 = p) then Z.testbit v (i `mod` 32) else bit w i.
Proof. unfold bit, wset, BITS_PER_LONG. by case_decide. Qed.

(** Two positions are the same bit exactly when word and offset agree. *)
Lemma div_mod_inj i j : i / 32 = j / 32 → i `mod` 32 = j `mod` 32 → i = j.
Proof.
  intros. rewrite (Z.div_mod i 32), (Z.div_mod j 32) by lia. congruence.
Qed.

Lemma bit_bit_set w i j :
  0 ≤ i → bit (bitmap_bit_set w i) j = bool_decide (i = j) || bit w j.
Proof.
  intros. unfold bitmap_bit_set. rewrite bit_wset. unfold BITS_PER_LONG in *.
  pose proof (Z.mod_pos_bound i 32). pose proof (Z.mod_pos_bound j 32).
  case_decide as Hd.
  - rewrite Z.lor_spec, shl1_pow2, Z.pow2_bits_eqb by lia.
    unfold bit, BITS_PER_LONG. rewrite Hd, orb_comm. f_equal.
    rewrite Z.eqb_sym. case_bool_decide; subst; [apply Z.eqb_refl|].
    apply Z.eqb_neq. intros Hm. by apply H2, div_mod_inj.
  - rewrite bool_decide_false; [done|]. by intros ->.
Qed.

Lemma bit_bit_clear w i j :
  0 ≤ i → bit (bitmap_bit_clear w i) j = negb (bool_decide (i = j)) && bit w j.
Proof.
  intros. unfold bitmap_bit_clear. rewrite bit_wset. unfold BITS_PER_LONG in *.
  pose proof (Z.mod_pos_bound i 32). pose proof (Z.mod_pos_bound j 32).
  case_decide as Hd.
  - rewrite Z.land_spec, u32_testbit, Z.lnot_spec, shl1_pow2, Z.pow2_bits_eqb by lia.
    unfold bit, BITS_PER_LONG. rewrite Hd, andb_comm. do 2 f_equal.
    rewrite Z.eqb_sym. case_bool_decide; subst; [apply Z.eqb_refl|].
    apply Z.eqb_neq. intros Hm. by apply H2, div_mod_inj.
  - rewrite bool_decide_false; [done|]. by intros ->.
Qed.

(** ** Searching *)

Lemma bit_word w p i : 0 ≤ i < 32 → bit w (32 * p + i) = Z.testbit (w p) i.
Proof.
  intros. unfold bit, BITS_PER_LONG. f_equal; [f_equal|].
  - symmetry. apply Z.div_unique with i; lia.
  - symmetry. apply Z.mod_unique with p; lia.
Qed.

Lemma seek_loop_spec want w n b t p :
  0 ≤ p → 0 ≤ t ≤ 32 → b = 32 * p + t →
  let r := seek_loop want n w b t p in
  (b ≤ r < b + Z.of_nat n ∧ bit w r = want ∧ ∀ j, b ≤ j < r → bit w j ≠ want) ∨
  (r = -1 ∧ ∀ j, b ≤ j < b + Z.of_nat n → bit w j ≠ want).
Proof.
  revert b t p. induction n as [|n IH]; intros b t p Hp Ht Hb; cbn -[Z.of_nat].
  { right. split; [done|lia]. }
  assert (∃ t' p', (if decide (t = BITS_PER_LONG) then (0, p + 1) else (t, p)) = (t', p')
            ∧ 0 ≤ p' ∧ 0 ≤ t' < 32 ∧ b = 32 * p' + t') as (t' & p' & -> & ? & ? & Hb').
  { unfold BITS_PER_LONG. case_decide; eexists _, _; (split; [done|lia]). }
  rewrite land_shl1 by lia.
  assert (Z.testbit (w p') t' = bit w b) as ->.
  { rewrite Hb'. by rewrite bit_word. }
  destruct (Bool.eqb (bit w b) want) eqn:E.
  - left. apply Bool.eqb_prop in E. split_and!; [lia|lia|done|lia].
  - apply Bool.eqb_false_iff in E.
    destruct (IH (b + 1) (t' + 1) p' ltac:(lia) ltac:(lia) ltac:(lia))
      as [(Hr & Hbit & Hall)|[Hr Hall]].
    + left. split_and!; [lia|lia|done|]. intros j Hj.
      destruct (decide (j = b)) as [->|]; [done|apply Hall; lia].
    + right. split; [done|]. intros j Hj.
      destruct (decide (j = b)) as [->|]; [done|apply Hall; lia].
Qed.

Lemma bitmap_seek_unset_spec w limit :
  (0 ≤ bitmap_seek_unset w limit < limit ∧ bit w (bitmap_seek_unset w limit) = false ∧
     ∀ j, 0 ≤ j < bitmap_seek_unset w limit → bit w j = true) ∨
  (bitmap_seek_unset w limit = -1 ∧ ∀ j, 0 ≤ j < limit → bit w j = true).
Proof.
  destruct (seek_loop_spec false w (Z.to_nat limit) 0 0 0)
    as [(Hr & Hb & Ha)|[Hr Ha]]; try lia.
  - left. split_and!; [apply Hr|unfold bitmap_seek_unset; lia|done|].
    intros j Hj. apply not_false_is_true. by apply Ha.
  - right. split; [done|]. intros j Hj. apply not_false_is_true. apply Ha. lia.
Qed.

(** ** Whole-bitmap tests *)

Lemma testbit_all_ones x :
  is_u32 x → x = ULONG_MAX ↔ ∀ i, 0 ≤ i < 32 → Z.testbit x i = true.
Proof.
  intros Hx. change ULONG_MAX with (Z.ones 32). split.
  - intros -> i Hi. by apply Z.ones_spec_low.
  - intros Ha. apply Z.bits_inj'. intros i Hi. destruct (decide (i < 32)).
    + rewrite Ha by lia. by rewrite Z.ones_spec_low by lia.
    + rewrite is_u32_high by (done || lia). by rewrite Z.ones_spec_high by lia.
Qed.

Lemma testbit_zero x : is_u32 x → x = 0 ↔ ∀ i, 0 ≤ i < 32 → Z.testbit x i = false.
Proof.
  intros Hx. split; [intros ->; intros; apply Z.bits_0|].
  intros Ha. apply Z.bits_inj'. intros i Hi. rewrite Z.bits_0.
  destruct (decide (i < 32)); [apply Ha; lia|apply is_u32_high; [done|lia]].
Qed.

Lemma land_mask_zero x k :
  0 < k < 32 → Z.land x (shr ULONG_MAX (32 - k)) = 0 ↔ ∀ i, 0 ≤ i < k → Z.testbit x i = false.
Proof.
  intros Hk. split.
  - intros H i Hi. apply (f_equal (λ z, Z.testbit z i)) in H.
    rewrite Z.land_spec, shr_max_testbit, Z.bits_0 in H by lia.
    rewrite bool_decide_true in H by lia. by rewrite andb_true_r in H.
  - intros Ha. apply Z.bits_inj'. intros i Hi.
    rewrite Z.land_spec, shr_max_testbit, Z.bits_0 by lia.
    case_bool_decide; [rewrite Ha by lia|]; by rewrite ?andb_false_r.
Qed.

Lemma bit_range_split w p limit v :
  32 ≤ limit →
  (∀ i, 32 * p ≤ i < 32 * p + limit → bit w i = v) ↔
  (∀ i, 0 ≤ i < 32 → Z.testbit (w p) i = v) ∧
  (∀ i, 32 * (p + 1) ≤ i < 32 * (p + 1) + (limit - 32) → bit w i = v).
Proof.
  intros. split.
  - intros Ha. split; intros i Hi; [rewrite <- bit_word by lia|]; apply Ha; lia.
  - intros [Ha Hb] i Hi. destruct (decide (i < 32 * (p + 1))); [|apply Hb; lia].
    replace i with (32 * p + (i - 32 * p)) by lia. rewrite bit_word by lia. apply Ha; lia.
Qed.

Lemma bit_range_tail w p limit v :
  0 ≤ limit < 32 →
  (∀ i, 32 * p ≤ i < 32 * p + limit → bit w i = v) ↔
  (∀ i, 0 ≤ i < limit → Z.testbit (w p) i = v).
Proof.
  intros. split; intros Ha i Hi.
  - rewrite <- bit_word by lia. apply Ha; lia.
  - replace i with (32 * p + (i - 32 * p)) by lia. rewrite bit_word by lia. apply Ha; lia.
Qed.

Lemma all_set_loop_spec w n p limit :
  words_ok w → 0 ≤ limit → (Z.to_nat limit < n)%nat →
  all_set_loop n w p limit = true ↔ ∀ i, 32 * p ≤ i < 32 * p + limit → bit w i = true.
Proof.
  intros Hw. revert p limit. induction n as [|n IH]; intros p limit Hl Hn; [lia|].
  cbn [all_set_loop]. unfold BITS_PER_LONG in *. case_decide.
  - rewrite bit_range_split, <- testbit_all_ones, <- IH by (done || lia).
    case_decide; intuition congruence.
  - rewrite bit_range_tail by lia. case_decide; [subst; split; [lia|done]|].
    rewrite bool_decide_eq_true, land_mask_zero by lia. split; intros Ha i Hi.
    + specialize (Ha i Hi). rewrite u32_testbit, Z.lnot_spec in Ha by lia.
      by apply negb_false_iff in Ha.
    + rewrite u32_testbit, Z.lnot_spec, Ha by lia. done.
Qed.

Lemma all_unset_loop_spec w n p limit :
  words_ok w → 0 ≤ limit → (Z.to_nat limit < n)%nat →
  all_unset_loop n w p limit = true ↔ ∀ i, 32 * p ≤ i < 32 * p + limit → bit w i = false.
Proof.
  intros Hw. revert p limit. induction n as [|n IH]; intros p limit Hl Hn; [lia|].
  cbn [all_unset_loop]. unfold BITS_PER_LONG in *. case_decide.
  - rewrite bit_range_split, <- testbit_zero, <- IH by (done || lia).
    case_decide; intuition congruence.
  - rewrite bit_range_tail by lia. case_decide; [subst; split; [lia|done]|].
    by rewrite bool_decide_eq_true, land_mask_zero by lia.
Qed.

(** ** Filling and clearing a prefix *)

Lemma bit_bitmap_zero w bits i :
  0 ≤ bits → 0 ≤ i →
  bit (bitmap_zero w bits) i =
    if decide (i < 32 * (bits / 32)) then false
    else if decide (bits < 32 ∧ i < bits) then false else bit w i.
Proof.
  intros Hb Hi. unfold bitmap_zero, BITS_PER_LONG.
  pose proof (Z.mod_pos_bound i 32 ltac:(lia)).
  pose proof (Z.mod_pos_bound bits 32 ltac:(lia)).
  pose proof (Z.div_mod i 32 ltac:(lia)). pose proof (Z.div_mod bits 32 ltac:(lia)).
  rewrite bit_wset. case_decide as Hz.
  - rewrite Z.land_spec, shl_max_testbit by lia.
    unfold bit, BITS_PER_LONG. rewrite Hz.
    repeat case_decide; try lia; rewrite ?Z.bits_0; try done; case_bool_decide; try lia;
      by rewrite ?andb_true_r, ?andb_false_r.
  - unfold bit, BITS_PER_LONG.
    repeat case_decide; try lia; by rewrite ?Z.bits_0.
Qed.

Lemma fill_words_spec n w p bits :
  0 ≤ p → 0 ≤ bits → (Z.to_nat bits ≤ n)%nat →
  ∃ w', fill_words n w p bits = (w', p + bits / 32, bits `mod` 32) ∧
    ∀ q, w' q = if decide (p ≤ q < p + bits / 32) then ULONG_MAX else w q.
Proof.
  revert w p bits. induction n as [|n IH]; intros w p bits Hp Hb Hn; cbn [fill_words].
  - assert (bits = 0) as -> by lia. exists w. split; [by rewrite Z.add_0_r|].
    intros q. rewrite decide_False; [done|]. change (0 / 32) with 0. lia.
  - unfold BITS_PER_LONG. case_decide.
    + destruct (IH (wset w p ULONG_MAX) (p + 1) (bits - 32)) as (w' & -> & Hw'); try lia.
      pose proof (Z.div_mod bits 32 ltac:(lia)). pose proof (Z.mod_pos_bound bits 32 ltac:(lia)).
      assert ((bits - 32) / 32 = bits / 32 - 1) as Hd.
      { symmetry. apply Z.div_unique with (bits `mod` 32); lia. }
      assert ((bits - 32) `mod` 32 = bits `mod` 32) as Hm.
      { symmetry. apply Z.mod_unique with (bits / 32 - 1); lia. }
      exists w'. split; [rewrite Hd, Hm; do 2 f_equal; lia|].
      intros q. rewrite Hw', Hd. unfold wset. repeat case_decide; (done || lia).
    + exists w. rewrite Z.div_small, Z.mod_small, Z.add_0_r by lia. split; [done|].
      intros q. by rewrite decide_False by lia.
Qed.

Lemma bit_bitmap_fill w bits i :
  0 ≤ bits → 0 ≤ i →
  bit (bitmap_fill w bits) i =
    bool_decide (i < 32 * (bits / 32) + (32 - bits `mod` 32)) || bit w i.
Proof.
  intros Hb Hi. unfold bitmap_fill.
  destruct (fill_words_spec (Z.to_nat bits) w 0 bits) as (w' & -> & Hw'); try lia.
  pose proof (Z.mod_pos_bound i 32 ltac:(lia)).
  pose proof (Z.mod_pos_bound bits 32 ltac:(lia)).
  pose proof (Z.div_mod i 32 ltac:(lia)). pose proof (Z.div_mod bits 32 ltac:(lia)).
  rewrite bit_wset. rewrite Z.add_0_l in *. unfold BITS_PER_LONG.
  assert (u32 (bits `mod` 32 - 32) `mod` 32 = bits `mod` 32) as Hk.
  { unfold u32. replace (2 ^ 32) with (32 * 2 ^ 27) by lia.
    rewrite Z.rem_mul_r by lia. rewrite (Z.mul_comm 32 (_ `mod` _)), Z.mod_add by lia.
    rewrite Z.mod_mod by lia. replace (bits `mod` 32 - 32) with (bits `mod` 32 + (-1) * 32) by lia.
    rewrite Z.mod_add, Z.mod_mod by lia. done. }
  assert (shr ULONG_MAX (u32 (bits `mod` 32 - 32)) = shr ULONG_MAX (bits `mod` 32)) as ->.
  { unfold shr. rewrite Hk. by rewrite Z.mod_mod by lia. }
  case_decide as Hz.
  - rewrite Z.lor_spec, shr_max_testbit by lia. rewrite Hw', decide_False by lia.
    unfold bit, BITS_PER_LONG. rewrite Hz, orb_comm. f_equal.
    apply bool_decide_ext. lia.
  - unfold bit, BITS_PER_LONG. rewrite Hw'. case_decide.
    + rewrite bool_decide_true by lia. change ULONG_MAX with (Z.ones 32).
      rewrite Z.ones_spec_low by lia. done.
    + rewrite bool_decide_false by lia. done.
Qed.

Lemma bit_get_nz w i :
  words_ok w → 0 ≤ i → bitmap_bit_get w i ≠ 0 ↔ bit w i = true.
Proof.
  intros Hw Hi. unfold bitmap_bit_get, bit. pose proof (Z.mod_pos_bound i 32 ltac:(lia)).
  unfold BITS_PER_LONG. rewrite shl1_pow2, land_pow2 by lia.
  destruct (Z.testbit _ _); [|done]. split; [done|]. intros _.
  assert (0 < 2 ^ (i `mod` 32)) by (apply Z.pow_pos_nonneg; lia).
  assert (2 ^ (i `mod` 32) ≤ 2 ^ 31) by (apply Z.pow_le_mono_r; lia).
  unfold s32. destruct (decide (2 ^ (i `mod` 32) = 2 ^ 31)) as [->|]; [done|].
  rewrite Z.mod_small; lia.
Qed.

(** ** Properties *)

(** taking the bit [bitmap_seek_unset] answers is an allocation: it is the
    lowest clear bit below the limit, or -1 when every bit is set; setting it
    changes that bit only, and clearing it again restores every bit. *)
Theorem bitmap_alloc_free w limit :
  let b := bitmap_seek_unset w limit in
  (b = -1 ∧ ∀ j, 0 ≤ j < limit → bit w j = true) ∨
  (0 ≤ b < limit ∧ bit w b = false ∧ (∀ j, 0 ≤ j < b → bit w j = true) ∧
   (∀ j, bit (bitmap_bit_set w b) j = bool_decide (b = j) || bit w j) ∧
   (∀ j, bit (bitmap_bit_clear (bitmap_bit_set w b) b) j = bit w j)).
Proof.
  intros b. destruct (bitmap_seek_unset_spec w limit) as [(Hr & Hb & Ha)|?]; [right|by left].
  fold b in Hr, Hb, Ha. split_and!; [lia..|done|done| |].
  - intros j. apply bit_bit_set. lia.
  - intros j. rewrite bit_bit_clear, bit_bit_set by lia. case_bool_decide; [by subst|done].
Qed.

(** [bitmap_all_set] and [bitmap_all_unset] answer exactly whether every bit
    below the limit is set, or clear, the redundant bits of the last word
    ignored; [bitmap_bit_get] is non-zero exactly for a set bit. *)
Theorem bitmap_tests_exact w limit :
  words_ok w → 0 ≤ limit →
  (bitmap_all_set w limit = true ↔ ∀ i, 0 ≤ i < limit → bit w i = true) ∧
  (bitmap_all_unset w limit = true ↔ ∀ i, 0 ≤ i < limit → bit w i = false) ∧
  (∀ i, 0 ≤ i → bitmap_bit_get w i ≠ 0 ↔ bit w i = true).
Proof.
  intros Hw Hl. split_and!.
  - unfold bitmap_all_set. rewrite all_set_loop_spec by (done || lia). done.
  - unfold bitmap_all_unset. rewrite all_unset_loop_spec by (done || lia). done.
  - intros. by apply bit_get_nz.
Qed.

Lemma bitmap_tests_exact_witness :
  bitmap_all_set (λ _, ULONG_MAX) 40 = true ∧ bitmap_all_unset (λ _, ULONG_MAX) 40 = false.
Proof.
  destruct (bitmap_tests_exact (λ _, ULONG_MAX) 40) as (H1 & _ & _); [done|lia|].
  split; [|done]. apply H1. intros i Hi. unfold bit, BITS_PER_LONG.
  change ULONG_MAX with (Z.ones 32). apply Z.ones_spec_low. apply Z.mod_pos_bound. lia.
Defined.

(** what the two prefix operations do to every bit.  [bitmap_fill w bits]
    sets the bits below 32 * (bits / 32) + (32 - bits mod 32), which is [bits]
    only when bits mod 32 is 16, and past the end of the bitmap when 32 divides
    [bits]; [bitmap_zero w bits] clears the whole words below [bits] and leaves
    the remaining ones alone unless there is a single word. *)
Theorem bitmap_prefix_ops_exact w bits i :
  0 ≤ bits → 0 ≤ i →
  bit (bitmap_fill w bits) i =
    bool_decide (i < 32 * (bits / 32) + (32 - bits `mod` 32)) || bit w i ∧
  bit (bitmap_zero w bits) i =
    (if decide (i < 32 * (bits / 32)) then false
     else if decide (bits < 32 ∧ i < bits) then false else bit w i).
Proof. intros. by rewrite bit_bitmap_fill, bit_bitmap_zero. Qed.

Lemma bitmap_prefix_ops_exact_witness :
  bit (bitmap_fill (λ _, 0) 64) 95 = true ∧ bit (bitmap_fill (λ _, 0) 40) 39 = true ∧
  bit (bitmap_fill (λ _, 0) 60) 36 = false ∧ bit (bitmap_zero (λ _, ULONG_MAX) 40) 33 = true.
Proof.
  destruct (bitmap_prefix_ops_exact (λ _, 0) 64 95) as [H1 _]; [lia..|].
  destruct (bitmap_prefix_ops_exact (λ _, ULONG_MAX) 40 33) as [_ H2]; [lia..|].
  by rewrite H1, H2.
Defined.
