(* ===== verification/Klib.v ===== *)
(** * Kernel library (include/lib.h, kernel/lib/klib.c)

    Memory is a function from addresses to bytes (0 to 255).  Strings are
    NUL-terminated; [cstr m p s] says that the bytes [s] followed by a NUL are
    stored at [p].  A loop that only stops at a byte it meets in memory takes
    fuel and answers [Hang] when the fuel runs out; the theorems give the fuel
    that is enough.  Addresses do not wrap around in this model. *)

From S2P Require Import Prelude.

Definition memory := Z → Z.

Definition mset (m : memory) (a v : Z) : memory := λ b, if decide (b = a) then v else m b.

(** A plain [char]: the kernel is built with -funsigned-char (tools/vars.mk). *)
Definition ldc (m : memory) (a : Z) : Z := u8 (m a).

Definition c_space : Z := 32.
Definition c_plus : Z := 43.
Definition c_minus : Z := 45.
Definition c_slash : Z := 47.
Definition c_0 : Z := 48.
Definition c_9 : Z := 57.
Definition c_A : Z := 65.
Definition c_X : Z := 88.
Definition c_Z : Z := 90.
Definition c_a : Z := 97.
Definition c_x : Z := 120.

(** ** Bytes *)

(** [memory_set] stores the bytes from the last one down. *)
Fixpoint set_loop (m : memory) (s c : Z) (t : nat) : memory :=
  match t with
  | O => m
  | S t => set_loop (mset m (s + Z.of_nat t) (u8 c)) s c t
  end.

(* kernel/lib/klib.c:27-34 memory_set *)
Definition memory_set (s c : Z) (n : nat) (m : memory) : memory := set_loop m s c n.

Fixpoint copy_up (m : memory) (dest src i : Z) (n : nat) : memory :=
  match n with
  | O => m
  | S n => copy_up (mset m (dest + i) (m (src + i))) dest src (i + 1) n
  end.
Fixpoint copy_down (m : memory) (dest src : Z) (i : nat) : memory :=
  match i with
  | O => m
  | S i => copy_down (mset m (dest + Z.of_nat i) (m (src + Z.of_nat i))) dest src i
  end.

(* kernel/lib/klib.c:36-51 memory_copy *)
Definition memory_copy (dest src : Z) (n : nat) (m : memory) : memory :=
  if decide (dest = src) then m
  else if decide (dest < src) then copy_up m dest src 0 n
  else copy_down m dest src n.

#[global] Arguments memory_set : simpl never.
#[global] Arguments memory_copy : simpl never.

(** A 32-bit word in memory, least significant byte first. *)
Definition ld32 (m : memory) (a : Z) : Z :=
  u8 (m a) + 256 * u8 (m (a + 1)) + 65536 * u8 (m (a + 2)) + 16777216 * u8 (m (a + 3)).

(** ** Character classes *)

(* include/lib.h:31-31 isdigit *)
Definition isdigit (c : Z) : bool := bool_decide (c_0 ≤ c ≤ c_9).
(* include/lib.h:32-32 isupper *)
Definition isupper (c : Z) : bool := bool_decide (c_A ≤ c ≤ c_Z).
(* include/lib.h:33-33 islower *)
Definition islower (c : Z) : bool := bool_decide (c_a ≤ c ≤ c_a).
(* include/lib.h:34-34 isalpha *)
Definition isalpha (c : Z) : bool := isupper c || islower c.
(* include/lib.h:35-35 isspace *)
Definition isspace (c : Z) : bool := bool_decide (c = c_space ∨ c = 9 ∨ c = 10 ∨ c = 13).

(** ** Numbers *)

Definition ULONG_MAX : Z := 2 ^ 32 - 1.

(** The loop over leading blanks: the first other character, and the address
    after it. *)
Fixpoint skip_space (fuel : nat) (m : memory) (s : Z) : outcome (Z * Z) :=
  match fuel with
  | O => Hang
  | S f => let c := m s in
           if isspace c then skip_space f m (s + 1) else Ok (c, s + 1)
  end.

(** The loop over the digits, with the current character [c] and the address
    [s] of the next one. *)
Fixpoint digit_loop (fuel : nat) (m : memory) (base cutoff cutlim c s acc any : Z)
    : outcome (Z * Z) :=
  match fuel with
  | O => Hang
  | S f =>
      match (if isdigit c then Some (c - c_0)
             else if isalpha c then Some (c - (if isupper c then c_A - 10 else c_a - 10))
             else None) with
      | None => Ok (acc, any)
      | Some d =>
          if decide (base ≤ d) then Ok (acc, any)
          else if decide (any < 0)
          then digit_loop f m base cutoff cutlim (m s) (s + 1) acc any
          else if decide (cutoff < acc ∨ (acc = cutoff ∧ cutlim < d))
          then digit_loop f m base cutoff cutlim (m s) (s + 1) ULONG_MAX (-1)
          else digit_loop f m base cutoff cutlim (m s) (s + 1) (u32 (u32 (acc * base) + d)) 1
      end
  end.

(** The part of [strtoul] after the sign: the base prefix and the digits. *)
Definition strtoul_digits (fuel : nat) (m : memory) (neg : bool) (c s : Z) : outcome Z :=
  let '(base, c, s) :=
    if decide (c = c_0 ∧ (ldc m s = c_x ∨ ldc m s = c_X)) then (16, ldc m (s + 1), s + 2)
    else (0, c, s) in
  let base := if decide (base = 0) then (if decide (c = c_0) then 8 else 10) else base in
  let cutoff := ULONG_MAX / base in
  let cutlim := ULONG_MAX `mod` base in
  '(acc, any) ← digit_loop fuel m base cutoff cutlim c s 0 0;
  Ok (if decide (neg = true ∧ 0 < any) then u32 (- acc) else acc).

(* kernel/lib/klib.c:56-111 strtoul *)
Definition strtoul (fuel : nat) (m : memory) (nptr : Z) : outcome Z :=
  '(c, s) ← skip_space fuel m nptr;
  if decide (c = c_minus) then strtoul_digits fuel m true (ldc m s) (s + 1)
  else if decide (c = c_plus) then strtoul_digits fuel m false (ldc m s) (s + 1)
  else strtoul_digits fuel m false c s.

(* include/lib.h:39-39 NMASK *)
Definition NMASK (x : Z) : Z := Z.shiftl 1 x - 1.

Fixpoint log2_loop (fuel : nat) (n l : Z) : Z :=
  match fuel with
  | O => l
  | S f => if decide (l < 32 ∧ Z.shiftr n l ≠ 0) then log2_loop f n (l + 1) else l
  end.

(* include/lib.h:40-45 log2 *)
Definition log2 (n : Z) : Z :=
  let l := log2_loop 32 n 1 in
  if decide (Z.land n (NMASK (l - 1)) ≠ 0) then l else l - 1.

(* include/lib.h:47-51 roundup_l2 *)
Definition roundup_l2 (x base : Z) : Z :=
  Z.land (u32 (x + (base - 1))) (u32 (Z.lnot (base - 1))).

(** ** Strings *)

Fixpoint strchr_loop (fuel : nat) (m : memory) (p c : Z) : outcome Z :=
  match fuel with
  | O => Hang
  | S f => if decide (ldc m p ≠ 0 ∧ c ≠ ldc m p) then strchr_loop f m (p + 1) c else Ok p
  end.

(* include/lib.h:53-61 kstrchr *)
Definition kstrchr (fuel : nat) (m : memory) (str c : Z) : outcome (option Z) :=
  p ← strchr_loop fuel m str c;
  Ok (if decide (ldc m p = 0) then None else Some p).

Fixpoint strlen_loop (fuel : nat) (m : memory) (p : Z) : outcome Z :=
  match fuel with
  | O => Hang
  | S f => let p := p + 1 in
           if decide (ldc m p ≠ 0) then strlen_loop f m p else Ok p
  end.

(* include/lib.h:63-69 kstrlen *)
Definition kstrlen (fuel : nat) (m : memory) (str : Z) : outcome Z :=
  p ← strlen_loop fuel m str; Ok (p - str).

Fixpoint strrchr_loop (fuel : nat) (m : memory) (str p c : Z) : outcome Z :=
  match fuel with
  | O => Hang
  | S f => if decide (str ≠ p ∧ c ≠ ldc m p) then strrchr_loop f m str (p - 1) c else Ok p
  end.

(* include/lib.h:72-80 kstrrchr *)
Definition kstrrchr (fuel : nat) (m : memory) (str c : Z) : outcome (option Z) :=
  n ← kstrlen fuel m str;
  p ← strrchr_loop fuel m str (str + n) c;
  Ok (if decide (c ≠ ldc m p) then None else Some p).

(* include/lib.h:82-86 kstrncmp *)
Fixpoint kstrncmp (m : memory) (a b : Z) (n : nat) : Z :=
  match n with
  | O => ldc m a - ldc m b
  | S n => if decide (ldc m a = ldc m b) then kstrncmp m (a + 1) (b + 1) n
           else ldc m a - ldc m b
  end.

(* include/lib.h:88-92 k__strcmp *)
Fixpoint k__strcmp (fuel : nat) (m : memory) (a b : Z) : outcome Z :=
  match fuel with
  | O => Hang
  | S f => if decide (ldc m a ≠ 0 ∧ ldc m b ≠ 0 ∧ ldc m a = ldc m b)
           then k__strcmp f m (a + 1) (b + 1) else Ok (ldc m a - ldc m b)
  end.

(* include/lib.h:94-103 kstrcmp *)
Definition kstrcmp (fuel : nat) (m : memory) (a b : Z) : outcome Z :=
  len_a ← kstrlen fuel m a;
  len_b ← kstrlen fuel m b;
  if decide (len_a = len_b) then Ok (kstrncmp m a b (Z.to_nat len_a))
  else k__strcmp fuel m a b.

(** ** Byte operations *)

Lemma memory_set_at s c n m a :
  memory_set s c n m a = if decide (s ≤ a < s + Z.of_nat n) then u8 c else m a.
Proof.
  unfold memory_set. revert m. induction n as [|n IH]; intros m; cbn [set_loop].
  - by rewrite decide_False by lia.
  - rewrite IH. unfold mset. repeat case_decide; (done || lia).
Qed.

Lemma copy_up_at d s i n m a :
  d < s →
  copy_up m d s i n a =
    if decide (d + i ≤ a < d + i + Z.of_nat n) then m (s + (a - d)) else m a.
Proof.
  intros Hds. revert m i. induction n as [|n IH]; intros m i; cbn [copy_up].
  - by rewrite decide_False by lia.
  - rewrite IH. unfold mset. repeat case_decide; try lia; try done.
    f_equal. lia.
Qed.

Lemma copy_down_at d s i m a :
  s < d →
  copy_down m d s i a = if decide (d ≤ a < d + Z.of_nat i) then m (s + (a - d)) else m a.
Proof.
  intros Hds. revert m. induction i as [|i IH]; intros m; cbn [copy_down].
  - by rewrite decide_False by lia.
  - rewrite IH. unfold mset. repeat case_decide; try lia; try done.
    f_equal. lia.
Qed.

Lemma memory_copy_at d s n m a :
  memory_copy d s n m a =
    if decide (d ≤ a < d + Z.of_nat n) then m (s + (a - d)) else m a.
Proof.
  unfold memory_copy. case_decide as Hd; [|case_decide].
  - subst. replace (s + (a - s)) with a by lia. by case_decide.
  - rewrite copy_up_at by done. by rewrite Z.add_0_r.
  - apply copy_down_at. lia.
Qed.

(** ** Logarithms and rounding *)

Lemma log2_loop_spec fuel n l :
  0 < n < 2 ^ 32 → 1 ≤ l ≤ Z.log2 n + 1 → Z.log2 n + 1 - l ≤ Z.of_nat fuel →
  log2_loop fuel n l = Z.log2 n + 1.
Proof.
  intros Hn. assert (Z.log2 n < 32) by (apply Z.log2_lt_pow2; lia).
  revert l. induction fuel as [|fuel IH]; intros l Hl Hf; cbn [log2_loop]; [lia|].
  case_decide as Hd.
  - apply IH; [|lia]. split; [lia|]. destruct Hd as [_ Hd].
    destruct (decide (l ≤ Z.log2 n)); [lia|].
    exfalso. apply Hd. apply Z.shiftr_eq_0; lia.
  - destruct (decide (l = Z.log2 n + 1)); [done|]. exfalso. apply Hd. split; [lia|].
    intros E. apply Z.shiftr_eq_0_iff in E. lia.
Qed.

Lemma log2_log2_up n : 0 ≤ n < 2 ^ 32 → log2 n = Z.log2_up n.
Proof.
  intros Hn. destruct (decide (n = 0)) as [->|]; [done|].
  unfold log2. rewrite log2_loop_spec; [|lia|pose proof (Z.log2_nonneg n); lia|].
  2:{ assert (Z.log2 n < 32) by (apply Z.log2_lt_pow2; lia). lia. }
  replace (Z.log2 n + 1 - 1) with (Z.log2 n) by lia. unfold NMASK.
  pose proof (Z.log2_nonneg n). pose proof (Z.log2_spec n ltac:(lia)) as [Hlo Hhi].
  rewrite Z.shiftl_1_l, <- Z.pred_succ, Z.sub_1_r, <- Z.ones_equiv, Z.land_ones by lia.
  rewrite Z.pred_succ.
  rewrite Z.pow_succ_r in Hhi by lia.
  assert (n `mod` 2 ^ Z.log2 n = n - 2 ^ Z.log2 n) as ->.
  { symmetry. apply Z.mod_unique with 1; lia. }
  case_decide as Hd.
  - assert (n ≠ 1) by (intros ->; by apply Hd). rewrite Z.log2_up_eqn by lia.
    assert (Z.log2 (Z.pred n) = Z.log2 n); [|lia]. apply Z.log2_unique; [lia|].
    rewrite Z.pow_succ_r by lia. lia.
  - assert (n = 2 ^ Z.log2 n) as E by lia. rewrite E at 2. by rewrite Z.log2_up_pow2.
Qed.

Lemma roundup_l2_spec x k :
  0 ≤ k < 32 → 0 ≤ x → x + 2 ^ k ≤ 2 ^ 32 →
  roundup_l2 x (2 ^ k) = (x + 2 ^ k - 1) / 2 ^ k * 2 ^ k.
Proof.
  intros Hk Hx Hb. unfold roundup_l2.
  assert (0 < 2 ^ k) by (apply Z.pow_pos_nonneg; lia).
  rewrite (u32_small (x + _)) by (unfold is_u32; lia).
  replace (x + 2 ^ k - 1) with (x + (2 ^ k - 1)) by lia. set (y := x + (2 ^ k - 1)).
  rewrite <- Z.shiftl_mul_pow2, <- Z.shiftr_div_pow2 by lia.
  apply Z.bits_inj'. intros i Hi. rewrite Z.land_spec, Z.shiftl_spec by lia.
  replace (2 ^ k - 1) with (Z.ones k) by (rewrite Z.ones_equiv; lia).
  destruct (decide (i < 32)).
  - unfold u32. rewrite Z.mod_pow2_bits_low, Z.lnot_spec by lia.
    destruct (decide (i < k)).
    + rewrite Z.ones_spec_low by lia. rewrite (Z.testbit_neg_r _ (i - k)) by lia. by rewrite andb_false_r.
    + rewrite Z.ones_spec_high, Z.shiftr_spec by lia. simpl. rewrite andb_true_r. f_equal. lia.
  - rewrite <- (Z.mod_small y (2 ^ 32)) by lia. rewrite Z.mod_pow2_bits_high by lia.
    rewrite Z.shiftr_spec by lia. rewrite Z.mod_pow2_bits_high by lia. done.
Qed.

(** ** Blocks of bytes *)

Definition bytes (m : memory) (a n : Z) : list Z := (λ i, m (a + i)) <$> seqZ 0 n.

Lemma bytes_length m a n : 0 ≤ n → Z.of_nat (length (bytes m a n)) = n.
Proof. intros. unfold bytes. rewrite length_fmap, length_seqZ. lia. Qed.

Lemma bytes_ext m m' a b n :
  (∀ i, 0 ≤ i < n → m' (b + i) = m (a + i)) → bytes m' b n = bytes m a n.
Proof. intros H. unfold bytes. apply list_fmap_ext. intros j i Hi%lookup_seqZ. apply H. lia. Qed.

Lemma bytes_app m a n k :
  0 ≤ n → 0 ≤ k → bytes m a (n + k) = bytes m a n ++ bytes m (a + n) k.
Proof.
  intros. unfold bytes. rewrite seqZ_app, fmap_app by lia. f_equal.
  rewrite Z.add_0_l, <- (Z.add_0_r n) at 1. rewrite <- fmap_add_seqZ, <- list_fmap_compose.
  apply list_fmap_ext. intros j i _. simpl. f_equal. lia.
Qed.

Lemma bytes_take m a n k : 0 ≤ k ≤ n → take (Z.to_nat k) (bytes m a n) = bytes m a k.
Proof.
  intros. replace n with (k + (n - k)) by lia. rewrite bytes_app by lia.
  apply take_app_length'. rewrite <- (Nat2Z.id (length _)), bytes_length by lia. done.
Qed.
Lemma bytes_drop m a n k : 0 ≤ k ≤ n → drop (Z.to_nat k) (bytes m a n) = bytes m (a + k) (n - k).
Proof.
  intros. replace n with (k + (n - k)) at 1 by lia. rewrite bytes_app by lia.
  apply drop_app_length'. rewrite <- (Nat2Z.id (length _)), bytes_length by lia. done.
Qed.

(** ** NUL-terminated strings *)

Fixpoint cstr (m : memory) (p : Z) (s : list Z) : Prop :=
  match s with
  | [] => m p = 0
  | b :: s => m p = b ∧ 0 < b < 256 ∧ cstr m (p + 1) s
  end.

Lemma u8_small b : 0 ≤ b < 256 → u8 b = b.
Proof. intros. by apply Z.mod_small. Qed.
Lemma u8_zero b : 0 < b < 256 → u8 b ≠ 0.
Proof. intros. rewrite u8_small; lia. Qed.
Lemma u8_inj a b : 0 ≤ a < 256 → 0 ≤ b < 256 → u8 a = u8 b → a = b.
Proof. intros ??. by rewrite !u8_small. Qed.

Lemma ldc_nz m p b s : cstr m p (b :: s) → ldc m p ≠ 0.
Proof. intros (Hm & Hb & _). unfold ldc. rewrite Hm. by apply u8_zero. Qed.
Lemma ldc_nil m p : cstr m p [] → ldc m p = 0.
Proof. intros H. unfold ldc. simpl in H. by rewrite H. Qed.
Lemma ldc_cons m p b s : cstr m p (b :: s) → ldc m p = u8 b ∧ ldc m p ≠ 0.
Proof.
  intros (Hm & Hb & _). unfold ldc. rewrite Hm. split; [done|by apply u8_zero].
Qed.

Lemma strlen_loop_spec fuel m p b s :
  cstr m p (b :: s) → (length s < fuel)%nat →
  strlen_loop fuel m p = Ok (p + 1 + Z.of_nat (length s)).
Proof.
  revert p b s. induction fuel as [|fuel IH]; intros p b s Hc Hf; [lia|].
  destruct Hc as (_ & _ & Hc). cbn [strlen_loop].
  destruct s as [|b' s].
  - rewrite decide_False by (rewrite ldc_nil by done; lia). simpl. f_equal. lia.
  - rewrite decide_True by exact (ldc_nz _ _ _ _ Hc). simpl in Hf. rewrite (IH _ _ _ Hc) by lia.
    f_equal. simpl. lia.
Qed.

(** [kstrlen] is the length of a non-empty string. *)
Lemma kstrlen_spec fuel m p s :
  cstr m p s → s ≠ [] → (length s ≤ fuel)%nat → kstrlen fuel m p = Ok (Z.of_nat (length s)).
Proof.
  intros Hc Hne Hf. destruct s as [|b s]; [done|]. simpl in Hf.
  unfold kstrlen. rewrite (strlen_loop_spec _ _ _ _ _ Hc) by lia. cbn. f_equal. lia.
Qed.

Lemma kstrchr_spec fuel m p s c :
  cstr m p s → 0 < c < 256 → (length s < fuel)%nat →
  kstrchr fuel m p (u8 c) = Ok ((λ x, p + Z.of_nat x.1) <$> list_find (eq c) s).
Proof.
  unfold kstrchr. revert p s. induction fuel as [|fuel IH]; intros p s Hc Hb Hf; [lia|].
  cbn [strchr_loop]. destruct s as [|b s].
  - rewrite decide_False by (rewrite ldc_nil by done; lia).
    cbn. by rewrite decide_True by by apply ldc_nil.
  - destruct (ldc_cons _ _ _ _ Hc) as [Hld Hnz]. destruct Hc as (Hm & Hb' & Hc).
    cbn [list_find]. simpl in Hf. destruct (decide (c = b)) as [->|Hne].
    + rewrite decide_False by lia. cbn. rewrite decide_False by done.
      do 2 f_equal. lia.
    + rewrite decide_True.
      2:{ split; [done|]. rewrite Hld. intros E. apply Hne. apply u8_inj in E; lia. }
      rewrite (IH (p + 1) s) by (done || lia). rewrite <- option_fmap_compose. f_equal.
      apply option_fmap_ext. intros [i x]. simpl. lia.
Qed.

Lemma kstrncmp_spec m a b sa sb :
  cstr m a sa → cstr m b sb → length sa = length sb →
  kstrncmp m a b (length sa) = 0 ↔ sa = sb.
Proof.
  revert a b sb. induction sa as [|x sa IH]; intros a b [|y sb] Ha Hb Hl; try done; cbn.
  - rewrite !ldc_nil by done. done.
  - destruct (ldc_cons _ _ _ _ Ha) as [Hx _]. destruct (ldc_cons _ _ _ _ Hb) as [Hy _].
    destruct Ha as (_ & Hax & Ha). destruct Hb as (_ & Hby & Hb). rewrite Hx, Hy.
    case_decide as E.
    + apply u8_inj in E; [|lia..]. subst. rewrite IH by (done || by injection Hl).
      split; [by intros ->|by intros [=]].
    + split; [lia|]. by intros [= -> ->].
Qed.

Lemma k__strcmp_spec fuel m a b sa sb :
  cstr m a sa → cstr m b sb → (length sa < fuel)%nat →
  ∃ d, k__strcmp fuel m a b = Ok d ∧ (d = 0 ↔ sa = sb).
Proof.
  revert a b sa sb. induction fuel as [|fuel IH]; intros a b sa sb Ha Hb Hf; [lia|].
  cbn [k__strcmp]. destruct sa as [|x sa].
  { rewrite (ldc_nil m a) by done. rewrite decide_False by lia. eexists. split; [done|].
    destruct sb as [|y sb]; [by rewrite ldc_nil by done|].
    destruct (ldc_cons _ _ _ _ Hb) as [_ ?]. split; [lia|done]. }
  destruct (ldc_cons _ _ _ _ Ha) as [Hx Hx0]. destruct sb as [|y sb].
  { rewrite (ldc_nil m b) by done. rewrite decide_False by lia. eexists. split; [done|].
    split; [lia|done]. }
  destruct (ldc_cons _ _ _ _ Hb) as [Hy Hy0].
  destruct Ha as (_ & Hax & Ha). destruct Hb as (_ & Hby & Hb). simpl in Hf.
  rewrite Hx, Hy in *. case_decide as E.
  - destruct E as (_ & _ & E). apply u8_inj in E; [|lia..]. subst.
    destruct (IH (a + 1) (b + 1) sa sb) as (d & Hd & Hiff); [done..|lia|].
    exists d. split; [done|]. rewrite Hiff. split; [by intros ->|by intros [=]].
  - eexists. split; [done|]. split; [|by intros [= -> ->]; destruct E; tauto].
    intros. destruct E. split_and!; [done..|lia].
Qed.

(** [kstrcmp] decides equality of non-empty strings. *)
Lemma kstrcmp_spec fuel m a b sa sb :
  cstr m a sa → cstr m b sb → sa ≠ [] → sb ≠ [] →
  (length sa < fuel)%nat → (length sb < fuel)%nat →
  ∃ d, kstrcmp fuel m a b = Ok d ∧ (d = 0 ↔ sa = sb).
Proof.
  intros Ha Hb Hna Hnb Hfa Hfb. unfold kstrcmp.
  rewrite (kstrlen_spec _ _ _ _ Ha), (kstrlen_spec _ _ _ _ Hb) by (done || lia). cbn.
  case_decide as Hl.
  - eexists. split; [done|]. rewrite Nat2Z.id. apply kstrncmp_spec; [done..|lia].
  - destruct (k__strcmp_spec fuel m a b sa sb) as (d & Hd & Hiff); [done..|]. by exists d.
Qed.

Lemma cstr_app m p s1 s2 :
  cstr m p (s1 ++ s2) → cstr m (p + Z.of_nat (length s1)) s2.
Proof.
  revert p. induction s1 as [|b s1 IH]; intros p; cbn -[Z.of_nat].
  - by rewrite Z.add_0_r.
  - intros (_ & _ & H). apply IH in H. replace (p + Z.of_nat (S (length s1)))
      with (p + 1 + Z.of_nat (length s1)) by lia. done.
Qed.


Lemma cstr_lookup m p s i b :
  cstr m p s → s !! i = Some b → m (p + Z.of_nat i) = b ∧ 0 < b < 256.
Proof.
  intros Hc Hi. apply list_elem_of_split_length in Hi as (s1 & s2 & -> & ->).
  apply cstr_app in Hc. by destruct Hc as (? & ? & _).
Qed.
Lemma cstr_end m p s : cstr m p s → m (p + Z.of_nat (length s)) = 0.
Proof. intros Hc. rewrite <- (app_nil_r s) in Hc. by apply cstr_app in Hc. Qed.

Lemma strrchr_loop_spec fuel m p k c :
  (k < fuel)%nat →
  ∃ j, (j ≤ k)%nat ∧ strrchr_loop fuel m p (p + Z.of_nat k) c = Ok (p + Z.of_nat j) ∧
       (∀ i, (j < i ≤ k)%nat → ldc m (p + Z.of_nat i) ≠ c) ∧
       (j = 0%nat ∨ ldc m (p + Z.of_nat j) = c).
Proof.
  revert k. induction fuel as [|fuel IH]; intros k Hf; [lia|]. cbn [strrchr_loop].
  case_decide as Hd.
  - destruct k as [|k]; [lia|]. replace (p + Z.of_nat (S k) - 1) with (p + Z.of_nat k) by lia.
    destruct (IH k) as (j & Hj & -> & Hno & Hor); [lia|]. exists j. split_and!; [lia|done| |done].
    intros i Hi. destruct (decide (i = S k)) as [->|]; [|apply Hno; lia].
    intros E. by apply Hd.
  - exists k. split_and!; [lia|done|intros; lia|]. destruct k as [|k]; [by left|right].
    destruct (decide (c = ldc m (p + Z.of_nat (S k)))); [done|]. exfalso. apply Hd. split; [lia|done].
Qed.

Lemma kstrrchr_found fuel m p s1 c s2 :
  cstr m p (s1 ++ c :: s2) → c ∉ s2 → (length (s1 ++ c :: s2) < fuel)%nat →
  kstrrchr fuel m p (u8 c) = Ok (Some (p + Z.of_nat (length s1))).
Proof.
  intros Hc Hn Hf. set (s := s1 ++ c :: s2) in *. assert (s ≠ []) by by destruct s1.
  assert (s !! length s1 = Some c) as Hs1 by by apply list_lookup_middle.
  destruct (cstr_lookup _ _ _ _ _ Hc Hs1) as [Hm Hcr].
  unfold kstrrchr. rewrite (kstrlen_spec _ _ _ _ Hc) by (done || lia). cbn.
  destruct (strrchr_loop_spec fuel m p (length s) (u8 c)) as (j & Hj & -> & Hno & Hor); [lia|].
  assert (length s1 < length s)%nat by by eapply lookup_lt_Some. cbn.
  assert (j = length s1) as ->; [|unfold ldc; by rewrite Hm, decide_False by tauto].
  destruct (decide (j < length s1)%nat).
  { exfalso. apply (Hno (length s1)); [lia|]. unfold ldc. by rewrite Hm. }
  destruct (decide (j = length s1)); [done|]. destruct Hor as [->|Hor]; [lia|]. exfalso.
  destruct (decide (j = length s)) as [->|].
  { rewrite (ldc_nil m _) in Hor by (simpl; by apply cstr_end). symmetry in Hor.
    by apply u8_zero in Hor. }
  destruct (s !! j) as [b|] eqn:Hb; [|apply lookup_ge_None in Hb; lia].
  destruct (cstr_lookup _ _ _ _ _ Hc Hb) as [Hmb Hbr]. unfold ldc in Hor. rewrite Hmb in Hor.
  apply u8_inj in Hor; [|lia..]. subst b. apply Hn. apply list_elem_of_lookup.
  exists (j - length s1 - 1)%nat. unfold s in Hb. rewrite lookup_app_r in Hb by lia.
  destruct (j - length s1)%nat as [|i] eqn:E; [lia|]. simpl in Hb. by replace (S i - 1)%nat with i by lia.
Qed.

Lemma kstrrchr_none fuel m p s c :
  cstr m p s → 0 < c < 256 → s ≠ [] → c ∉ s → (length s < fuel)%nat →
  kstrrchr fuel m p (u8 c) = Ok None.
Proof.
  intros Hc Hcr Hne Hn Hf. unfold kstrrchr. rewrite (kstrlen_spec _ _ _ _ Hc) by (done || lia).
  cbn. destruct (strrchr_loop_spec fuel m p (length s) (u8 c)) as (j & Hj & -> & Hno & Hor); [lia|].
  cbn. rewrite decide_True; [done|].
  destruct (decide (j = length s)) as [->|].
  { rewrite (ldc_nil m _) by (simpl; by apply cstr_end). by apply u8_zero. }
  destruct (s !! j) as [b|] eqn:Hb; [|apply lookup_ge_None in Hb; lia].
  destruct (cstr_lookup _ _ _ _ _ Hc Hb) as [Hmb Hbr]. unfold ldc. rewrite Hmb.
  intros E. apply u8_inj in E; [|lia..]. rewrite <- E in Hb. apply Hn. by eapply list_elem_of_lookup_2.
Qed.

(** ** Numerals *)

(** The value of a character as a digit, the way [strtoul] reads it. *)
Definition digit_val (c : Z) : option Z :=
  if isdigit c then Some (c - c_0)
  else if isalpha c then Some (c - (if isupper c then c_A - 10 else c_a - 10))
  else None.

Definition value (base : Z) (ds : list Z) : Z := foldl (λ acc d, acc * base + d) 0 ds.

Lemma foldl_value base acc ds :
  foldl (λ acc d, acc * base + d) acc ds = acc * base ^ Z.of_nat (length ds) + value base ds.
Proof.
  unfold value. revert acc. induction ds as [|d ds IH] using rev_ind; intros acc.
  - simpl. lia.
  - rewrite !foldl_app, length_app. simpl. rewrite IH. replace (Z.of_nat (length ds + 1))
      with (Z.succ (Z.of_nat (length ds))) by lia. rewrite Z.pow_succ_r by lia. lia.
Qed.

Lemma foldl_digits_mono base acc ds :
  2 ≤ base → 0 ≤ acc → Forall (λ d, 0 ≤ d < base) ds →
  acc ≤ foldl (λ acc d, acc * base + d) acc ds.
Proof.
  intros Hb. revert acc. induction ds as [|d ds IH]; intros acc Ha Hds; [done|].
  apply Forall_cons in Hds as [Hd Hds]. simpl. etrans; [|apply IH; [nia|done]]. nia.
Qed.

(** The overflow test of the loop is exact. *)
Lemma cutoff_iff base acc d :
  2 ≤ base → 0 ≤ acc → 0 ≤ d < base →
  ULONG_MAX / base < acc ∨ (acc = ULONG_MAX / base ∧ ULONG_MAX `mod` base < d) ↔
  ULONG_MAX < acc * base + d.
Proof.
  intros Hb Ha Hd. pose proof (Z.div_mod ULONG_MAX base ltac:(lia)).
  pose proof (Z.mod_pos_bound ULONG_MAX base ltac:(lia)). split; [intros [?|[??]]; nia|].
  intros. destruct (decide (ULONG_MAX / base < acc)); [by left|right]. nia.
Qed.

(** The characters [cs] are read as the digits [ds] of the base. *)
Definition numeral (base : Z) (cs ds : list Z) : Prop :=
  Forall2 (λ c d, digit_val c = Some d ∧ 0 ≤ d < base) cs ds.

Lemma numeral_digits base cs ds : numeral base cs ds → Forall (λ d, 0 ≤ d < base) ds.
Proof. intros Hds. induction Hds as [|x y ? ? [_ ?]]; constructor; auto. Qed.

(** What the digit loop can read: the rest [cs] of a numeral at [s], then a
    character that is no digit. *)
Definition rest_at (m : memory) (s : Z) (cs : list Z) : Prop :=
  (∀ i b, cs !! i = Some b → m (s + Z.of_nat i) = b) ∧
  digit_val (m (s + Z.of_nat (length cs))) = None.

Lemma rest_at_cons m s c cs : rest_at m s (c :: cs) → m s = c ∧ rest_at m (s + 1) cs.
Proof.
  intros [Hm Hend]. split; [|split].
  - rewrite <- (Hm 0%nat c eq_refl). f_equal. lia.
  - intros i b Hi. rewrite <- (Hm (S i) b Hi). f_equal. lia.
  - rewrite <- Hend. do 2 f_equal. simpl. lia.
Qed.

Lemma rest_at_nil m s : rest_at m s [] → digit_val (m s) = None.
Proof. intros [_ H]. simpl in H. by rewrite Z.add_0_r in H. Qed.

(** After an overflow the remaining digits are skipped. *)
Lemma digit_loop_over fuel m base cutoff cutlim s acc cs ds :
  numeral base cs ds → rest_at m s cs → (length ds < fuel)%nat →
  digit_loop fuel m base cutoff cutlim (m s) (s + 1) acc (-1) = Ok (acc, -1).
Proof.
  revert s cs ds. induction fuel as [|fuel IH]; intros s cs ds Hds Hm Hf; [lia|].
  cbn [digit_loop]. fold (digit_val (m s)).
  destruct Hds as [|c d cs ds [Hdv Hd] Hds]; [by rewrite rest_at_nil|].
  apply rest_at_cons in Hm as [-> Hm]. rewrite Hdv. simpl in Hf.
  rewrite decide_False by lia. rewrite decide_True by lia. eapply IH; [done..|lia].
Qed.

Definition saturate (v : Z) : Z := if decide (v ≤ ULONG_MAX) then v else ULONG_MAX.

Lemma digit_loop_spec fuel m base s acc any cs ds :
  2 ≤ base → 0 ≤ acc ≤ ULONG_MAX → 0 ≤ any →
  numeral base cs ds → rest_at m s cs → (length ds < fuel)%nat →
  let v := foldl (λ acc d, acc * base + d) acc ds in
  digit_loop fuel m base (ULONG_MAX / base) (ULONG_MAX `mod` base) (m s) (s + 1) acc any =
    Ok (saturate v, if decide (v ≤ ULONG_MAX) then (if decide (ds = []) then any else 1) else -1).
Proof.
  intros Hb. revert s acc any cs ds.
  induction fuel as [|fuel IH]; intros s acc any cs ds Ha Hany Hds Hm Hf; [lia|].
  cbn [digit_loop]. fold (digit_val (m s)). unfold saturate.
  destruct Hds as [|c d cs ds [Hdv Hd] Hds].
  { rewrite rest_at_nil by done. cbn. repeat case_decide; (done || lia). }
  apply rest_at_cons in Hm as [-> Hm]. rewrite Hdv. simpl in Hf.
  pose proof (foldl_digits_mono base (acc * base + d) ds Hb ltac:(nia) (numeral_digits _ _ _ Hds)).
  rewrite (decide_False (P := base ≤ d)) by lia. rewrite (decide_False (P := any < 0)) by lia.
  cbn [foldl]. case_decide as Hc; rewrite cutoff_iff in Hc by lia.
  - rewrite (digit_loop_over _ _ _ _ _ _ _ cs ds) by (done || lia). by rewrite !decide_False by lia.
  - rewrite (u32_small (acc * base)), u32_small by (unfold is_u32, ULONG_MAX in *; nia).
    rewrite (IH _ _ _ cs ds) by (done || lia || nia). unfold saturate. repeat case_decide; done.
Qed.

Lemma skip_space_spec fuel m s ws :
  (∀ i b, ws !! i = Some b → m (s + Z.of_nat i) = b) → Forall (λ b, isspace b = true) ws →
  isspace (m (s + Z.of_nat (length ws))) = false → (length ws < fuel)%nat →
  skip_space fuel m s = Ok (m (s + Z.of_nat (length ws)), s + Z.of_nat (length ws) + 1).
Proof.
  revert s ws. induction fuel as [|fuel IH]; intros s ws Hm Hws Hend Hf; [lia|].
  cbn [skip_space]. destruct ws as [|w ws].
  - simpl in *. rewrite Z.add_0_r in *. by rewrite Hend.
  - apply Forall_cons in Hws as [Hw Hws]. pose proof (Hm 0%nat w eq_refl) as Hm0.
    simpl in Hm0, Hf. rewrite Z.add_0_r in Hm0. rewrite Hm0, Hw.
    replace (s + Z.of_nat (length (w :: ws))) with (s + 1 + Z.of_nat (length ws)) in * by (simpl; lia).
    apply IH; [|done..|lia]. intros i b Hi. rewrite <- (Hm (S i) b Hi). f_equal. lia.
Qed.

Inductive sign := NoSign | Plus | Minus.
#[global] Instance sign_eq_dec : EqDecision sign.
Proof. solve_decision. Defined.
Definition sign_chars (sg : sign) : list Z :=
  match sg with NoSign => [] | Plus => [c_plus] | Minus => [c_minus] end.
Definition prefix_chars (base : Z) : list Z := if decide (base = 16) then [c_0; c_x] else [].

(** A numeral of base 16 is announced by [0x], one of base 8 by its leading
    zero. *)
Definition base_of (base : Z) (cs : list Z) : Prop :=
  base = 16 ∨ (base = 8 ∧ head cs = Some c_0) ∨ (base = 10 ∧ head cs ≠ Some c_0).

Lemma digit_char c d :
  digit_val c = Some d → d < 16 →
  48 ≤ c < 120 ∧ c ≠ c_X ∧ isspace c = false ∧ u8 c = c ∧ c ≠ c_plus ∧ c ≠ c_minus.
Proof.
  intros H Hd. assert (48 ≤ c < 120 ∧ c ≠ c_X) as [Hc ?].
  { revert H Hd. unfold digit_val, isdigit, isalpha, isupper, islower,
      c_0, c_9, c_A, c_Z, c_a, c_X. repeat case_bool_decide; simpl; intros [= <-]; lia. }
  split_and!; try lia; try done.
  - unfold isspace, c_space. apply bool_decide_eq_false. lia.
  - rewrite u8_small; lia.
  - unfold c_plus. lia.
  - unfold c_minus. lia.
Qed.

Lemma cstr_rest m s cs : cstr m s cs → rest_at m s cs.
Proof.
  intros Hc. split.
  - intros i b Hi. by eapply cstr_lookup.
  - by rewrite cstr_end.
Qed.

Definition signed_value (sg : sign) (v : Z) : Z :=
  match sg with
  | Minus => if decide (v ≤ ULONG_MAX) then u32 (- v) else ULONG_MAX
  | _ => saturate v
  end.

Lemma digit_loop_final fuel m sg s base cs ds :
  2 ≤ base → cs ≠ [] → numeral base cs ds → cstr m s cs → (length cs < fuel)%nat →
  ('(acc, any) ← digit_loop fuel m base (ULONG_MAX / base) (ULONG_MAX `mod` base) (m s) (s + 1) 0 0;
   Ok (if decide (bool_decide (sg = Minus) = true ∧ 0 < any) then u32 (- acc) else acc)) =
  Ok (signed_value sg (value base ds)).
Proof.
  intros Hb Hne Hn Hc Hf. pose proof (Forall2_length _ _ _ Hn).
  rewrite (digit_loop_spec _ _ _ _ _ _ cs ds) by (done || apply cstr_rest, Hc || unfold ULONG_MAX; lia).
  cbn. fold (value base ds). unfold signed_value, saturate. f_equal.
  rewrite (decide_False (P := ds = [])) by (intros ->; by apply Forall2_nil_inv_r in Hn).
  repeat case_decide; destruct sg; simpl in *; try done; lia.
Qed.

Lemma strtoul_digits_spec fuel m sg s base cs ds :
  cstr m s (prefix_chars base ++ cs) → cs ≠ [] → base_of base cs → numeral base cs ds →
  (length cs < fuel)%nat →
  strtoul_digits fuel m (bool_decide (sg = Minus)) (m s) (s + 1) = Ok (signed_value sg (value base ds)).
Proof.
  intros Hc Hne Hb Hn Hf. unfold strtoul_digits.
  destruct cs as [|c cs]; [done|]. destruct ds as [|d ds]; [by apply Forall2_nil_inv_r in Hn|].
  pose proof (Forall2_cons_1 _ _ _ _ _ Hn) as [[Hv Hd] _].
  destruct Hb as [->|Hb].
  - destruct Hc as (-> & _ & Hx & _ & Hc). destruct (Hc) as (Hmc & _).
    destruct (digit_char _ _ Hv) as (? & ? & ? & Hs8 & ?); [lia|].
    rewrite decide_True by (split; [done|left; unfold ldc; by rewrite Hx]).
    rewrite decide_False by done. unfold ldc. rewrite Hmc, Hs8, <- Hmc.
    replace (s + 1 + 2) with (s + 1 + 1 + 1) by lia. by eapply digit_loop_final.
  - assert (base ≤ 16 ∧ base ≠ 16) as [Hb16 Hn16] by (destruct Hb as [[]|[]]; lia).
    unfold prefix_chars in Hc. rewrite decide_False in Hc by done. simpl in Hc.
    destruct (Hc) as (Hmc & _ & Hc').
    rewrite decide_False.
    + rewrite decide_True by done. rewrite Hmc.
      destruct Hb as [[-> [= ->]]|[-> Hc0]].
      * rewrite decide_True by done. rewrite <- Hmc. by eapply digit_loop_final.
      * rewrite decide_False by (intros ->; by apply Hc0). rewrite <- Hmc. by eapply digit_loop_final.
    + intros [_ Hx]. destruct cs as [|c' cs].
      { rewrite (ldc_nil _ _ Hc') in Hx. by destruct Hx. }
      pose proof (proj1 (ldc_cons _ _ _ _ Hc')) as Hld. rewrite Hld in Hx.
      apply Forall2_cons_inv_l in Hn as (? & ds' & _ & Hn & [= <- <-]).
      apply Forall2_cons_inv_l in Hn as (d' & ? & [Hv' Hd'] & _ & ->).
      destruct (digit_char _ _ Hv') as (? & ? & _ & Hs8 & _); [lia|]. rewrite Hs8 in Hx.
      unfold c_x in *. lia.
Qed.

Lemma first_digit m q base cs ds :
  cstr m q (prefix_chars base ++ cs) → cs ≠ [] → base ≤ 16 → numeral base cs ds →
  isspace (m q) = false ∧ ldc m q = m q ∧ m q ≠ c_plus ∧ m q ≠ c_minus.
Proof.
  intros Hq Hne Hb Hn. destruct cs as [|c cs]; [done|]. revert Hq. unfold prefix_chars, ldc.
  case_decide; intros (-> & _); [done|].
  apply Forall2_cons_inv_l in Hn as (d & ? & [Hv Hd] & _ & _).
  destruct (digit_char _ _ Hv) as (_ & _ & ? & ? & ? & ?); [lia|]. by split_and!.
Qed.

Lemma strtoul_spec fuel m p ws sg base cs ds :
  cstr m p (ws ++ sign_chars sg ++ prefix_chars base ++ cs) →
  Forall (λ b, isspace b = true) ws → cs ≠ [] → base_of base cs → numeral base cs ds →
  (length ws < fuel)%nat → (length cs < fuel)%nat →
  strtoul fuel m p = Ok (signed_value sg (value base ds)).
Proof.
  intros Hc Hws Hne Hb Hn Hfw Hf. unfold strtoul.
  pose proof (cstr_app _ _ _ _ Hc) as Hq. set (q := p + Z.of_nat (length ws)) in *.
  assert (∀ i b, ws !! i = Some b → m (p + Z.of_nat i) = b) as Hmw.
  { intros i b Hi. eapply cstr_lookup; [done|]. by apply lookup_app_l_Some. }
  assert (base ≤ 16) by (destruct Hb as [|[[]|[]]]; lia).
  assert (isspace (m q) = false) as Hsp.
  { destruct sg; [by eapply (first_digit _ _ _ _ _ Hq)|by destruct Hq as [-> _]..]. }
  rewrite (skip_space_spec _ _ _ ws) by done. fold q. cbn.
  destruct sg; simpl in Hq.
  - destruct (first_digit _ _ _ _ ds Hq Hne) as (_ & _ & ? & ?); [done..|].
    rewrite !decide_False by done. by apply (strtoul_digits_spec _ _ NoSign _ base cs).
  - destruct Hq as (-> & _ & Hq). rewrite decide_False, decide_True by done.
    destruct (first_digit _ _ _ _ ds Hq Hne) as (_ & -> & ? & ?); [done..|].
    by apply (strtoul_digits_spec _ _ Plus _ base cs).
  - destruct Hq as (-> & _ & Hq). rewrite decide_True by done.
    destruct (first_digit _ _ _ _ ds Hq Hne) as (_ & -> & ? & ?); [done..|].
    by apply (strtoul_digits_spec _ _ Minus _ base cs).
Qed.

(** A memory holding the bytes [l] from [base] on. *)
Definition mem_at (base : Z) (l : list Z) : memory := λ a,
  if decide (base ≤ a) then default 0 (l !! Z.to_nat (a - base)) else 0.

(** ** Properties *)

(** [memory_copy] gives every byte of the destination the value its source
    byte had before the call, however the two areas overlap, and [memory_set]
    fills its area with the byte; neither changes any other byte. *)
Theorem memory_ops_correct m d s c n a :
  memory_copy d s n m a = (if decide (d ≤ a < d + Z.of_nat n) then m (s + (a - d)) else m a) ∧
  memory_set d c n m a = (if decide (d ≤ a < d + Z.of_nat n) then u8 c else m a).
Proof. split; [apply memory_copy_at|apply memory_set_at]. Qed.

(** On non-empty strings [kstrlen] is the length, [kstrcmp] is zero exactly
    for equal strings, [kstrchr] finds the first occurrence of a character and
    [kstrrchr] the last one (or NULL). *)
Theorem kstr_functions_correct fuel m a b sa sb c :
  cstr m a sa → cstr m b sb → sa ≠ [] → sb ≠ [] → 0 < c < 256 →
  (length sa < fuel)%nat → (length sb < fuel)%nat →
  kstrlen fuel m a = Ok (Z.of_nat (length sa)) ∧
  (∃ d, kstrcmp fuel m a b = Ok d ∧ (d = 0 ↔ sa = sb)) ∧
  kstrchr fuel m a (u8 c) = Ok ((λ x, a + Z.of_nat x.1) <$> list_find (eq c) sa) ∧
  (c ∉ sa → kstrrchr fuel m a (u8 c) = Ok None) ∧
  (∀ s1 s2, sa = s1 ++ c :: s2 → c ∉ s2 →
     kstrrchr fuel m a (u8 c) = Ok (Some (a + Z.of_nat (length s1)))).
Proof.
  intros Ha Hb Hna Hnb Hc Hfa Hfb. split_and!.
  - apply kstrlen_spec; [done..|lia].
  - by apply kstrcmp_spec.
  - by apply kstrchr_spec.
  - intros. by apply (kstrrchr_none _ _ _ sa).
  - intros s1 s2 -> ?. by apply (kstrrchr_found _ _ _ _ _ s2).
Qed.

Lemma kstr_functions_correct_witness :
  ∃ d, kstrcmp 4 (mem_at 0 [47; 97; 0; 47; 98; 0]) 0 3 = Ok d ∧ d ≠ 0.
Proof.
  destruct (kstr_functions_correct 4 (mem_at 0 [47; 97; 0; 47; 98; 0]) 0 3 [47; 97] [47; 98] 98)
    as (_ & (d & Hd & Hiff) & _); [by vm_compute|by vm_compute|done|done|lia|simpl; lia|simpl; lia|].
  exists d. split; [done|]. rewrite Hiff. done.
Defined.

(** [strtoul] reads blanks, an optional sign, the prefix of the base and
    the digits up to the end of the string: the result is the value of the
    numeral, negated modulo 2^32 after a minus sign, and ULONG_MAX when the
    value does not fit. *)
Theorem strtoul_reads_numerals fuel m p ws sg base cs ds :
  cstr m p (ws ++ sign_chars sg ++ prefix_chars base ++ cs) →
  Forall (λ b, isspace b = true) ws → cs ≠ [] → base_of base cs → numeral base cs ds →
  (length ws < fuel)%nat → (length cs < fuel)%nat →
  strtoul fuel m p = Ok (signed_value sg (value base ds)).
Proof. apply strtoul_spec. Qed.

Lemma strtoul_reads_numerals_witness :
  strtoul 5 (mem_at 100 [32; 45; 48; 120; 49; 70; 0]) 100 = Ok (2 ^ 32 - 31).
Proof.
  rewrite (strtoul_reads_numerals 5 _ 100 [32] Minus 16 [49; 70] [1; 15]);
    [done|by vm_compute|by repeat constructor|done|by left| |simpl; lia..].
  repeat constructor; done.
Defined.

(** The character class [islower] of lib.h holds of the letter a only, so that
    the lower-case digits b to f end a numeral. *)
Example strtoul_lower_case : strtoul 5 (mem_at 0 [48; 120; 102; 102; 0]) 0 = Ok 0.
Proof. done. Qed.

(** [kstrlen] looks at the second byte first: on an empty string it runs into
    whatever follows. *)
Example kstrlen_empty : kstrlen 5 (mem_at 0 [0; 97; 98; 0]) 0 = Ok 3.
Proof. done. Qed.

(** [log2] is the logarithm rounded up, and [roundup_l2] rounds up to the
    next multiple of a power of two, as long as that is below 2^32. *)
Theorem log2_roundup_correct n k :
  0 ≤ n → 0 ≤ k < 32 → n + 2 ^ k ≤ 2 ^ 32 →
  log2 n = Z.log2_up n ∧
  n ≤ roundup_l2 n (2 ^ k) < n + 2 ^ k ∧ (2 ^ k | roundup_l2 n (2 ^ k)).
Proof.
  intros Hn Hk Hle. assert (0 < 2 ^ k) by (apply Z.pow_pos_nonneg; lia).
  split; [apply log2_log2_up; lia|]. rewrite roundup_l2_spec by done.
  pose proof (Z.div_mod (n + 2 ^ k - 1) (2 ^ k) ltac:(lia)).
  pose proof (Z.mod_pos_bound (n + 2 ^ k - 1) (2 ^ k) ltac:(lia)).
  split; [lia|]. apply Z.divide_factor_r.
Qed.

Lemma log2_roundup_correct_witness : log2 4097 = 13 ∧ roundup_l2 4097 (2 ^ 12) = 8192.
Proof.
  destruct (log2_roundup_correct 4097 12) as (H & _); [lia..|]. split; [by rewrite H|done].
Defined.
