(* ===== verification/Printf.v ===== *)
(** * Formatted output (kernel/lib/vsnprintf.c)

    The functions run on the byte memory of [Klib]: the output buffer, the
    format, the string arguments and the scratch buffer [sbuf] of [vsnprintf]
    are areas of it.  The variable arguments are the list of the words on the
    stack. *)

From S2P Require Import Prelude Klib.

(* kernel/lib/vsnprintf.c:29-29 digits *)
Definition digits : list Z :=
  [48; 49; 50; 51; 52; 53; 54; 55; 56; 57; 65; 66; 67; 68; 69; 70].

(** [while (l / base) l = l / base, pos++]; 32 rounds are enough for a 32-bit
    number. *)
Fixpoint count_loop (fuel : nat) (l base pos : Z) : Z :=
  match fuel with
  | O => pos
  | S f => if decide (Z.quot l base ≠ 0) then count_loop f (Z.quot l base) base (pos + 1) else pos
  end.

(** The loop that stores the digits from the last one down. *)
Fixpoint store_loop (fuel : nat) (m : memory) (buf pos i base : Z) : outcome memory :=
  match fuel with
  | O => Hang
  | S f =>
      if decide (Z.rem i base < 0) then Fault else
      d ← of_option (digits !! Z.to_nat (Z.rem i base));
      let m := mset m (buf + pos) d in
      let i := Z.quot i base in
      if decide (i ≠ 0) then store_loop f m buf (pos - 1) i base else Ok m
  end.

(* kernel/lib/vsnprintf.c:31-55 sprint_int_signed *)
Definition sprint_int_signed (buf i base : Z) (m : memory) : outcome (Z * memory) :=
  let l := i in
  let '(m, pos, i) := if decide (i < 0) then (mset m buf c_minus, 1, s32 (0 - i)) else (m, 0, i) in
  let pos := count_loop 32 l base pos in
  m ← store_loop 33 m buf pos i base;
  Ok (pos + 1, m).

(* kernel/lib/vsnprintf.c:57-76 sprint_int_unsigned *)
Definition sprint_int_unsigned (buf i base : Z) (m : memory) : outcome (Z * memory) :=
  let pos := count_loop 32 i base 0 in
  m ← store_loop 33 m buf pos i base;
  Ok (pos + 1, m).

(** ** vsnprintf *)

(** The local variables of [vsnprintf]. *)
Record vsn := Vsn {
  cur : Z; old : Z; pos : Z; fmt_broken : Z; fill_tag : Z; fill_num : Z;
  args : list Z; mem : memory }.

Definition c_percent : Z := 37.
Definition c_d : Z := 100.
Definition c_l : Z := 108.
Definition c_p : Z := 112.
Definition c_c : Z := 99.
Definition c_s : Z := 115.
Definition null_text : list Z := [60; 110; 117; 108; 108; 62].

Fixpoint put_bytes (m : memory) (p : Z) (l : list Z) : memory :=
  match l with
  | [] => m
  | b :: l => put_bytes (mset m p b) (p + 1) l
  end.

Definition va_arg (l : list Z) : outcome (Z * list Z) :=
  match l with a :: r => Ok (a, r) | [] => Fault end.

(** [pos += memory_copy(pos, src, n)] *)
Definition emit (src n : Z) (v : vsn) : vsn :=
  Vsn (cur v) (old v) (pos v + n) (fmt_broken v) (fill_tag v) (fill_num v) (args v)
      (memory_copy (pos v) src (Z.to_nat n) (mem v)).
(** Stores of single characters at [*pos++]. *)
Definition emit_bytes (l : list Z) (v : vsn) : vsn :=
  Vsn (cur v) (old v) (pos v + Z.of_nat (length l)) (fmt_broken v) (fill_tag v) (fill_num v) (args v)
      (put_bytes (mem v) (pos v) l).
Definition set_args (l : list Z) (v : vsn) : vsn :=
  Vsn (cur v) (old v) (pos v) (fmt_broken v) (fill_tag v) (fill_num v) l (mem v).
Definition set_mem (m : memory) (v : vsn) : vsn :=
  Vsn (cur v) (old v) (pos v) (fmt_broken v) (fill_tag v) (fill_num v) (args v) m.
Definition set_fill (t n : Z) (v : vsn) : vsn :=
  Vsn (cur v) (old v) (pos v) (fmt_broken v) t n (args v) (mem v).
Definition set_cur (c : Z) (v : vsn) : vsn :=
  Vsn c (old v) (pos v) (fmt_broken v) (fill_tag v) (fill_num v) (args v) (mem v).
Definition set_old (o : Z) (v : vsn) : vsn :=
  Vsn (cur v) o (pos v) (fmt_broken v) (fill_tag v) (fill_num v) (args v) (mem v).
Definition break_fmt (v : vsn) : vsn :=
  Vsn (cur v) (old v) (pos v) (fmt_broken v + 1) (fill_tag v) (fill_num v) (args v) (mem v).

(** A number conversion: clear [sbuf], print the argument there, write the
    padding and the digits. *)
Definition conv_number (sbuf : Z) (print : Z → Z → memory → outcome (Z * memory))
    (before : Z → vsn → vsn) (v : vsn) : outcome vsn :=
  let v := set_mem (memory_set sbuf 0 12 (mem v)) v in
  '(a, rest) ← va_arg (args v);
  '(n, m) ← print sbuf a (mem v);
  let v := before n (set_mem m (set_args rest v)) in
  Ok (set_fill 0 0 (emit sbuf n v)).

(** [for (; fill_num - n > 0; fill_num--) *pos++ = tag] *)
Definition pad (tag num n : Z) (v : vsn) : vsn :=
  emit_bytes (replicate (Z.to_nat (num - n)) tag) v.

(** The conversions other than the digits; [fuel] bounds the length of a
    string argument. *)
Definition convert (fuel : nat) (sbuf c : Z) (v : vsn) : outcome vsn :=
  if decide (c = c_d) then
    conv_number sbuf (λ b a, sprint_int_signed b (s32 a) 10) (λ _ v, v) v
  else if decide (c = c_l) then
    conv_number sbuf (λ b a, sprint_int_signed b (s32 a) 10) (λ _ v, v) v
  else if decide (c = c_x) then
    conv_number sbuf (λ b a, sprint_int_unsigned b (u32 a) 16)
      (λ n v, pad (fill_tag v) (fill_num v) n v) v
  else if decide (c = c_p) then
    conv_number sbuf (λ b a, sprint_int_unsigned b (u32 a) 16)
      (λ n v, pad c_0 1 n (emit_bytes [c_0; c_x] v)) v
  else if decide (c = c_c) then
    '(a, rest) ← va_arg (args v);
    Ok (emit_bytes [u8 a] (set_args rest v))
  else if decide (c = c_s) then
    '(a, rest) ← va_arg (args v);
    let v := set_args rest v in
    if decide (a = 0 ∨ ldc (mem v) a = 0) then Ok (emit_bytes null_text v)
    else n ← kstrlen fuel (mem v) a; Ok (set_fill 0 0 (emit a n v))
  else Ok (set_fill 0 0 (break_fmt v)).

(** From the label [reswitch] to the end of the switch: [None] is the break
    out of the loop, which the terminating NUL causes. *)
Fixpoint reswitch (fuel : nat) (sbuf : Z) (v : vsn) : outcome (option vsn) :=
  match fuel with
  | O => Hang
  | S f =>
      let c0 := ldc (mem v) (cur v) in
      let v := set_cur (cur v + 1) v in
      if decide (c0 = 0) then Ok None
      else
        let c := ldc (mem v) (cur v) in
        if isdigit c then
          if decide (fill_tag v = 0) then reswitch f sbuf (set_fill c (fill_num v) v)
          else if decide (fill_num v = 0) then reswitch f sbuf (set_fill (fill_tag v) (c - c_0) v)
          else reswitch f sbuf (break_fmt v)
        else v ← convert f sbuf c v; Ok (Some v)
  end.

(** The loop over the format.  A break at the NUL in [reswitch] keeps what
    the state was; only [cur] has moved, and is not used any more. *)
Fixpoint format_loop (fuel : nat) (sbuf fmt flen : Z) (v : vsn) : outcome vsn :=
  match fuel with
  | O => Hang
  | S f =>
      r ← kstrchr f (mem v) (cur v) c_percent;
      match r with
      | None => Ok v
      | Some c =>
          let v := set_cur c (emit (old v) (c - old v) v) in
          r ← reswitch f sbuf v;
          match r with
          | None => Ok v
          | Some v =>
              let v := set_old (cur v + 1) v in
              if decide (cur v < fmt + flen) then format_loop f sbuf fmt flen v else Ok v
          end
      end
  end.

(* kernel/lib/vsnprintf.c:78-199 vsnprintf *)
Definition vsnprintf (fuel : nat) (sbuf buf size fmt : Z) (va : list Z) (m : memory)
    : outcome (Z * memory) :=
  n ← kstrlen fuel m fmt;
  let flen := n + 1 in
  v ← format_loop fuel sbuf fmt flen (Vsn fmt fmt buf 0 0 0 va m);
  let v := emit (old v) (u32 (fmt + flen - old v)) v in
  Ok (pos v - buf, mem v).

(* kernel/lib/vsnprintf.c:201-210 snprintf *)
Definition snprintf (fuel : nat) (sbuf buf size fmt : Z) (va : list Z) (m : memory)
    : outcome (Z * memory) :=
  vsnprintf fuel sbuf buf size fmt va m.

(** ** Numbers in a base *)

Section numbers.
Context (base : Z) (Hbase : 2 ≤ base ≤ 16).

Lemma count_loop_spec fuel l p :
  0 ≤ l < 2 ^ Z.of_nat fuel →
  ∃ k, count_loop fuel l base p = p + k ∧ 0 ≤ k ∧ l < base ^ (k + 1) ∧
       (k = 0 ∨ base ^ k ≤ l) ∧ k ≤ Z.of_nat fuel.
Proof.
  revert l p. induction fuel as [|fuel IH]; intros l p Hl; cbn [count_loop].
  - exists 0. simpl in Hl. rewrite Z.pow_1_r by lia. split_and!; lia.
  - rewrite Z.quot_div_nonneg by lia. pose proof (Z.div_mod l base ltac:(lia)).
    pose proof (Z.mod_pos_bound l base ltac:(lia)). case_decide as Hd.
    + rewrite Nat2Z.inj_succ, Z.pow_succ_r in Hl by lia.
      destruct (IH (l / base) (p + 1)) as (k & -> & Hk & Hlt & Hge & Hkf).
      { split; [apply Z.div_pos; lia|]. apply Z.div_lt_upper_bound; nia. }
      exists (k + 1). rewrite (Z.pow_add_r _ (k + 1) 1), Z.pow_1_r by lia.
      split_and!; [lia..|nia|right|lia]. rewrite Z.pow_add_r, Z.pow_1_r by lia.
      destruct Hge as [->|Hge]; [|nia]. assert (1 ≤ l / base) by (pose proof (Z.div_pos l base); lia).
      rewrite Z.pow_0_r. nia.
    + exists 0. rewrite Z.pow_1_r. assert (l / base = 0) as E by tauto. rewrite E in *. split_and!; lia.
Qed.

Definition digit_chr (d : Z) : Z := default 0 (digits !! Z.to_nat d).

Lemma digits_lookup d : 0 ≤ d < base → digits !! Z.to_nat d = Some (digit_chr d).
Proof.
  intros Hd. unfold digit_chr. destruct (digits !! Z.to_nat d) eqn:E; [done|].
  apply lookup_ge_None in E. simpl in E. lia.
Qed.

(** The digit [j] places from the right. *)
Definition digit_at (i j : Z) : Z := (i / base ^ j) `mod` base.

Lemma store_loop_spec fuel m buf k i :
  0 ≤ k → 0 ≤ i < base ^ (k + 1) → (k = 0 ∨ base ^ k ≤ i) → (Z.to_nat k < fuel)%nat →
  ∃ m', store_loop fuel m buf k i base = Ok m' ∧
    ∀ a, m' a = if decide (buf ≤ a ≤ buf + k) then digit_chr (digit_at i (buf + k - a)) else m a.
Proof.
  revert m k i. induction fuel as [|fuel IH]; intros m k i Hk Hi Hge Hf; [lia|].
  cbn [store_loop]. rewrite Z.rem_mod_nonneg, Z.quot_div_nonneg by lia.
  pose proof (Z.mod_pos_bound i base ltac:(lia)). pose proof (Z.div_mod i base ltac:(lia)).
  rewrite (decide_False (P := i `mod` base < 0)) by lia. rewrite digits_lookup by done. cbn.
  rewrite Z.pow_add_r, Z.pow_1_r in Hi by lia. case_decide as Hd.
  - assert (k ≠ 0) as Hk0.
    { intros ->. rewrite Z.pow_0_r in Hi. apply Hd. apply Z.div_small. lia. }
    destruct Hge as [?|Hge]; [done|].
    replace k with (k - 1 + 1) in Hge, Hi by lia. rewrite Z.pow_add_r, Z.pow_1_r in Hge, Hi by lia.
    destruct (IH (mset m (buf + k) (digit_chr (i `mod` base))) (k - 1) (i / base)) as (m' & -> & Hm'); try lia.
    { rewrite Z.pow_add_r, Z.pow_1_r by lia. split; [apply Z.div_pos; lia|].
      apply Z.div_lt_upper_bound; nia. }
    { right. apply Z.div_le_lower_bound; nia. }
    exists m'. split; [done|]. intros a. rewrite Hm'. unfold mset, digit_at.
    repeat case_decide; try lia; try done.
    + rewrite Z.div_div by (try apply Z.pow_nonzero; lia). do 3 f_equal.
      replace (buf + k - a) with (Z.succ (buf + (k - 1) - a)) by lia. by rewrite Z.pow_succ_r by lia.
    + subst. replace (buf + k - (buf + k)) with 0 by lia. by rewrite Z.pow_0_r, Z.div_1_r.
  - assert (i / base = 0) as E by tauto. assert (k = 0) as ->.
    { destruct Hge as [|Hge]; [done|]. destruct (decide (k = 0)); [done|].
      assert (base ^ 1 ≤ base ^ k) by (apply Z.pow_le_mono_r; lia). rewrite Z.pow_1_r in *. lia. }
    eexists. split; [done|]. intros a. unfold mset, digit_at. rewrite Z.add_0_r.
    repeat case_decide; try lia; subst; try done. replace (buf - buf) with 0 by lia.
    by rewrite Z.pow_0_r, Z.div_1_r.
Qed.

(** The printed digits, most significant first. *)
Definition numeral_of (i k : Z) : list Z := (λ j, digit_at i (k - j)) <$> seqZ 0 (k + 1).

Lemma numeral_prefix_value i k n :
  0 ≤ i < base ^ (k + 1) → (Z.of_nat n ≤ k + 1) →
  value base ((λ j, digit_at i (k - j)) <$> seqZ 0 (Z.of_nat n)) = i / base ^ (k + 1 - Z.of_nat n).
Proof.
  intros Hi. induction n as [|n IH]; intros Hn.
  - simpl. rewrite Z.sub_0_r. by rewrite Z.div_small.
  - rewrite seqZ_S, fmap_app. unfold value in *. rewrite foldl_app, IH by lia. cbn.
    replace (k - (0 + Z.of_nat n)) with (k + 1 - Z.of_nat (S n)) by lia. unfold digit_at.
    replace (k + 1 - Z.of_nat n) with (Z.succ (k + 1 - Z.of_nat (S n))) by lia.
    rewrite Z.pow_succ_r, (Z.mul_comm base (_ ^ _)), <- Z.div_div by (try apply Z.pow_nonzero; lia).
    pose proof (Z.div_mod (i / base ^ (k + 1 - Z.of_nat (S n))) base ltac:(lia)). lia.
Qed.

Lemma numeral_of_value i k : 0 ≤ k → 0 ≤ i < base ^ (k + 1) → value base (numeral_of i k) = i.
Proof.
  intros Hk Hi. unfold numeral_of. replace (k + 1) with (Z.of_nat (Z.to_nat (k + 1))) at 1 by lia.
  rewrite numeral_prefix_value by lia. replace (k + 1 - _) with 0 by lia. apply Z.div_1_r.
Qed.

Lemma digit_chr_val d : 0 ≤ d < base → digit_val (digit_chr d) = Some d ∧ 0 < digit_chr d < 256.
Proof.
  intros Hd. assert (0 ≤ d < 16) as [? ?] by lia. clear Hd.
  assert (d ∈ seqZ 0 16) as Hin by by apply elem_of_seqZ. cbn in Hin.
  repeat (apply elem_of_cons in Hin as [->|Hin]; [done|]). by apply elem_of_nil in Hin.
Qed.

Lemma numeral_of_numeral i k : numeral base (digit_chr <$> numeral_of i k) (numeral_of i k).
Proof.
  apply Forall2_fmap_l. apply Forall_Forall2_diag. apply Forall_fmap, Forall_true. intros j.
  assert (0 ≤ digit_at i (k - j) < base) by (apply Z.mod_pos_bound; lia).
  split; [by apply digit_chr_val|done].
Qed.

Lemma numeral_of_length i k : 0 ≤ k → Z.of_nat (length (numeral_of i k)) = k + 1.
Proof. intros. unfold numeral_of. rewrite length_fmap, length_seqZ. lia. Qed.

(** [cs] is stored at [p], without a terminator. *)
Definition bytes_at (m : memory) (p : Z) (cs : list Z) : Prop :=
  ∀ j c, cs !! j = Some c → m (p + Z.of_nat j) = c.

(** What [sprint_int_unsigned] leaves: the digits at [buf], and nothing else
    changed. *)
Lemma sprint_int_unsigned_spec m buf i :
  is_u32 i →
  ∃ k m', sprint_int_unsigned buf i base m = Ok (k + 1, m') ∧ 0 ≤ k ≤ 32 ∧
    i < base ^ (k + 1) ∧ (k = 0 ∨ base ^ k ≤ i) ∧
    bytes_at m' buf (digit_chr <$> numeral_of i k) ∧
    ∀ a, ¬ (buf ≤ a ≤ buf + k) → m' a = m a.
Proof.
  intros Hi. unfold sprint_int_unsigned.
  destruct (count_loop_spec 32 i 0) as (k & -> & Hk & Hlt & Hge & Hk32); [done|].
  rewrite Z.add_0_l. destruct (store_loop_spec 33 m buf k i) as (m' & -> & Hm'); [lia|unfold is_u32 in *; lia|done|lia|].
  exists k, m'. split_and!; try done; [|intros; rewrite Hm'; by rewrite decide_False].
  intros j c Hj. rewrite Hm'. unfold numeral_of in Hj. rewrite <- list_fmap_compose in Hj.
  apply list_lookup_fmap_Some in Hj as (z & -> & Hz). apply lookup_seqZ in Hz as [E Hz]. subst z.
  rewrite decide_True by lia. simpl. do 2 f_equal. lia.
Qed.
End numbers.

Lemma bytes_at_cstr m p cs :
  bytes_at m p cs → Forall (λ c, 0 < c < 256) cs → m (p + Z.of_nat (length cs)) = 0 → cstr m p cs.
Proof.
  revert p. induction cs as [|c cs IH]; intros p Hb Hc He.
  - simpl in *. by rewrite Z.add_0_r in He.
  - apply Forall_cons in Hc as [Hc Hcs]. split; [|split; [done|]].
    + rewrite <- (Hb 0%nat c eq_refl). f_equal. lia.
    + apply IH; [|done|].
      * intros j b Hj. rewrite <- (Hb (S j) b Hj). f_equal. lia.
      * rewrite <- He. f_equal. simpl. lia.
Qed.

(** The numeral of a number, as text. *)
Definition numeral_text (base i : Z) : list Z :=
  digit_chr <$> numeral_of base i (count_loop 32 i base 0).

Definition signed_text (i : Z) : list Z :=
  if decide (i < 0) then c_minus :: numeral_text 10 (- i) else numeral_text 10 i.

#[global] Arguments numeral_text : simpl never.
#[global] Arguments signed_text : simpl never.

(** [text] has been printed at [buf] and the rest of memory is as before. *)
Definition printed (m m' : memory) (buf : Z) (text : list Z) : Prop :=
  bytes_at m' buf text ∧
  ∀ a, ¬ (buf ≤ a < buf + Z.of_nat (length text)) → m' a = m a.

Lemma numeral_text_bound base i :
  10 ≤ base ≤ 16 → is_u32 i → (1 ≤ length (numeral_text base i) ≤ 10)%nat.
Proof.
  intros Hb Hi. unfold numeral_text. rewrite length_fmap.
  destruct (count_loop_spec base ltac:(lia) 32 i 0) as (k & -> & Hk & Hlt & Hge & _); [done|].
  pose proof (numeral_of_length base i k Hk). rewrite Z.add_0_l.
  assert (k < 10); [|lia]. destruct Hge as [->|Hge]; [lia|].
  destruct (decide (k < 10)); [done|]. exfalso. unfold is_u32 in Hi.
  assert (10 ^ 10 ≤ base ^ 10) by (apply Z.pow_le_mono_l; lia).
  assert (base ^ 10 ≤ base ^ k) by (apply Z.pow_le_mono_r; lia). lia.
Qed.

Lemma numeral_text_chars base i : 2 ≤ base ≤ 16 → Forall (λ c, 0 < c < 256) (numeral_text base i).
Proof.
  intros Hb. apply Forall_fmap, Forall_fmap, Forall_true. intros j. apply (digit_chr_val base Hb).
  apply Z.mod_pos_bound. lia.
Qed.

Lemma sprint_unsigned_printed m buf base i :
  10 ≤ base ≤ 16 → is_u32 i →
  ∃ m', sprint_int_unsigned buf i base m = Ok (Z.of_nat (length (numeral_text base i)), m') ∧
        printed m m' buf (numeral_text base i).
Proof.
  intros Hb Hi. unfold sprint_int_unsigned, numeral_text, printed.
  destruct (count_loop_spec base ltac:(lia) 32 i 0) as (k & -> & Hk & Hlt & Hge & Hk32); [done|].
  rewrite Z.add_0_l, length_fmap, numeral_of_length by lia.
  destruct (store_loop_spec base ltac:(lia) 33 m buf k i) as (m' & -> & Hm');
    [lia|unfold is_u32 in *; lia|done|lia|].
  exists m'. split; [done|]. split; [|intros; rewrite Hm'; by rewrite decide_False by lia].
  intros j c Hj. rewrite Hm'. unfold numeral_of in Hj. rewrite <- list_fmap_compose in Hj.
  apply list_lookup_fmap_Some in Hj as (z & -> & Hz). apply lookup_seqZ in Hz as [E Hz]. subst z.
  rewrite decide_True by lia. simpl. do 2 f_equal. lia.
Qed.

Lemma count_loop_opp fuel l base p :
  2 ≤ base → count_loop fuel (- l) base p = count_loop fuel l base p.
Proof.
  intros Hb. revert l p. induction fuel as [|fuel IH]; intros l p; [done|].
  cbn [count_loop]. rewrite Z.quot_opp_l by lia. rewrite IH. repeat case_decide; (done || lia).
Qed.
Lemma count_loop_shift fuel l base p : count_loop fuel l base (1 + p) = 1 + count_loop fuel l base p.
Proof.
  revert l p. induction fuel as [|fuel IH]; intros l p; [done|]. cbn [count_loop].
  case_decide; [|done]. rewrite <- IH. f_equal. lia.
Qed.
Lemma store_loop_shift fuel m buf p i base :
  store_loop fuel m buf (1 + p) i base = store_loop fuel m (buf + 1) p i base.
Proof.
  revert m p i. induction fuel as [|fuel IH]; intros m p i; [done|]. cbn [store_loop].
  case_decide; [done|]. destruct (of_option _); [|done..]. cbn.
  replace (buf + (1 + p)) with (buf + 1 + p) by lia. case_decide; [|done].
  rewrite <- IH. f_equal. lia.
Qed.

Lemma sprint_signed_printed m buf i :
  - 2 ^ 31 < i < 2 ^ 31 →
  ∃ m', sprint_int_signed buf i 10 m = Ok (Z.of_nat (length (signed_text i)), m') ∧
        printed m m' buf (signed_text i).
Proof.
  intros Hi. unfold sprint_int_signed, signed_text. case_decide as Hs.
  - set (m1 := mset m buf c_minus).
    assert (s32 (0 - i) = - i) as ->.
    { unfold s32. rewrite Z.mod_small by lia. lia. }
    cbv zeta. rewrite <- (count_loop_opp 32 i 10 1) by lia.
    rewrite (count_loop_shift _ _ _ 0 : count_loop _ _ _ 1 = _), store_loop_shift.
    destruct (sprint_unsigned_printed m1 (buf + 1) 10 (- i)) as (m' & Hp & Hb & Hf);
      [lia|unfold is_u32; lia|].
    unfold sprint_int_unsigned in Hp. revert Hp. generalize (count_loop 32 (- i) 10 0). intros k Hp.
    apply obind_ok in Hp as (m2 & Hm2 & [= Hn ->]). rewrite Hm2. cbn [mbind outcome_bind].
    exists m'. split; [do 2 f_equal; simpl; lia|]. split.
    + intros [|j] c Hj; simpl in Hj.
      * injection Hj as <-. rewrite Hf by lia. unfold m1, mset. by rewrite decide_True by lia.
      * rewrite <- (Hb j c Hj). f_equal. lia.
    + intros a Ha. simpl in Ha. rewrite Hf by lia. unfold m1, mset. by rewrite decide_False by lia.
  - apply sprint_unsigned_printed; [lia|unfold is_u32; lia].
Qed.

(** ** What a format means *)

(** The conversions of a well-formed format; [%x] may carry a fill character
    (a digit) and a width. *)
Inductive conv :=
| CD | CL | CX (fill : option (Z * Z)) | CP | CC | CS.

Definition conv_chars (c : conv) : list Z :=
  match c with
  | CD => [c_d] | CL => [c_l] | CX None => [c_x]
  | CX (Some (t, n)) => [c_0 + t; c_0 + n; c_x]
  | CP => [c_p] | CC => [c_c] | CS => [c_s]
  end.

(** A format: texts without a percent sign, each followed by a conversion, and
    a last text. *)
Fixpoint fmt_chars (items : list (list Z * conv)) (last : list Z) : list Z :=
  match items with
  | [] => last
  | (lit, c) :: items => lit ++ c_percent :: conv_chars c ++ fmt_chars items last
  end.

Section render.
Context (m0 : memory) (safe : Z → Prop).

(** The text of an argument; a string argument lies in the area [safe]. *)
Inductive conv_text : conv → Z → list Z → Prop :=
| ct_d a : s32 a ≠ - 2 ^ 31 → conv_text CD a (signed_text (s32 a))
| ct_l a : s32 a ≠ - 2 ^ 31 → conv_text CL a (signed_text (s32 a))
| ct_x a : conv_text (CX None) a (numeral_text 16 (u32 a))
| ct_fx a t n :
    0 ≤ t ≤ 9 → 0 ≤ n ≤ 9 →
    conv_text (CX (Some (t, n))) a
      (replicate (Z.to_nat n - length (numeral_text 16 (u32 a))) (c_0 + t)
         ++ numeral_text 16 (u32 a))
| ct_p a : conv_text CP a ([c_0; c_x] ++ numeral_text 16 (u32 a))
| ct_c a : u8 a ≠ 0 → conv_text CC a [u8 a]
| ct_null : conv_text CS 0 null_text
| ct_empty a : cstr m0 a [] → safe a → conv_text CS a null_text
| ct_s a s :
    a ≠ 0 → cstr m0 a s → s ≠ [] → (∀ i, 0 ≤ i ≤ Z.of_nat (length s) → safe (a + i)) →
    conv_text CS a s.

Inductive renders (last : list Z) : list (list Z * conv) → list Z → list Z → Prop :=
| r_nil va : c_percent ∉ last → renders last [] va last
| r_cons lit c items a va text out :
    c_percent ∉ lit → conv_text c a text → renders last items va out →
    renders last ((lit, c) :: items) (a :: va) (lit ++ text ++ out).
End render.

Lemma bytes_at_app m p l1 l2 :
  bytes_at m p (l1 ++ l2) ↔ bytes_at m p l1 ∧ bytes_at m (p + Z.of_nat (length l1)) l2.
Proof.
  unfold bytes_at. split.
  - intros Hb. split.
    + intros j c Hj. apply Hb. by apply lookup_app_l_Some.
    + intros j c Hj. rewrite <- (Hb (length l1 + j)%nat c); [f_equal; lia|].
      rewrite lookup_app_r by lia. by replace (length l1 + j - length l1)%nat with j by lia.
  - intros [H1 H2] j c Hj. apply lookup_app_Some in Hj as [Hj|[Hge Hj]]; [by apply H1|].
    rewrite <- (H2 _ _ Hj). f_equal. lia.
Qed.

Lemma bytes_at_ext m m' p l :
  bytes_at m p l → (∀ a, p ≤ a < p + Z.of_nat (length l) → m' a = m a) → bytes_at m' p l.
Proof.
  intros Hb He j c Hj. rewrite He; [by apply Hb|]. apply lookup_lt_Some in Hj. lia.
Qed.

Lemma cstr_bytes m p s : cstr m p s → bytes_at m p s.
Proof. intros Hc j c Hj. by eapply cstr_lookup. Qed.

Lemma cstr_ext m m' p s :
  cstr m p s → (∀ i, 0 ≤ i ≤ Z.of_nat (length s) → m' (p + i) = m (p + i)) → cstr m' p s.
Proof.
  revert p. induction s as [|b s IH]; intros p Hc He; simpl in *.
  - rewrite <- Hc. rewrite <- (Z.add_0_r p). apply He. lia.
  - destruct Hc as (<- & Hb & Hc). split_and!; [|lia..|].
    + rewrite <- (Z.add_0_r p). apply He. lia.
    + apply IH; [done|]. intros i Hi. replace (p + 1 + i) with (p + (1 + i)) by lia. apply He. lia.
Qed.

Lemma put_bytes_at m p l a :
  put_bytes m p l a = if decide (p ≤ a < p + Z.of_nat (length l)) then default 0 (l !! Z.to_nat (a - p)) else m a.
Proof.
  revert m p. induction l as [|b l IH]; intros m p; cbn [put_bytes length].
  - by rewrite decide_False by lia.
  - rewrite IH. unfold mset. repeat case_decide; try lia; try done.
    + replace (Z.to_nat (a - p)) with (S (Z.to_nat (a - (p + 1)))) by lia. done.
    + subst. by rewrite Z.sub_diag.
Qed.

Section vsnprintf.
Context (m0 : memory) (buf sbuf : Z) (N : nat).
Hypothesis buffers_apart : ∀ a, buf ≤ a < buf + Z.of_nat N → ¬ (sbuf ≤ a < sbuf + 12).

(** The addresses that [vsnprintf] does not store to. *)
Definition safe (a : Z) : Prop :=
  ¬ (buf ≤ a < buf + Z.of_nat N) ∧ ¬ (sbuf ≤ a < sbuf + 12).

(** [out] has been written so far. *)
Record wrote (v : vsn) (out : list Z) : Prop := {
  wrote_bytes : bytes_at (mem v) buf out;
  wrote_pos : pos v = buf + Z.of_nat (length out);
  wrote_len : (length out ≤ N)%nat;
  wrote_frame : ∀ a, safe a → mem v a = m0 a }.

Lemma emit_wrote v out src text :
  wrote v out → bytes_at (mem v) src text → (length out + length text ≤ N)%nat →
  wrote (emit src (Z.of_nat (length text)) v) (out ++ text).
Proof.
  intros [Hb Hp Hl Hf] Ht Hn. split; cbn; rewrite ?length_app, ?Nat2Z.id.
  - rewrite bytes_at_app. split.
    + eapply bytes_at_ext; [done|]. intros a Ha. rewrite memory_copy_at, decide_False by lia. done.
    + intros j c Hj. rewrite memory_copy_at, Hp. apply lookup_lt_Some in Hj as Hlt.
      rewrite decide_True by lia. rewrite <- (Ht _ _ Hj). f_equal. lia.
  - lia.
  - lia.
  - intros a Ha. rewrite memory_copy_at, decide_False; [by apply Hf|]. destruct Ha. lia.
Qed.

Lemma emit_bytes_wrote v out text :
  wrote v out → (length out + length text ≤ N)%nat → wrote (emit_bytes text v) (out ++ text).
Proof.
  intros [Hb Hp Hl Hf] Hn. split; cbn; rewrite ?length_app.
  - rewrite bytes_at_app. split.
    + eapply bytes_at_ext; [done|]. intros a Ha. rewrite put_bytes_at, decide_False by lia. done.
    + intros j c Hj. rewrite put_bytes_at, Hp. apply lookup_lt_Some in Hj as Hlt.
      rewrite decide_True by lia. replace (Z.to_nat _) with j by lia. by rewrite Hj.
  - lia.
  - lia.
  - intros a Ha. rewrite put_bytes_at, decide_False; [by apply Hf|]. destruct Ha. lia.
Qed.

(** Changes of the scratch buffer keep what has been written. *)
Lemma scratch_wrote v out m' :
  wrote v out → (∀ a, ¬ (sbuf ≤ a < sbuf + 12) → m' a = mem v a) → wrote (set_mem m' v) out.
Proof.
  intros [Hb Hp Hl Hf] Hm. split; cbn; [|done..|].
  - eapply bytes_at_ext; [done|]. intros a Ha. apply Hm. apply buffers_apart. lia.
  - intros a Ha. rewrite Hm by apply Ha. by apply Hf.
Qed.

(** Writing [l] to the output leaves the scratch buffer and the position in
    the format alone. *)
Definition extends (v v' : vsn) (l : list Z) : Prop :=
  (∀ out, wrote v out → (length out + length l ≤ N)%nat →
     wrote v' (out ++ l) ∧ ∀ a, sbuf ≤ a < sbuf + 12 → mem v' a = mem v a) ∧
  cur v' = cur v ∧ old v' = old v ∧ args v' = args v.

Lemma emit_bytes_extends v l : extends v (emit_bytes l v) l.
Proof.
  split; [|done]. intros out Hw Hl. split; [by apply emit_bytes_wrote|].
  intros a Ha. cbn. rewrite put_bytes_at, decide_False; [done|]. intros Hr.
  destruct Hw as [_ Hp _ _]. apply (buffers_apart a); [|done]. lia.
Qed.
Lemma extends_refl v : extends v v [].
Proof. split; [|done]. intros out Hw _. by rewrite app_nil_r. Qed.
Lemma extends_trans v1 v2 v3 l1 l2 :
  extends v1 v2 l1 → extends v2 v3 l2 → extends v1 v3 (l1 ++ l2).
Proof.
  intros [He1 (?&?&?)] [He2 (?&?&?)]. split; [|by split_and!; etrans].
  intros out Hw Hl. rewrite length_app in Hl. destruct (He1 out) as [Hw1 Hm1]; [done|lia|].
  destruct (He2 (out ++ l1)) as [Hw2 Hm2]; [done|rewrite length_app; lia|].
  rewrite app_assoc. split; [done|]. intros a Ha. by rewrite Hm2, Hm1.
Qed.

Lemma conv_number_wrote v out a va text pre (print : Z → Z → memory → outcome (Z * memory)) before :
  wrote v out → args v = a :: va → (length text ≤ 12)%nat →
  (∀ m, ∃ m', print sbuf a m = Ok (Z.of_nat (length text), m') ∧ printed m m' sbuf text) →
  (∀ v', fill_tag v' = fill_tag v → fill_num v' = fill_num v →
         extends v' (before (Z.of_nat (length text)) v') pre) →
  (length out + length pre + length text ≤ N)%nat →
  ∃ v', conv_number sbuf print before v = Ok v' ∧ wrote v' (out ++ pre ++ text) ∧
        cur v' = cur v ∧ old v' = old v ∧ args v' = va ∧ fill_tag v' = 0 ∧ fill_num v' = 0.
Proof.
  intros Hw Ha Ht Hprint Hbef Hlen. unfold conv_number. cbn. rewrite Ha. cbn.
  set (m1 := memory_set sbuf 0 12 (mem v)).
  destruct (Hprint m1) as (m2 & -> & Hb & Hf). cbn.
  set (v1 := set_mem m2 _). set (v2 := before _ v1).
  assert (wrote v1 out) as Hw1.
  { apply (scratch_wrote v out m2) in Hw; [by destruct Hw|]. intros b Hsb.
    rewrite Hf by lia. unfold m1. rewrite memory_set_at, decide_False; [done|]. lia. }
  destruct (Hbef v1 eq_refl eq_refl) as [He (Hc & Ho & Hr)].
  destruct (He out) as [Hw2 Hm2]; [done|lia|]. eexists. split; [done|]. rewrite app_assoc.
  assert (wrote (emit sbuf (Z.of_nat (length text)) v2) ((out ++ pre) ++ text)) as [].
  { apply emit_wrote; [done| |rewrite length_app; lia].
    eapply bytes_at_ext; [exact Hb|]. intros b Hsb. apply Hm2. lia. }
  split_and!; [by split|..]; cbn; done || by rewrite Hr.
Qed.

(** The fill state the digits of a conversion have left. *)
Definition fill_ok (c : conv) (v : vsn) : Prop :=
  match c with
  | CX (Some (t, n)) => fill_tag v = c_0 + t ∧ fill_num v = n
  | _ => fill_tag v = 0 ∧ fill_num v = 0
  end.
Definition conv_char (c : conv) : Z :=
  match c with CD => c_d | CL => c_l | CX _ => c_x | CP => c_p | CC => c_c | CS => c_s end.

(** One conversion is done: its text is written, its argument consumed. *)
Record converted (v v' : vsn) (out : list Z) (va : list Z) : Prop := {
  cv_wrote : wrote v' out;
  cv_cur : cur v' = cur v;
  cv_old : old v' = old v;
  cv_args : args v' = va;
  cv_fill : fill_tag v' = 0 ∧ fill_num v' = 0 }.

Lemma hex_printed a m :
  ∃ m', sprint_int_unsigned sbuf (u32 a) 16 m = Ok (Z.of_nat (length (numeral_text 16 (u32 a))), m') ∧
        printed m m' sbuf (numeral_text 16 (u32 a)).
Proof. apply sprint_unsigned_printed; [lia|apply u32_range]. Qed.

Lemma signed_text_bound i : - 2 ^ 31 < i < 2 ^ 31 → (length (signed_text i) ≤ 12)%nat.
Proof.
  intros Hi. unfold signed_text. case_decide; simpl.
  - pose proof (numeral_text_bound 10 (- i) ltac:(lia) ltac:(unfold is_u32; lia)). lia.
  - pose proof (numeral_text_bound 10 i ltac:(lia) ltac:(unfold is_u32; lia)). lia.
Qed.

Lemma s32_range x : - 2 ^ 31 ≤ s32 x < 2 ^ 31.
Proof. unfold s32. pose proof (Z.mod_pos_bound (x + 2 ^ 31) (2 ^ 32)). lia. Qed.

Lemma convert_number_ok v out a va text pre print before :
  wrote v out → args v = a :: va → (length text ≤ 12)%nat →
  (∀ m, ∃ m', print sbuf a m = Ok (Z.of_nat (length text), m') ∧ printed m m' sbuf text) →
  (∀ v', fill_tag v' = fill_tag v → fill_num v' = fill_num v →
         extends v' (before (Z.of_nat (length text)) v') pre) →
  (length out + length (pre ++ text) ≤ N)%nat →
  ∃ v', conv_number sbuf print before v = Ok v' ∧ converted v v' (out ++ pre ++ text) va.
Proof.
  intros Hw Ha Ht Hp Hb Hl. rewrite length_app in Hl.
  destruct (conv_number_wrote v out a va text pre print before) as (v' & ? & ? & ? & ? & ? & ? & ?);
    [done..|lia|]. exists v'. split; [done|]. by split.
Qed.

Lemma convert_spec fuel v out c a va text :
  wrote v out → args v = a :: va → fill_ok c v → conv_text m0 safe c a text →
  (length out + length text ≤ N)%nat → (length text ≤ fuel)%nat →
  ∃ v', convert fuel sbuf (conv_char c) v = Ok v' ∧ converted v v' (out ++ text) va.
Proof.
  intros Hw Ha Hfill Ht Hl Hf.
  pose proof (numeral_text_bound 16 (u32 a) ltac:(lia) (u32_range a)) as Hhex.
  pose proof (s32_range a) as Hs.
  destruct Ht as [a|a|a|a t n Ht Hn|a|a Hu| |a Hnull Hsafe|a s Ha0 Hc Hne Hsafe];
    lazymatch goal with
    | |- ∃ _, convert _ _ (conv_char CS) _ = _ ∧ _ =>
        change (convert fuel sbuf (conv_char CS) v) with
          ('(a, rest) ← va_arg (args v);
           let v := set_args rest v in
           if decide (a = 0 ∨ ldc (mem v) a = 0) then Ok (emit_bytes null_text v)
           else n ← kstrlen fuel (mem v) a; Ok (set_fill 0 0 (emit a n v)))
    | |- ∃ _, convert _ _ (conv_char CC) _ = _ ∧ _ =>
        change (convert fuel sbuf (conv_char CC) v) with
          ('(a, rest) ← va_arg (args v); Ok (emit_bytes [u8 a] (set_args rest v)))
    | |- _ => idtac
    end.
  - apply (convert_number_ok v out a va (signed_text (s32 a)) []);
      [done..|apply signed_text_bound; lia|intros; apply sprint_signed_printed; lia| |done].
    intros. apply extends_refl.
  - apply (convert_number_ok v out a va (signed_text (s32 a)) []);
      [done..|apply signed_text_bound; lia|intros; apply sprint_signed_printed; lia| |done].
    intros. apply extends_refl.
  - apply (convert_number_ok v out a va (numeral_text 16 (u32 a)) []);
      [done..|lia|apply hex_printed| |done].
    intros v' Ht Hn. destruct Hfill as [Hft Hfn]. unfold pad. rewrite Ht, Hn, Hft, Hfn.
    replace (Z.to_nat _) with 0%nat by lia. apply emit_bytes_extends.
  - apply (convert_number_ok v out a va (numeral_text 16 (u32 a)));
      [done..|lia|apply hex_printed| |done].
    intros v' Ht' Hn'. destruct Hfill as [Hft Hfn]. unfold pad. rewrite Ht', Hn', Hft, Hfn.
    replace (Z.to_nat (n - _)) with (Z.to_nat n - length (numeral_text 16 (u32 a)))%nat by lia.
    apply emit_bytes_extends.
  - apply (convert_number_ok v out a va (numeral_text 16 (u32 a)) [c_0; c_x]);
      [done..|lia|apply hex_printed| |done].
    intros v' _ _. unfold pad. replace (Z.to_nat _) with 0%nat by lia.
    eapply (extends_trans _ _ _ [c_0; c_x] []); apply emit_bytes_extends.
  - rewrite Ha. cbn. eexists. split; [done|].
    destruct (emit_bytes_wrote (set_args va v) out [u8 a]); [by destruct Hw|done|]. by split.
  - rewrite Ha. cbn. eexists. split; [done|].
    destruct (emit_bytes_wrote (set_args va v) out null_text); [by destruct Hw|done|]. by split.
  - rewrite Ha. cbn. rewrite decide_True.
    2:{ right. apply ldc_nil. simpl. by rewrite (wrote_frame _ _ Hw). }
    eexists. split; [done|].
    destruct (emit_bytes_wrote (set_args va v) out null_text); [by destruct Hw|done|]. by split.
  - assert (cstr (mem v) a s) as Hc'.
    { eapply cstr_ext; [done|]. intros i Hi. by apply (wrote_frame _ _ Hw), Hsafe. }
    rewrite Ha. cbn. rewrite decide_False.
    2:{ destruct s; [done|]. intros [|Hz]; [done|]. by eapply ldc_nz. }
    rewrite (kstrlen_spec _ _ _ s) by (done || lia). cbn. eexists. split; [done|].
    destruct (emit_wrote (set_args va v) out a s); [by destruct Hw|by apply cstr_bytes|done|]. by split.
Qed.

Lemma read_safe v out p s i b :
  wrote v out → cstr m0 p s → (∀ j, 0 ≤ j ≤ Z.of_nat (length s) → safe (p + j)) →
  s !! i = Some b → ldc (mem v) (p + Z.of_nat i) = u8 b ∧ 0 < b < 256.
Proof.
  intros Hw Hc Hs Hi. unfold ldc. rewrite (wrote_frame _ _ Hw) by (apply Hs; apply lookup_lt_Some in Hi; lia).
  by destruct (cstr_lookup _ _ _ _ _ Hc Hi) as [-> ?].
Qed.

Lemma reswitch_letter fuel v out c a va text :
  wrote v out → args v = a :: va → fill_ok c v → conv_text m0 safe c a text →
  (length out + length text ≤ N)%nat → (length text ≤ fuel)%nat →
  ldc (mem v) (cur v) ≠ 0 → ldc (mem v) (cur v + 1) = conv_char c →
  ∃ v', reswitch (S fuel) sbuf v = Ok (Some v') ∧
        converted (set_cur (cur v + 1) v) v' (out ++ text) va.
Proof.
  intros Hw Ha Hfill Ht Hl Hf Hnz Hchr. cbn [reswitch]. rewrite decide_False by done.
  cbn [mem cur set_cur]. rewrite Hchr.
  assert (isdigit (conv_char c) = false) as -> by by destruct c.
  destruct (convert_spec fuel (set_cur (cur v + 1) v) out c a va text) as (v' & Hcv & Hv');
    [by destruct Hw|done|by destruct c as [| |[[]|]| | |]|done|done|done|].
  rewrite Hcv. by exists v'.
Qed.

(** A digit before the letter. *)
Lemma reswitch_digit fuel v d :
  0 ≤ d ≤ 9 → ldc (mem v) (cur v) ≠ 0 → ldc (mem v) (cur v + 1) = c_0 + d →
  reswitch (S fuel) sbuf v =
    let v := set_cur (cur v + 1) v in
    if decide (fill_tag v = 0) then reswitch fuel sbuf (set_fill (c_0 + d) (fill_num v) v)
    else if decide (fill_num v = 0) then reswitch fuel sbuf (set_fill (fill_tag v) d v)
    else reswitch fuel sbuf (break_fmt v).
Proof.
  intros Hd Hnz Hchr. cbn [reswitch]. rewrite decide_False by done. cbn [mem cur set_cur].
  rewrite Hchr. unfold isdigit. rewrite bool_decide_true by (unfold c_0, c_9; lia).
  by replace (c_0 + d - c_0) with d by lia.
Qed.

(** The digits and the letter of a conversion, from the percent sign at
    [cur]. *)
Lemma reswitch_spec fuel v out c a va text rest :
  wrote v out → args v = a :: va → fill_tag v = 0 → fill_num v = 0 →
  conv_text m0 safe c a text → (length out + length text ≤ N)%nat →
  cstr m0 (cur v) (c_percent :: conv_chars c ++ rest) →
  (∀ j, 0 ≤ j ≤ Z.of_nat (length (c_percent :: conv_chars c ++ rest)) → safe (cur v + j)) →
  (length text + 3 ≤ fuel)%nat →
  ∃ v', reswitch fuel sbuf v = Ok (Some v') ∧
    converted (set_cur (cur v + Z.of_nat (length (conv_chars c))) v) v' (out ++ text) va.
Proof.
  intros Hw Ha Hft Hfn Ht Hl Hc Hs Hf.
  assert (∀ i b v', mem v' = mem v → (c_percent :: conv_chars c ++ rest) !! i = Some b →
            0 < b < 128 → ldc (mem v') (cur v + Z.of_nat i) = b) as Hrd.
  { intros i b v' -> Hi Hb. destruct (read_safe v out _ _ i b Hw Hc Hs Hi) as [-> _].
    apply u8_small. lia. }
  assert (ldc (mem v) (cur v) = c_percent) as H0.
  { rewrite <- (Z.add_0_r (cur v)). by apply (Hrd 0%nat c_percent v). }
  destruct c as [| |[[t n]|]| | |]; cbn [conv_chars length app] in *.
  all: try (destruct fuel as [|fuel]; [lia|];
    change (cur v + Z.of_nat 1) with (cur v + 1);
    eapply reswitch_letter; [done|done| |exact Ht|done|lia|by rewrite H0|by apply (Hrd 1%nat _ v)];
    done).
  destruct fuel as [|[|[|fuel]]]; [lia..|]. assert (0 ≤ t ≤ 9 ∧ 0 ≤ n ≤ 9) as [Ht' Hn'] by by inversion Ht.
  rewrite (reswitch_digit _ _ t); [|done|by rewrite H0|apply (Hrd 1%nat _ v); unfold c_0; done || lia].
  cbv zeta. rewrite decide_True by done. cbn [cur set_cur set_fill fill_num].
  set (v1 := set_fill _ _ _).
  assert (ldc (mem v) (cur v + 1) = c_0 + t) as H1 by (apply (Hrd 1%nat _ v); unfold c_0; done || lia).
  assert (ldc (mem v) (cur v + 1 + 1) = c_0 + n) as H2.
  { replace (cur v + 1 + 1) with (cur v + Z.of_nat 2) by lia. apply (Hrd 2%nat _ v); unfold c_0; done || lia. }
  assert (ldc (mem v) (cur v + 1 + 1 + 1) = c_x) as H3.
  { replace (cur v + 1 + 1 + 1) with (cur v + Z.of_nat 3) by lia. by apply (Hrd 3%nat _ v). }
  rewrite (reswitch_digit _ v1 n); [|done|cbn; rewrite H1; unfold c_0; lia|done].
  cbv zeta. rewrite decide_False by (cbn; unfold c_0; lia). rewrite decide_True by done.
  set (v2 := set_fill _ _ _).
  destruct (reswitch_letter fuel v2 out (CX (Some (t, n))) a va text) as (v' & Hr & Hv');
    [by destruct Hw|done|done|done|done|lia|cbn; rewrite H2; unfold c_0; lia|done|].
  exists v'. split; [done|]. destruct Hv' as [Hw' Hc' Ho' Ha' Hf'].
  split; [done| |done..]. cbn in Hc' |- *. lia.
Qed.

Lemma list_find_first (c : Z) l1 l2 : c ∉ l1 → list_find (eq c) (l1 ++ c :: l2) = Some (length l1, c).
Proof.
  intros Hn. apply list_find_Some. split_and!; [by apply list_lookup_middle|done|].
  intros j y Hj Hlt ->. rewrite lookup_app_l in Hj by done. apply Hn. by eapply list_elem_of_lookup_2.
Qed.
Lemma list_find_absent (c : Z) l : c ∉ l → list_find (eq c) l = None.
Proof.
  intros Hn. apply list_find_None. apply Forall_forall. intros x Hx ->. done.
Qed.

Lemma conv_chars_last c : ∃ l, conv_chars c = l ++ [conv_char c] ∧ conv_char c ≠ c_percent.
Proof.
  destruct c as [| |[[t n]|]| | |]; [by exists []..| |by exists []|by exists []|by exists []|by exists []].
  by exists [c_0 + t; c_0 + n].
Qed.

Lemma format_loop_spec fuel items last va out v fmt flen pre out0 :
  renders m0 safe last items va out → wrote v out0 → args v = va →
  fill_tag v = 0 → fill_num v = 0 → old v = cur v + Z.of_nat (length pre) → c_percent ∉ pre →
  let s := pre ++ fmt_chars items last in
  cstr m0 (cur v) s → (∀ j, 0 ≤ j ≤ Z.of_nat (length s) → safe (cur v + j)) →
  fmt + flen = cur v + Z.of_nat (length s) + 1 →
  (length out0 + length out ≤ N)%nat → (length s + length out + 3 < fuel)%nat →
  ∃ v' out', format_loop fuel sbuf fmt flen v = Ok v' ∧ wrote v' (out0 ++ out') ∧
    out = out' ++ last ∧ old v' = fmt + flen - 1 - Z.of_nat (length last).
Proof.
  intros Hr. revert fuel v pre out0.
  induction Hr as [va Hlast|lit c items a va text out Hlit Ht Hr IH];
    intros fuel v pre out0 Hw Hargs Hft Hfn Hold Hpre s Hc Hs Hend Hlen Hf;
    (destruct fuel as [|fuel]; [lia|]); cbn [format_loop].
  all: assert (cstr (mem v) (cur v) s) as Hc' by
      (eapply cstr_ext; [done|intros; by apply (wrote_frame _ _ Hw), Hs]).
  all: assert (kstrchr fuel (mem v) (cur v) c_percent =
      Ok ((λ x, cur v + Z.of_nat x.1) <$> list_find (eq c_percent) s)) as ->
      by (apply (kstrchr_spec fuel (mem v) (cur v) s c_percent); done || lia).
  - rewrite list_find_absent by (apply not_elem_of_app; done). cbn.
    exists v, []. split_and!; [done|by rewrite app_nil_r|done|].
    unfold s in Hend. rewrite length_app in Hend. simpl in Hend. lia.
  - set (rest := fmt_chars items last) in *.
    assert (s = (pre ++ lit) ++ c_percent :: conv_chars c ++ rest) as Es.
    { unfold s. simpl. by rewrite <- app_assoc. }
    assert (length s = length pre + length lit + 1 + length (conv_chars c) + length rest)%nat as Els.
    { rewrite Es, !length_app. simpl. rewrite length_app. lia. }
    rewrite Es, list_find_first by (apply not_elem_of_app; done). cbn.
    rewrite length_app. rewrite !length_app in Hlen, Hf.
    replace (cur v + Z.of_nat (length pre + length lit) - old v) with (Z.of_nat (length lit)) by lia.
    set (p := cur v + Z.of_nat (length pre + length lit)).
    assert (wrote (emit (old v) (Z.of_nat (length lit)) v) (out0 ++ lit)) as Hw1.
    { apply emit_wrote; [done| |lia]. rewrite Hold. apply (bytes_at_app _ (cur v) pre lit).
      apply cstr_bytes in Hc'. rewrite Es in Hc'. by apply bytes_at_app in Hc' as [? _]. }
    set (v1 := set_cur p _).
    assert (cstr m0 p (c_percent :: conv_chars c ++ rest)) as Hcp.
    { rewrite Es in Hc. apply cstr_app in Hc. by rewrite length_app in Hc. }
    destruct (reswitch_spec fuel v1 (out0 ++ lit) c a va text rest) as (v2 & -> & Hv2);
      [by destruct Hw1|done|done|done|done|rewrite length_app; lia|done| |lia|].
    { intros j Hj. cbn [v1 cur set_cur]. unfold p. rewrite <- Z.add_assoc. apply Hs.
      simpl in Hj. rewrite length_app in Hj. lia. }
    cbn. destruct Hv2 as [Hw2 Hcur2 Hold2 Hargs2 [Hft2 Hfn2]]. cbn in Hcur2, Hold2.
    destruct (conv_chars_last c) as (l & El & Hlet).
    assert (length (conv_chars c) = length l + 1)%nat as Ell by (rewrite El, length_app; done).
    rewrite decide_True by lia.
    destruct (IH fuel (set_old (cur v2 + 1) v2) [conv_char c] ((out0 ++ lit) ++ text))
      as (v' & out' & Hv' & Hw' & -> & Hold'); cbn; try done.
    + by destruct Hw2.
    + by apply not_elem_of_cons; split; [|apply not_elem_of_nil].
    + destruct Hcp as (_ & _ & Hcp). rewrite El, <- app_assoc in Hcp. apply cstr_app in Hcp.
      rewrite Hcur2. simpl in Hcp. replace (p + Z.of_nat (length (conv_chars c)))
        with (p + 1 + Z.of_nat (length l)) by lia. done.
    + intros j Hj. rewrite Hcur2. unfold p. rewrite <- !Z.add_assoc. apply Hs. lia.
    + lia.
    + rewrite !length_app. lia.
    + lia.
    + exists v', (lit ++ text ++ out'). split_and!; [done| | |done].
      * by rewrite !app_assoc in *.
      * by rewrite !app_assoc.
Qed.

Lemma fmt_chars_last items last : ∃ q, fmt_chars items last = q ++ last.
Proof.
  induction items as [|[lit c] items [q Hq]]; [by exists []|]. simpl. rewrite Hq.
  exists (lit ++ c_percent :: conv_chars c ++ q). by rewrite <- !app_assoc, <- app_comm_cons, <- app_assoc.
Qed.

Lemma vsnprintf_spec fuel size fmt items last va out :
  renders m0 safe last items va out →
  let s := fmt_chars items last in
  s ≠ [] → cstr m0 fmt s → (∀ j, 0 ≤ j ≤ Z.of_nat (length s) → safe (fmt + j)) →
  (length out < N)%nat → (length s + length out + 3 < fuel)%nat → Z.of_nat (length s) + 1 < 2 ^ 32 →
  ∃ m', vsnprintf fuel sbuf buf size fmt va m0 = Ok (Z.of_nat (length out) + 1, m') ∧
    bytes_at m' buf (out ++ [0]) ∧ ∀ a, safe a → m' a = m0 a.
Proof.
  intros Hr s Hne Hc Hs HN Hf H32. unfold vsnprintf.
  rewrite (kstrlen_spec _ _ _ s) by (done || lia). cbn.
  destruct (format_loop_spec fuel items last va out (Vsn fmt fmt buf 0 0 0 va m0) fmt
    (Z.of_nat (length s) + 1) [] []) as (v' & out' & -> & Hw & -> & Hold);
    cbn [cur old args fill_tag fill_num app length]; try (done || lia).
  { split; cbn; [by intros j c ?|lia|lia|done]. }
  { apply not_elem_of_nil. }
  { fold s. lia. }
  cbn [mbind outcome_bind]. rewrite app_nil_l in Hw. destruct (fmt_chars_last items last) as [q Eq]. fold s in Eq.
  assert (Z.of_nat (length s) = Z.of_nat (length q) + Z.of_nat (length last)) as Hls
    by (rewrite Eq, length_app; lia).
  rewrite length_app in HN.
  assert (fmt + (Z.of_nat (length s) + 1) - old v' = Z.of_nat (length (last ++ [0]))) as ->.
  { rewrite length_app. simpl. lia. }
  rewrite u32_small by (unfold is_u32; rewrite length_app; simpl; lia).
  assert (wrote (emit (old v') (Z.of_nat (length (last ++ [0]))) v') (out' ++ last ++ [0])) as [Hb Hp _ Hfr].
  { apply emit_wrote; [done| |rewrite !length_app; simpl; lia].
    replace (old v') with (fmt + Z.of_nat (length q)) by lia.
    assert (cstr (mem v') fmt s) as Hc'.
    { eapply cstr_ext; [done|]. intros j Hj. apply (wrote_frame _ _ Hw). by apply Hs. }
    rewrite Eq in Hc'. apply cstr_app in Hc'. apply bytes_at_app. split; [by apply cstr_bytes|].
    intros [|j] c Hj; [|done]. injection Hj as <-. rewrite Z.add_0_r. by apply cstr_end. }
  cbn [pos emit] in Hp. eexists. split.
  { do 2 f_equal. repeat rewrite length_app in Hp. rewrite !length_app. cbn [length] in *. lia. }
  rewrite <- app_assoc. done.
Qed.
End vsnprintf.

(** ** Reading printed numbers back *)

Lemma numeral_text_head i :
  0 < i < 2 ^ 32 → head (numeral_text 10 i) ≠ Some c_0.
Proof.
  intros Hi. unfold numeral_text.
  destruct (count_loop_spec 10 ltac:(lia) 32 i 0) as (k & -> & Hk & Hlt & Hge & _); [done || lia|].
  rewrite Z.add_0_l. unfold numeral_of. rewrite (seqZ_cons 0 (k + 1)) by lia. simpl.
  rewrite Z.sub_0_r. rewrite Z.pow_add_r, Z.pow_1_r in Hlt by lia.
  assert (0 < 10 ^ k) by (apply Z.pow_pos_nonneg; lia).
  assert (1 ≤ i / 10 ^ k < 10) as Hq.
  { split; [apply Z.div_le_lower_bound; destruct Hge as [->|]; simpl in *; lia|].
    apply Z.div_lt_upper_bound; lia. }
  unfold digit_at. rewrite Z.mod_small by lia. revert Hq. generalize (i / 10 ^ k). intros d Hd.
  assert (d ∈ seqZ 1 9) as Hin by (apply elem_of_seqZ; lia). cbn in Hin.
  repeat (apply elem_of_cons in Hin as [->|Hin]; [done|]). by apply elem_of_nil in Hin.
Qed.

Lemma numeral_text_value base i :
  2 ≤ base ≤ 16 → is_u32 i →
  ∃ ds, numeral base (numeral_text base i) ds ∧ value base ds = i.
Proof.
  intros Hb Hi. unfold numeral_text.
  destruct (count_loop_spec base Hb 32 i 0) as (k & -> & Hk & Hlt & _ & _); [done|].
  rewrite Z.add_0_l. exists (numeral_of base i k).
  split; [by apply numeral_of_numeral|apply numeral_of_value; [done..|unfold is_u32 in *; lia]].
Qed.

(** The text a %d or a %p conversion writes. *)
Definition number_text (c : conv) (n : Z) : list Z :=
  match c with CP => [c_0; c_x] ++ numeral_text 16 n | _ => signed_text (s32 n) end.

Lemma strtoul_unsigned fuel m p sg i :
  is_u32 i → cstr m p (sign_chars sg ++ numeral_text 10 i) → (11 ≤ fuel)%nat →
  strtoul fuel m p = Ok (signed_value sg i).
Proof.
  intros Hi Hc Hf. pose proof (numeral_text_bound 10 i ltac:(lia) Hi) as Hb.
  assert (numeral_text 10 i ≠ []) as Hne by (intros E; rewrite E in Hb; simpl in Hb; lia).
  destruct (decide (i = 0)) as [->|Hnz].
  - apply (strtoul_spec fuel m p [] sg 8 (numeral_text 10 0) [0]); try (done || simpl; lia).
    + right. by left.
    + by repeat constructor.
  - destruct (numeral_text_value 10 i ltac:(lia) Hi) as (ds & Hn & Hv). rewrite <- Hv.
    apply (strtoul_spec fuel m p [] sg 10 (numeral_text 10 i)); try (done || simpl; lia).
    + right. right. split; [done|]. apply numeral_text_head. unfold is_u32 in *. lia.
Qed.

Lemma strtoul_number_text fuel m p c n :
  is_u32 n → s32 n ≠ - 2 ^ 31 → cstr m p (number_text c n) → (11 ≤ fuel)%nat →
  strtoul fuel m p = Ok n.
Proof.
  intros Hn Hmin Hc Hf.
  assert (c = CP ∨ cstr m p (signed_text (s32 n))) as [->|Hc'] by (destruct c; auto).
  - destruct (numeral_text_value 16 n ltac:(lia) Hn) as (ds & Hnum & Hv).
    pose proof (numeral_text_bound 16 n ltac:(lia) Hn) as Hb.
    rewrite (strtoul_spec fuel m p [] NoSign 16 (numeral_text 16 n) ds); try (done || simpl; lia).
    + unfold signed_value, saturate. rewrite Hv. rewrite decide_True; [done|].
      unfold is_u32, ULONG_MAX in *. lia.
    + intros E. rewrite E in Hb. simpl in Hb. lia.
    + by left.
  - pose proof (s32_range n). assert (s32 n = n ∨ s32 n = n - 2 ^ 32) as Hs.
    { unfold s32, is_u32 in *. destruct (decide (n < 2 ^ 31)).
      - left. rewrite Z.mod_small; lia.
      - right. replace (n + 2 ^ 31) with (n - 2 ^ 31 + 1 * 2 ^ 32) by lia.
        rewrite Z.mod_add, Z.mod_small; lia. }
    unfold signed_text in Hc'. unfold is_u32 in Hn. case_decide.
    + rewrite (strtoul_unsigned fuel m p Minus (- s32 n)); [|unfold is_u32; lia|done|done].
      unfold signed_value. rewrite decide_True by (unfold ULONG_MAX; lia). f_equal.
      rewrite Z.opp_involutive. destruct Hs as [E|E]; [lia|]. rewrite E. unfold u32.
      replace (n - 2 ^ 32) with (n + (-1) * 2 ^ 32) by lia. rewrite Z.mod_add, Z.mod_small; lia.
    + rewrite (strtoul_unsigned fuel m p NoSign (s32 n)); [|unfold is_u32; lia|done|done].
      unfold signed_value, saturate. rewrite decide_True by (unfold ULONG_MAX; lia). f_equal. lia.
Qed.

Lemma number_text_bytes c n : Forall (λ b, 0 < b < 256) (number_text c n).
Proof.
  assert (∀ i, Forall (λ b, 0 < b < 256) (signed_text i)) as Hs.
  { intros i. unfold signed_text. case_decide; [constructor; [done|]|]; by apply numeral_text_chars. }
  destruct c; try apply Hs. simpl. repeat constructor. by apply numeral_text_chars.
Qed.

Lemma number_text_len c n :
  s32 n ≠ - 2 ^ 31 → is_u32 n → (length (number_text c n) ≤ 12)%nat.
Proof.
  intros Hs Hn. pose proof (s32_range n). pose proof (signed_text_bound (s32 n) ltac:(lia)).
  pose proof (numeral_text_bound 16 n ltac:(lia) Hn). destruct c; simpl; lia.
Qed.

(** ** Properties *)


(** The call snprintf(buf, 64, "n=%08x s=%s", 48879, "hi"). *)
Definition example_mem : memory :=
  mem_at 100 [110; 61; 37; 48; 56; 120; 32; 115; 61; 37; 115; 0; 104; 105; 0].


(** A number printed with %d or %p is read back by [strtoul], for every
    32-bit word but the one whose negation overflows. *)
Theorem printf_strtoul_roundtrip m0 buf sbuf fuel size fmt c n :
  c = CD ∨ c = CP → is_u32 n → s32 n ≠ - 2 ^ 31 →
  (∀ a, buf ≤ a < buf + 14 → ¬ (sbuf ≤ a < sbuf + 12)) →
  cstr m0 fmt (c_percent :: conv_chars c) → (∀ j, 0 ≤ j ≤ 2 → safe buf sbuf 14 (fmt + j)) →
  (20 ≤ fuel)%nat →
  ∃ len m', vsnprintf fuel sbuf buf size fmt [n] m0 = Ok (len, m') ∧ strtoul fuel m' buf = Ok n.
Proof.
  intros Hc Hn Hmin Hap Hfmt Hs Hf. pose proof (number_text_len c n Hmin Hn).
  destruct (vsnprintf_spec m0 buf sbuf 14 Hap fuel size fmt [([], c)] [] [n] (number_text c n))
    as (m' & Hv & Hb & _); try done; cbn; rewrite ?app_nil_r; try done; try lia.
  - rewrite <- (app_nil_r (number_text c n)), <- (app_nil_l (number_text c n ++ [])).
    constructor; [apply not_elem_of_nil| |constructor; apply not_elem_of_nil].
    destruct Hc as [-> | ->]; simpl.
    + by apply ct_d.
    + rewrite <- (u32_small n Hn) at 2. apply ct_p.
  - destruct Hc as [-> | ->]; simpl; intros j Hj; apply Hs; lia.
  - destruct Hc as [-> | ->]; simpl in *; lia.
  - destruct Hc as [-> | ->]; simpl in *; lia.
  - exists (Z.of_nat (length (number_text c n)) + 1), m'. split; [done|].
    apply (strtoul_number_text fuel m' buf c n); [done..| |lia].
    apply bytes_at_app in Hb as [Hb He]. apply bytes_at_cstr; [done|apply number_text_bytes|].
    rewrite <- (He 0%nat 0 eq_refl). f_equal. lia.
Qed.

Lemma printf_strtoul_roundtrip_witness :
  ∃ len m', vsnprintf 20 2000 1000 14 100 [2 ^ 32 - 5] (mem_at 100 [37; 100; 0]) = Ok (len, m') ∧
            strtoul 20 m' 1000 = Ok (2 ^ 32 - 5).
Proof.
  apply (printf_strtoul_roundtrip _ _ _ _ _ _ CD);
    [by left|done|done|intros; lia|by vm_compute|unfold safe; intros; lia|lia].
Defined.

(** [LONG_MIN] has no negation: its digits are read from before the table. *)
Example sprint_long_min m : sprint_int_signed 0 (- 2 ^ 31) 10 m = Fault.
Proof. done. Qed.
