(* ===== verification/Buddy.v ===== *)
(** * Partitions into buddy piles

    The specification of the page allocator: the pages [lo, hi) of a zone are
    partitioned into aligned piles of 2^k pages, [F] the free ones and [A] the
    ones handed out, and no two free piles could be joined.  The lemmas give
    the moves of the allocator (take, split, join, give back) on partitions. *)

From S2P Require Import Prelude.

Definition blocks : Type := gset (Z * Z).

(** The pile [(i, k)] is the pages i, ..., i + 2^k - 1. *)
Definition within (x i k : Z) : Prop := i ≤ x < i + 2 ^ k.

Record wf (lo hi top : Z) (F A : blocks) : Prop := {
  wf_block i k : (i, k) ∈ F ∪ A → 0 ≤ k ≤ top ∧ (2 ^ k | i) ∧ lo ≤ i ∧ i + 2 ^ k ≤ hi;
  wf_disj i k j l x :
    (i, k) ∈ F ∪ A → (j, l) ∈ F ∪ A → within x i k → within x j l → i = j ∧ k = l;
  wf_sep i k : (i, k) ∈ F → (i, k) ∉ A;
  wf_cover x : lo ≤ x < hi → ∃ i k, (i, k) ∈ F ∪ A ∧ within x i k;
  wf_max i k : (i, k) ∈ F → (i + 2 ^ k, k) ∈ F → (2 ^ (k + 1) | i) → k = top;
}.

Lemma pow2_pos k : 0 ≤ k → 0 < 2 ^ k.
Proof. intros. apply Z.pow_pos_nonneg; lia. Qed.
Lemma pow2_succ k : 0 ≤ k → 2 ^ (k + 1) = 2 * 2 ^ k.
Proof. intros. rewrite Z.pow_add_r, Z.pow_1_r by lia. lia. Qed.
Lemma within_start i k : 0 ≤ k → within i i k.
Proof. intros. pose proof (pow2_pos k). unfold within. lia. Qed.

Section wf.
Context (lo hi top : Z).
Implicit Types (F A : blocks).

(** A pile that is handed out is not free, and no free pile starts at the same
    page. *)
Lemma wf_alloc_not_free F A i k l : wf lo hi top F A → (i, k) ∈ A → (i, l) ∉ F.
Proof.
  intros H HA HF. destruct (wf_block _ _ _ _ _ H i k) as [? _]; [set_solver|].
  destruct (wf_block _ _ _ _ _ H i l) as [? _]; [set_solver|].
  destruct (wf_disj _ _ _ _ _ H i k i l i) as [_ ->]; [set_solver..|apply within_start; lia|apply within_start; lia|].
  by apply (wf_sep _ _ _ _ _ H i l).
Qed.

Lemma wf_take F A i k :
  wf lo hi top F A → (i, k) ∈ F → wf lo hi top (F ∖ {[(i, k)]}) ({[(i, k)]} ∪ A).
Proof.
  intros H HF.
  assert (F ∖ {[(i, k)]} ∪ ({[(i, k)]} ∪ A) = F ∪ A) as E.
  { apply set_eq. intros x. destruct (decide (x = (i, k))); set_solver. }
  constructor; rewrite ?E; try apply H.
  - intros j l Hjl. pose proof (wf_sep _ _ _ _ _ H j l). set_solver.
  - intros j l Hj Hj'. apply (wf_max _ _ _ _ _ H); set_solver.
Qed.

(** Giving a pile back is fine when its buddy is not free. *)
Lemma wf_give F A i k :
  wf lo hi top F A → (i, k) ∈ A →
  (k < top → (2 ^ (k + 1) | i) → (i + 2 ^ k, k) ∉ F) →
  (k < top → (2 ^ (k + 1) | i - 2 ^ k) → (i - 2 ^ k, k) ∉ F) →
  wf lo hi top ({[(i, k)]} ∪ F) (A ∖ {[(i, k)]}).
Proof.
  intros H HA Hr Hl. destruct (wf_block _ _ _ _ _ H i k) as (Hk & _); [set_solver|].
  pose proof (pow2_pos k ltac:(lia)).
  assert ({[(i, k)]} ∪ F ∪ (A ∖ {[(i, k)]}) = F ∪ A) as E.
  { apply set_eq. intros x. destruct (decide (x = (i, k))); set_solver. }
  constructor; rewrite ?E; try apply H.
  - intros j l [?|Hjl]%elem_of_union; [set_solver|]. pose proof (wf_sep _ _ _ _ _ H j l). set_solver.
  - intros j l [Ej|Hj]%elem_of_union [Ej'|Hj']%elem_of_union Hd.
    + apply elem_of_singleton in Ej, Ej'. simplify_eq. lia.
    + apply elem_of_singleton in Ej. simplify_eq. destruct (decide (k = top)); [done|].
      exfalso. by apply Hr; [lia|..].
    + apply elem_of_singleton in Ej'. injection Ej' as E1 <-. subst i.
      destruct (decide (l = top)); [done|]. exfalso.
      replace (j + 2 ^ l - 2 ^ l) with j in Hl by lia. by apply Hl; [lia|..].
    + by apply (wf_max _ _ _ _ _ H j l).
Qed.

Lemma within_split x i k : 0 ≤ k → within x i (k + 1) ↔ within x i k ∨ within x (i + 2 ^ k) k.
Proof. intros. unfold within. rewrite pow2_succ by lia. pose proof (pow2_pos k). lia. Qed.

Lemma div_pow2_le (a b x : Z) : 0 ≤ a ≤ b → (2 ^ b | x) → (2 ^ a | x).
Proof.
  intros Hab Hd. etrans; [|done]. exists (2 ^ (b - a)). rewrite <- Z.pow_add_r by lia. f_equal. lia.
Qed.

(** Splitting a pile that is handed out. *)
Lemma wf_split F A i k :
  wf lo hi top F A → 0 ≤ k → (i, k + 1) ∈ A →
  wf lo hi top F ({[(i, k)]} ∪ ({[(i + 2 ^ k, k)]} ∪ A ∖ {[(i, k + 1)]})).
Proof.
  intros H Hk HA. pose proof (pow2_pos k Hk).
  destruct (wf_block _ _ _ _ _ H i (k + 1)) as (Hk1 & Hd & Hlo & Hhi); [set_solver|].
  rewrite pow2_succ in Hhi by lia. set (A' := _ ∪ (_ ∪ _)).
  assert (∀ j l, (j, l) ∈ F ∪ A' ↔
            (j = i ∧ l = k) ∨ (j = i + 2 ^ k ∧ l = k) ∨ ((j, l) ∈ F ∪ A ∧ (j, l) ≠ (i, k + 1))) as HA'.
  { intros j l. unfold A'. pose proof (wf_sep _ _ _ _ _ H j l).
    destruct (decide ((j, l) = (i, k + 1))) as [E|].
    - simplify_eq. set_unfold. naive_solver lia.
    - set_unfold. naive_solver. }
  (* every pile of the new partition lies in one of the old one *)
  assert (∀ j l x, (j, l) ∈ F ∪ A' → within x j l →
            (within x i (k + 1) ∧ l = k ∧ (j = i ∨ j = i + 2 ^ k)) ∨ ((j, l) ∈ F ∪ A ∧ (j, l) ≠ (i, k + 1))) as Hin.
  { intros j l x [[-> ->]|[[-> ->]|?]]%HA' Hx; [left..|by right]; (split; [rewrite within_split by lia; tauto|tauto]). }
  constructor.
  - intros j l [[-> ->]|[[-> ->]|[Hj _]]]%HA'; [| |by apply H].
    + split_and!; [lia..|by apply (div_pow2_le _ (k + 1)); [lia|]|lia|lia].
    + split_and!; [lia..| |lia|lia]. apply Z.divide_add_r; [by apply (div_pow2_le _ (k + 1)); [lia|]|done].
  - intros j l j' l' x Hj Hj' Hx Hx'.
    destruct (Hin _ _ _ Hj Hx) as [(Hx1 & -> & Hji)|[Hj1 Hne]];
      destruct (Hin _ _ _ Hj' Hx') as [(Hx1' & -> & Hji')|[Hj1' Hne']].
    + unfold within in *. lia.
    + exfalso. apply Hne'. destruct (wf_disj _ _ _ _ _ H i (k + 1) j' l' x) as [<- <-]; set_solver.
    + exfalso. apply Hne. destruct (wf_disj _ _ _ _ _ H i (k + 1) j l x) as [<- <-]; set_solver.
    + by apply (wf_disj _ _ _ _ _ H j l j' l' x).
  - intros j l HF. pose proof (wf_sep _ _ _ _ _ H j l HF). unfold A'.
    assert (∀ y, within y i (k + 1) → within y j l → False) as Hno.
    { intros y Hy Hy'. destruct (wf_disj _ _ _ _ _ H i (k + 1) j l y) as [<- <-]; set_solver. }
    set_unfold. intros [E|[E|[? _]]]; [..|done]; simplify_eq.
    + apply (Hno i); [apply within_start; lia|apply within_start; lia].
    + apply (Hno (i + 2 ^ k)); [|apply within_start; lia].
      apply within_split; [lia|right; apply within_start; lia].
  - intros x Hx. destruct (wf_cover _ _ _ _ _ H x Hx) as (j & l & Hj & Hxj).
    destruct (decide ((j, l) = (i, k + 1))) as [E|Hne].
    + simplify_eq. apply within_split in Hxj as [?|?]; [..|lia].
      * exists i, k. split; [apply HA'; tauto|done].
      * exists (i + 2 ^ k), k. split; [apply HA'; tauto|done].
    + exists j, l. split; [apply HA'; tauto|done].
  - apply H.
Qed.

(** Joining two buddies that are handed out. *)
Lemma wf_join F A i k :
  wf lo hi top F A → (i, k) ∈ A → (i + 2 ^ k, k) ∈ A → (2 ^ (k + 1) | i) → k < top →
  wf lo hi top F ({[(i, k + 1)]} ∪ A ∖ {[(i, k)]} ∖ {[(i + 2 ^ k, k)]}).
Proof.
  intros H H1 H2 Hd Hkt.
  destruct (wf_block _ _ _ _ _ H i k) as (Hk & _ & Hlo & _); [set_solver|].
  destruct (wf_block _ _ _ _ _ H (i + 2 ^ k) k) as (_ & _ & _ & Hhi); [set_solver|].
  pose proof (pow2_pos k ltac:(lia)). set (A' := _ ∪ _).
  assert (∀ j l, (j, l) ∈ F ∪ A' ↔
    (j = i ∧ l = k + 1) ∨ ((j, l) ∈ F ∪ A ∧ (j, l) ≠ (i, k) ∧ (j, l) ≠ (i + 2 ^ k, k))) as HA'.
  { intros j l. unfold A'. pose proof (wf_sep _ _ _ _ _ H j l). set_unfold. naive_solver. }
  (* a page of the new pile is in one of the two old ones *)
  assert (∀ j l x, (j, l) ∈ F ∪ A → within x j l → within x i (k + 1) →
            (j, l) = (i, k) ∨ (j, l) = (i + 2 ^ k, k)) as Hin.
  { intros j l x Hj Hx Hw. apply within_split in Hw as [Hw|Hw]; [| |lia].
    - left. destruct (wf_disj _ _ _ _ _ H j l i k x) as [-> ->]; set_solver.
    - right. destruct (wf_disj _ _ _ _ _ H j l (i + 2 ^ k) k x) as [-> ->]; set_solver. }
  constructor.
  - intros j l [[-> ->]|[Hj _]]%HA'; [|by apply H]. rewrite pow2_succ by lia.
    rewrite pow2_succ in Hd by lia. split_and!; [lia..|done|lia|lia].
  - intros j l j' l' x [[-> ->]|(Hj & Hn1 & Hn2)]%HA' [[-> ->]|(Hj' & Hn1' & Hn2')]%HA' Hx Hx'; [done|..].
    + exfalso. by destruct (Hin j' l' x) as [?|?].
    + exfalso. by destruct (Hin j l x) as [?|?].
    + by apply (wf_disj _ _ _ _ _ H j l j' l' x).
  - intros j l HF. pose proof (wf_sep _ _ _ _ _ H j l HF). unfold A'. set_unfold.
    intros [E|[[? _] _]]; [|done]. simplify_eq.
    destruct (Hin i (k + 1) i) as [E|E]; [set_solver|apply within_start; lia|apply within_start; lia|..];
      injection E; lia.
  - intros x Hx. destruct (wf_cover _ _ _ _ _ H x Hx) as (j & l & Hj & Hxj).
    destruct (decide (within x i (k + 1))) as [Hw|Hw].
    + exists i, (k + 1). split; [apply HA'; tauto|done].
    + exists j, l. split; [|done]. apply HA'. right.
      rewrite within_split in Hw by lia. split_and!; [done|..]; intros E; simplify_eq; tauto.
  - apply H.
Qed.

(** Aligned piles that share a page are nested. *)
Lemma nested i k j l x :
  0 ≤ k ≤ l → (2 ^ k | i) → (2 ^ l | j) → within x i k → within x j l →
  j ≤ i ∧ i + 2 ^ k ≤ j + 2 ^ l.
Proof.
  intros Hkl [a ->] [b ->] Hx Hx'. unfold within in *. pose proof (pow2_pos k ltac:(lia)).
  assert (2 ^ l = 2 ^ (l - k) * 2 ^ k) as E by (rewrite <- Z.pow_add_r by lia; f_equal; lia).
  rewrite E in *. set (c := 2 ^ (l - k)) in *.
  assert (b * c ≤ a) by nia. assert (a < b * c + c) by nia. nia.
Qed.

Lemma buddy_cases i k :
  0 ≤ k → (2 ^ k | i) → (2 ^ (k + 1) | i) ∨ (2 ^ (k + 1) | i - 2 ^ k).
Proof.
  intros Hk [a ->]. rewrite pow2_succ by lia. destruct (Z.Even_or_Odd a) as [[b ->]|[b ->]].
  - left. exists b. lia.
  - right. exists b. lia.
Qed.

(** A free pile of one partition cannot lie strictly inside a free pile of
    another partition with the same piles handed out. *)
Lemma wf_no_refine F F' A j l :
  wf lo hi top F A → wf lo hi top F' A → (j, l) ∈ F' →
  ∀ n i k, Z.to_nat k = n → (i, k) ∈ F → within i j l → k < l → False.
Proof.
  intros H H' Hj' n. induction n as [n IH] using lt_wf_ind. intros i k Hn Hi Hij Hkl.
  destruct (wf_block _ _ _ _ _ H i k) as (Hk & Hd & _); [set_solver|].
  destruct (wf_block _ _ _ _ _ H' j l) as (Hl & Hdl & Hlo & Hhi); [set_solver|].
  pose proof (pow2_pos k ltac:(lia)).
  assert (∃ b, within b j l ∧ (2 ^ k | b) ∧ b ≠ i ∧
    ((b = i + 2 ^ k ∧ (2 ^ (k + 1) | i)) ∨ (i = b + 2 ^ k ∧ (2 ^ (k + 1) | b)))) as (b & Hb & Hdb & Hbi & Hbud).
  { destruct (buddy_cases i k) as [He|He]; [lia|done|..].
    - exists (i + 2 ^ k). split_and!; [|by apply Z.divide_add_r|lia|by left].
      destruct (nested i (k + 1) j l i) as [? Hle]; [lia|done..|apply within_start; lia|done|].
      rewrite pow2_succ in Hle by lia. unfold within in *. lia.
    - exists (i - 2 ^ k). split_and!; [|by apply Z.divide_sub_r|lia|right; split; [lia|done]].
      destruct (nested (i - 2 ^ k) (k + 1) j l i) as [? Hle]; [lia|done..| |done|].
      { unfold within. rewrite pow2_succ by lia. lia. }
      unfold within in *. lia. }
  destruct (wf_cover _ _ _ _ _ H b) as (j1 & l1 & Hj1 & Hb1); [unfold within in *; lia|].
  apply elem_of_union in Hj1 as [Hj1|Hj1].
  2:{ destruct (wf_disj _ _ _ _ _ H' j1 l1 j l b) as [-> ->]; [set_solver..|].
      by apply (wf_sep _ _ _ _ _ H' j l). }
  destruct (wf_block _ _ _ _ _ H j1 l1) as (Hl1 & Hd1 & _); [set_solver|].
  destruct (Z.lt_trichotomy l1 k) as [Hlt|[->|Hgt]].
  - apply (IH (Z.to_nat l1) ltac:(lia) j1 l1 eq_refl Hj1); [|lia].
    destruct (nested j1 l1 j l b) as [? Hle]; [lia|done..|]. pose proof (pow2_pos l1). unfold within. lia.
  - destruct (nested j1 k b k b) as [? Hle]; [lia|done..|apply within_start; lia|].
    assert (j1 = b) as -> by (unfold within in *; lia). destruct Hbud as [[-> He]|[-> He]].
    + assert (k = top); [|lia]. by apply (wf_max _ _ _ _ _ H i k).
    + assert (k = top); [|lia]. by apply (wf_max _ _ _ _ _ H b k).
  - destruct (wf_disj _ _ _ _ _ H i k j1 l1 i) as [_ ?]; [set_solver..|apply within_start; lia| |lia].
    destruct Hbud as [[-> He]|[-> He]].
    + destruct (nested i (k + 1) j1 l1 (i + 2 ^ k)) as [? ?]; [lia|done..| |done|].
      { unfold within. rewrite pow2_succ by lia. lia. }
      unfold within in *. lia.
    + destruct (nested b (k + 1) j1 l1 b) as [? Hle]; [lia|done..|apply within_start; lia|done|].
      rewrite pow2_succ in Hle by lia. unfold within in *. lia.
Qed.

Lemma wf_unique_sub F F' A : wf lo hi top F A → wf lo hi top F' A → F ⊆ F'.
Proof.
  intros H H' [i k] Hi.
  destruct (wf_block _ _ _ _ _ H i k) as (Hk & Hd & Hlo & Hhi); [set_solver|].
  pose proof (pow2_pos k ltac:(lia)).
  destruct (wf_cover _ _ _ _ _ H' i) as (j & l & Hj & Hij); [lia|].
  apply elem_of_union in Hj as [Hj|Hj].
  2:{ destruct (wf_disj _ _ _ _ _ H i k j l i) as [-> ->]; [set_solver..|apply within_start; lia|done|].
      by destruct (wf_sep _ _ _ _ _ H j l). }
  destruct (wf_block _ _ _ _ _ H' j l) as (Hl & Hdl & _); [set_solver|].
  destruct (Z.lt_trichotomy k l) as [Hlt|[->|Hgt]].
  - exfalso. by apply (wf_no_refine F F' A j l H H' Hj _ i k eq_refl).
  - destruct (nested i l j l i) as [? ?]; [lia|done..|apply within_start; lia|done|].
    by assert (i = j) as -> by lia.
  - exfalso. apply (wf_no_refine F' F A i k H' H Hi _ j l eq_refl Hj); [|done].
    destruct (nested j l i k i) as [? ?]; [lia|done..|apply within_start; lia|].
    unfold within. pose proof (pow2_pos l ltac:(lia)). lia.
Qed.

(** The piles handed out determine the free piles. *)
Lemma wf_unique F F' A : wf lo hi top F A → wf lo hi top F' A → F = F'.
Proof. intros. apply set_eq. intros x. split; eapply wf_unique_sub; done. Qed.
End wf.

(** Partitions that grow at the end, as when a zone is set up. *)
Lemma wf_nil lo hi top : hi ≤ lo → wf lo hi top ∅ ∅.
Proof. intros. split; try set_solver. intros x. lia. Qed.

Lemma wf_extend lo i top F k :
  wf lo i top F ∅ → lo ≤ i → 0 ≤ k ≤ top → (2 ^ k | i) →
  (k < top → (2 ^ (k + 1) | i - 2 ^ k) → (i - 2 ^ k, k) ∉ F) →
  wf lo (i + 2 ^ k) top ({[(i, k)]} ∪ F) ∅.
Proof.
  intros H Hlo Hk Hd Hmax. pose proof (pow2_pos k ltac:(lia)).
  assert (∀ j l, (j, l) ∈ {[(i, k)]} ∪ F ∪ (∅ : blocks) ↔ (j = i ∧ l = k) ∨ (j, l) ∈ F) as HF.
  { intros j l. set_unfold. naive_solver. }
  assert (∀ j l, (j, l) ∈ F → j + 2 ^ l ≤ i ∧ 0 ≤ l ≤ top) as Hb.
  { intros j l Hj. destruct (wf_block _ _ _ _ _ H j l) as (? & ? & ? & ?); [set_solver|]. lia. }
  split.
  - intros j l Hj. apply HF in Hj as [[-> ->]|Hj]; [split_and!; (done || lia)|].
    destruct (wf_block _ _ _ _ _ H j l) as (? & ? & ? & ?); [set_solver|]. split_and!; (done || lia).
  - intros j l j' l' x Hj Hj' Hx Hx'.
    apply HF in Hj as [[-> ->]|Hj]; apply HF in Hj' as [[-> ->]|Hj']; [done|..].
    + destruct (Hb _ _ Hj'). unfold within in *. lia.
    + destruct (Hb _ _ Hj). unfold within in *. lia.
    + apply (wf_disj _ _ _ _ _ H j l j' l' x); set_solver.
  - set_solver.
  - intros x Hx. destruct (decide (x < i)) as [Hlt|Hge].
    + destruct (wf_cover _ _ _ _ _ H x) as (j & l & Hj & Hw); [lia|]. exists j, l.
      split; [apply HF; right; set_solver|done].
    + exists i, k. split; [apply HF; by left|unfold within; lia].
  - intros j l Hj Hj' Hdv.
    assert ((j = i ∧ l = k) ∨ (j, l) ∈ F) as [[-> ->]|HjF] by (apply HF; set_solver).
    { assert ((i + 2 ^ k = i ∧ k = k) ∨ (i + 2 ^ k, k) ∈ F) as [?|Hc] by (apply HF; set_solver); [lia|].
      destruct (Hb _ _ Hc). lia. }
    destruct (Hb _ _ HjF).
    assert ((j + 2 ^ l = i ∧ l = k) ∨ (j + 2 ^ l, l) ∈ F) as [[E ->]|Hc] by (apply HF; set_solver).
    + destruct (decide (k = top)); [done|]. exfalso.
      replace j with (i - 2 ^ k) in HjF, Hdv by lia. by apply Hmax; [lia|..].
    + by apply (wf_max _ _ _ _ _ H j l).
Qed.
