(* ===== verification/PageAlloc.v ===== *)
(** * The page allocator (kernel/page_alloc.c)

    A zone of physical memory is managed by a buddy allocator.  The state holds
    the list nodes the allocator uses (in a [heap] of klist0 nodes), the array
    of [struct page] of every zone and the [struct mem_zone]s.  A page pointer
    is the pair of the zone whose pool it points into and its position there.

    [zinv] is the invariant of a zone: the free lists hold aligned piles of
    2^order pages that, with the piles handed out, partition the pages of the
    zone, and no two free piles could be joined. *)

From S2P Require Import Prelude KList Klib Buddy.

(* include/page_alloc.h:30-30 MAX_ORDER *)
Definition MAX_ORDER : Z := 11.
(* include/i386/pages.h:25-25 PAGE_SIZE *)
Definition PAGE_SIZE : Z := 4096.
(* include/i386/pages.h:24-24 PAGE_SHIFT *)
Definition PAGE_SHIFT : Z := 12.
(* include/i386/pages.h:28-28 NOPAGE_ADDR *)
Definition NOPAGE_ADDR : Z := 2 ^ 32 - 1.
Definition sizeof_page : Z := 32.

(* include/mm_zone.h:28-33 zone_type *)
Definition ZONE_BOOT : Z := 0.
Definition ZONE_USER : Z := 1.
Definition ZONE_VMAP : Z := 2.
Definition NUM_ZONES : Z := 3.
(* include/page_alloc.h:45-46 ZONE_MASK *)
Definition ZONE_MASK : Z := 3.

(** The list nodes: the level heads, the [list] and [area_list] nodes of the
    pages, the [list] nodes of the zones, the two heads of zone lists, and
    the list heads other components own. *)
Inductive node :=
| Lvl (z k : Z) | Pg (z i : Z) | Area (z i : Z) | Zone (z : Z)
| GlobalInfo | MemoryInfo | Ext (n : Z).

#[global] Instance node_eq_dec : EqDecision node.
Proof. solve_decision. Defined.

(* include/page_alloc.h:34-43 page *)
Record page := Page { index : Z; virt : Z; order : Z; pzone : Z }.

(* include/mm_zone.h:36-42 mem_zone *)
Record mem_zone := MemZone { base : Z; total_pages : Z; free_pages_count : Z }.

Record pa := Pa { lists : heap node; pages : Z → Z → page; zones : Z → mem_zone }.

Definition pptr : Type := Z * Z.

Definition with_lists (f : heap node → heap node) (s : pa) : pa :=
  Pa (f (lists s)) (pages s) (zones s).
Definition set_page (p : pptr) (v : page) (s : pa) : pa :=
  Pa (lists s) (λ z i, if decide ((z, i) = p) then v else pages s z i) (zones s).
Definition page_at (s : pa) (p : pptr) : page := pages s p.1 p.2.
Definition set_order (p : pptr) (o : Z) (s : pa) : pa :=
  let v := page_at s p in set_page p (Page (index v) (virt v) o (pzone v)) s.
Definition set_zone (z : Z) (v : mem_zone) (s : pa) : pa :=
  Pa (lists s) (pages s) (λ y, if decide (y = z) then v else zones s y).

Fixpoint idx_order_loop (n : nat) (i idx : Z) : Z :=
  match n with
  | O => i
  | S n => if decide (Z.land idx 1 = 0 ∧ i < MAX_ORDER - 1)
           then idx_order_loop n (i + 1) (Z.shiftr idx 1) else i
  end.

(* kernel/page_alloc.c:56-63 idx_order *)
Definition idx_order (idx : Z) : Z := idx_order_loop 11 0 idx.
#[global] Arguments idx_order : simpl never.

(** ** Setting up a zone *)

(** The loop that initialises the page structures. *)
Fixpoint init_pages (n : nat) (z i : Z) (s : pa) : pa :=
  match n with
  | O => s
  | S n =>
      let s := with_lists (KLIST0_INIT (Pg z i)) s in
      let s := with_lists (KLIST0_INIT (Area z i)) s in
      init_pages n z (i + 1) (set_page (z, i) (Page i NOPAGE_ADDR 0 z) s)
  end.

Fixpoint init_levels (n : nat) (z i : Z) (s : pa) : pa :=
  match n with
  | O => s
  | S n => init_levels n z (i + 1) (with_lists (KLIST0_INIT (Lvl z i)) s)
  end.

(** [while ((1 << order) > pages_left) order--] *)
Fixpoint reduce_order (n : nat) (o left : Z) : Z :=
  match n with
  | O => o
  | S n => if decide (left < Z.shiftl 1 o) then reduce_order n (o - 1) left else o
  end.

(** The loop that puts the piles on their levels. *)
Fixpoint insert_piles (n : nat) (z i : Z) (s : pa) : pa :=
  match n with
  | O => s
  | S n =>
      if decide (i < total_pages (zones s z)) then
        let o := reduce_order 11 (idx_order i) (total_pages (zones s z) - i) in
        let s := set_order (z, i) o s in
        let s := with_lists (klist0_prepend (Pg z i) (Lvl z o)) s in
        insert_piles n z (i + Z.shiftl 1 o) s
      else s
  end.

Definition consumed_pages (total : Z) : Z := u32 (sizeof_page * total) / PAGE_SIZE + 1.

(* kernel/page_alloc.c:112-179 mem_zone_init *)
Definition mem_zone_init (z : Z) (s : pa) : pa :=
  let total := total_pages (zones s z) in
  let s := init_pages (Z.to_nat total) z 0 s in
  let s := init_levels (Z.to_nat MAX_ORDER) z 0 s in
  let s := with_lists (KLIST0_INIT (Zone z)) s in
  let consumed := consumed_pages total in
  let s := set_zone z (MemZone (base (zones s z)) total (u32 (total - consumed))) s in
  let s := insert_piles (Z.to_nat total) z consumed s in
  with_lists (klist0_append (Zone z) GlobalInfo) s.

(** ** Allocation *)

(** The search for a level that has a pile: the C loop leaves [i] at it. *)
Fixpoint find_level (n : nat) (z i : Z) (s : pa) : option Z :=
  match n with
  | O => None
  | S n => if decide (MAX_ORDER ≤ i) then None
           else if klist0_empty (Lvl z i) (lists s) then find_level n z (i + 1) s
           else Some i
  end.

(** [while (i-- > order)], [n] rounds above [ord]. *)
Fixpoint split_pile (n : nat) (z ord : Z) (pile : pptr) (s : pa) : pptr * pa :=
  match n with
  | O => (pile, s)
  | S n =>
      let i := ord + Z.of_nat n in
      let s := set_order pile i s in
      let s := with_lists (klist0_append (Pg pile.1 pile.2) (Lvl z i)) s in
      split_pile n z ord (pile.1, pile.2 + Z.shiftl 1 i) s
  end.

(* kernel/page_alloc.c:181-221 __alloc_pages *)
Definition __alloc_pages (flags z ord : Z) (s : pa) : outcome (option pptr * pa) :=
  match find_level 12 z ord s with
  | None => Ok (None, s)
  | Some i =>
      match next (lists s (Lvl z i)) with
      | Pg z' pile =>
          let s := with_lists (klist0_unlink (Pg z' pile)) s in
          let '(pile, s) := split_pile (Z.to_nat (i - ord)) z ord (z', pile) s in
          Ok (Some pile, set_order pile ord s)
      | _ => Fault
      end
  end.

(* kernel/page_alloc.c:223-230 alloc_pages *)
Definition alloc_pages (flags ord : Z) (s : pa) : outcome (option pptr * pa) :=
  let z := Z.land flags ZONE_MASK in
  if decide (z < NUM_ZONES) then __alloc_pages flags z ord s else Fault.

(* kernel/page_alloc.c:232-238 page_to_addr *)
Definition page_to_addr (p : pptr) (s : pa) : Z :=
  u32 (base (zones s (pzone (page_at s p))) + index (page_at s p) * PAGE_SIZE).

(** The walk over the zones in [addr_to_page]. *)
Fixpoint zone_walk (fuel : nat) (addr : Z) (tmp : node) (s : pa) : outcome (option pptr) :=
  match fuel with
  | O => Hang
  | S f =>
      match tmp with
      | GlobalInfo => Ok None
      | Zone z =>
          let zn := zones s z in
          if decide (base zn < addr ∧ addr < u32 (base zn + u32 (total_pages zn * PAGE_SIZE)))
          then Ok (Some (z, (addr - base zn) / PAGE_SIZE))
          else zone_walk f addr (next (lists s tmp)) s
      | _ => Fault
      end
  end.

(* kernel/page_alloc.c:240-263 addr_to_page *)
Definition addr_to_page (fuel : nat) (addr : Z) (s : pa) : outcome (option pptr) :=
  zone_walk fuel addr (next (lists s GlobalInfo)) s.

(* kernel/page_alloc.c:325-331 get_pages *)
Definition get_pages (flags ord : Z) (s : pa) : outcome (Z * pa) :=
  '(p, s) ← alloc_pages flags ord s;
  match p with
  | Some p => Ok (page_to_addr p s, s)
  | None => Fault (* page_to_addr(NULL) reads page->zone *)
  end.

(* include/page_alloc.h:53-54 INPAGES *)
Definition INPAGES (x : Z) : Z := Z.shiftr (roundup_l2 x PAGE_SIZE) PAGE_SHIFT.

(* include/page_alloc.h:56-59 get_pages_to_fit *)
Definition get_pages_to_fit (flags size : Z) (s : pa) : outcome (Z * pa) :=
  get_pages flags (log2 (INPAGES size)) s.

(** ** Release *)

Inductive neighbour := Left (q : pptr) | Right (q : pptr).

(** The search for a neighbour on the level of [pg], up to the break. *)
Fixpoint seek_neighbour (fuel : nat) (tmp head : node) (p : pptr) (ord : Z) (s : pa)
    : outcome (option neighbour) :=
  match fuel with
  | O => Hang
  | S f =>
      if decide (tmp = head) then Ok None
      else match tmp with
      | Pg z q =>
          if decide (z ≠ p.1) then Fault
          else if decide (p.2 - q = Z.shiftl 1 ord ∧ ord < idx_order (index (page_at s (z, q))))
          then Ok (Some (Left (z, q)))
          else if decide (q - p.2 = Z.shiftl 1 ord ∧ ord < idx_order (index (page_at s p)))
          then Ok (Some (Right (z, q)))
          else seek_neighbour f (next (lists s tmp)) head p ord s
      | _ => Fault
      end
  end.

(** The do-while loop of [free_pages]: the page that heads the joined pile.
    A level has at most one pile per page of the zone. *)
Fixpoint join_piles (n : nat) (z : Z) (p : pptr) (s : pa) : outcome (pptr * pa) :=
  match n with
  | O => Hang
  | S n =>
      let ord := order (page_at s p) in
      let head := Lvl z ord in
      nb ← seek_neighbour (S (Z.to_nat (total_pages (zones s z)))) (next (lists s head)) head p ord s;
      let '(p, s) :=
        match nb with
        | Some (Left q) =>
            let s := with_lists (klist0_unlink (Pg q.1 q.2)) s in
            (q, set_order q (u32 (order (page_at s q) + 1)) s)
        | Some (Right q) =>
            let s := with_lists (klist0_unlink (Pg q.1 q.2)) s in
            (p, set_order p (u32 (order (page_at s p) + 1)) s)
        | None => (p, s)
        end in
      if decide (order (page_at s p) < MAX_ORDER ∧ ord ≠ order (page_at s p))
      then join_piles n z p s else Ok (p, s)
  end.

(* kernel/page_alloc.c:341-382 free_pages *)
Definition free_pages (p : pptr) (s : pa) : outcome pa :=
  let z := pzone (page_at s p) in
  '(p, s) ← join_piles 12 z p s;
  let ord := order (page_at s p) in
  if decide (MAX_ORDER ≤ ord) then Fault else
  let s := with_lists (klist0_append (Pg p.1 p.2) (Lvl z ord)) s in
  Ok (if klist0_empty (Area p.1 p.2) (lists s) then s
      else with_lists (klist0_unlink (Area p.1 p.2)) s).

(* kernel/page_alloc.c:333-339 put_pages *)
Definition put_pages (fuel : nat) (addr : Z) (s : pa) : outcome pa :=
  p ← addr_to_page fuel addr s;
  match p with Some p => free_pages p s | None => Fault end.

Fixpoint free_list (fuel : nat) (tmp head : node) (s : pa) : outcome pa :=
  match fuel with
  | O => Hang
  | S f =>
      if decide (tmp = head) then Ok s
      else match tmp with
      | Area z i => s ← free_pages (z, i) s; free_list f (next (lists s tmp)) head s
      | _ => Fault
      end
  end.
(* kernel/page_alloc.c:309-323 free_pagelist *)
Definition free_pagelist (fuel : nat) (pg_list : node) (s : pa) : outcome pa :=
  free_list fuel (next (lists s pg_list)) pg_list s.

(** The loop of [alloc_pagelist_sparse]. *)
Fixpoint sparse_loop (fuel npages : nat) (zone startp : Z) (pg_list : node) (s : pa)
    : outcome (Z * Z * pa) :=
  match npages with
  | O => Ok (0, startp, s)
  | S n =>
      '(pg, s) ← alloc_pages zone 0 s;
      match pg with
      | None => s ← free_pagelist fuel pg_list s; Ok (- ENOMEM, startp, s)
      | Some p =>
          let s := with_lists (klist0_append (Area p.1 p.2) pg_list) s in
          let startp := if decide (page_to_addr p s < startp) then page_to_addr p s else startp in
          sparse_loop fuel n zone startp pg_list s
      end
  end.

(* kernel/page_alloc.c:266-288 alloc_pagelist_sparse *)
Definition alloc_pagelist_sparse (fuel : nat) (flags : Z) (npages : nat) (pg_list : node) (s : pa)
    : outcome (Z * Z * pa) :=
  sparse_loop fuel npages (Z.land flags ZONE_MASK) NOPAGE_ADDR pg_list s.

Fixpoint link_area (n : nat) (p : pptr) (pg_list : node) (s : pa) : pa :=
  match n with
  | O => s
  | S n => link_area n (p.1, p.2 + 1) pg_list (with_lists (klist0_append (Area p.1 p.2) pg_list) s)
  end.

(* kernel/page_alloc.c:290-307 alloc_pagelist_contig *)
Definition alloc_pagelist_contig (flags npages : Z) (pg_list : node) (s : pa)
    : outcome (Z * option Z * pa) :=
  let ord := log2 npages in
  '(pg, s) ← alloc_pages (Z.land flags ZONE_MASK) ord s;
  match pg with
  | None => Ok (- ENOMEM, None, s)
  | Some p =>
      let s := link_area (Z.to_nat (Z.shiftl 1 ord)) p pg_list s in
      Ok (0, Some (page_to_addr p s), s)
  end.

(** ** The report *)

(** One level: the number of piles, or the bug() of a pile with a wrong order
    or alignment. *)
Fixpoint count_level (fuel : nat) (tmp head : node) (i j : Z) (s : pa) : outcome Z :=
  match fuel with
  | O => Hang
  | S f =>
      if decide (tmp = head) then Ok j
      else match tmp with
      | Pg z q =>
          if decide (order (page_at s (z, q)) ≠ i) then Bug
          else if decide (idx_order (index (page_at s (z, q))) < i) then Bug
          else count_level f (next (lists s tmp)) head i (j + 1) s
      | _ => Fault
      end
  end.
Fixpoint count_levels (n fuel : nat) (z i total : Z) (s : pa) : outcome Z :=
  match n with
  | O => Ok total
  | S n =>
      j ← count_level fuel (next (lists s (Lvl z i))) (Lvl z i) i 0 s;
      count_levels n fuel z (i + 1) (total + j * Z.shiftl 1 i) s
  end.

(* kernel/page_alloc.c:69-105 print_alloc_info *)
Definition print_alloc_info (fuel : nat) (z : Z) (s : pa) : outcome Z :=
  count_levels (Z.to_nat MAX_ORDER) fuel z 0 0 s.

(** ** Alignment *)

Lemma even_land x : Z.land x 1 = 0 ↔ (2 | x).
Proof.
  change 1 with (Z.ones 1). rewrite Z.land_ones by lia. change (2 ^ 1) with 2.
  split; [by apply Z.mod_divide|by apply Z.mod_divide].
Qed.

Lemma idx_order_loop_spec n i idx k :
  0 ≤ i ≤ k → k ≤ 10 → 10 - i ≤ Z.of_nat n →
  i ≤ idx_order_loop n i idx ≤ 10 ∧ (k ≤ idx_order_loop n i idx ↔ (2 ^ (k - i) | idx)).
Proof.
  revert i idx k. induction n as [|n IH]; intros i idx k Hi Hk Hn; cbn [idx_order_loop].
  - replace (k - i) with 0 by lia. split; [lia|]. split; [intros; apply Z.divide_1_l|lia].
  - unfold MAX_ORDER. case_decide as Hd.
    + rewrite even_land in Hd. destruct Hd as [[y ->] Hi10].
      rewrite Z.shiftr_div_pow2 by lia. change (2 ^ 1) with 2. rewrite Z.div_mul by lia.
      destruct (decide (i = k)) as [->|].
      { destruct (IH (k + 1) y (k + 1)) as [? _]; [lia..|]. rewrite Z.sub_diag.
        split; [lia|]. split; [intros; apply Z.divide_1_l|lia]. }
      destruct (IH (i + 1) y k) as [? Hiff]; [lia..|]. split; [lia|]. rewrite Hiff.
      replace (k - i) with (k - (i + 1) + 1) by lia. rewrite pow2_succ by lia.
      rewrite (Z.mul_comm 2). split; [apply Z.mul_divide_mono_r|apply Z.mul_divide_cancel_r; lia].
    + split; [lia|]. destruct (decide (k = i)) as [->|].
      { rewrite Z.sub_diag. split; [intros; apply Z.divide_1_l|lia]. }
      split; [lia|]. intros Hdv. exfalso. apply Hd. split; [|lia]. apply even_land.
      etrans; [|done]. apply (div_pow2_le 1 (k - i)); [lia|done].
Qed.

Lemma idx_order_spec i k : 0 ≤ k ≤ 10 → k ≤ idx_order i ↔ (2 ^ k | i).
Proof.
  intros Hk. destruct (idx_order_loop_spec 11 0 i k) as [_ Hiff]; [lia..|].
  unfold idx_order. rewrite Hiff. by rewrite Z.sub_0_r.
Qed.
Lemma idx_order_range i : 0 ≤ idx_order i ≤ 10.
Proof. by destruct (idx_order_loop_spec 11 0 i 0) as [? _]; [lia..|]. Qed.

(** The test of [free_pages] for a pile that may grow. *)
Lemma idx_order_gt i k : 0 ≤ k ≤ 10 → k < idx_order i ↔ k < 10 ∧ (2 ^ (k + 1) | i).
Proof.
  intros Hk. destruct (decide (k = 10)) as [->|].
  - pose proof (idx_order_range i). lia.
  - rewrite <- (idx_order_spec i (k + 1)) by lia. lia.
Qed.

(** ** The free lists of a zone *)

(** The levels of zone [z] hold exactly the piles [F]. *)
Record zlists (s : pa) (L : node → list node) (z : Z) (F : blocks) : Prop := {
  zl_rep : rep (lists s) L;
  zl_lvl k : is_head L (Lvl z k);
  zl_mem k x : x ∈ L (Lvl z k) → ∃ i, x = Pg z i ∧ (i, k) ∈ F;
  zl_free i k : (i, k) ∈ F → Pg z i ∈ L (Lvl z k);
  zl_pg i y : Pg z i ∈ L y → ∃ k, y = Lvl z k;
  zl_nil i : L (Pg z i) = [];
  zl_area i : L (Area z i) = [];
}.

(** Only the levels of the zone differ. *)
Definition same_outside (z : Z) (L L' : node → list node) : Prop :=
  ∀ y, (∀ k, y ≠ Lvl z k) → L' y = L y.

Lemma same_outside_trans z L1 L2 L3 :
  same_outside z L1 L2 → same_outside z L2 L3 → same_outside z L1 L3.
Proof. intros H1 H2 y Hy. by rewrite H2, H1. Qed.
Lemma same_outside_upd z L k l : same_outside z L (upd L (Lvl z k) l).
Proof. intros y Hy. apply upd_ne, Hy. Qed.

Section zone.
Context (z : Z).

Lemma zl_detached s L F i : zlists s L z F → (∀ k, (i, k) ∉ F) → detached L (Pg z i).
Proof.
  intros H Hi. split; [|apply (zl_nil _ _ _ _ H)].
  intros y Hy. destruct (zl_pg _ _ _ _ H _ _ Hy) as [k ->].
  destruct (zl_mem _ _ _ _ H _ _ Hy) as (j & E & Hj). simplify_eq. by apply (Hi k).
Qed.

Lemma zl_one_level s L F i k l :
  zlists s L z F → (i, k) ∈ F → (i, l) ∈ F → k = l.
Proof.
  intros H Hk Hl. apply (zl_free _ _ _ _ H) in Hk, Hl.
  pose proof (rep_uniq _ _ (zl_rep _ _ _ _ H) _ _ _ Hk Hl). by simplify_eq.
Qed.

(** A store that does not touch the lists. *)
Lemma zl_ext s s' L F : zlists s L z F → lists s' = lists s → zlists s' L z F.
Proof. intros [] E. split; try done. by rewrite E. Qed.

Lemma zl_unlink s L F k l1 i l2 :
  zlists s L z F → L (Lvl z k) = l1 ++ Pg z i :: l2 →
  zlists (with_lists (klist0_unlink (Pg z i)) s) (upd L (Lvl z k) (l1 ++ l2)) z (F ∖ {[(i, k)]}).
Proof.
  intros H HL. assert (Pg z i ∈ L (Lvl z k)) as Hi by (rewrite HL; set_solver).
  destruct (rep_unlink_detached _ _ _ _ _ _ (zl_rep _ _ _ _ H) HL) as [Hd _].
  assert (∀ x y, x ∈ upd L (Lvl z k) (l1 ++ l2) y → x ∈ L y ∧ x ≠ Pg z i) as Hsub.
  { intros x y Hx. split; [|intros ->; by apply (Hd y)]. revert Hx. unfold upd.
    case_decide; [subst; rewrite HL; set_solver|done]. }
  split.
  - apply rep_unlink; [apply H|done].
  - intros k' y Hy. apply Hsub in Hy as [Hy _]. by apply (zl_lvl _ _ _ _ H k' y).
  - intros k' x Hx. apply Hsub in Hx as [Hx Hne].
    destruct (zl_mem _ _ _ _ H _ _ Hx) as (j & -> & Hj). exists j. split; [done|]. set_solver.
  - intros j k' Hj. apply elem_of_difference in Hj as [Hj Hne]. apply (zl_free _ _ _ _ H) in Hj.
    unfold upd. case_decide as E; [|done]. simplify_eq. rewrite HL in Hj.
    assert (j ≠ i) by (intros ->; apply Hne, elem_of_singleton; done).
    apply elem_of_app in Hj as [?|Hj]; [set_solver|].
    apply elem_of_cons in Hj as [[= ->]|?]; [done|set_solver].
  - intros j y Hy. apply Hsub in Hy as [Hy _]. by apply (zl_pg _ _ _ _ H _ _ Hy).
  - intros j. rewrite upd_ne by done. apply H.
  - intros j. rewrite upd_ne by done. apply H.
Qed.

(** Inserting a page that heads no free pile. *)
Lemma zl_insert s L F h' k i l' :
  zlists s L z F → (∀ l, (i, l) ∉ F) → (∀ x, x ∈ l' ↔ x = Pg z i ∨ x ∈ L (Lvl z k)) →
  rep h' (upd L (Lvl z k) l') →
  zlists (Pa h' (pages s) (zones s)) (upd L (Lvl z k) l') z ({[(i, k)]} ∪ F).
Proof.
  intros H Hi Hl' Hr.
  assert (∀ x y, x ∈ upd L (Lvl z k) l' y → (x = Pg z i ∧ y = Lvl z k) ∨ x ∈ L y) as Hsub.
  { intros x y. unfold upd. case_decide; [subst; rewrite Hl'; tauto|tauto]. }
  split.
  - done.
  - intros k' y Hy. apply Hsub in Hy as [[? _]|Hy]; [done|]. by apply (zl_lvl _ _ _ _ H k' y).
  - intros k' x Hx. apply Hsub in Hx as [[-> [= ->]]|Hx]; [exists i; set_solver|].
    destruct (zl_mem _ _ _ _ H _ _ Hx) as (j & -> & Hj). exists j. set_solver.
  - intros j k' [Ej|Hj]%elem_of_union.
    + apply elem_of_singleton in Ej. simplify_eq. rewrite upd_eq. apply Hl'. by left.
    + apply (zl_free _ _ _ _ H) in Hj. unfold upd. case_decide as E; [|done]. simplify_eq.
      apply Hl'. by right.
  - intros j y Hy. apply Hsub in Hy as [[[= ->] ->]|Hy]; [by exists k|]. by apply (zl_pg _ _ _ _ H _ _ Hy).
  - intros j. rewrite upd_ne by done. apply H.
  - intros j. rewrite upd_ne by done. apply H.
Qed.

Lemma zl_append s L F k i :
  zlists s L z F → (∀ l, (i, l) ∉ F) →
  zlists (with_lists (klist0_append (Pg z i) (Lvl z k)) s)
         (upd L (Lvl z k) (Pg z i :: L (Lvl z k))) z ({[(i, k)]} ∪ F).
Proof.
  intros H Hi. apply (zl_insert s L F); [done..| |].
  - intros x. apply elem_of_cons.
  - apply rep_append; [apply H|apply H|by eapply zl_detached|done].
Qed.

Lemma zl_prepend s L F k i :
  zlists s L z F → (∀ l, (i, l) ∉ F) →
  zlists (with_lists (klist0_prepend (Pg z i) (Lvl z k)) s)
         (upd L (Lvl z k) (L (Lvl z k) ++ [Pg z i])) z ({[(i, k)]} ∪ F).
Proof.
  intros H Hi. apply (zl_insert s L F); [done..| |].
  - intros x. rewrite elem_of_app, list_elem_of_singleton. tauto.
  - apply rep_prepend; [apply H|apply H|by eapply zl_detached|done].
Qed.

(** Unlinking an area node. *)
Lemma zl_unlink_area s L F y l1 i l2 :
  zlists s L z F → L y = l1 ++ Area z i :: l2 →
  zlists (with_lists (klist0_unlink (Area z i)) s) (upd L y (l1 ++ l2)) z F.
Proof.
  intros H HL. assert (Area z i ∈ L y) as Hi by (rewrite HL; set_solver).
  assert (∀ k, Lvl z k ≠ y) as Hy.
  { intros k <-. by destruct (zl_mem _ _ _ _ H _ _ Hi) as (? & ? & _). }
  assert (∀ x w, x ∈ upd L y (l1 ++ l2) w → x ∈ L w) as Hsub.
  { intros x w. unfold upd. case_decide; [subst; rewrite HL; set_solver|done]. }
  split.
  - apply rep_unlink; [apply H|done].
  - intros k w Hw. apply Hsub in Hw. by apply (zl_lvl _ _ _ _ H k w).
  - intros k x Hx. rewrite upd_ne in Hx by done. by apply (zl_mem _ _ _ _ H).
  - intros j k Hj. rewrite upd_ne by done. by apply (zl_free _ _ _ _ H).
  - intros j w Hw. apply Hsub in Hw. by apply (zl_pg _ _ _ _ H _ _ Hw).
  - intros j. rewrite upd_ne; [apply H|]. intros <-. by rewrite (zl_nil _ _ _ _ H) in Hi; set_solver.
  - intros j. rewrite upd_ne; [apply H|]. intros <-. by rewrite (zl_area _ _ _ _ H) in Hi; set_solver.
Qed.

(** ** The invariant *)

(** [W] are the piles handed out (or in transit), [A] those of them whose
    first page records the order. *)
Record zinv (s : pa) (L : node → list node) (F A W : blocks) : Prop := {
  zi_lists : zlists s L z F;
  zi_wf : wf (consumed_pages (total_pages (zones s z))) (total_pages (zones s z)) (MAX_ORDER - 1) F W;
  zi_order i k : (i, k) ∈ F ∪ A → order (pages s z i) = k;
  zi_index i : 0 ≤ i < total_pages (zones s z) → index (pages s z i) = i ∧ pzone (pages s z i) = z;
}.

Lemma consumed_nonneg t : 0 ≤ consumed_pages t.
Proof.
  unfold consumed_pages. pose proof (u32_range (sizeof_page * t)) as [? _].
  assert (0 ≤ u32 (sizeof_page * t) / PAGE_SIZE) by (apply Z.div_pos; [lia|done]). lia.
Qed.

Lemma zi_block s L F A W i k :
  zinv s L F A W → (i, k) ∈ F ∪ W →
  0 ≤ k ≤ 10 ∧ (2 ^ k | i) ∧ 0 ≤ i ∧ i + 2 ^ k ≤ total_pages (zones s z).
Proof.
  intros H Hi. destruct (wf_block _ _ _ _ _ (zi_wf _ _ _ _ _ H) i k Hi) as (? & ? & ? & ?).
  pose proof (consumed_nonneg (total_pages (zones s z))). unfold MAX_ORDER in *.
  split_and!; (done || lia).
Qed.

Lemma zi_page s L F A W i k :
  zinv s L F A W → (i, k) ∈ F ∪ W → index (pages s z i) = i ∧ pzone (pages s z i) = z.
Proof.
  intros H Hi. destruct (zi_block _ _ _ _ _ _ _ H Hi) as (? & ? & ? & ?).
  apply (zi_index _ _ _ _ _ H). pose proof (pow2_pos k). lia.
Qed.

Lemma zi_not_free s L F A W i k l : zinv s L F A W → (i, k) ∈ W → (i, l) ∉ F.
Proof. intros H. apply (wf_alloc_not_free _ _ _ _ _ _ _ _ (zi_wf _ _ _ _ _ H)). Qed.

Lemma set_order_pages p o s z' i :
  pages (set_order p o s) z' i =
    if decide ((z', i) = p) then Page (index (page_at s p)) (virt (page_at s p)) o (pzone (page_at s p))
    else pages s z' i.
Proof. done. Qed.

(** Recording an order in the first page of a pile that is not free. *)
Lemma zinv_set_order s L F A A' W i k o :
  zinv s L F A W → (i, k) ∈ W →
  (∀ j l, (j, l) ∈ A' → (j = i ∧ l = o) ∨ (j ≠ i ∧ (j, l) ∈ A)) →
  zinv (set_order (z, i) o s) L F A' W.
Proof.
  intros H Hi HA. split.
  - by apply (zl_ext s); [apply H|].
  - apply H.
  - intros j l [Hj|Hj]%elem_of_union; rewrite set_order_pages; case_decide as E; simpl.
    + simplify_eq. by destruct (zi_not_free _ _ _ _ _ _ _ l H Hi).
    + apply (zi_order _ _ _ _ _ H). set_solver.
    + simplify_eq. destruct (HA i l Hj) as [[_ ->]|[? _]]; done.
    + destruct (HA j l Hj) as [[-> ->]|[_ ?]]; [done|]. apply (zi_order _ _ _ _ _ H). set_solver.
  - intros j Hj. rewrite set_order_pages. case_decide as E; [|by apply H].
    simplify_eq. simpl. by apply (zi_index _ _ _ _ _ H).
Qed.

(** Another view of the piles that are not free. *)
Lemma zinv_view s L F A W W' :
  zinv s L F A W →
  wf (consumed_pages (total_pages (zones s z))) (total_pages (zones s z)) (MAX_ORDER - 1) F W' →
  zinv s L F A W'.
Proof. intros [] Hwf. by split. Qed.

(** Piles of [A] do not overlap a pile of [W]. *)
Lemma zi_apart s L F A W i k j l x :
  zinv s L F A W → (i, k) ∈ W → (j, l) ∈ W → within x i k → within x j l → i = j ∧ k = l.
Proof. intros H Hi Hj. apply (wf_disj _ _ _ _ _ (zi_wf _ _ _ _ _ H)); set_solver. Qed.

(** Taking a free pile off its level. *)
Lemma zinv_take s L F A W k l1 i l2 :
  zinv s L F A W → L (Lvl z k) = l1 ++ Pg z i :: l2 →
  zinv (with_lists (klist0_unlink (Pg z i)) s) (upd L (Lvl z k) (l1 ++ l2))
       (F ∖ {[(i, k)]}) ({[(i, k)]} ∪ A) ({[(i, k)]} ∪ W) ∧ (i, k) ∈ F.
Proof.
  intros H HL. assert ((i, k) ∈ F) as HF.
  { destruct (zl_mem _ _ _ _ (zi_lists _ _ _ _ _ H) k (Pg z i)) as (j & [= ->] & ?); [|done].
    rewrite HL. set_solver. }
  split; [|done]. split.
  - apply zl_unlink; [apply H|done].
  - apply wf_take; [apply H|done].
  - intros j l Hj. apply (zi_order _ _ _ _ _ H). set_solver.
  - apply H.
Qed.

(** Putting a pile on its level. *)
Lemma zinv_give s L F A W i k :
  zinv s L F A W → (i, k) ∈ A → (i, k) ∈ W →
  (k < 10 → (2 ^ (k + 1) | i) → (i + 2 ^ k, k) ∉ F) →
  (k < 10 → (2 ^ (k + 1) | i - 2 ^ k) → (i - 2 ^ k, k) ∉ F) →
  zinv (with_lists (klist0_append (Pg z i) (Lvl z k)) s)
       (upd L (Lvl z k) (Pg z i :: L (Lvl z k)))
       ({[(i, k)]} ∪ F) (A ∖ {[(i, k)]}) (W ∖ {[(i, k)]}).
Proof.
  intros H HA HW Hr Hl. split.
  - apply zl_append; [apply H|]. intros l. by eapply zi_not_free.
  - by apply wf_give; [apply H|..].
  - intros j l Hj. apply (zi_order _ _ _ _ _ H). set_solver.
  - apply H.
Qed.

(** Goals about membership of piles and of pages in piles. *)
Ltac blk :=
  first [ apply within_start; lia
        | unfold within; rewrite ?pow2_succ by lia; lia
        | set_solver ].

(** ** Allocation *)

Lemma find_level_spec s L F A W n i :
  zinv s L F A W → 0 ≤ i → 12 - i ≤ Z.of_nat n →
  match find_level n z i s with
  | Some j => i ≤ j < 11 ∧ L (Lvl z j) ≠ [] ∧ ∀ k, i ≤ k < j → L (Lvl z k) = []
  | None => ∀ k, i ≤ k < 11 → L (Lvl z k) = []
  end.
Proof.
  intros H. revert i. induction n as [|n IH]; intros i Hi Hn; cbn [find_level]; [lia|].
  unfold MAX_ORDER. case_decide; [lia|].
  rewrite (rep_empty_head _ L) by apply H. case_bool_decide as He.
  - specialize (IH (i + 1) ltac:(lia) ltac:(lia)). destruct (find_level n z (i + 1) s) as [j|].
    + destruct IH as (? & ? & Ha). split_and!; [lia..|done|]. intros k Hk.
      destruct (decide (k = i)) as [->|]; [done|]. apply Ha. lia.
    + intros k Hk. destruct (decide (k = i)) as [->|]; [done|]. apply IH. lia.
  - split_and!; [lia..|done|lia].
Qed.

Lemma upper_buddy_odd p k : 0 ≤ k → (2 ^ (k + 1) | p) → ¬ (2 ^ (k + 1) | p - 2 ^ k).
Proof.
  intros Hk Hd Hd'. pose proof (pow2_pos k Hk).
  pose proof (Z.divide_sub_r _ _ _ Hd Hd') as Hdv.
  replace (p - (p - 2 ^ k)) with (2 ^ k) in Hdv by lia.
  apply Z.divide_pos_le in Hdv; [|lia]. rewrite pow2_succ in Hdv by lia. lia.
Qed.

(** Splitting leaves the pile of the wanted order in transit, the rest of the
    big pile on the lower levels. *)
Lemma split_pile_spec n ord p s L F A :
  zinv s L F A ({[(p, ord + Z.of_nat n)]} ∪ A) → (p, ord + Z.of_nat n) ∉ A → 0 ≤ ord →
  ∃ q s' L' F', split_pile n z ord (z, p) s = ((z, q), s') ∧
    zinv s' L' F' A ({[(q, ord)]} ∪ A) ∧ ((q, ord) ∉ A) ∧
    same_outside z L L' ∧ zones s' = zones s ∧ (p ≤ q ∧ q + 2 ^ ord = p + 2 ^ (ord + Z.of_nat n)).
Proof.
  revert p s L F. induction n as [|n IH]; intros p s L F H Hp Hord; cbn [split_pile].
  - rewrite Z.add_0_r in *. exists p, s, L, F. split_and!; done || lia.
  - set (k := ord + Z.of_nat n). assert (0 ≤ k) as Hk by (unfold k; lia).
    replace (ord + Z.of_nat (S n)) with (k + 1) in * by (unfold k; lia).
    pose proof (pow2_pos k Hk).
    assert ((p, k + 1) ∈ F ∪ ({[(p, k + 1)]} ∪ A)) as Hin by set_solver.
    destruct (zi_block _ _ _ _ _ _ _ H Hin) as (Hk1 & Hd & _ & _).
    assert (wf (consumed_pages (total_pages (zones s z))) (total_pages (zones s z)) (MAX_ORDER - 1) F
      ({[(p, k)]} ∪ ({[(p + 2 ^ k, k)]} ∪ A))) as Hwf.
    { pose proof (wf_split _ _ _ _ _ p k (zi_wf _ _ _ _ _ H) Hk ltac:(set_solver)) as Hs.
      replace (({[(p, k + 1)]} ∪ A) ∖ {[(p, k + 1)]}) with A in Hs by (apply set_eq; set_solver). done. }
    assert (((p, k) ∉ A) ∧ ((p + 2 ^ k, k) ∉ A)) as [Hn1 Hn2].
    { split; intros HA.
      - destruct (zi_apart _ _ _ _ _ p (k + 1) p k p H) as [_ ?]; [blk..|lia].
      - destruct (zi_apart _ _ _ _ _ p (k + 1) (p + 2 ^ k) k (p + 2 ^ k) H) as [_ ?];[blk..|lia]. }
    apply (zinv_view _ _ _ _ _ _ H) in Hwf as H1.
    apply (zinv_set_order _ _ _ _ ({[(p, k)]} ∪ A) _ p k k) in H1; [|set_solver|].
    2:{ intros j l [Ej|Hj]%elem_of_union; [left; set_solver|]. destruct (decide (j = p)) as [->|]; [|by right].
        exfalso. destruct (zi_block _ _ _ _ _ p l H) as [? _]; [set_solver|].
        destruct (zi_apart _ _ _ _ _ p (k + 1) p l p H) as [_ <-]; [blk..|done]. }
    apply (zinv_give _ _ _ _ _ p k) in H1; [|set_solver..| |].
    2:{ intros _ _ HF. apply (wf_sep _ _ _ _ _ Hwf _ _ HF). set_solver. }
    2:{ intros _ Hd'. by destruct (upper_buddy_odd p k Hk Hd). }
    replace (({[(p, k)]} ∪ A) ∖ {[(p, k)]}) with A in H1 by (apply set_eq; set_solver).
    replace (({[(p, k)]} ∪ ({[(p + 2 ^ k, k)]} ∪ A)) ∖ {[(p, k)]})
      with ({[(p + 2 ^ k, k)]} ∪ A) in H1.
    2:{ apply set_eq. intros x. assert ((p + 2 ^ k, k) ≠ (p, k)) by (intros [=]; lia). set_solver. }
    rewrite Z.shiftl_1_l. cbn [fst snd].
    destruct (IH _ _ _ _ H1) as (q & s' & L' & F' & -> & Hz & Hq & Hout & Hzn & Hpq & Hsz); [done..|].
    exists q, s', L', F'. split_and!; [done..| |done| |].
    + eapply same_outside_trans; [apply same_outside_upd|done].
    + lia.
    + fold k in Hsz. rewrite pow2_succ by lia. lia.
Qed.

Lemma alloc_pages_spec s L F A flags ord :
  zinv s L F A A → 0 ≤ ord ≤ 10 →
  (__alloc_pages flags z ord s = Ok (None, s) ∧ (∀ i k, (i, k) ∈ F → k < ord)) ∨
  (∃ q s' L' F', __alloc_pages flags z ord s = Ok (Some (z, q), s') ∧
     ((q, ord) ∉ A) ∧ zinv s' L' F' ({[(q, ord)]} ∪ A) ({[(q, ord)]} ∪ A) ∧
     same_outside z L L' ∧ zones s' = zones s ∧
     (∃ i k, (i, k) ∈ F ∧ i ≤ q ∧ q + 2 ^ ord ≤ i + 2 ^ k)).
Proof.
  intros H Hord. unfold __alloc_pages. pose proof (find_level_spec s L F A A 12 ord H ltac:(lia) ltac:(lia)) as Hf.
  destruct (find_level 12 z ord s) as [i|].
  - right. destruct Hf as (Hi & Hne & _). destruct (L (Lvl z i)) as [|x l] eqn:HL; [done|].
    destruct (zl_mem _ _ _ _ (zi_lists _ _ _ _ _ H) i x) as (p & -> & HF); [rewrite HL; set_solver|].
    rewrite (rep_next _ L) by apply H. rewrite HL.
    change (default (Lvl z i) (head (Pg z p :: l))) with (Pg z p). cbv iota.
    destruct (zinv_take _ _ _ _ _ i [] p l H HL) as [H1 _].
    assert ((p, i) ∉ A) as HnA by by apply (wf_sep _ _ _ _ _ (zi_wf _ _ _ _ _ H)).
    replace i with (ord + Z.of_nat (Z.to_nat (i - ord))) in H1, HnA by lia.
    set (n := Z.to_nat (i - ord)) in *.
    assert (zinv (with_lists (klist0_unlink (Pg z p)) s) (upd L (Lvl z (ord + Z.of_nat n)) ([] ++ l))
      (F ∖ {[(p, ord + Z.of_nat n)]}) A ({[(p, ord + Z.of_nat n)]} ∪ A)) as H2.
    { destruct H1 as [? ? Ho ?]. split; try done. intros j k Hj. apply Ho. set_solver. }
    destruct (split_pile_spec n ord p _ _ _ _ H2 HnA) as (q & s' & L' & F' & -> & Hz & Hq & Hout & Hzn & Hpq & Hsz); [lia|].
    exists q, (set_order (z, q) ord s'), L', F'. split_and!; [done..| | | |].
    + apply (zinv_set_order _ _ _ A _ _ q ord); [done|set_solver|].
      intros j l' [Ej|Hj]%elem_of_union; [left; set_solver|]. destruct (decide (j = q)) as [->|]; [|by right].
      left. split; [done|]. destruct (zi_block _ _ _ _ _ q l' Hz) as [? _]; [set_solver|].
      destruct (zi_apart _ _ _ _ _ q l' q ord q Hz) as [_ ?]; [blk..|done].
    + eapply same_outside_trans; [apply same_outside_upd|done].
    + done.
    + exists p, i. split; [done|]. replace (ord + Z.of_nat n) with i in Hsz by lia. lia.
  - left. split; [done|]. intros i k HF. destruct (decide (k < ord)); [done|].
    apply (zl_free _ _ _ _ (zi_lists _ _ _ _ _ H)) in HF as HL.
    destruct (zi_block _ _ _ _ _ i k H) as [? _]; [set_solver|].
    rewrite Hf in HL by lia. by apply elem_of_nil in HL.
Qed.

(** ** Release *)

(** A level holds at most one pile per page. *)
Lemma level_length s L F A W k :
  zinv s L F A W → (length (L (Lvl z k)) ≤ Z.to_nat (total_pages (zones s z)))%nat.
Proof.
  intros H. set (t := total_pages (zones s z)).
  assert (length (L (Lvl z k)) ≤ length (Pg z <$> seqZ 0 t))%nat as Hle.
  { apply submseteq_length, NoDup_submseteq.
    - destruct (rep_ring _ _ (zl_rep _ _ _ _ (zi_lists _ _ _ _ _ H)) (Lvl z k)) as [_ Hnd]; [apply H|].
      by apply NoDup_cons in Hnd as [_ ?].
    - intros x Hx. destruct (zl_mem _ _ _ _ (zi_lists _ _ _ _ _ H) k x Hx) as (i & -> & Hi).
      apply list_elem_of_fmap_2. apply elem_of_seqZ.
      destruct (zi_block _ _ _ _ _ i k H) as (? & _ & ? & ?); [set_solver|].
      pose proof (pow2_pos k). unfold t. lia. }
  by rewrite length_fmap, length_seqZ in Hle.
Qed.

(** The two tests of [free_pages] for the page [i] of order [k]. *)
Definition left_of (s : pa) (i k q : Z) : Prop := i - q = 2 ^ k ∧ k < idx_order (index (pages s z q)).
Definition right_of (s : pa) (i k q : Z) : Prop := q - i = 2 ^ k ∧ k < idx_order (index (pages s z i)).

Lemma seek_neighbour_spec s L F A W i k l1 l2 fuel :
  zinv s L F A W → L (Lvl z k) = l1 ++ l2 → (length l2 < fuel)%nat →
  ∃ r, seek_neighbour fuel (default (Lvl z k) (head l2)) (Lvl z k) (z, i) k s = Ok r ∧
    match r with
    | Some (Left q) => q.1 = z ∧ Pg z q.2 ∈ l2 ∧ left_of s i k q.2
    | Some (Right q) => q.1 = z ∧ Pg z q.2 ∈ l2 ∧ right_of s i k q.2
    | None => ∀ q, Pg z q ∈ l2 → ¬ left_of s i k q ∧ ¬ right_of s i k q
    end.
Proof.
  intros H. revert l1 l2. induction fuel as [|fuel IH]; intros l1 l2 HL Hf; [lia|].
  cbn [seek_neighbour]. destruct l2 as [|x l2].
  { simpl. rewrite decide_True by done. exists None. split; [done|]. set_solver. }
  destruct (zl_mem _ _ _ _ (zi_lists _ _ _ _ _ H) k x) as (q & -> & HF); [rewrite HL; set_solver|].
  cbn -[seek_neighbour]. rewrite decide_False by done. rewrite decide_False by tauto.
  rewrite !Z.shiftl_1_l. case_decide as Hl; [|case_decide as Hr].
  - exists (Some (Left (z, q))). split; [done|]. split; [done|]. split; [set_solver|done].
  - exists (Some (Right (z, q))). split; [done|]. split; [done|]. split; [set_solver|done].
  - destruct (IH (l1 ++ [Pg z q]) l2) as (r & Hr' & Hspec); [by rewrite <- app_assoc|simpl in Hf; lia|].
    exists r. split.
    + rewrite (rep_next_member _ L (Lvl z k) l1 _ l2); [done|apply H|done].
    + destruct r as [[q'|q']|].
      * destruct Hspec as (? & ? & ?). split; [done|]. split; [set_solver|done].
      * destruct Hspec as (? & ? & ?). split; [done|]. split; [set_solver|done].
      * intros q' Hq'. apply elem_of_cons in Hq' as [[= ->]|Hq']; [done|by apply Hspec].
Qed.

(** Neither buddy of the pile is free. *)
Definition no_free_buddy (F : blocks) (i k : Z) : Prop :=
  (k < 10 → (2 ^ (k + 1) | i) → (i + 2 ^ k, k) ∉ F) ∧
  (k < 10 → (2 ^ (k + 1) | i - 2 ^ k) → (i - 2 ^ k, k) ∉ F).

(** Joining the pile [(i, k)] in transit with the free buddy [(q, k)], [m] the
    lower of the two. *)
Lemma zinv_join s L F W i k q m :
  zinv s L F W W → (i, k) ∈ W → (q, k) ∈ F → k < 10 →
  (m = q ∧ i = q + 2 ^ k ∨ m = i ∧ q = i + 2 ^ k) → (2 ^ (k + 1) | m) →
  ∃ L' F', same_outside z L L' ∧
    zinv (set_order (z, m) (k + 1) (with_lists (klist0_unlink (Pg z q)) s)) L' F'
         ({[(m, k + 1)]} ∪ W ∖ {[(i, k)]}) ({[(m, k + 1)]} ∪ W ∖ {[(i, k)]}) ∧
    (m, k + 1) ∉ W ∖ {[(i, k)]}.
Proof.
  intros H HW HF Hk Hm Hd. pose proof (zl_free _ _ _ _ (zi_lists _ _ _ _ _ H) _ _ HF) as Hin.
  destruct (zi_block _ _ _ _ _ i k H) as [Hk0 _]; [set_solver|].
  pose proof (pow2_pos k ltac:(lia)).
  apply list_elem_of_split in Hin as (l1 & l2 & HL).
  destruct (zinv_take _ _ _ _ _ _ _ _ _ H HL) as [H1 _].
  set (W1 := {[(q, k)]} ∪ W) in *. set (W2 := {[(m, k + 1)]} ∪ W ∖ {[(i, k)]}).
  assert ((q, k) ∉ W) as HqW by by apply (wf_sep _ _ _ _ _ (zi_wf _ _ _ _ _ H)).
  assert (W2 = {[(m, k + 1)]} ∪ W1 ∖ {[(m, k)]} ∖ {[(m + 2 ^ k, k)]}) as EW.
  { unfold W2, W1. apply set_eq. intros x.
    destruct Hm as [[-> ->]|[-> ->]]; set_unfold; naive_solver. }
  assert (∀ l, (m, l) ∈ W → l = k) as HmW.
  { intros l Hl. destruct (zi_block _ _ _ _ _ m l H) as [Hl0 _]; [set_solver|].
    destruct (zi_apart _ _ _ _ _ m l m k m H1) as [_ ?]; [unfold W1; set_solver| |blk..|done].
    unfold W1. destruct Hm as [[-> _]|[-> _]]; set_solver. }
  exists (upd L (Lvl z k) (l1 ++ l2)), (F ∖ {[(q, k)]}). split_and!.
  - apply same_outside_upd.
  - apply (zinv_set_order _ _ _ W1 _ _ m (k + 1)); [|set_solver|].
    + apply (zinv_view _ _ _ _ _ _ H1). rewrite EW.
      apply wf_join; [apply H1|unfold W1..|done|unfold MAX_ORDER; lia].
      * destruct Hm as [[-> _]|[-> _]]; set_solver.
      * destruct Hm as [[-> <-]|[-> <-]]; set_solver.
    + intros j l Hj. unfold W2 in Hj. apply elem_of_union in Hj as [Hj|Hj]; [left; set_solver|].
      right. split; [|unfold W1; set_solver]. intros ->.
      apply elem_of_difference in Hj as [Hj Hne]. apply HmW in Hj as El. subst l.
      destruct Hm as [[-> _]|[-> _]]; [by apply HqW|set_solver].
  - intros Hc. apply elem_of_difference in Hc as [Hc _]. apply HmW in Hc. lia.
Qed.

Lemma no_neighbour s L F W i k :
  zinv s L F W W → (i, k) ∈ W →
  (∀ q, Pg z q ∈ L (Lvl z k) → ¬ left_of s i k q ∧ ¬ right_of s i k q) → no_free_buddy F i k.
Proof.
  intros H HW Hno. destruct (zi_block _ _ _ _ _ i k H) as [Hk _]; [set_solver|].
  destruct (zi_page _ _ _ _ _ i k H) as [Hi _]; [set_solver|].
  split; intros Hk10 Hd HF;
    destruct (Hno _ (zl_free _ _ _ _ (zi_lists _ _ _ _ _ H) _ _ HF)) as [Hnl Hnr].
  - apply Hnr. split; [lia|]. rewrite Hi. apply idx_order_gt; [lia|done].
  - apply Hnl. split; [lia|]. destruct (zi_page _ _ _ _ _ (i - 2 ^ k) k H) as [-> _]; [set_solver|].
    apply idx_order_gt; [lia|done].
Qed.

Lemma join_piles_spec n s L F W i k :
  zinv s L F W W → (i, k) ∈ W → 11 - k ≤ Z.of_nat n →
  ∃ m l s' L' F', join_piles n z (z, i) s = Ok ((z, m), s') ∧
    zinv s' L' F' ({[(m, l)]} ∪ W ∖ {[(i, k)]}) ({[(m, l)]} ∪ W ∖ {[(i, k)]}) ∧
    ((m, l) ∉ W ∖ {[(i, k)]}) ∧ no_free_buddy F' m l ∧ same_outside z L L' ∧ zones s' = zones s.
Proof.
  revert s L F W i k. induction n as [|n IH]; intros s L F W i k H HW Hn.
  { destruct (zi_block _ _ _ _ _ i k H); [set_solver|lia]. }
  destruct (zi_block _ _ _ _ _ i k H) as [Hk _]; [set_solver|].
  destruct (zi_page _ _ _ _ _ i k H) as [Hi _]; [set_solver|].
  assert (order (page_at s (z, i)) = k) as Hord by (apply (zi_order _ _ _ _ _ H); set_solver).
  cbn [join_piles]. rewrite Hord.
  destruct (seek_neighbour_spec s L F W W i k [] (L (Lvl z k)) (S (Z.to_nat (total_pages (zones s z)))) H eq_refl)
    as (r & Hr & Hspec).
  { pose proof (level_length _ _ _ _ _ k H). lia. }
  rewrite (rep_next _ L) by apply H. rewrite Hr. cbn [mbind outcome_bind].
  assert (∀ q m s1, (q, k) ∈ F → k < 10 → (m = q ∧ i = q + 2 ^ k ∨ m = i ∧ q = i + 2 ^ k) →
    (2 ^ (k + 1) | m) → s1 = set_order (z, m) (k + 1) (with_lists (klist0_unlink (Pg z q)) s) →
    ∃ m' l s' L' F', (if decide (order (page_at s1 (z, m)) < MAX_ORDER ∧ k ≠ order (page_at s1 (z, m)))
       then join_piles n z (z, m) s1 else Ok ((z, m), s1)) = Ok ((z, m'), s') ∧
    zinv s' L' F' ({[(m', l)]} ∪ W ∖ {[(i, k)]}) ({[(m', l)]} ∪ W ∖ {[(i, k)]}) ∧
    ((m', l) ∉ W ∖ {[(i, k)]}) ∧ no_free_buddy F' m' l ∧ same_outside z L L' ∧ zones s' = zones s) as Hjoin.
  { intros q m s1 HF Hk10 Hm Hd ->.
    destruct (zinv_join _ _ _ _ _ _ _ _ H HW HF Hk10 Hm Hd) as (L1 & F1 & Hout1 & H1 & Hn1).
    set (s1 := set_order _ _ _) in *.
    assert (order (page_at s1 (z, m)) = k + 1) as ->.
    { unfold page_at. cbn [fst snd]. apply (zi_order _ _ _ _ _ H1). set_solver. }
    rewrite decide_True by (unfold MAX_ORDER; lia).
    destruct (IH s1 L1 F1 _ m (k + 1) H1) as (m' & l & s' & L' & F' & -> & Hz & Hnin & Hnb & Hout & Hzn);
      [set_solver|lia|].
    replace (({[(m, k + 1)]} ∪ W ∖ {[(i, k)]}) ∖ {[(m, k + 1)]}) with (W ∖ {[(i, k)]}) in Hz, Hnin
      by (apply set_eq; set_solver).
    exists m', l, s', L', F'. split_and!; try done. by eapply same_outside_trans. }
  destruct r as [[[z' q]|[z' q]]|].
  - destruct Hspec as (Hz' & Hq & Hl1 & Hl2). cbn in Hz', Hq, Hl1, Hl2. subst z'.
    destruct (zl_mem _ _ _ _ (zi_lists _ _ _ _ _ H) k (Pg z q) Hq) as (? & [= <-] & HF).
    destruct (zi_page _ _ _ _ _ q k H) as [Eq _]; [set_solver|]. rewrite Eq in Hl2.
    apply idx_order_gt in Hl2 as [Hk10 Hd]; [|lia].
    apply (Hjoin q q); [done..|left; lia|done|].
    cbn [fst snd]. f_equal. unfold page_at. cbn.
    rewrite (zi_order _ _ _ _ _ H q k) by set_solver. apply u32_small. unfold is_u32. lia.
  - destruct Hspec as (Hz' & Hq & Hl1 & Hl2). cbn in Hz', Hq, Hl1, Hl2. subst z'.
    destruct (zl_mem _ _ _ _ (zi_lists _ _ _ _ _ H) k (Pg z q) Hq) as (? & [= <-] & HF).
    rewrite Hi in Hl2. apply idx_order_gt in Hl2 as [Hk10 Hd]; [|lia].
    apply (Hjoin q i); [done..|right; lia|done|].
    cbn [fst snd]. f_equal. unfold page_at in *. cbn in *. rewrite Hord. apply u32_small. unfold is_u32. lia.
  - rewrite decide_False by (rewrite Hord; lia).
    exists i, k, s, L, F. split_and!; try done.
    + replace ({[(i, k)]} ∪ W ∖ {[(i, k)]}) with W; [done|]. apply set_eq. intros x.
      destruct (decide (x = (i, k))); set_solver.
    + set_solver.
    + by apply (no_neighbour s L F W).
Qed.

(** Only area lists shrink. *)
Definition area_unlinked (L L' : node → list node) : Prop :=
  ∀ y, (∀ k, y ≠ Lvl z k) → sublist (L' y) (L y).

Lemma free_pages_spec s L F A i k :
  zinv s L F A A → (i, k) ∈ A →
  ∃ s' L' F', free_pages (z, i) s = Ok s' ∧ zinv s' L' F' (A ∖ {[(i, k)]}) (A ∖ {[(i, k)]}) ∧
    area_unlinked L L' ∧ zones s' = zones s.
Proof.
  intros H HA. unfold free_pages. change (page_at s (z, i)) with (pages s z i).
  destruct (zi_page _ _ _ _ _ i k H) as [_ ->]; [set_solver|].
  destruct (zi_block _ _ _ _ _ i k H) as [Hk _]; [set_solver|].
  destruct (join_piles_spec 12 s L F A i k H HA) as (m & l & s1 & L1 & F1 & -> & H1 & Hnin & [Hb1 Hb2] & Hout & Hzn); [lia|].
  cbn [mbind outcome_bind]. destruct (zi_block _ _ _ _ _ m l H1) as [Hl _]; [set_solver|].
  change (page_at s1 (z, m)) with (pages s1 z m).
  rewrite (zi_order _ _ _ _ _ H1 m l) by set_solver. cbn [fst snd].
  rewrite decide_False by (unfold MAX_ORDER; lia).
  apply (zinv_give _ _ _ _ _ m l) in H1 as H2; [|set_solver..|done|done].
  replace (({[(m, l)]} ∪ A ∖ {[(i, k)]}) ∖ {[(m, l)]}) with (A ∖ {[(i, k)]}) in H2 by (apply set_eq; set_solver).
  set (s2 := with_lists _ s1) in *. set (L2 := upd L1 _ _) in *.
  assert (area_unlinked L L2) as Hau.
  { intros y Hy. unfold L2. rewrite upd_ne by by apply Hy. by rewrite Hout. }
  destruct (klist0_empty (Area z m) (lists s2)) eqn:He.
  - exists s2, L2, ({[(m, l)]} ∪ F1). by split_and!.
  - pose proof (zl_rep _ _ _ _ (zi_lists _ _ _ _ _ H2)) as Hrep.
    destruct (rep_total _ _ Hrep (Area z m)) as [Hh|[y Hy]].
    { rewrite (rep_empty_head _ _ _ Hrep Hh) in He. apply bool_decide_eq_false in He.
      by rewrite (zl_area _ _ _ _ (zi_lists _ _ _ _ _ H2)) in He. }
    apply list_elem_of_split in Hy as (l1 & l2 & HLy).
    exists (with_lists (klist0_unlink (Area z m)) s2), (upd L2 y (l1 ++ l2)), ({[(m, l)]} ∪ F1).
    split_and!; [done| | |done].
    + destruct H2. split; try done. by apply zl_unlink_area.
    + intros w Hw. etrans; [|by apply Hau]. unfold upd. case_decide; [|done].
      subst w. rewrite HLy. apply sublist_app; [done|]. by apply sublist_cons.
Qed.

(** ** Setting up a zone *)

Lemma reduce_order_spec n o left :
  0 ≤ o ≤ Z.of_nat n → 1 ≤ left →
  0 ≤ reduce_order n o left ≤ o ∧ 2 ^ reduce_order n o left ≤ left ∧
  (reduce_order n o left = o ∨ left < 2 ^ (reduce_order n o left + 1)).
Proof.
  revert o. induction n as [|n IH]; intros o Ho Hl; cbn [reduce_order].
  - assert (o = 0) as -> by lia. simpl. lia.
  - rewrite Z.shiftl_1_l. case_decide as Hd; [|lia].
    assert (o ≠ 0) by (intros ->; simpl in Hd; lia).
    destruct (IH (o - 1)) as (? & ? & Hor); [lia..|]. split_and!; [lia..|].
    right. destruct Hor as [->|]; [|done]. by replace (o - 1 + 1) with o by lia.
Qed.

(** The pile chosen for page [i] is the largest that is aligned and fits. *)
Definition greedy (total : Z) (F : blocks) : Prop :=
  ∀ j l l', (j, l) ∈ F → l < l' ≤ 10 → (2 ^ l' | j) → total < j + 2 ^ l'.

Lemma insert_piles_spec n i s L F :
  let total := total_pages (zones s z) in
  zlists s L z F → wf (consumed_pages total) i 10 F ∅ → greedy total F →
  consumed_pages total ≤ i ≤ total → total - i ≤ Z.of_nat n →
  (∀ j k, (j, k) ∈ F → order (pages s z j) = k) →
  (∀ j, 0 ≤ j < total → index (pages s z j) = j ∧ pzone (pages s z j) = z) →
  ∃ L' F', zinv (insert_piles n z i s) L' F' ∅ ∅ ∧ same_outside z L L' ∧
           zones (insert_piles n z i s) = zones s.
Proof.
  intros total. subst total. revert i s L F.
  induction n as [|n IH]; intros i s L F HL Hwf Hg Hi Hn Ho Hx; cbn [insert_piles].
  - assert (i = total_pages (zones s z)) as -> by lia. exists L, F. split; [|split; [by intros y _|done]].
    split; [done..| |done]. intros j k Hj. apply Ho. set_solver.
  - case_decide as Hlt.
    2:{ assert (i = total_pages (zones s z)) as -> by lia. exists L, F.
        split; [|split; [by intros y _|done]]. split; [done..| |done]. intros j k Hj. apply Ho. set_solver. }
    set (o := reduce_order 11 (idx_order i) (total_pages (zones s z) - i)).
    pose proof (idx_order_range i) as Hr.
    destruct (reduce_order_spec 11 (idx_order i) (total_pages (zones s z) - i)) as (Ho1 & Ho2 & Ho3); [lia..|].
    fold o in Ho1, Ho2, Ho3. clearbody o. pose proof (pow2_pos o ltac:(lia)).
    assert (2 ^ o | i) as Hd by (apply idx_order_spec; lia).
    assert (∀ l, (i, l) ∉ F) as HnF.
    { intros l Hl. destruct (wf_block _ _ _ _ _ Hwf i l) as (? & _ & _ & ?); [set_solver|].
      pose proof (pow2_pos l). lia. }
    assert (∀ l', o < l' ≤ 10 → (2 ^ l' | i) → total_pages (zones s z) < i + 2 ^ l') as Hgi.
    { intros l' Hl' Hdv. apply idx_order_spec in Hdv; [|lia]. destruct Ho3 as [?|Ho3]; [lia|].
      assert (2 ^ (o + 1) ≤ 2 ^ l') by (apply Z.pow_le_mono_r; lia). lia. }
    rewrite Z.shiftl_1_l.
    destruct (IH (i + 2 ^ o) (with_lists (klist0_prepend (Pg z i) (Lvl z o)) (set_order (z, i) o s))
      (upd L (Lvl z o) (L (Lvl z o) ++ [Pg z i])) ({[(i, o)]} ∪ F)) as (L' & F' & Hz & Hout & Hzn).
    + apply zl_prepend; [|done]. by apply (zl_ext s).
    + apply (wf_extend (consumed_pages (total_pages (zones s z)))); [done|lia|lia|done|]. intros Ho10 Hdv HF.
      pose proof (Hg _ _ (o + 1) HF ltac:(lia) Hdv) as Hgt. rewrite pow2_succ in Hgt by lia. lia.
    + intros j l l' [Ej|Hj]%elem_of_union Hl' Hdv; [|by apply (Hg j l l')].
      apply elem_of_singleton in Ej. simplify_eq. by apply Hgi.
    + change (consumed_pages (total_pages (zones s z)) ≤ i + 2 ^ o ≤ total_pages (zones s z)). lia.
    + change (total_pages (zones s z) - (i + 2 ^ o) ≤ Z.of_nat n). lia.
    + intros j k [Ej|Hj]%elem_of_union; cbn -[set_order]; rewrite set_order_pages.
      * apply elem_of_singleton in Ej. simplify_eq. by rewrite decide_True.
      * rewrite decide_False; [by apply Ho|]. intros [= ->]. by apply (HnF k).
    + intros j Hj. cbn -[set_order] in Hj |- *. rewrite set_order_pages. case_decide as E; [|by apply Hx].
      injection E as ->. cbn. by apply Hx.
    + exists L', F'. split; [done|]. split; [|done].
      eapply same_outside_trans; [apply same_outside_upd|done].
Qed.

Lemma KLIST0_INIT_at (n m : node) h : KLIST0_INIT n h m = if decide (m = n) then Node n n else h m.
Proof.
  unfold KLIST0_INIT, set_next, set_prev. by repeat case_decide.
Qed.

(** The nodes that the loops of [mem_zone_init] initialise. *)
Definition page_node (lo hi : Z) (m : node) : Prop :=
  match m with Pg z' j | Area z' j => z' = z ∧ lo ≤ j < hi | _ => False end.
Definition level_node (lo hi : Z) (m : node) : Prop :=
  match m with Lvl z' k => z' = z ∧ lo ≤ k < hi | _ => False end.
#[local] Instance page_node_dec lo hi m : Decision (page_node lo hi m).
Proof. destruct m; simpl; apply _. Defined.
#[local] Instance level_node_dec lo hi m : Decision (level_node lo hi m).
Proof. destruct m; simpl; apply _. Defined.

Lemma page_node_S i n m :
  page_node i (i + Z.of_nat (S n)) m ↔
  page_node (i + 1) (i + 1 + Z.of_nat n) m ∨ m = Pg z i ∨ m = Area z i.
Proof.
  destruct m as [| z' j|z' j| | | |]; cbn -[Z.of_nat]; try (by split; [|intros [|[|]]]);
    (split; [intros [-> ?]; destruct (decide (j = i)) as [->|]; [tauto|left; lia]
            |intros [?|[[= -> ->]|[= -> ->]]] || intros [?|[|]]; simplify_eq; lia]).
Qed.
Lemma level_node_S i n m :
  level_node i (i + Z.of_nat (S n)) m ↔ level_node (i + 1) (i + 1 + Z.of_nat n) m ∨ m = Lvl z i.
Proof.
  destruct m as [z' j| | | | | |]; cbn -[Z.of_nat]; try (by split; [|intros [|]]).
  split; [intros [-> ?]; destruct (decide (j = i)) as [->|]; [tauto|left; lia]|].
  intros [?|[= -> ->]]; lia.
Qed.

Lemma init_pages_at n i s :
  zones (init_pages n z i s) = zones s ∧
  (∀ j, pages (init_pages n z i s) z j =
     if decide (i ≤ j < i + Z.of_nat n) then Page j NOPAGE_ADDR 0 z else pages s z j) ∧
  (∀ m, lists (init_pages n z i s) m =
     if decide (page_node i (i + Z.of_nat n) m) then Node m m else lists s m).
Proof.
  revert i s. induction n as [|n IH]; intros i s; cbn [init_pages].
  - split_and!; [done|intros j; by rewrite decide_False by lia|].
    intros m. rewrite decide_False; [done|]. destruct m; simpl; lia.
  - destruct (IH (i + 1) (set_page (z, i) (Page i NOPAGE_ADDR 0 z)
      (with_lists (KLIST0_INIT (Area z i)) (with_lists (KLIST0_INIT (Pg z i)) s)))) as (-> & Hp & Hl).
    split_and!; [done| |].
    + intros j. rewrite Hp. cbn. destruct (decide (j = i)) as [->|].
      * by repeat (case_decide; try lia).
      * repeat (case_decide; try lia); try done; congruence.
    + intros m. rewrite Hl. cbn -[page_node]. rewrite !KLIST0_INIT_at.
      pose proof (page_node_S i n m). repeat case_decide; subst; tauto || done.
Qed.

Lemma init_levels_at n i s :
  zones (init_levels n z i s) = zones s ∧ pages (init_levels n z i s) = pages s ∧
  (∀ m, lists (init_levels n z i s) m =
     if decide (level_node i (i + Z.of_nat n) m) then Node m m else lists s m).
Proof.
  revert i s. induction n as [|n IH]; intros i s; cbn [init_levels].
  - split_and!; [done..|]. intros m. rewrite decide_False; [done|]. destruct m; simpl; lia.
  - destruct (IH (i + 1) (with_lists (KLIST0_INIT (Lvl z i)) s)) as (-> & -> & Hl).
    split_and!; [done..|]. intros m. rewrite Hl. cbn -[level_node]. rewrite KLIST0_INIT_at.
    pose proof (level_node_S i n m). repeat case_decide; subst; tauto || done.
Qed.

(** A node of the zone, and the nodes [mem_zone_init] sets up itself. *)
Definition zone_node (m : node) : Prop :=
  match m with Pg z' _ | Area z' _ | Lvl z' _ | Zone z' => z' = z | _ => False end.
Definition fresh_node (total : Z) (m : node) : Prop :=
  page_node 0 total m ∨ level_node 0 MAX_ORDER m ∨ m = Zone z.

(** Appending a zone to a list of zones. *)
Lemma zl_append_zone s L F :
  zlists s L z F → detached L (Zone z) → is_head L GlobalInfo →
  zlists (with_lists (klist0_append (Zone z) GlobalInfo) s)
         (upd L GlobalInfo (Zone z :: L GlobalInfo)) z F.
Proof.
  intros H Hd Hh.
  assert (∀ x y, x ∈ upd L GlobalInfo (Zone z :: L GlobalInfo) y → x = Zone z ∨ x ∈ L y) as Hsub.
  { intros x y. unfold upd. case_decide; [subst; intros [?|?]%elem_of_cons; tauto|tauto]. }
  split.
  - apply rep_append; [apply H|done..].
  - intros k y [?|Hy]%Hsub; [done|]. by apply (zl_lvl _ _ _ _ H k y).
  - intros k x Hx. rewrite upd_ne in Hx by done. by apply (zl_mem _ _ _ _ H).
  - intros i k Hi. rewrite upd_ne by done. by apply (zl_free _ _ _ _ H).
  - intros i y [?|Hy]%Hsub; [done|]. by apply (zl_pg _ _ _ _ H _ _ Hy).
  - intros i. rewrite upd_ne by done. apply H.
  - intros i. rewrite upd_ne by done. apply H.
Qed.

Lemma zl_empty s L : rep (lists s) L → (∀ m, zone_node m → detached L m) → zlists s L z ∅.
Proof.
  intros Hr Hd. split; try done.
  - intros k. by apply Hd.
  - intros k x. rewrite (proj2 (Hd (Lvl z k) eq_refl)). set_solver.
  - intros i y Hy. by destruct (proj1 (Hd (Pg z i) eq_refl) y).
  - intros i. by apply (Hd (Pg z i)).
  - intros i. by apply (Hd (Area z i)).
Qed.

(** The heap before [mem_zone_init] may hold anything in the nodes that it
    sets up. *)
Lemma mem_zone_init_spec s h0 L0 :
  let total := total_pages (zones s z) in
  0 ≤ total →
  rep h0 L0 → (∀ m, zone_node m → detached L0 m) → is_head L0 GlobalInfo →
  (∀ m, ¬ fresh_node total m → lists s m = h0 m) →
  ∃ L F, zinv (mem_zone_init z s) L F ∅ ∅ ∧ total_pages (zones (mem_zone_init z s) z) = total ∧
         L GlobalInfo = Zone z :: L0 GlobalInfo.
Proof.
  intros total Ht Hr0 Hd0 Hg Hs. unfold mem_zone_init. fold total.
  set (s1 := init_pages _ z 0 s). set (s2 := init_levels _ z 0 s1).
  set (s3 := with_lists (KLIST0_INIT (Zone z)) s2). set (s4 := set_zone _ _ _).
  destruct (init_pages_at (Z.to_nat total) 0 s) as (Hz1 & Hp1 & Hl1). fold s1 in Hz1, Hp1, Hl1.
  destruct (init_levels_at (Z.to_nat MAX_ORDER) 0 s1) as (Hz2 & Hp2 & Hl2). fold s2 in Hz2, Hp2, Hl2.
  assert (rep (lists s4) L0) as Hr.
  { eapply rep_ext; [exact Hr0|]. intros m. cbn. rewrite KLIST0_INIT_at, Hl2, Hl1.
    rewrite !Z2Nat.id, !Z.add_0_l by (done || lia). unfold fresh_node in Hs.
    assert (∀ m, fresh_node total m → h0 m = Node m m) as Hown.
    { intros m' Hm'. apply (rep_detached _ L0); [done|]. apply Hd0.
      destruct Hm' as [Hm'|[Hm'| ->]]; [destruct m'; naive_solver..|done]. }
    unfold fresh_node in Hown. specialize (Hown m).
    repeat case_decide; subst; try (rewrite Hown by tauto; done). apply Hs. tauto. }
  assert (total_pages (zones s4 z) = total) as Ht4 by (cbn; by rewrite decide_True).
  assert (∀ j, 0 ≤ j < total → index (pages s4 z j) = j ∧ pzone (pages s4 z j) = z) as Hidx.
  { intros j Hj. cbn. rewrite Hp2, Hp1, decide_True by lia. done. }
  assert (zlists s4 L0 z ∅) as HL4 by by apply zl_empty.
  assert (∃ L F, zinv (insert_piles (Z.to_nat total) z (consumed_pages total) s4) L F ∅ ∅ ∧
     same_outside z L0 L ∧ zones (insert_piles (Z.to_nat total) z (consumed_pages total) s4) = zones s4)
    as (L & F & H5 & Hout & Hz5).
  { rewrite <- Ht4 in Hidx. destruct (decide (consumed_pages total ≤ total)) as [Hc|Hc].
    - pose proof (consumed_nonneg total).
      apply (insert_piles_spec _ _ _ L0 ∅); rewrite ?Ht4; try (done || lia).
      + by apply wf_nil.
      + rewrite <- Ht4. apply Hidx.
    - exists L0, ∅. assert (insert_piles (Z.to_nat total) z (consumed_pages total) s4 = s4) as ->.
      { destruct (Z.to_nat total); [done|]. cbn [insert_piles]. rewrite decide_False; [done|]. rewrite Ht4. lia. }
      split; [|split; [by intros y _|done]]. split; [done| |set_solver|done].
      rewrite Ht4. apply wf_nil. lia. }
  assert (L GlobalInfo = L0 GlobalInfo) as HLg by by apply Hout.
  exists (upd L GlobalInfo (Zone z :: L GlobalInfo)), F. split_and!.
  - destruct H5 as [HL5 ? ? ?]. split; try done. apply zl_append_zone; [done|..].
    + split; [|rewrite Hout by done; by apply (Hd0 (Zone z))]. intros y.
      destruct y as [z' k| | | | | |]; try (rewrite Hout by done; by apply (Hd0 (Zone z))).
      destruct (decide (z' = z)) as [->|].
      * intros Hy. by destruct (zl_mem _ _ _ _ HL5 _ _ Hy) as (? & ? & _).
      * rewrite Hout by congruence. by apply (Hd0 (Zone z)).
    + intros y. destruct y as [z' k| | | | | |]; try (rewrite Hout by done; by apply Hg).
      destruct (decide (z' = z)) as [->|].
      * intros Hy. by destruct (zl_mem _ _ _ _ HL5 _ _ Hy) as (? & ? & _).
      * rewrite Hout by congruence. by apply Hg.
  - cbn. by rewrite Hz5.
  - rewrite upd_eq. by rewrite HLg.
Qed.
End zone.

(** ** Runs of the allocator *)

(** The states of a zone reachable from [s0] by requests, with the piles that
    are handed out. *)
Inductive reachable (z : Z) (s0 : pa) : pa → blocks → Prop :=
| reach_start : reachable z s0 s0 ∅
| reach_alloc s A flags ord q s' :
    reachable z s0 s A → 0 ≤ ord < MAX_ORDER →
    __alloc_pages flags z ord s = Ok (Some (z, q), s') →
    reachable z s0 s' ({[(q, ord)]} ∪ A)
| reach_free s A i k s' :
    reachable z s0 s A → (i, k) ∈ A → free_pages (z, i) s = Ok s' →
    reachable z s0 s' (A ∖ {[(i, k)]}).

Lemma reachable_zinv z s0 L0 F0 s A :
  zinv z s0 L0 F0 ∅ ∅ → reachable z s0 s A →
  (∃ L F, zinv z s L F A A) ∧ zones s = zones s0.
Proof.
  intros H0. induction 1 as [|s A flags ord q s' _ [(L & F & H) Hz] Hord Ha|s A i k s' _ [(L & F & H) Hz] HA Hf].
  - eauto.
  - unfold MAX_ORDER in Hord.
    destruct (alloc_pages_spec z s L F A flags ord H ltac:(lia)) as [[E _]|(q' & s1 & L1 & F1 & E & _ & H1 & _ & Hz1 & _)];
      rewrite E in Ha; simplify_eq. split; [eauto|congruence].
  - destruct (free_pages_spec z s L F A i k H HA) as (s1 & L1 & F1 & E & H1 & _ & Hz1).
    rewrite E in Hf. simplify_eq. split; [eauto|congruence].
Qed.

(** A free pile big enough is found by the search. *)
Definition has_free (F : blocks) (ord : Z) : Prop := ∃ i k, (i, k) ∈ F ∧ ord ≤ k.

(** ** Addresses of pages *)

Definition zone_range (s : pa) (z a : Z) : Prop :=
  base (zones s z) < a < base (zones s z) + total_pages (zones s z) * PAGE_SIZE.

Lemma zone_walk_spec s L zs1 z zs2 fuel a :
  rep (lists s) L → L GlobalInfo = Zone <$> (zs1 ++ z :: zs2) →
  zone_range s z a → (∀ y, y ∈ zs1 → ¬ zone_range s y a) →
  (∀ y, y ∈ zs1 ++ z :: zs2 → 0 ≤ base (zones s y) ∧ 0 ≤ total_pages (zones s y) ∧
     base (zones s y) + total_pages (zones s y) * PAGE_SIZE < 2 ^ 32) →
  (length zs1 < fuel)%nat →
  addr_to_page fuel a s = Ok (Some (z, (a - base (zones s z)) / PAGE_SIZE)).
Proof.
  intros Hr HL Hz Hno Hb Hf. unfold addr_to_page.
  assert (is_head L GlobalInfo) as Hh.
  { apply (rep_head_of _ _ (Zone z) _ Hr). rewrite HL, fmap_app. simpl. set_solver. }
  rewrite (rep_next _ L) by done. rewrite HL.
  assert (∀ pre mid, zs1 = pre ++ mid → (length mid < fuel)%nat →
    zone_walk fuel a (default GlobalInfo (head (Zone <$> (mid ++ z :: zs2)))) s =
    Ok (Some (z, (a - base (zones s z)) / PAGE_SIZE))) as Hw; [|by apply (Hw [])].
  assert (∀ y, y ∈ zs1 ++ z :: zs2 →
    u32 (base (zones s y) + u32 (total_pages (zones s y) * PAGE_SIZE)) =
    base (zones s y) + total_pages (zones s y) * PAGE_SIZE) as Hu.
  { intros y Hy. destruct (Hb y Hy) as (? & ? & ?). unfold PAGE_SIZE in *.
    rewrite (u32_small (_ * _)), u32_small; unfold is_u32; lia. }
  clear Hf. induction fuel as [|fuel IH]; intros pre mid Hpre Hf; [lia|]. cbn [zone_walk].
  destruct mid as [|y mid].
  - cbn. rewrite Hu by set_solver. rewrite decide_True by apply Hz. done.
  - cbn -[zone_walk u32]. rewrite Hu by (subst; set_solver).
    rewrite decide_False by (apply Hno; subst; set_solver).
    rewrite (rep_next_member _ L GlobalInfo (Zone <$> pre) _ (Zone <$> (mid ++ z :: zs2))); [|done|].
    + apply (IH (pre ++ [y])); [by rewrite <- app_assoc|simpl in Hf; lia].
    + rewrite HL, Hpre, <- app_assoc, fmap_app. done.
Qed.

(** ** The report *)

Lemma count_level_spec z s L F A W k l1 l2 fuel j :
  zinv z s L F A W → L (Lvl z k) = l1 ++ l2 → (length l2 < fuel)%nat →
  count_level fuel (default (Lvl z k) (head l2)) (Lvl z k) k j s = Ok (j + Z.of_nat (length l2)).
Proof.
  intros H. revert l1 l2 j. induction fuel as [|fuel IH]; intros l1 l2 j HL Hf; [lia|].
  cbn [count_level]. destruct l2 as [|x l2].
  { simpl. rewrite decide_True by done. f_equal. lia. }
  destruct (zl_mem _ _ _ _ (zi_lists _ _ _ _ _ _ H) k x) as (q & -> & HF); [rewrite HL; set_solver|].
  destruct (zi_block _ _ _ _ _ _ q k H) as (Hk & Hd & _); [set_solver|].
  destruct (zi_page _ _ _ _ _ _ q k H) as [Hq _]; [set_solver|].
  cbn -[count_level Z.of_nat]. rewrite decide_False by done.
  change (page_at s (z, q)) with (pages s z q).
  rewrite (zi_order _ _ _ _ _ _ H q k) by set_solver. rewrite decide_False by tauto. rewrite Hq.
  apply idx_order_spec in Hd; [|lia]. rewrite decide_False by lia.
  rewrite (rep_next_member _ L (Lvl z k) l1 _ l2); [|apply H|done].
  rewrite (IH (l1 ++ [Pg z q])); [f_equal; simpl; lia|by rewrite <- app_assoc|simpl in Hf; lia].
Qed.

Lemma count_levels_spec z s L F A W n fuel i total :
  zinv z s L F A W → (Z.to_nat (total_pages (zones s z)) < fuel)%nat →
  count_levels n fuel z i total s =
    Ok (total + foldr Z.add 0 ((λ k, Z.of_nat (length (L (Lvl z k))) * 2 ^ k) <$> seqZ i (Z.of_nat n))).
Proof.
  intros H Hf. revert i total. induction n as [|n IH]; intros i total; cbn [count_levels].
  { simpl. f_equal. lia. }
  rewrite (rep_next _ L) by apply H.
  pose proof (level_length z s L F A W i H).
  rewrite (count_level_spec z s L F A W i [] (L (Lvl z i))) by (done || lia). cbn [mbind outcome_bind].
  rewrite IH, Z.shiftl_1_l. rewrite (seqZ_cons i (Z.of_nat (S n))) by lia.
  rewrite fmap_cons. cbn [foldr]. replace (Z.pred (Z.of_nat (S n))) with (Z.of_nat n) by lia.
  replace (Z.succ i) with (i + 1) by lia. f_equal. lia.
Qed.

(** ** Properties *)

(** [mem_zone_init] turns whatever the memory held into a well-formed zone:
    all pages but those that hold the page structures are free, in aligned
    piles none of which could be joined, on the levels of their order. *)
Theorem mem_zone_init_correct z s h0 L0 :
  0 ≤ total_pages (zones s z) →
  rep h0 L0 → (∀ m, zone_node z m → detached L0 m) → is_head L0 GlobalInfo →
  (∀ m, ¬ fresh_node z (total_pages (zones s z)) m → lists s m = h0 m) →
  ∃ L F, zinv z (mem_zone_init z s) L F ∅ ∅ ∧
         total_pages (zones (mem_zone_init z s) z) = total_pages (zones s z) ∧
         L GlobalInfo = Zone z :: L0 GlobalInfo.
Proof. intros. by eapply mem_zone_init_spec. Qed.

(** C2: an allocation of order [ord] fails exactly when no free pile has that
    order or more, and then changes nothing; otherwise it hands out an aligned
    pile of 2^ord pages that was free, disjoint from all piles handed out
    before, and the free lists keep describing all the other free pages. *)
Theorem alloc_pages_correct z s L F A flags ord :
  zinv z s L F A A → 0 ≤ ord < MAX_ORDER →
  (¬ has_free F ord → __alloc_pages flags z ord s = Ok (None, s)) ∧
  (has_free F ord →
   ∃ q s' L' F', __alloc_pages flags z ord s = Ok (Some (z, q), s') ∧
     zinv z s' L' F' ({[(q, ord)]} ∪ A) ({[(q, ord)]} ∪ A) ∧ ((q, ord) ∉ A) ∧
     (∃ i k, (i, k) ∈ F ∧ i ≤ q ∧ q + 2 ^ ord ≤ i + 2 ^ k) ∧
     same_outside z L L' ∧ zones s' = zones s).
Proof.
  intros H Hord. unfold MAX_ORDER in Hord.
  destruct (alloc_pages_spec z s L F A flags ord H ltac:(lia))
    as [[E Hn]|(q & s' & L' & F' & E & Hq & H' & Hout & Hz & i & k & HF & Hi & Hk)].
  - split; [done|]. intros (i & k & HF & Hk). specialize (Hn i k HF). lia.
  - split.
    + intros Hn. destruct Hn. exists i, k. split; [done|].
      destruct (zi_block _ _ _ _ _ _ i k H) as [? _]; [set_solver|].
      apply (Z.pow_le_mono_r_iff 2); lia.
    + intros _. exists q, s', L', F'. split_and!; try done. exists i, k. by split_and!.
Qed.

(** C3: releasing a pile that was handed out never faults, never runs into a
    level beyond the last one and always ends; the pile is free afterwards,
    joined with its buddies as far as possible, and nothing else is. *)
Theorem free_pages_correct z s L F A i k :
  zinv z s L F A A → (i, k) ∈ A →
  ∃ s' L' F', free_pages (z, i) s = Ok s' ∧
    zinv z s' L' F' (A ∖ {[(i, k)]}) (A ∖ {[(i, k)]}) ∧
    area_unlinked z L L' ∧ zones s' = zones s.
Proof. apply free_pages_spec. Qed.

(** Releasing what was just allocated restores the free piles exactly: the
    splitting is undone by the joining. *)
Theorem alloc_free_roundtrip z s L F A flags ord q s1 :
  zinv z s L F A A → 0 ≤ ord < MAX_ORDER →
  __alloc_pages flags z ord s = Ok (Some (z, q), s1) →
  ∃ s2 L2, free_pages (z, q) s1 = Ok s2 ∧ zinv z s2 L2 F A A.
Proof.
  intros H Hord Ha. unfold MAX_ORDER in Hord.
  destruct (alloc_pages_spec z s L F A flags ord H ltac:(lia))
    as [[E _]|(q' & s' & L' & F' & E & Hq & H' & Hout & Hz & _)]; rewrite E in Ha; simplify_eq.
  destruct (free_pages_spec z s1 L' F' _ q ord H') as (s2 & L2 & F2 & E2 & H2 & _ & Hz2); [set_solver|].
  replace (({[(q, ord)]} ∪ A) ∖ {[(q, ord)]}) with A in H2 by (apply set_eq; set_solver).
  exists s2, L2. split; [done|].
  assert (F2 = F) as <-; [|done]. eapply wf_unique; [apply H2|]. rewrite Hz2, Hz. apply H.
Qed.

(** C1: in every run of allocations and releases on a freshly set up zone, the
    piles handed out are aligned, disjoint, inside the zone and outside the
    page structures, and every page that is not handed out is in a free pile. *)
Theorem page_allocator_runs z s0 L0 F0 s A :
  zinv z s0 L0 F0 ∅ ∅ → reachable z s0 s A →
  ∃ L F, zinv z s L F A A ∧
    (∀ i k, (i, k) ∈ A → (2 ^ k | i) ∧ consumed_pages (total_pages (zones s0 z)) ≤ i ∧
                         i + 2 ^ k ≤ total_pages (zones s0 z)) ∧
    (∀ i k j l x, (i, k) ∈ A → (j, l) ∈ A → within x i k → within x j l → (i, k) = (j, l)) ∧
    (∀ x, consumed_pages (total_pages (zones s0 z)) ≤ x < total_pages (zones s0 z) →
       ∃ i k, (i, k) ∈ F ∪ A ∧ within x i k).
Proof.
  intros H0 Hr. destruct (reachable_zinv z s0 L0 F0 s A H0 Hr) as [(L & F & H) Hz].
  rewrite <- Hz. exists L, F. pose proof (zi_wf _ _ _ _ _ _ H) as Hwf. split_and!; [done|..].
  - intros i k HA. destruct (wf_block _ _ _ _ _ Hwf i k) as (? & ? & ? & ?); [set_solver|]. by split_and!.
  - intros i k j l x Hi Hj Hx Hx'. destruct (wf_disj _ _ _ _ _ Hwf i k j l x) as [-> ->]; set_solver.
  - apply Hwf.
Qed.

(** over well-formed, disjoint zones below 4 GB, [addr_to_page] finds the page of every
    address [page_to_addr] gives for a page other than the first of its zone,
    and of every address inside that page. *)
Theorem page_addr_roundtrip s L zs1 z zs2 i off fuel :
  rep (lists s) L → L GlobalInfo = Zone <$> (zs1 ++ z :: zs2) →
  index (pages s z i) = i → pzone (pages s z i) = z →
  0 < i < total_pages (zones s z) → 0 ≤ off < PAGE_SIZE →
  (∀ y a, y ∈ zs1 → zone_range s z a → ¬ zone_range s y a) →
  (∀ y, y ∈ zs1 ++ z :: zs2 → 0 ≤ base (zones s y) ∧ 0 ≤ total_pages (zones s y) ∧
     base (zones s y) + total_pages (zones s y) * PAGE_SIZE < 2 ^ 32) →
  (length zs1 < fuel)%nat →
  addr_to_page fuel (page_to_addr (z, i) s + off) s = Ok (Some (z, i)).
Proof.
  intros Hr HL Hi Hp Hit Hoff Hdis Hb Hf.
  destruct (Hb z ltac:(set_solver)) as (Hb0 & Ht0 & Hlt). unfold PAGE_SIZE in *.
  assert (page_to_addr (z, i) s = base (zones s z) + i * 4096) as ->.
  { unfold page_to_addr, page_at. cbn [fst snd]. rewrite Hp, Hi. apply u32_small. unfold is_u32, PAGE_SIZE. lia. }
  assert (zone_range s z (base (zones s z) + i * 4096 + off)) as Hz by (unfold zone_range, PAGE_SIZE; lia).
  rewrite (zone_walk_spec s L zs1 z zs2) by (done || naive_solver).
  do 3 f_equal. unfold PAGE_SIZE. symmetry. apply Z.div_unique with off; lia.
Qed.

(** On a well-formed zone the self-check of [print_alloc_info] never calls
    bug(), and the total it prints is the number of pages on the free lists. *)
Theorem print_alloc_info_correct z s L F A fuel :
  zinv z s L F A A → (Z.to_nat (total_pages (zones s z)) < fuel)%nat →
  print_alloc_info fuel z s =
    Ok (foldr Z.add 0 ((λ k, Z.of_nat (length (L (Lvl z k))) * 2 ^ k) <$> seqZ 0 MAX_ORDER)).
Proof. intros H Hf. unfold print_alloc_info. by rewrite (count_levels_spec z s L F A A) by done. Qed.

(** *** A zone of sixteen pages *)

Definition boot16 : pa :=
  Pa empty_heap (λ _ _, Page 0 0 0 0) (λ z, MemZone (1048576 + 65536 * z) 16 0).
Definition zone16 : pa := mem_zone_init 0 boot16.

Lemma mem_zone_init_correct_witness :
  (∃ L F, zinv 0 zone16 L F ∅ ∅) ∧ print_alloc_info 20 0 zone16 = Ok 15.
Proof.
  destruct (mem_zone_init_correct 0 boot16 empty_heap (λ _, [])) as (L & F & H & _ & _).
  - simpl. lia.
  - apply empty_heap_rep.
  - intros m _. split; [intros y; apply not_elem_of_nil|reflexivity].
  - intros y. apply not_elem_of_nil.
  - reflexivity.
  - split; [by exists L, F|]. vm_compute. reflexivity.
Defined.

Lemma zone16_inv : ∃ L F, zinv 0 zone16 L F ∅ ∅.
Proof.
  destruct (mem_zone_init_spec 0 boot16 empty_heap (λ _, [])) as (L & F & H & _ & _); [| | | |done|eauto].
  - simpl. lia.
  - apply empty_heap_rep.
  - intros m _. split; [intros y; apply not_elem_of_nil|done].
  - intros y. apply not_elem_of_nil.
Qed.

Lemma zone16_total : total_pages (zones zone16 0) = 16.
Proof. vm_compute. reflexivity. Qed.

Lemma zone16_some_free L F : zinv 0 zone16 L F ∅ ∅ → has_free F 0.
Proof.
  intros H. pose proof (zi_wf _ _ _ _ _ _ H) as Hwf. rewrite zone16_total in Hwf.
  destruct (wf_cover _ _ _ _ _ Hwf 8) as (i & k & Hik & _); [by vm_compute|].
  destruct (wf_block _ _ _ _ _ Hwf i k Hik) as [? _]. exists i, k. split; [set_solver|lia].
Qed.

Lemma zone16_alloc :
  ∃ q s1 L F, __alloc_pages 0 0 0 zone16 = Ok (Some (0, q), s1) ∧
              zinv 0 s1 L F ({[(q, 0)]} ∪ ∅) ({[(q, 0)]} ∪ ∅).
Proof.
  destruct zone16_inv as (L & F & H).
  destruct (alloc_pages_spec 0 zone16 L F ∅ 0 0 H ltac:(lia)) as [[E Hn]|(q & s' & L' & F' & E & _ & H' & _)].
  - destruct (zone16_some_free L F H) as (i & k & HF & Hk). specialize (Hn i k HF). lia.
  - eauto 10.
Qed.

Lemma alloc_pages_correct_witness :
  ∃ q s', __alloc_pages 0 0 0 zone16 = Ok (Some (0, q), s').
Proof.
  destruct zone16_inv as (L & F & H).
  destruct (alloc_pages_correct 0 zone16 L F ∅ 0 0 H) as [_ Hsome]; [unfold MAX_ORDER; lia|].
  destruct Hsome as (q & s' & _ & _ & E & _); [exact (zone16_some_free L F H)|exists q, s'; exact E].
Defined.

Lemma free_pages_correct_witness :
  ∃ q s1 s2, __alloc_pages 0 0 0 zone16 = Ok (Some (0, q), s1) ∧ free_pages (0, q) s1 = Ok s2.
Proof.
  destruct zone16_alloc as (q & s1 & L & F & Ha & H).
  destruct (free_pages_correct 0 s1 L F _ q 0 H) as (s2 & _ & _ & Hf & _);
    [apply elem_of_union_l, elem_of_singleton; reflexivity|].
  exists q, s1, s2. exact (conj Ha Hf).
Defined.

Lemma alloc_free_roundtrip_witness :
  ∃ q s1 s2 L F, __alloc_pages 0 0 0 zone16 = Ok (Some (0, q), s1) ∧ free_pages (0, q) s1 = Ok s2 ∧
                 zinv 0 s2 L F ∅ ∅.
Proof.
  destruct zone16_inv as (L & F & H). destruct zone16_alloc as (q & s1 & _ & _ & Ha & _).
  destruct (alloc_free_roundtrip 0 zone16 L F ∅ 0 0 q s1 H) as (s2 & L2 & Hf & H2);
    [unfold MAX_ORDER; lia|exact Ha|].
  exists q, s1, s2, L2, F. exact (conj Ha (conj Hf H2)).
Defined.

Lemma page_allocator_runs_witness :
  ∃ q s1 L F, reachable 0 zone16 s1 ({[(q, 0)]} ∪ ∅) ∧ zinv 0 s1 L F ({[(q, 0)]} ∪ ∅) ({[(q, 0)]} ∪ ∅).
Proof.
  destruct zone16_inv as (L & F & H). destruct zone16_alloc as (q & s1 & _ & _ & Ha & _).
  assert (reachable 0 zone16 s1 ({[(q, 0)]} ∪ ∅)) as Hr.
  { apply (reach_alloc 0 zone16 zone16 ∅ 0 0 q s1); [constructor|unfold MAX_ORDER; lia|exact Ha]. }
  destruct (page_allocator_runs 0 zone16 L F s1 _ H Hr) as (L1 & F1 & H1 & _).
  exists q, s1, L1, F1. exact (conj Hr H1).
Defined.

Lemma page_addr_roundtrip_witness :
  addr_to_page 2 (page_to_addr (0, 5) zone16 + 12) zone16 = Ok (Some (0, 5)).
Proof.
  destruct (mem_zone_init_spec 0 boot16 empty_heap (λ _, [])) as (L & F & H & _ & HL);
    [simpl; lia|apply empty_heap_rep|intros m _; split; [intros y; apply not_elem_of_nil|done]
    |intros y; apply not_elem_of_nil|done|].
  apply (page_addr_roundtrip zone16 L [] 0 [] 5 12 2).
  - apply H.
  - exact HL.
  - by vm_compute.
  - by vm_compute.
  - by vm_compute.
  - unfold PAGE_SIZE. lia.
  - intros y a Hy. by apply elem_of_nil in Hy.
  - intros y Hy. apply list_elem_of_singleton in Hy as ->. by vm_compute.
  - simpl. lia.
Defined.

Lemma print_alloc_info_correct_witness : ∃ n, print_alloc_info 20 0 zone16 = Ok n.
Proof.
  destruct zone16_inv as (L & F & H). eexists.
  apply (print_alloc_info_correct 0 zone16 L F ∅ 20 H). vm_compute. lia.
Defined.

(** *** Two defects of the list handling *)

(** Two pages that are buddies, each linked in an area list.  Releasing the
    second one joins it with the first, [pg] becomes the neighbour, and the
    area node of the page that is released stays linked. *)
Definition stale_area : outcome (bool * bool) :=
  '(p8, s) ← __alloc_pages 0 0 0 (mem_zone_init 0 (Pa empty_heap (λ _ _, Page 0 0 0 0) (λ _, MemZone 0 4 0)));
  '(p, s) ← __alloc_pages 0 0 0 s;
  match p8, p with
  | Some p8, Some p =>
      let s := with_lists (klist0_append (Area p8.1 p8.2) (Ext 0)) s in
      let s := with_lists (klist0_append (Area p.1 p.2) (Ext 1)) s in
      s ← free_pages p8 s;
      s ← free_pages p s;
      Ok (klist0_empty (Ext 0) (lists s), klist0_empty (Ext 1) (lists s))
  | _, _ => Fault
  end.

Example free_pages_stale_area : stale_area = Ok (true, false).
Proof. vm_compute. reflexivity. Qed.

(** [free_pagelist] on a list of one page: [free_pages] has unlinked the node
    it reads the successor from. *)
Definition pagelist_free (fuel : nat) : outcome unit :=
  '(p, s) ← __alloc_pages 0 0 1 zone16;
  match p with
  | Some p =>
      let s := with_lists (klist0_append (Area p.1 p.2) (Ext 0)) s in
      _ ← free_pagelist fuel (Ext 0) s; Ok tt
  | None => Fault
  end.

Example free_pagelist_hangs : pagelist_free 40 = Hang.
Proof. vm_compute. reflexivity. Qed.
