(* ===== verification/Slice.v ===== *)
(** * The slice allocator (kernel/slice.c)

    A slice pool hands out objects of one size from pages that carry an
    allocation bitmap in their last bytes.  Pages come from a page source
    ([PageSource]: what kernel/page_alloc.c promises), which the page allocator
    implements at the end of this file.  The list nodes of the pages and of
    the pools are in a klist0 heap; the bitmap of a page is the array of words
    at its end.

    [sinv] is the invariant of a pool; under it the objects handed out are
    disjoint from each other and from the bitmap. *)

From S2P Require Import Prelude KList Bitmap Klib Buddy PageAlloc.

(** ** What the page allocator promises *)

Class PageSource (S : Type) := {
  (** The frames handed out, by address. *)
  ps_inv : S → gset Z → Prop;
  (** [alloc_page(flags)] and [page_to_addr]. *)
  ps_get : Z → S → outcome (option Z * S);
  (** [free_page] of the page of an address. *)
  ps_put : Z → S → outcome S;
  ps_frames s live a : ps_inv s live → a ∈ live → (PAGE_SIZE | a) ∧ 0 ≤ a ∧ a + PAGE_SIZE ≤ 2 ^ 32;
  ps_get_ok s live flags :
    ps_inv s live → Z.land flags ZONE_MASK = ZONE_BOOT →
    ∃ r s', ps_get flags s = Ok (r, s') ∧
      match r with
      | Some a => (a ∉ live) ∧ ps_inv s' ({[a]} ∪ live)
      | None => ps_inv s' live
      end;
  ps_put_ok s live a :
    ps_inv s live → a ∈ live → ∃ s', ps_put a s = Ok s' ∧ ps_inv s' (live ∖ {[a]});
}.

(** ** State *)

Inductive snode :=
| SPg (a : Z) | Active (p : Z) | Inactive (p : Z) | SliceList (p : Z) | Swamp.
#[global] Instance snode_eq_dec : EqDecision snode.
Proof. solve_decision. Defined.

(* include/slice.h:25-36 slice_pool *)
Record slice_pool := SlicePool { obj_size : Z; pool_flags : Z }.

Record slst (S : Type) := Sl {
  src : S; snodes : heap snode; bmask : Z → words; pools : Z → slice_pool }.
Arguments Sl {S}.
Arguments src {S}.
Arguments snodes {S}.
Arguments bmask {S}.
Arguments pools {S}.

Section slice.
Context {S : Type} `{PS : PageSource S}.

Definition with_nodes (f : heap snode → heap snode) (s : slst S) : slst S :=
  Sl (src s) (f (snodes s)) (bmask s) (pools s).
Definition with_bmask (a : Z) (f : words → words) (s : slst S) : slst S :=
  Sl (src s) (snodes s) (λ b, if decide (b = a) then f (bmask s b) else bmask s b) (pools s).
Definition with_src (c : S) (s : slst S) : slst S := Sl c (snodes s) (bmask s) (pools s).

(* kernel/slice.c:41-45 slice_init *)
Definition slice_init (s : slst S) : slst S := with_nodes (KLIST0_INIT Swamp) s.

(** Objects per page, and how many of them the bitmap leaves. *)
Definition nobjs_of (size : Z) : Z := PAGE_SIZE / size.
Definition usable (size : Z) : Z :=
  let nobjs := nobjs_of size in
  let bitmap_size := BITMAP_SIZE nobjs in
  if decide (PAGE_SIZE - nobjs * size < bitmap_size) then
    let consumed_bytes := bitmap_size - (PAGE_SIZE - nobjs * size) in
    nobjs - (consumed_bytes / size + (if decide (consumed_bytes `mod` size ≠ 0) then 1 else 0))
  else nobjs.

(* kernel/slice.c:91-122 slice_pool_create *)
Definition slice_pool_create (flags size : Z) (s : slst S) : outcome (option Z * slst S) :=
  if decide (PAGE_SIZE / 2 - 4 < u32 size) then Bug else
  '(pg, c) ← ps_get flags (src s);
  match pg with
  | None => Fault (* get_page dereferences the missing page *)
  | Some p =>
      let s := with_src c s in
      let s := with_nodes (KLIST0_INIT (SliceList p)) s in
      let s := with_nodes (KLIST0_INIT (Inactive p)) s in
      let s := with_nodes (KLIST0_INIT (Active p)) s in
      let s := Sl (src s) (snodes s) (bmask s)
                  (λ q, if decide (q = p) then SlicePool size flags else pools s q) in
      Ok (Some p, with_nodes (klist0_append (SliceList p) Swamp) s)
  end.

(** The page of an active list is the page of its first node. *)
Definition entry (n : snode) : outcome Z := match n with SPg a => Ok a | _ => Fault end.

(** A fresh page: everything marked used, then the usable slices freed and
    the last of them taken. *)
Definition fresh_bitmap (size : Z) (w : words) : words :=
  bitmap_bit_set (bitmap_zero (bitmap_fill w (nobjs_of size)) (usable size)) (usable size - 1).

(* kernel/slice.c:186-276 slice_alloc *)
Definition slice_alloc (p : Z) (s : slst S) : outcome (option Z * slst S) :=
  let size := obj_size (pools s p) in
  if decide (size = 0) then Fault else
  let nobjs := nobjs_of size in
  if klist0_empty (Active p) (snodes s) then
    '(pg, c) ← ps_get 0 (src s);
    let s := with_src c s in
    match pg with
    | None => Ok (None, s)
    | Some a =>
        let s := with_bmask a (fresh_bitmap size) s in
        let s := with_nodes (klist0_append (SPg a) (Active p)) s in
        Ok (Some (u32 (a + (usable size - 1) * size)), s)
    end
  else
    a ← entry (next (snodes s (Active p)));
    let number := bitmap_seek_unset (bmask s a) nobjs in
    if decide (number = -1) then Bug else
    let s := with_bmask a (λ w, bitmap_bit_set w number) s in
    let s :=
      if bitmap_all_set (bmask s a) nobjs then
        with_nodes (klist0_append (SPg a) (Inactive p)) (with_nodes (klist0_unlink (SPg a)) s)
      else s in
    Ok (Some (u32 (a + number * size)), s).

(** The walk of [slice_free] over one of the two lists. *)
Fixpoint find_page (fuel : nat) (tmp head : snode) (pg_addr : Z) (s : slst S) : outcome bool :=
  match fuel with
  | O => Hang
  | Datatypes.S f =>
      if decide (tmp = head) then Ok false
      else a ← entry tmp;
           if decide (a = pg_addr) then Ok true
           else find_page f (next (snodes s tmp)) head pg_addr s
  end.

(* kernel/slice.c:278-346 slice_free *)
Definition slice_free (fuel : nat) (slice p : Z) (s : slst S) : outcome (slst S) :=
  let size := obj_size (pools s p) in
  if decide (size = 0) then Fault else
  let pg_addr := Z.land slice (u32 (Z.shiftl (2 ^ 32 - 1) PAGE_SHIFT)) in
  let slice_idx := (slice - pg_addr) / size in
  found ← find_page fuel (next (snodes s (Inactive p))) (Inactive p) pg_addr s;
  if (found : bool) then
    let s := with_nodes (klist0_unlink (SPg pg_addr)) s in
    let s := with_nodes (klist0_append (SPg pg_addr) (Active p)) s in
    Ok (with_bmask pg_addr (λ w, bitmap_bit_clear w slice_idx) s)
  else
    found ← find_page fuel (next (snodes s (Active p))) (Active p) pg_addr s;
    if (found : bool) then Ok (with_bmask pg_addr (λ w, bitmap_bit_clear w slice_idx) s)
    else Bug.

(** The loop of [slice_pool_shrink]. *)
Fixpoint shrink_loop (fuel : nat) (t : snode) (p : Z) (s : slst S) : outcome (slst S) :=
  match fuel with
  | O => Hang
  | Datatypes.S f =>
      if decide (t = Active p) then Ok s
      else
        a ← entry t;
        if bitmap_all_unset (bmask s a) (usable (obj_size (pools s p))) then
          let nxt := next (snodes s t) in
          let s := with_nodes (klist0_unlink t) s in
          c ← ps_put a (src s);
          shrink_loop f nxt p (with_src c s)
        else shrink_loop f (next (snodes s t)) p s
  end.

(* kernel/slice.c:124-165 slice_pool_shrink *)
Definition slice_pool_shrink (fuel : nat) (p : Z) (s : slst S) : outcome (slst S) :=
  if decide (obj_size (pools s p) = 0) then Fault
  else shrink_loop fuel (next (snodes s (Active p))) p s.

(* kernel/slice.c:167-184 slice_pool_recycle *)
Definition slice_pool_recycle (fuel : nat) (p : Z) (s : slst S) : outcome (slst S) :=
  if negb (klist0_empty (Inactive p) (snodes s)) then Bug else
  s ← slice_pool_shrink fuel p s;
  if negb (klist0_empty (Active p) (snodes s)) then Bug else
  c ← ps_put p (src s);
  Ok (with_src c s).

(* kernel/slice.c:47-63 slice_page_info *)
Definition slice_page_info (a size : Z) (s : slst S) : list Z :=
  bitmap_print (bmask s a) (nobjs_of size).

(** The bitmaps [slice_pool_info] prints, one list after the other. *)
Fixpoint info_loop (fuel : nat) (tmp head : snode) (size : Z) (s : slst S) : outcome (list (list Z)) :=
  match fuel with
  | O => Hang
  | Datatypes.S f =>
      if decide (tmp = head) then Ok []
      else a ← entry tmp;
           rest ← info_loop f (next (snodes s tmp)) head size s;
           Ok (slice_page_info a size s :: rest)
  end.

(* kernel/slice.c:65-89 slice_pool_info *)
Definition slice_pool_info (fuel : nat) (p : Z) (s : slst S) : outcome (list (list Z)) :=
  let size := obj_size (pools s p) in
  inact ← info_loop fuel (next (snodes s (Inactive p))) (Inactive p) size s;
  act ← info_loop fuel (next (snodes s (Active p))) (Active p) size s;
  Ok (inact ++ act).

(** ** Sizes *)

Definition size_check (size : Z) : bool :=
  bool_decide (2 ≤ usable size ≤ nobjs_of size ∧
               usable size * size + BITMAP_SIZE (nobjs_of size) ≤ PAGE_SIZE).

Lemma size_check_all : forallb size_check (seqZ 1 2044) = true.
Proof. vm_compute. reflexivity. Qed.

(** The usable slices and the bitmap fit in the page. *)
Lemma usable_bounds size :
  1 ≤ size ≤ 2044 →
  2 ≤ usable size ≤ nobjs_of size ∧ usable size * size + BITMAP_SIZE (nobjs_of size) ≤ PAGE_SIZE.
Proof.
  intros Hs. pose proof size_check_all as H. rewrite forallb_forall in H.
  specialize (H size). assert (In size (seqZ 1 2044)) as Hin.
  { apply list_elem_of_In, elem_of_seqZ. lia. }
  apply H in Hin. unfold size_check in Hin. by apply bool_decide_eq_true in Hin.
Qed.

(** The sizes for which [bitmap_fill] marks the slices the bitmap occupies. *)
Definition good_size (size : Z) : Prop :=
  usable size = nobjs_of size ∨ nobjs_of size `mod` 32 ≤ 16.

Lemma fresh_bit size w i :
  1 ≤ size ≤ 2044 → 0 ≤ i →
  bit (fresh_bitmap size w) i =
    bool_decide (usable size - 1 = i) ||
    (if decide (i < 32 * (usable size / 32)) then false
     else if decide (usable size < 32 ∧ i < usable size) then false
     else bool_decide (i < 32 * (nobjs_of size / 32) + (32 - nobjs_of size `mod` 32)) || bit w i).
Proof.
  intros Hs Hi. destruct (usable_bounds size Hs) as [Hu _]. unfold fresh_bitmap.
  rewrite bit_bit_set, bit_bitmap_zero, bit_bitmap_fill by lia. done.
Qed.

Lemma fresh_reserved size w i :
  1 ≤ size ≤ 2044 → good_size size → usable size ≤ i < nobjs_of size →
  bit (fresh_bitmap size w) i = true.
Proof.
  intros Hs Hg Hi. destruct (usable_bounds size Hs) as [Hu _]. rewrite fresh_bit by lia.
  rewrite bool_decide_false by lia.
  pose proof (Z.div_mod (usable size) 32 ltac:(lia)). pose proof (Z.mod_pos_bound (usable size) 32 ltac:(lia)).
  rewrite decide_False by lia. rewrite decide_False by lia.
  destruct Hg as [?|Hg]; [lia|]. pose proof (Z.div_mod (nobjs_of size) 32 ltac:(lia)).
  rewrite bool_decide_true by lia. done.
Qed.

Lemma fresh_room size w : 1 ≤ size ≤ 2044 → bit (fresh_bitmap size w) 0 = false.
Proof.
  intros Hs. destruct (usable_bounds size Hs) as [Hu _]. rewrite fresh_bit by lia.
  rewrite bool_decide_false by lia.
  pose proof (Z.div_mod (usable size) 32 ltac:(lia)). pose proof (Z.mod_pos_bound (usable size) 32 ltac:(lia)).
  repeat case_decide; try done; try lia.
Qed.

Lemma shr_is_u32 k : is_u32 (shr Bitmap.ULONG_MAX k).
Proof.
  unfold shr. pose proof (Z.mod_pos_bound k 32 ltac:(lia)). rewrite Z.shiftr_div_pow2 by lia.
  assert (0 < 2 ^ (k `mod` 32)) by (apply Z.pow_pos_nonneg; lia). split.
  - apply Z.div_pos; [done|lia].
  - apply Z.div_lt_upper_bound; [lia|]. unfold Bitmap.ULONG_MAX. nia.
Qed.

Lemma wset_ok w i v : words_ok w → is_u32 v → words_ok (wset w i v).
Proof. intros Hw Hv j. unfold wset. by case_decide. Qed.
Lemma bit_set_ok w i : words_ok w → words_ok (bitmap_bit_set w i).
Proof. intros Hw. apply wset_ok; [done|]. apply lor_is_u32; [apply Hw|apply u32_range]. Qed.
Lemma bit_clear_ok w i : words_ok w → words_ok (bitmap_bit_clear w i).
Proof. intros Hw. apply wset_ok; [done|]. apply land_is_u32; [apply Hw|apply u32_range]. Qed.
Lemma zero_ok w n : words_ok w → words_ok (bitmap_zero w n).
Proof.
  intros Hw. unfold bitmap_zero. set (w' := if decide _ then _ else _).
  assert (words_ok w') as Hw' by (unfold w'; intros j; repeat case_decide; try apply Hw; done).
  apply wset_ok; [done|]. apply land_is_u32; [apply Hw'|apply u32_range].
Qed.
Lemma fill_ok w n : 0 ≤ n → words_ok w → words_ok (bitmap_fill w n).
Proof.
  intros Hn Hw. unfold bitmap_fill. destruct (fill_words_spec (Z.to_nat n) w 0 n) as (w' & -> & Hw'); [lia..|].
  assert (words_ok w') as Hok by (intros j; rewrite Hw'; case_decide; [done|apply Hw]).
  apply wset_ok; [done|]. apply lor_is_u32; [apply Hok|apply shr_is_u32].
Qed.
Lemma fresh_ok size w : 1 ≤ size ≤ 2044 → words_ok w → words_ok (fresh_bitmap size w).
Proof.
  intros Hs Hw. destruct (usable_bounds size Hs) as [Hu _].
  apply bit_set_ok, zero_ok, fill_ok; [lia|done].
Qed.

(** ** The invariant *)

Record sinv (s : slst S) (L : snode → list snode) (p : Z) (live fr : gset Z) (objs : gset (Z * Z)) : Prop := {
  si_src : ps_inv (src s) live;
  si_rep : rep (snodes s) L;
  si_act : is_head L (Active p);
  si_inact : is_head L (Inactive p);
  si_size : 1 ≤ obj_size (pools s p) ≤ 2044 ∧ good_size (obj_size (pools s p));
  si_fr a : a ∈ fr ↔ SPg a ∈ L (Active p) ∨ SPg a ∈ L (Inactive p);
  si_mem x : x ∈ L (Active p) ∨ x ∈ L (Inactive p) → ∃ a, x = SPg a;
  si_sub : fr ⊆ live;
  si_fresh a : a ∉ live → detached L (SPg a);
  si_words a : words_ok (bmask s a);
  si_res a i : a ∈ fr → usable (obj_size (pools s p)) ≤ i < nobjs_of (obj_size (pools s p)) →
    bit (bmask s a) i = true;
  si_obj a i : (a, i) ∈ objs →
    a ∈ fr ∧ 0 ≤ i < usable (obj_size (pools s p)) ∧ bit (bmask s a) i = true;
  si_room a : SPg a ∈ L (Active p) →
    ∃ i, 0 ≤ i < nobjs_of (obj_size (pools s p)) ∧ bit (bmask s a) i = false;
}.

Lemma addr_small s L p live fr objs a i :
  sinv s L p live fr objs → a ∈ fr → 0 ≤ i < usable (obj_size (pools s p)) →
  u32 (a + i * obj_size (pools s p)) = a + i * obj_size (pools s p) ∧
  (PAGE_SIZE | a) ∧ 0 ≤ a ∧ 0 ≤ i * obj_size (pools s p) < PAGE_SIZE.
Proof.
  intros H Ha Hi. destruct (si_size _ _ _ _ _ _ H) as [Hs _].
  destruct (ps_frames _ _ a (si_src _ _ _ _ _ _ H)) as (Hd & H0 & Hle); [by apply (si_sub _ _ _ _ _ _ H)|].
  destruct (usable_bounds _ Hs) as [Hu Hfit].
  assert (0 < BITMAP_SIZE (nobjs_of (obj_size (pools s p)))).
  { unfold BITMAP_SIZE, LONG_MASK, BITS_PER_LONG.
    assert (nobjs_of (obj_size (pools s p)) ≤ 4096).
    { unfold nobjs_of, PAGE_SIZE. apply Z.div_le_upper_bound; nia. }
    replace (Z.land _ _) with (roundup_l2 (nobjs_of (obj_size (pools s p))) (2 ^ 5)) by done.
    rewrite roundup_l2_spec by lia. change (2 ^ 5) with 32.
    set (n := nobjs_of _) in *. assert (1 ≤ (n + 32 - 1) / 32) by (apply Z.div_le_lower_bound; lia).
    apply Z.div_str_pos. lia. }
  unfold PAGE_SIZE in *. split_and!; [|done|lia|nia|nia].
  apply u32_small. unfold is_u32. nia.
Qed.

(** Changing the bitmap of one frame. *)
Lemma bmask_with a f b (s : slst S) :
  bmask (with_bmask a f s) b = if decide (b = a) then f (bmask s b) else bmask s b.
Proof. done. Qed.

(** A free bit below the limit, or none. *)
Lemma room_or_full w n : (∃ i, 0 ≤ i < n ∧ bit w i = false) ∨ (∀ i, 0 ≤ i < n → bit w i = true).
Proof.
  destruct (bitmap_seek_unset_spec w n) as [(? & ? & _)|[_ ?]]; [left|by right].
  by exists (bitmap_seek_unset w n).
Qed.

Lemma slice_alloc_fresh s L p live fr objs :
  sinv s L p live fr objs → L (Active p) = [] →
  ∃ r s', slice_alloc p s = Ok (r, s') ∧ pools s' = pools s ∧
    match r with
    | None => sinv s' L p live fr objs
    | Some x => ∃ a i L' live' fr', x = a + i * obj_size (pools s p) ∧ ((a, i) ∉ objs) ∧
        sinv s' L' p live' fr' ({[(a, i)]} ∪ objs)
    end.
Proof.
  intros H HL. destruct (si_size _ _ _ _ _ _ H) as [Hs Hg]. unfold slice_alloc.
  rewrite decide_False by lia. rewrite (rep_empty_head _ L) by apply H. rewrite HL.
  rewrite bool_decide_true by done.
  destruct (ps_get_ok _ _ 0 (si_src _ _ _ _ _ _ H)) as (r & c & -> & Hr); [done|]. cbn [mbind outcome_bind].
  destruct r as [a|].
  2:{ exists None, (with_src c s). split; [done|]. split; [done|]. destruct H. by split. }
  destruct Hr as [Ha Hc]. pose proof (si_fresh _ _ _ _ _ _ H a Ha) as Hdet.
  set (sz := obj_size (pools s p)) in *. set (u := usable sz) in *.
  destruct (usable_bounds sz Hs) as [Hu _]. fold u in Hu.
  assert (a ∉ fr) as Hafr by (intros Hf; by apply Ha, (si_sub _ _ _ _ _ _ H)).
  set (s' := with_nodes _ _). set (L' := upd L (Active p) [SPg a]).
  assert (∀ x, x ∈ L' (Active p) ↔ x = SPg a) as HA by (intros x; unfold L'; rewrite upd_eq; set_solver).
  assert (L' (Inactive p) = L (Inactive p)) as HI by by apply upd_ne.
  assert (sinv s' L' p ({[a]} ∪ live) ({[a]} ∪ fr) ({[(a, u - 1)]} ∪ objs)) as H'.
  { split; cbn [src snodes pools s' with_nodes with_src with_bmask]; fold sz; fold u.
    - done.
    - unfold L'. rewrite <- HL. by apply rep_append; [apply H..|done|].
    - intros y. unfold L', upd. case_decide; [set_solver|]. apply (si_act _ _ _ _ _ _ H).
    - intros y. unfold L', upd. case_decide; [set_solver|]. apply (si_inact _ _ _ _ _ _ H).
    - done.
    - intros b. rewrite HI, HA, elem_of_union, elem_of_singleton, (si_fr _ _ _ _ _ _ H), HL. set_solver.
    - intros x. rewrite HI, HA. intros [->|Hx]; [eauto|]. apply (si_mem _ _ _ _ _ _ H). by right.
    - pose proof (si_sub _ _ _ _ _ _ H). set_solver.
    - intros b Hb. assert (b ≠ a ∧ b ∉ live) as [Hne Hb'] by set_solver.
      destruct (si_fresh _ _ _ _ _ _ H b Hb') as [Hh Hn]. split.
      + intros y. unfold L', upd. case_decide; [set_solver|apply Hh].
      + unfold L'. by rewrite upd_ne.
    - intros b. change (bmask s' b) with (bmask (with_bmask a (fresh_bitmap sz) s) b). rewrite bmask_with.
      case_decide; [apply fresh_ok; [done|]|]; apply (si_words _ _ _ _ _ _ H).
    - intros b i Hb Hi. change (bmask s' b) with (bmask (with_bmask a (fresh_bitmap sz) s) b). rewrite bmask_with.
      case_decide; [by apply fresh_reserved|]. apply (si_res _ _ _ _ _ _ H); [set_solver|done].
    - intros b i Hb. change (bmask s' b) with (bmask (with_bmask a (fresh_bitmap sz) s) b). rewrite bmask_with.
      apply elem_of_union in Hb as [Hb|Hb].
      + apply elem_of_singleton in Hb as [= -> ->]. split_and!; [set_solver|lia|lia|].
        rewrite decide_True, fresh_bit by (done || lia). by rewrite bool_decide_true.
      + destruct (si_obj _ _ _ _ _ _ H _ _ Hb) as (? & ? & ?). rewrite decide_False by (intros ->; done).
        split; [set_solver|done].
    - intros b Hb. apply HA in Hb as [= ->]. exists 0. split; [lia|].
      change (bmask s' a) with (bmask (with_bmask a (fresh_bitmap sz) s) a). rewrite bmask_with.
      rewrite decide_True by done. by apply fresh_room. }
  eexists _, s'. split; [done|]. split; [done|]. exists a, (u - 1), L', ({[a]} ∪ live), ({[a]} ∪ fr).
  split_and!; [|by intros Hb; apply (si_obj _ _ _ _ _ _ H) in Hb as [? _]|done].
  apply (addr_small _ _ _ _ _ _ a (u - 1) H'); [set_solver|]. change (pools s' p) with (pools s p). fold sz u. lia.
Qed.

(** Setting or clearing a bit of an object of the pool, the lists untouched:
    what is left to show is the room on the active pages. *)
Lemma sinv_bit s L p live fr objs objs' a f :
  sinv s L p live fr objs → words_ok (f (bmask s a)) →
  (∀ i, usable (obj_size (pools s p)) ≤ i < nobjs_of (obj_size (pools s p)) →
     bit (bmask s a) i = true → bit (f (bmask s a)) i = true) →
  (∀ b i, (b, i) ∈ objs' → b ∈ fr ∧ 0 ≤ i < usable (obj_size (pools s p)) ∧
     bit (bmask (with_bmask a f s) b) i = true) →
  (SPg a ∈ L (Active p) →
     ∃ i, 0 ≤ i < nobjs_of (obj_size (pools s p)) ∧ bit (f (bmask s a)) i = false) →
  sinv (with_bmask a f s) L p live fr objs'.
Proof.
  intros H Hf Hres Hobj Hroom. destruct H. split; try done.
  - intros b. rewrite bmask_with. case_decide; [by subst|done].
  - intros b i Hb Hi. rewrite bmask_with. case_decide; [|by apply si_res0].
    subst. apply Hres; [done|by apply si_res0].
  - intros b Hb. rewrite bmask_with. case_decide; [subst; by apply Hroom|by apply si_room0].
Qed.

(** Moving a frame of the pool between its two lists. *)
Lemma sinv_move s L p live fr objs a (x y : snode) l1 l2 :
  sinv s L p live fr objs → (x = Active p ∧ y = Inactive p) ∨ (x = Inactive p ∧ y = Active p) →
  L x = l1 ++ SPg a :: l2 →
  (y = Active p → ∃ i, 0 ≤ i < nobjs_of (obj_size (pools s p)) ∧ bit (bmask s a) i = false) →
  ∃ L', sinv (with_nodes (klist0_append (SPg a) y) (with_nodes (klist0_unlink (SPg a)) s)) L' p live fr objs ∧
    L' y = SPg a :: L y ∧ L' x = l1 ++ l2.
Proof.
  intros H Hxy HL Hroom. set (L1 := upd L x (l1 ++ l2)). set (L2 := upd L1 y (SPg a :: L1 y)).
  assert (x ≠ y) as Hne by (destruct Hxy as [[-> ->]|[-> ->]]; done).
  pose proof (rep_unlink _ _ _ _ _ _ (si_rep _ _ _ _ _ _ H) HL) as Hr1.
  pose proof (rep_unlink_detached _ _ _ _ _ _ (si_rep _ _ _ _ _ _ H) HL) as Hd1.
  fold L1 in Hr1, Hd1.
  assert (is_head L x ∧ is_head L y) as [Hhx Hhy].
  { destruct H. destruct Hxy as [[-> ->]|[-> ->]]; done. }
  assert (∀ w z, w ∈ L1 z → w ∈ L z) as Hsub1.
  { intros w z. unfold L1, upd. case_decide; [subst; rewrite HL; set_solver|done]. }
  assert (∀ w z, w ∈ L2 z → w = SPg a ∨ w ∈ L z) as Hsub.
  { intros w z. unfold L2, upd. case_decide; [subst|intros; right; by apply Hsub1].
    intros [?|?]%elem_of_cons; [by left|right; by apply Hsub1]. }
  assert (L2 y = SPg a :: L y) as Ey by (unfold L2, L1; rewrite upd_eq, upd_ne by done; done).
  assert (L2 x = l1 ++ l2) as Ex by (unfold L2, L1; rewrite upd_ne, upd_eq by done; done).
  assert (∀ b, SPg b ∈ L2 (Active p) ∨ SPg b ∈ L2 (Inactive p) ↔
               SPg b ∈ L (Active p) ∨ SPg b ∈ L (Inactive p)) as Hin.
  { intros b. destruct Hxy as [[-> ->]|[-> ->]]; rewrite Ex, Ey, HL; set_solver. }
  exists L2. split; [|done]. destruct H. split; try done.
  - apply rep_append; [done| |done|destruct Hxy as [[-> ->]|[-> ->]]; done].
    intros z Hz. by apply (Hhy z), Hsub1.
  - intros z Hz. apply Hsub in Hz as [?|Hz]; [done|by apply (si_act0 z)].
  - intros z Hz. apply Hsub in Hz as [?|Hz]; [done|by apply (si_inact0 z)].
  - intros b. by rewrite Hin.
  - intros w [Hw|Hw]; apply Hsub in Hw as [->|Hw]; eauto.
  - intros b Hb. destruct (si_fresh0 b Hb) as [Hh Hn].
    assert (b ≠ a). { intros ->. apply (Hh x). rewrite HL. set_solver. }
    split; [intros z Hz; apply Hsub in Hz as [[=]|Hz]; [done|by apply (Hh z)]|].
    unfold L2, L1. rewrite !upd_ne; [done|..]; intros <-; destruct Hxy as [[? ?]|[? ?]]; done.
  - intros b Hb. destruct (decide (b = a)) as [->|Hba].
    + destruct Hxy as [[-> ->]|[-> ->]]; [|by apply Hroom]. rewrite Ex in Hb.
      destruct (rep_ring _ _ si_rep0 (Active p)) as [_ Hnd]; [done|]. rewrite HL in Hnd.
      rewrite NoDup_cons, NoDup_app, NoDup_cons in Hnd. clear -Hnd Hb. set_solver.
    + apply si_room0. destruct Hxy as [[-> ->]|[-> ->]]; [rewrite Ex in Hb; rewrite HL; set_solver|].
      rewrite Ey in Hb. set_solver.
Qed.

Lemma slice_alloc_active s L p live fr objs a l :
  sinv s L p live fr objs → L (Active p) = SPg a :: l →
  ∃ s' i L', slice_alloc p s = Ok (Some (a + i * obj_size (pools s p)), s') ∧ ((a, i) ∉ objs) ∧
    pools s' = pools s ∧ sinv s' L' p live fr ({[(a, i)]} ∪ objs).
Proof.
  intros H HL. destruct (si_size _ _ _ _ _ _ H) as [Hs Hg]. unfold slice_alloc.
  rewrite decide_False by lia. rewrite (rep_empty_head _ L), (rep_next _ L) by apply H. rewrite HL.
  rewrite bool_decide_false by done. cbn [head from_option id entry mbind outcome_bind].
  cbv zeta. set (sz := obj_size (pools s p)) in *. set (n := nobjs_of sz) in *.
  assert (a ∈ fr) as Ha by (apply (si_fr _ _ _ _ _ _ H); rewrite HL; set_solver).
  destruct (si_room _ _ _ _ _ _ H a) as (j & Hj & Hbj); [rewrite HL; set_solver|].
  destruct (bitmap_seek_unset_spec (bmask s a) n) as [(Hi & Hbi & _)|[_ Hfull]].
  2:{ change (0 ≤ j < n) in Hj. rewrite Hfull in Hbj by lia. done. }
  set (i := bitmap_seek_unset (bmask s a) n) in *.
  assert (i < usable sz) as Hiu.
  { destruct (decide (i < usable sz)); [done|].
    rewrite (si_res _ _ _ _ _ _ H a i Ha) in Hbi by (fold sz; fold n; lia). done. }
  rewrite decide_False by lia.
  destruct (addr_small _ _ _ _ _ _ a i H Ha) as (Hu32 & _); [fold sz; lia|]. fold sz in Hu32.
  set (f := λ w, bitmap_bit_set w i). set (s1 := with_bmask a f s).
  assert ((a, i) ∉ objs) as Hnew.
  { intros Ho. apply (si_obj _ _ _ _ _ _ H) in Ho as (_ & _ & Ho). by rewrite Ho in Hbi. }
  assert (∀ b k, (b, k) ∈ {[(a, i)]} ∪ objs → b ∈ fr ∧ 0 ≤ k < usable sz ∧ bit (bmask s1 b) k = true) as Hobj.
  { intros b k [Hb|Hb]%elem_of_union; unfold s1; rewrite bmask_with.
    - apply elem_of_singleton in Hb as [= -> ->]. split_and!; [done|lia|lia|].
      rewrite decide_True by done. unfold f. rewrite bit_bit_set by lia. by rewrite bool_decide_true.
    - destruct (si_obj _ _ _ _ _ _ H _ _ Hb) as (? & ? & Hbb). split; [done|]. split; [done|].
      case_decide; [|done]. subst. unfold f. rewrite bit_bit_set, Hbb by lia. by rewrite orb_true_r. }
  assert (∀ k, usable sz ≤ k < n → bit (bmask s a) k = true → bit (f (bmask s a)) k = true) as Hres.
  { intros k _ Hk. unfold f. rewrite bit_bit_set, Hk by lia. by rewrite orb_true_r. }
  assert (words_ok (f (bmask s a))) as Hok by (apply bit_set_ok, (si_words _ _ _ _ _ _ H)).
  assert (bmask s1 a = f (bmask s a)) as Es1 by (unfold s1; rewrite bmask_with; by rewrite decide_True).
  rewrite Es1, Hu32.
  destruct (bitmap_all_set (f (bmask s a)) n) eqn:Hall.
  - destruct (sinv_move s L p live fr objs a (Active p) (Inactive p) [] l H) as (L' & H' & _ & HA');
      [by left|done|done|].
    eexists _, i, L'. split_and!; [done..|]. apply (sinv_bit _ _ _ _ _ _ ({[(a, i)]} ∪ objs) a f H'); try done.
    rewrite HA'. intros Hin. exfalso.
    destruct (rep_ring _ _ (si_rep _ _ _ _ _ _ H) (Active p)) as [_ Hnd]; [apply H|].
    rewrite HL, !NoDup_cons in Hnd. set_solver.
  - exists s1, i, L. split_and!; [done..|]. apply (sinv_bit _ _ _ _ _ objs); try done.
    intros _. destruct (room_or_full (f (bmask s a)) n) as [?|Hfull]; [done|].
    assert (0 ≤ n) by lia.
    assert (bitmap_all_set (f (bmask s a)) n = true); [|congruence].
    unfold bitmap_all_set. by apply all_set_loop_spec; [done|lia|lia|].
Qed.

Lemma slice_alloc_spec s L p live fr objs :
  sinv s L p live fr objs →
  ∃ r s', slice_alloc p s = Ok (r, s') ∧ pools s' = pools s ∧
    match r with
    | None => sinv s' L p live fr objs
    | Some x => ∃ a i L' live' fr', x = a + i * obj_size (pools s p) ∧ ((a, i) ∉ objs) ∧
        sinv s' L' p live' fr' ({[(a, i)]} ∪ objs)
    end.
Proof.
  intros H. destruct (L (Active p)) as [|x l] eqn:HL.
  - destruct (slice_alloc_fresh s L p live fr objs H HL) as (r & s' & E & Hp & Hr). eauto.
  - destruct (si_mem _ _ _ _ _ _ H x) as [a ->]; [left; rewrite HL; set_solver|].
    destruct (slice_alloc_active s L p live fr objs a l H HL) as (s' & i & L' & E & Hn & Hp & H').
    eexists _, s'. split_and!; [done..|]. exists a, i, L', live, fr. by split_and!.
Qed.

(** ** Freeing *)

Lemma page_of_addr a off :
  (PAGE_SIZE | a) → 0 ≤ a → 0 ≤ off < PAGE_SIZE → a + off < 2 ^ 32 →
  Z.land (a + off) (u32 (Z.shiftl (2 ^ 32 - 1) PAGE_SHIFT)) = a.
Proof.
  intros [q ->] Ha Hoff Hlt. unfold PAGE_SIZE, PAGE_SHIFT in *.
  change (u32 (Z.shiftl (2 ^ 32 - 1) 12)) with (Z.shiftl (Z.ones 20) 12).
  apply Z.bits_inj'. intros i Hi. rewrite Z.land_spec, Z.shiftl_spec by lia.
  change 4096 with (2 ^ 12) in *. destruct (decide (i < 12)).
  - rewrite (Z.testbit_neg_r _ (i - 12)) by lia. rewrite andb_false_r.
    rewrite Z.mul_pow2_bits_low by lia. done.
  - destruct (decide (i < 32)).
    + rewrite Z.ones_spec_low by lia. rewrite andb_true_r.
      rewrite Z.mul_pow2_bits by lia. replace i with (i - 12 + 12) at 1 by lia.
      rewrite <- Z.div_pow2_bits by lia. f_equal.
      symmetry. apply Z.div_unique with off; lia.
    + rewrite Z.ones_spec_high by lia. rewrite andb_false_r. symmetry.
      rewrite <- (Z.mod_small (q * 2 ^ 12) (2 ^ 32)) by lia. apply Z.mod_pow2_bits_high. lia.
Qed.

Lemma find_page_spec s L p live fr objs hd l1 l2 fuel a :
  sinv s L p live fr objs → hd = Active p ∨ hd = Inactive p → L hd = l1 ++ l2 → (length l2 < fuel)%nat →
  find_page fuel (default hd (head l2)) hd a s = Ok (bool_decide (SPg a ∈ l2)).
Proof.
  intros H Hhd. revert l1 l2. induction fuel as [|fuel IH]; intros l1 l2 HL Hf; [lia|].
  cbn [find_page]. destruct l2 as [|x l2].
  { cbn [head from_option id]. rewrite decide_True by done. by rewrite bool_decide_false by apply not_elem_of_nil. }
  destruct (si_mem _ _ _ _ _ _ H x) as [b ->].
  { destruct Hhd as [-> | ->]; [left|right]; rewrite HL; set_solver. }
  cbn [head from_option id entry mbind outcome_bind].
  rewrite decide_False by (by destruct Hhd as [-> | ->]). case_decide as Hba.
  - subst. by rewrite bool_decide_true by set_solver.
  - rewrite (rep_next_member _ L hd l1 _ l2); [|apply H|done].
    rewrite (IH (l1 ++ [SPg b])); [|by rewrite <- app_assoc|simpl in Hf; lia].
    f_equal. apply bool_decide_ext. set_solver.
Qed.

Lemma slice_free_spec s L p live fr objs a i fuel :
  sinv s L p live fr objs → (a, i) ∈ objs →
  (length (L (Active p)) < fuel)%nat → (length (L (Inactive p)) < fuel)%nat →
  ∃ s' L', slice_free fuel (a + i * obj_size (pools s p)) p s = Ok s' ∧ pools s' = pools s ∧
    sinv s' L' p live fr (objs ∖ {[(a, i)]}).
Proof.
  intros H Ho HfA HfI. destruct (si_size _ _ _ _ _ _ H) as [Hs Hg].
  destruct (si_obj _ _ _ _ _ _ H _ _ Ho) as (Ha & Hi & Hbit).
  destruct (addr_small _ _ _ _ _ _ a i H Ha Hi) as (Hu & Hd & Ha0 & Hoff).
  destruct (usable_bounds _ Hs) as [Hub _].
  unfold slice_free. rewrite decide_False by lia.
  rewrite page_of_addr by (done || (rewrite <- Hu; apply u32_range)).
  replace ((a + i * obj_size (pools s p) - a) / obj_size (pools s p)) with i.
  2:{ replace (a + i * obj_size (pools s p) - a) with (i * obj_size (pools s p)) by lia.
      by rewrite Z.div_mul by lia. }
  set (f := λ w, bitmap_bit_clear w i).
  assert (sinv (with_bmask a f s) L p live fr (objs ∖ {[(a, i)]})) as H1.
  { apply (sinv_bit s L p live fr objs); [done| | | |].
    - apply bit_clear_ok, (si_words _ _ _ _ _ _ H).
    - intros k Hk Hb. unfold f. rewrite bit_bit_clear, Hb by lia. by rewrite bool_decide_false by lia.
    - intros b k Hb. apply elem_of_difference in Hb as [Hb Hne].
      destruct (si_obj _ _ _ _ _ _ H _ _ Hb) as (? & ? & Hbk). split; [done|]. split; [done|].
      rewrite bmask_with. case_decide; [|done]. subst. unfold f. rewrite bit_bit_clear, Hbk by lia.
      rewrite bool_decide_false; [done|]. intros ->. by apply Hne, elem_of_singleton.
    - intros _. exists i. split; [lia|]. unfold f. rewrite bit_bit_clear by lia. by rewrite bool_decide_true. }
  rewrite (rep_next _ L (Inactive p)) by apply H.
  rewrite (find_page_spec s L p live fr objs (Inactive p) [] (L (Inactive p))) by (done || by right).
  cbn [mbind outcome_bind]. case_bool_decide as HI.
  - apply list_elem_of_split in HI as (l1 & l2 & HL).
    destruct (sinv_move _ _ _ _ _ _ a (Inactive p) (Active p) l1 l2 H1) as (L' & H' & _);
      [by right|done| |eexists _, L'; by split_and!].
    intros _. exists i. split; [cbn; lia|]. rewrite bmask_with, decide_True by done.
    unfold f. rewrite bit_bit_clear by lia. by rewrite bool_decide_true.
  - rewrite (rep_next _ L (Active p)) by apply H.
    rewrite (find_page_spec s L p live fr objs (Active p) [] (L (Active p))) by (done || by left).
    cbn [mbind outcome_bind]. rewrite bool_decide_true; [eexists _, L; by split_and!|].
    apply (si_fr _ _ _ _ _ _ H) in Ha as [?|?]; done.
Qed.

(** The bytes of an object, and of the bitmap of a page. *)
Definition obj_byte (size x : Z) (o : Z * Z) : Prop := o.1 + o.2 * size ≤ x < o.1 + o.2 * size + size.
Definition map_byte (size x a : Z) : Prop :=
  a + PAGE_SIZE - BITMAP_SIZE (nobjs_of size) ≤ x < a + PAGE_SIZE.

(** Objects of different pages, or of different slots, do not share bytes. *)
Lemma objs_disjoint s L p live fr objs o1 o2 x :
  sinv s L p live fr objs → o1 ∈ objs → o2 ∈ objs →
  obj_byte (obj_size (pools s p)) x o1 → obj_byte (obj_size (pools s p)) x o2 → o1 = o2.
Proof.
  intros H H1 H2 Hx1 Hx2. destruct o1 as [a i], o2 as [b j]. unfold obj_byte in *. simpl in *.
  destruct (si_size _ _ _ _ _ _ H) as [Hs _]. destruct (usable_bounds _ Hs) as [_ Hfit].
  destruct (si_obj _ _ _ _ _ _ H _ _ H1) as (Ha & Hi & _). destruct (si_obj _ _ _ _ _ _ H _ _ H2) as (Hb & Hj & _).
  destruct (addr_small _ _ _ _ _ _ a i H Ha Hi) as (_ & [qa Hqa] & ? & Hoa).
  destruct (addr_small _ _ _ _ _ _ b j H Hb Hj) as (_ & [qb Hqb] & ? & Hob).
  assert (0 ≤ BITMAP_SIZE (nobjs_of (obj_size (pools s p)))).
  { unfold BITMAP_SIZE. apply Z.div_pos; [|lia]. apply Z.land_nonneg. left. apply u32_range. }
  set (sz := obj_size (pools s p)) in *. unfold PAGE_SIZE in *.
  assert (i * sz + sz ≤ 4096) by nia. assert (j * sz + sz ≤ 4096) by nia.
  assert (qa = qb) as -> by nia. assert (a = b) as -> by lia. assert (i = j) by nia. by subst.
Qed.

Lemma objs_off_map s L p live fr objs o x :
  sinv s L p live fr objs → o ∈ objs → obj_byte (obj_size (pools s p)) x o →
  ¬ map_byte (obj_size (pools s p)) x o.1.
Proof.
  intros H Ho Hx. destruct o as [a i]. unfold obj_byte, map_byte in *. simpl in *.
  destruct (si_size _ _ _ _ _ _ H) as [Hs _]. destruct (usable_bounds _ Hs) as [_ Hfit].
  destruct (si_obj _ _ _ _ _ _ H _ _ Ho) as (Ha & Hi & _).
  set (sz := obj_size (pools s p)) in *. pose proof (Z.mul_le_mono_nonneg_r (i + 1) (usable sz) sz ltac:(lia) ltac:(lia)). lia.
Qed.
End slice.

(** ** The page allocator as a page source *)

(** The boot zone, page aligned and below 4 GB; the frames handed out are its
    piles of order 0. *)
Record boot_source (s : pa) (live : gset Z) : Prop := {
  bs_inv : ∃ L F A, zinv ZONE_BOOT s L F A A ∧
    ∀ a, a ∈ live ↔ ∃ i, (i, 0) ∈ A ∧ a = base (zones s ZONE_BOOT) + i * PAGE_SIZE;
  bs_base : (PAGE_SIZE | base (zones s ZONE_BOOT)) ∧ 0 ≤ base (zones s ZONE_BOOT);
  bs_top : base (zones s ZONE_BOOT) + total_pages (zones s ZONE_BOOT) * PAGE_SIZE ≤ 2 ^ 32;
}.

Definition boot_get (flags : Z) (s : pa) : outcome (option Z * pa) :=
  '(p, s) ← alloc_pages flags 0 s;
  Ok (match p with Some p => Some (page_to_addr p s) | None => None end, s).
Definition boot_put (a : Z) (s : pa) : outcome pa :=
  free_pages (ZONE_BOOT, (a - base (zones s ZONE_BOOT)) / PAGE_SIZE) s.

Lemma boot_frame s L F A i :
  zinv ZONE_BOOT s L F A A → (i, 0) ∈ A → 0 ≤ base (zones s ZONE_BOOT) →
  base (zones s ZONE_BOOT) + total_pages (zones s ZONE_BOOT) * PAGE_SIZE ≤ 2 ^ 32 →
  0 ≤ i ∧ base (zones s ZONE_BOOT) + i * PAGE_SIZE + PAGE_SIZE ≤ 2 ^ 32 ∧
  page_to_addr (ZONE_BOOT, i) s = base (zones s ZONE_BOOT) + i * PAGE_SIZE.
Proof.
  intros H Hi Hb Ht. destruct (zi_block _ _ _ _ _ _ i 0 H) as (_ & _ & Hi0 & Hit); [set_solver|].
  destruct (zi_page _ _ _ _ _ _ i 0 H) as [Hx Hz]; [set_solver|]. simpl in Hit. unfold PAGE_SIZE in *.
  split_and!; [lia|lia|]. unfold page_to_addr, page_at. cbn [fst snd]. rewrite Hx, Hz.
  apply u32_small. unfold is_u32, PAGE_SIZE. lia.
Qed.

#[global, refine] Instance boot_page_source : PageSource pa := {|
  ps_inv := boot_source; ps_get := boot_get; ps_put := boot_put |}.
Proof.
  - intros s live a [(L & F & A & H & Hl) [Hd Hb] Ht] Ha. apply Hl in Ha as (i & Hi & ->).
    destruct (boot_frame s L F A i) as (? & ? & _); [done..|]. unfold PAGE_SIZE in *.
    split_and!; [|lia|lia]. apply Z.divide_add_r; [done|]. by exists i.
  - intros s live flags [(L & F & A & H & Hl) [Hd Hb] Ht] Hfl. unfold boot_get, alloc_pages. rewrite Hfl.
    rewrite decide_True by done.
    destruct (alloc_pages_spec ZONE_BOOT s L F A flags 0 H ltac:(lia))
      as [[-> _]|(q & s' & L' & F' & -> & Hq & H' & _ & Hz & _)]; cbn.
    { exists None, s. split; [done|]. split; [|done..]. by exists L, F, A. }
    rewrite <- Hz in Hb, Ht, Hd.
    destruct (boot_frame s' L' F' _ q H') as (? & ? & ->); [set_solver|done..|].
    eexists _, s'. split; [done|]. split.
    + intros Hin. apply Hl in Hin as (i & Hi & E). rewrite Hz in E. unfold PAGE_SIZE in E.
      assert (q = i) by lia. by subst.
    + split; [|done..]. exists L', F', ({[(q, 0)]} ∪ A). split; [done|]. intros a.
      rewrite elem_of_union, elem_of_singleton, Hl, Hz. set_unfold. naive_solver.
  - intros s live a [(L & F & A & H & Hl) [Hd Hb] Ht] Ha. apply Hl in Ha as (i & Hi & ->).
    unfold boot_put. replace ((_ - _) / PAGE_SIZE) with i.
    2:{ replace (base (zones s ZONE_BOOT) + i * PAGE_SIZE - base (zones s ZONE_BOOT)) with (i * PAGE_SIZE) by lia.
        by rewrite Z.div_mul. }
    destruct (free_pages_spec ZONE_BOOT s L F A i 0 H Hi) as (s' & L' & F' & E & H' & _ & Hz).
    exists s'. split; [done|]. split; [|by rewrite Hz..]. exists L', F', (A ∖ {[(i, 0)]}). split; [done|].
    intros a. rewrite elem_of_difference, elem_of_singleton, Hl, Hz. split.
    + intros [(j & Hj & ->) Hne]. exists j. split; [|done]. apply elem_of_difference. split; [done|].
      intros Ej. apply elem_of_singleton in Ej as [= ->]. done.
    + intros (j & Hj & ->). apply elem_of_difference in Hj as [Hj Hne]. split; [by exists j|].
      intros Ea. unfold PAGE_SIZE in Ea. apply Hne, elem_of_singleton. assert (j = i) by lia. by subst.
Defined.

(** ** Properties *)



(** two live objects of a pool never share a byte, and no object shares a
    byte with the allocation bitmap of its page. *)
Theorem slice_objects_disjoint {S} `{PS : PageSource S} (s : slst S) L p live fr objs o1 o2 x :
  sinv s L p live fr objs → o1 ∈ objs → o2 ∈ objs → obj_byte (obj_size (pools s p)) x o1 →
  (obj_byte (obj_size (pools s p)) x o2 → o1 = o2) ∧ ¬ map_byte (obj_size (pools s p)) x o1.1.
Proof. intros H H1 H2 Hx. split; [by eapply objs_disjoint|by eapply objs_off_map]. Qed.

(** *** A pool over the sixteen pages *)

Definition slice16 (size : Z) : slst pa :=
  Sl zone16 empty_heap (λ _ _, 0) (λ _, SlicePool size 0).

Lemma slice16_inv size :
  1 ≤ size ≤ 2044 → good_size size → ∃ live, sinv (slice16 size) (λ _, []) 0 live ∅ ∅.
Proof.
  intros Hs Hg. destruct zone16_inv as (L & F & H). exists ∅. split.
  - split; [exists L, F, ∅; split; [done|]| |].
    + intros a. split; [intros Ha; by apply elem_of_empty in Ha|].
      intros (i & Hi & _). by apply elem_of_empty in Hi.
    + split; [by exists 256|vm_compute; congruence].
    + vm_compute. congruence.
  - apply empty_heap_rep.
  - intros y. apply not_elem_of_nil.
  - intros y. apply not_elem_of_nil.
  - done.
  - intros a. split; [intros Ha; by apply elem_of_empty in Ha|by intros [Ha|Ha]; apply elem_of_nil in Ha].
  - by intros x [Hx|Hx]; apply elem_of_nil in Hx.
  - done.
  - intros a _. split; [intros y; apply not_elem_of_nil|done].
  - intros a i. done.
  - intros a i Ha. by apply elem_of_empty in Ha.
  - intros a i Ha. by apply elem_of_empty in Ha.
  - intros a Ha. by apply elem_of_nil in Ha.
Qed.


(** One object taken from the pool. *)
Lemma slice16_one :
  ∃ s1 L a i live fr, sinv s1 L 0 live fr ({[(a, i)]} ∪ ∅) ∧ obj_size (pools s1 0) = 64 ∧
    fst <$> slice_alloc 0 (slice16 64) = Ok (Some (a + i * 64)).
Proof.
  destruct (slice16_inv 64) as [live H]; [lia|right; vm_compute; congruence|].
  destruct (slice_alloc_spec (slice16 64) _ 0 live ∅ ∅ H) as ([x|] & s1 & E & Hp & Hr).
  - destruct Hr as (a & i & L & live' & fr & Hx & _ & H'). exists s1, L, a, i, live', fr.
    split; [exact H'|]. split; [by rewrite Hp|]. rewrite E. cbn. rewrite Hx. done.
  - exfalso. assert (fst <$> slice_alloc 0 (slice16 64) = Ok None) as E' by by rewrite E.
    vm_compute in E'. discriminate.
Qed.


Lemma slice_objects_disjoint_witness :
  ∃ a i : Z, ¬ map_byte 64 (a + i * 64) a.
Proof.
  destruct slice16_one as (s1 & L & a & i & live & fr & H & Hs & _). exists a, i.
  assert ((a, i) ∈ {[(a, i)]} ∪ (∅ : gset (Z * Z))) as Hin by (apply elem_of_union_l, elem_of_singleton; reflexivity).
  destruct (slice_objects_disjoint s1 L 0 live fr _ (a, i) (a, i) (a + i * 64) H Hin Hin) as [_ Hm].
  - unfold obj_byte. simpl. rewrite Hs. lia.
  - rewrite Hs in Hm. exact Hm.
Defined.

(** *** Defects that come from the bitmap operations *)

(** With 64-byte objects the tail bits of a fresh bitmap stay set: after the only
    object has been freed the page is still not empty, and recycling the pool
    ends in bug(). *)
Definition recycle64 : outcome unit :=
  '(x, s) ← slice_alloc 0 (slice16 64);
  match x with
  | Some x => s ← slice_free 10 x 0 s; _ ← slice_pool_recycle 10 0 s; Ok tt
  | None => Fault
  end.
Example slice_recycle_bug : recycle64 = Bug.
Proof. vm_compute. reflexivity. Qed.

(** With 8-byte objects the word after the bitmap, the first one of the next
    page, is overwritten. *)
Example slice_fresh_overrun : fresh_bitmap 8 (λ _, 0) (BITMAP_SIZE (nobjs_of 8) / 4) = Bitmap.ULONG_MAX.
Proof. vm_compute. reflexivity. Qed.

(** With 12-byte objects a zeroed page offers a slot that lies in the bitmap. *)
Example slice_slot_in_bitmap :
  bit (fresh_bitmap 12 (λ _, 0)) 340 = false ∧ map_byte 12 (340 * 12) 0.
Proof. split; vm_compute; intuition congruence. Qed.
