(* ===== verification/Galloc.v ===== *)
(** * The general purpose allocator (kernel/galloc.c)

    [galloc] serves small requests from nine slice pools and big ones from the
    page allocator; the header in front of a chunk records which.  [hdr] holds
    the headers by address. *)

From S2P Require Import Prelude KList Bitmap Klib Buddy PageAlloc Slice.

(* include/galloc.h:25-25 GALLOC_MIN_CHUNK *)
Definition GALLOC_MIN_CHUNK : Z := 4.

(* kernel/galloc.c:42-46 FROM_SLICE *)
Inductive origin := FROM_SLICE | FROM_PAGES.

(* kernel/galloc.c:36-40 chunk_info *)
Record chunk_info := ChunkInfo { ci_origin : origin; ci_info : Z }.

(* kernel/galloc.c:48-52 CI_SIZE *)
Definition CI_SIZE : Z := roundup_l2 4 GALLOC_MIN_CHUNK.
Definition NPOOLS : Z := 9.

(* kernel/galloc.c:58-58 POOL_SIZE *)
Definition POOL_SIZE (pool : Z) : Z := Z.shiftl GALLOC_MIN_CHUNK pool + CI_SIZE.

Record gst := Gst { gsl : slst pa; galloc_sp : Z → Z; hdr : Z → chunk_info }.

Definition set_hdr (ci : Z) (v : chunk_info) (g : gst) : gst :=
  Gst (gsl g) (galloc_sp g) (λ a, if decide (a = ci) then v else hdr g a).
Definition with_gsl (s : slst pa) (g : gst) : gst := Gst s (galloc_sp g) (hdr g).

(* kernel/galloc.c:60-80 galloc_from_slice *)
Definition galloc_from_slice (flags size : Z) (g : gst) : outcome (option Z * gst) :=
  let i := log2 (size / GALLOC_MIN_CHUNK) in
  if decide (NPOOLS < i) then Ok (None, g)
  else if decide (i = NPOOLS) then Fault (* galloc_sp[NPOOLS] *)
  else
    '(ci, s) ← slice_alloc (galloc_sp g i) (gsl g);
    let g := with_gsl s g in
    match ci with
    | None => Ok (None, g)
    | Some ci => Ok (Some (ci + 4), set_hdr ci (ChunkInfo FROM_SLICE (u16 i)) g)
    end.

(* kernel/galloc.c:82-96 galloc_from_pages *)
Definition galloc_from_pages (flags size : Z) (g : gst) : outcome (option Z * gst) :=
  let i := log2 (INPAGES (u32 (size + CI_SIZE))) in
  '(ci, c) ← get_pages flags i (src (gsl g));
  let g := with_gsl (with_src c (gsl g)) g in
  if decide (ci = 0) then Ok (None, g)
  else Ok (Some (ci + 4), set_hdr ci (ChunkInfo FROM_PAGES (u16 i)) g).

(* kernel/galloc.c:99-115 galloc *)
Definition galloc (flags size : Z) (g : gst) : outcome (option Z * gst) :=
  let size := if decide (size = 0) then GALLOC_MIN_CHUNK else size in
  let size := roundup_l2 size GALLOC_MIN_CHUNK in
  '(ret, g) ← galloc_from_slice flags size g;
  match ret with
  | None => galloc_from_pages flags size g
  | Some _ => Ok (ret, g)
  end.

(* kernel/galloc.c:117-136 gfree *)
Definition gfree (fuel : nat) (chunk : Z) (g : gst) : outcome gst :=
  let ci := chunk - 4 in
  match ci_origin (hdr g ci) with
  | FROM_SLICE =>
      s ← slice_free fuel ci (galloc_sp g (ci_info (hdr g ci))) (gsl g);
      Ok (with_gsl s g)
  | FROM_PAGES =>
      c ← put_pages fuel ci (src (gsl g));
      Ok (with_gsl (with_src c (gsl g)) g)
  end.

(** The loop of [galloc_init]; panic() when a pool cannot be created. *)
Fixpoint create_pools (n : nat) (i : Z) (g : gst) : outcome gst :=
  match n with
  | O => Ok g
  | S n =>
      '(p, s) ← slice_pool_create 0 (POOL_SIZE i) (gsl g);
      match p with
      | None => Bug
      | Some p => create_pools n (i + 1) (Gst s (λ j, if decide (j = i) then p else galloc_sp g j) (hdr g))
      end
  end.

(* kernel/galloc.c:138-148 galloc_init *)
Definition galloc_init (g : gst) : outcome gst := create_pools (Z.to_nat NPOOLS) 0 g.

(** ** Size classes *)

(** The pool [galloc] picks for a request. *)
Definition size_class (size : Z) : Z :=
  log2 (roundup_l2 (if decide (size = 0) then GALLOC_MIN_CHUNK else size) GALLOC_MIN_CHUNK / GALLOC_MIN_CHUNK).

Lemma request_round size :
  0 ≤ size < 2 ^ 31 →
  let r := roundup_l2 (if decide (size = 0) then GALLOC_MIN_CHUNK else size) GALLOC_MIN_CHUNK in
  size ≤ r ∧ r < Z.max size 1 + 4 ∧ 1 ≤ r / 4 ∧ r = 4 * (r / 4).
Proof.
  intros Hs. cbv zeta. unfold GALLOC_MIN_CHUNK.
  set (x := if decide (size = 0) then 4 else size).
  assert (1 ≤ x ∧ size ≤ x ∧ (x = size ∨ (size = 0 ∧ x = 4))) by (unfold x; case_decide; lia).
  clearbody x.
  assert (roundup_l2 x 4 = (x + 4 - 1) / 4 * 4) as -> by (apply (roundup_l2_spec x 2); lia).
  pose proof (Z.div_mod (x + 4 - 1) 4 ltac:(lia)). pose proof (Z.mod_pos_bound (x + 4 - 1) 4 ltac:(lia)).
  rewrite Z.div_mul by lia. lia.
Qed.

Lemma size_class_fits size :
  0 ≤ size < 2 ^ 31 → 0 ≤ size_class size ∧ size ≤ 4 * 2 ^ size_class size.
Proof.
  intros Hs. destruct (request_round size Hs) as (Hr & Hlt & H1 & Hr4). unfold size_class.
  unfold GALLOC_MIN_CHUNK in *. set (r := roundup_l2 _ _) in *. clearbody r.
  rewrite log2_log2_up by lia. split; [apply Z.log2_up_nonneg|].
  destruct (decide (r / 4 = 1)) as [E|]; [rewrite E; change (4 * 2 ^ Z.log2_up 1) with 4; lia|].
  pose proof (Z.log2_up_spec (r / 4) ltac:(lia)). lia.
Qed.

Lemma size_class_small size : 0 ≤ size ≤ 1024 → size_class size ≤ 8.
Proof.
  intros Hs. destruct (request_round size ltac:(lia)) as (Hr & Hlt & H1 & Hr4). unfold size_class.
  unfold GALLOC_MIN_CHUNK in *. set (r := roundup_l2 _ _) in *. clearbody r. rewrite log2_log2_up by lia.
  change 8 with (Z.log2_up 256). apply Z.log2_up_le_mono. lia.
Qed.

Lemma size_class_gap size : 1024 < size ≤ 2048 → size_class size = 9.
Proof.
  intros Hs. destruct (request_round size ltac:(lia)) as (Hr & Hlt & H1 & Hr4). unfold size_class.
  unfold GALLOC_MIN_CHUNK in *. set (r := roundup_l2 _ _) in *. clearbody r. rewrite log2_log2_up by lia.
  apply Z.log2_up_unique; [lia|]. simpl. lia.
Qed.

Lemma size_class_big size : 2048 < size < 2 ^ 31 → 9 < size_class size.
Proof.
  intros Hs. destruct (request_round size ltac:(lia)) as (Hr & Hlt & H1 & Hr4). unfold size_class.
  unfold GALLOC_MIN_CHUNK in *. set (r := roundup_l2 _ _) in *. clearbody r. rewrite log2_log2_up by lia.
  apply Z.log2_up_lt_pow2; [lia|]. change (2 ^ 9) with 512. lia.
Qed.

(** The pages of a big chunk hold the request and the header. *)
Definition page_class (size : Z) : Z :=
  log2 (INPAGES (u32 (roundup_l2 (if decide (size = 0) then GALLOC_MIN_CHUNK else size) GALLOC_MIN_CHUNK + CI_SIZE))).

Lemma page_class_fits size :
  0 ≤ size < 2 ^ 31 → 0 ≤ page_class size ∧ size + CI_SIZE ≤ 2 ^ page_class size * PAGE_SIZE.
Proof.
  intros Hs. destruct (request_round size Hs) as (Hr & Hlt & _). unfold page_class, INPAGES.
  change CI_SIZE with 4. set (r := roundup_l2 _ GALLOC_MIN_CHUNK) in *. clearbody r.
  rewrite u32_small by (unfold is_u32; lia). change PAGE_SIZE with (2 ^ 12). change PAGE_SHIFT with 12.
  rewrite roundup_l2_spec by lia. rewrite Z.shiftr_div_pow2, Z.div_mul by lia. change (2 ^ 12) with 4096.
  pose proof (Z.div_mod (r + 4 + 4096 - 1) 4096 ltac:(lia)).
  pose proof (Z.mod_pos_bound (r + 4 + 4096 - 1) 4096 ltac:(lia)).
  set (n := (r + 4 + 4096 - 1) / 4096) in *. clearbody n. rewrite log2_log2_up by lia.
  split; [apply Z.log2_up_nonneg|]. destruct (decide (n = 1)) as [->|]; [change (2 ^ Z.log2_up 1 * 4096) with 4096; lia|].
  pose proof (Z.log2_up_spec n ltac:(lia)). lia.
Qed.

Lemma size_class_eq size :
  size_class size =
  log2 (roundup_l2 (if decide (size = 0) then GALLOC_MIN_CHUNK else size) GALLOC_MIN_CHUNK / GALLOC_MIN_CHUNK).
Proof. done. Qed.

Lemma page_class_eq size :
  page_class size =
  log2 (INPAGES (u32 (roundup_l2 (if decide (size = 0) then GALLOC_MIN_CHUNK else size) GALLOC_MIN_CHUNK + CI_SIZE))).
Proof. done. Qed.

(** ** Properties *)

(** for requests up to 1024 bytes [galloc] takes an object of a pool whose
    objects hold the request and the header, and [gfree] of the chunk gives
    exactly that object back to that pool; requests above 2048 bytes get a pile
    of pages that holds them, and [gfree] passes its first page to [put_pages];
    the sizes in between read past the array of pools. *)
Theorem galloc_classes flags size g :
  0 ≤ size < 2 ^ 31 →
  (size ≤ 1024 → ∀ ci s1,
     slice_alloc (galloc_sp g (size_class size)) (gsl g) = Ok (Some ci, s1) →
     ∃ g', galloc flags size g = Ok (Some (ci + CI_SIZE), g') ∧ gsl g' = s1 ∧
       0 ≤ size_class size < NPOOLS ∧ size + CI_SIZE ≤ POOL_SIZE (size_class size) ∧
       ∀ fuel, gfree fuel (ci + CI_SIZE) g' =
         (s2 ← slice_free fuel ci (galloc_sp g (size_class size)) s1; Ok (with_gsl s2 g'))) ∧
  (1024 < size ≤ 2048 → galloc flags size g = Fault) ∧
  (2048 < size → ∀ ci c,
     get_pages flags (page_class size) (src (gsl g)) = Ok (ci, c) → ci ≠ 0 →
     ∃ g', galloc flags size g = Ok (Some (ci + CI_SIZE), g') ∧
       size + CI_SIZE ≤ 2 ^ page_class size * PAGE_SIZE ∧
       ∀ fuel, gfree fuel (ci + CI_SIZE) g' =
         (c' ← put_pages fuel ci c; Ok (with_gsl (with_src c' (gsl g')) g'))).
Proof.
  intros Hs. destruct (size_class_fits size Hs) as [Hc0 Hcf]. unfold galloc, galloc_from_slice.
  cbv zeta. rewrite <- (size_class_eq size). unfold NPOOLS. split_and!.
  - intros Hs' ci s1 E. pose proof (size_class_small size ltac:(lia)).
    rewrite (decide_False (P := 9 < size_class size)) by lia.
    rewrite (decide_False (P := size_class size = 9)) by lia. rewrite E. cbn. eexists. split; [done|]. split; [done|]. split; [lia|].
    split; [unfold POOL_SIZE, GALLOC_MIN_CHUNK; rewrite Z.shiftl_mul_pow2 by lia; change CI_SIZE with 4; lia|].
    intros fuel. unfold gfree. change CI_SIZE with 4. replace (ci + 4 - 4) with ci by lia. cbn.
    rewrite decide_True by done. cbn. unfold u16. rewrite Z.mod_small by lia. done.
  - intros Hg. rewrite (size_class_gap size Hg). done.
  - intros Hb ci c E Hci. pose proof (size_class_big size ltac:(lia)).
    rewrite (decide_True (P := 9 < size_class size)) by lia. cbn. unfold galloc_from_pages. cbv zeta.
    rewrite <- (page_class_eq size), E. cbn.
    rewrite decide_False by done. eexists. split; [done|]. split; [by apply page_class_fits|].
    intros fuel. unfold gfree. change CI_SIZE with 4. replace (ci + 4 - 4) with ci by lia. cbn.
    rewrite decide_True by done. done.
Qed.

Definition galloc16 : gst := Gst (slice16 68) (λ _, 0) (λ _, ChunkInfo FROM_SLICE 0).

Lemma galloc_classes_witness : galloc 0 1500 galloc16 = Fault ∧ size_class 50 = 4.
Proof.
  split; [|done]. apply (galloc_classes 0 1500 galloc16); lia.
Defined.

(** Eight of the nine pools have a good size; the second one, for requests of
    five to eight bytes, has not: on a zeroed page it hands out slots that lie
    in its own bitmap. *)
Example galloc_pool_sizes :
  (λ i, bool_decide (usable (POOL_SIZE i) = nobjs_of (POOL_SIZE i) ∨ nobjs_of (POOL_SIZE i) `mod` 32 ≤ 16))
    <$> seqZ 0 NPOOLS = [true; false; true; true; true; true; true; true; true].
Proof. vm_compute. reflexivity. Qed.
