(* ===== verification/Kqueue.v ===== *)
(** * Byte queues (kernel/lib/kqueue.c)

    A queue is a list of pages, the newest first; [kqueue_push] writes behind
    the bytes of the newest page and [kqueue_pull_tail] takes the bytes of the
    oldest one.  The list of pages is the list view of klist0.h; the bytes are
    in a byte memory; the pages come from a [PageSource].

    [pushed] says which bytes a push adds, [pull_ret] what a pull answers. *)

From S2P Require Import Prelude KList Bitmap Klib Buddy PageAlloc Slice.

(* kernel/lib/kqueue.c:37-41 kqueue_page *)
Record kqueue_page := KPage { kp : Z; kbase : Z; kcount : Z }.

(* kernel/lib/kqueue.c:32-35 kqueue_t *)
Record kqueue_t := Kqueue { kpages : list kqueue_page; kq_count : Z }.

Definition KQUEUE_PAGE_SIZE : Z := 16.
(* kernel/lib/kqueue.c:43-43 MAX_COUNT *)
Definition MAX_COUNT : Z := PAGE_SIZE - KQUEUE_PAGE_SIZE.

Record kst (S : Type) := Kst { ksl : slst S; kmem : memory; queues : Z → kqueue_t; kqueue_sp : Z }.
Arguments Kst {S}.
Arguments ksl {S}.
Arguments kmem {S}.
Arguments queues {S}.
Arguments kqueue_sp {S}.

Section kqueue.
Context {S : Type} `{PS : PageSource S}.
Implicit Types (s : kst S) (q data len : Z).

Definition with_ksl (c : slst S) s : kst S := Kst c (kmem s) (queues s) (kqueue_sp s).
Definition with_kmem (m : memory) s : kst S := Kst (ksl s) m (queues s) (kqueue_sp s).
Definition with_queue q (k : kqueue_t) s : kst S :=
  Kst (ksl s) (kmem s) (λ p, if decide (p = q) then k else queues s p) (kqueue_sp s).

(** [get_page(flags)]: page_to_addr(NULL) faults. *)
Definition get_page (flags : Z) s : outcome (Z * kst S) :=
  '(r, c) ← ps_get flags (src (ksl s));
  match r with
  | Some a => Ok (a, with_ksl (with_src c (ksl s)) s)
  | None => Fault
  end.
Definition put_page (a : Z) s : outcome (kst S) :=
  c ← ps_put a (src (ksl s)); Ok (with_ksl (with_src c (ksl s)) s).

(* kernel/lib/kqueue.c:47-51 kqueue_init *)
Definition kqueue_init s : outcome (kst S) :=
  '(p, c) ← slice_pool_create 0 12 (ksl s);
  match p with
  | Some p => Ok (Kst c (kmem s) (queues s) p)
  | None => Bug
  end.

(* kernel/lib/kqueue.c:53-64 kqueue_create *)
Definition kqueue_create s : outcome (option Z * kst S) :=
  '(q, c) ← slice_alloc (kqueue_sp s) (ksl s);
  let s := with_ksl c s in
  match q with
  | Some q => Ok (Some q, with_queue q (Kqueue [] 0) s)
  | None => Ok (None, s)
  end.

Fixpoint put_all (ps : list kqueue_page) s : outcome (kst S) :=
  match ps with
  | [] => Ok s
  | p :: ps => s ← put_page (kp p) s; put_all ps s
  end.

(* kernel/lib/kqueue.c:67-78 kqueue_destroy *)
Definition kqueue_destroy (fuel : nat) q s : outcome (kst S) :=
  s ← put_all (kpages (queues s q)) s;
  c ← slice_free fuel q (kqueue_sp s) (ksl s);
  Ok (with_ksl c s).

(* kernel/lib/kqueue.c:80-93 kqueue_info *)
Definition kqueue_info q s : Z * list (Z * Z * Z) :=
  (kq_count (queues s q), (λ p, (kp p, kbase p, kcount p)) <$> kpages (queues s q)).

(* kernel/lib/kqueue.c:95-98 kqueue_size *)
Definition kqueue_size q s : Z := kq_count (queues s q).

(* kernel/lib/kqueue.c:99-103 queue_shrink *)
Definition queue_shrink q len s : outcome (Z * kst S) := Bug.

(* kernel/lib/kqueue.c:105-109 queue_shrink_tail *)
Definition queue_shrink_tail q len s : outcome (Z * kst S) := Bug.

(** Storing into the page [p]: writing outside of it is a fault. *)
Definition page_copy (p dst data len : Z) s : outcome (kst S) :=
  if decide (p + PAGE_SIZE < dst + len) then Fault
  else Ok (with_kmem (memory_copy dst data (Z.to_nat len) (kmem s)) s).

(** The do-while loop of [kqueue_push]: page after page, each filled from
    the start of [data]. *)
Fixpoint push_pages (fuel : nat) q data len pushed s : outcome (Z * kst S) :=
  match fuel with
  | O => Hang
  | Datatypes.S f =>
      '(tmp, s) ← get_page 0 s;
      if decide (tmp = 0) then
        if decide (pushed ≠ 0) then '(_, s) ← queue_shrink q pushed s; Ok (- ENOMEM, s)
        else Ok (- ENOMEM, s)
      else
        let base := tmp + KQUEUE_PAGE_SIZE in
        let t := Z.min len MAX_COUNT in
        s ← page_copy tmp base data t s;
        let k := queues s q in
        let s := with_queue q (Kqueue (KPage tmp base t :: kpages k) (u32 (kq_count k + t))) s in
        let len := len - t in
        if decide (len = 0) then Ok (0, s) else push_pages f q data len (pushed + t) s
  end.

Definition push_fuel len : nat := Datatypes.S (Z.to_nat (len / MAX_COUNT)).
#[local] Arguments push_fuel : simpl never.

(* kernel/lib/kqueue.c:111-162 kqueue_push *)
Definition kqueue_push q data len s : outcome (Z * kst S) :=
  match kpages (queues s q) with
  | p :: ps =>
      if decide (kcount p < MAX_COUNT) then
        if decide (len ≤ MAX_COUNT - kcount p) then
          s ← page_copy (kp p) (kbase p + kcount p) data len s;
          let k := queues s q in
          Ok (0, with_queue q (Kqueue (KPage (kp p) (kbase p) (kcount p + len) :: ps)
                                      (u32 (kq_count k + len))) s)
        else
          let t := MAX_COUNT - kcount p in
          s ← page_copy (kp p) (kbase p + kcount p) data t s;
          let k := queues s q in
          let s := with_queue q (Kqueue (KPage (kp p) (kbase p) MAX_COUNT :: ps)
                                        (u32 (kq_count k + t))) s in
          push_pages (push_fuel (len - t)) q data (len - t) t s
      else push_pages (push_fuel len) q data len 0 s
  | [] => push_pages (push_fuel len) q data len 0 s
  end.

(* kernel/lib/kqueue.c:164-168 kqueue_push_tail *)
Definition kqueue_push_tail q data len s : outcome (Z * kst S) := Bug.

(* kernel/lib/kqueue.c:170-174 kqueue_pull *)
Definition kqueue_pull q data len s : outcome (Z * kst S) := Bug.

(** The loop of [kqueue_pull_tail]; [ps] are the pages from the oldest on. *)
Fixpoint pull_loop (ps : list kqueue_page) q data len pulled s : outcome (Z * kst S) :=
  match ps with
  | [] => Ok (pulled, s)
  | p :: ps =>
      let k := queues s q in
      if decide (len < kcount p) then
        let s := with_kmem (memory_copy (data + pulled) (kbase p) (Z.to_nat len) (kmem s)) s in
        Ok (len, with_queue q (Kqueue (reverse (KPage (kp p) (kbase p + len) (kcount p - len) :: ps))
                                      (u32 (kq_count k - len))) s)
      else
        let s := with_kmem (memory_copy (data + pulled) (kbase p) (Z.to_nat (kcount p)) (kmem s)) s in
        let s := with_queue q (Kqueue (reverse ps) (u32 (kq_count k - kcount p))) s in
        s ← put_page (kp p) s;
        pull_loop ps q data (len - kcount p) (pulled + kcount p) s
  end.

(* kernel/lib/kqueue.c:176-201 kqueue_pull_tail *)
Definition kqueue_pull_tail q data len s : outcome (Z * kst S) :=
  pull_loop (reverse (kpages (queues s q))) q data len 0 s.

(* kernel/lib/kqueue.c:203-207 kqueue_peek *)
Definition kqueue_peek q data len s : outcome (Z * kst S) := Bug.

(* kernel/lib/kqueue.c:209-213 kqueue_peek_tail *)
Definition kqueue_peek_tail q data len s : outcome (Z * kst S) := Bug.

(** ** Contents *)

Definition contents (m : memory) (ps : list kqueue_page) : list Z :=
  concat ((λ p, bytes m (kbase p) (kcount p)) <$> reverse ps).

Definition qcontents s q : list Z := contents (kmem s) (kpages (queues s q)).

Lemma copy_in m d a n : 0 ≤ n → bytes (memory_copy d a (Z.to_nat n) m) d n = bytes m a n.
Proof.
  intros Hn. apply bytes_ext. intros i Hi. rewrite memory_copy_at, decide_True by lia. f_equal. lia.
Qed.
Lemma copy_out m d a n b k :
  0 ≤ n → b + k ≤ d ∨ d + n ≤ b → bytes (memory_copy d a (Z.to_nat n) m) b k = bytes m b k.
Proof.
  intros Hn Hd. apply bytes_ext. intros i Hi. by rewrite memory_copy_at, decide_False by lia.
Qed.

Lemma contents_cons m p ps : contents m (p :: ps) = contents m ps ++ bytes m (kbase p) (kcount p).
Proof. unfold contents. rewrite reverse_cons, fmap_app, concat_app. simpl. by rewrite app_nil_r. Qed.
Lemma contents_snoc m p ps : contents m (ps ++ [p]) = bytes m (kbase p) (kcount p) ++ contents m ps.
Proof. unfold contents. by rewrite reverse_snoc. Qed.

(** ** The invariant *)

Definition page_ok (live : gset Z) (p : kqueue_page) : Prop :=
  kp p ∈ live ∧ kp p + KQUEUE_PAGE_SIZE ≤ kbase p ∧ 0 ≤ kcount p ∧ kbase p + kcount p ≤ kp p + PAGE_SIZE.

Record qinv s q (live : gset Z) : Prop := {
  qi_src : ps_inv (src (ksl s)) live;
  qi_nodup : NoDup (kp <$> kpages (queues s q));
  qi_page : Forall (page_ok live) (kpages (queues s q));
  qi_count : kq_count (queues s q) = u32 (Z.of_nat (length (qcontents s q)));
}.

(** The bytes at [d] lie in pages that are in use, but not for the queue. *)
Definition away (d n : Z) (live : gset Z) (ps : list kqueue_page) : Prop :=
  ∀ x a, d ≤ x < d + n → (PAGE_SIZE | a) → a ≤ x < a + PAGE_SIZE → a ∈ live ∧ a ∉ kp <$> ps.

Lemma same_frame a b x :
  (PAGE_SIZE | a) → (PAGE_SIZE | b) → a ≤ x < a + PAGE_SIZE → b ≤ x < b + PAGE_SIZE → a = b.
Proof. unfold PAGE_SIZE. intros [i ->] [j ->] ? ?. lia. Qed.

Lemma contents_ext m m' ps :
  (∀ p, p ∈ ps → bytes m' (kbase p) (kcount p) = bytes m (kbase p) (kcount p)) →
  contents m' ps = contents m ps.
Proof.
  intros H. unfold contents. f_equal. apply list_fmap_ext. intros i p Hp.
  apply H, elem_of_reverse. by eapply list_elem_of_lookup_2.
Qed.

(** Writing into a page leaves the bytes of the other pages alone. *)
Lemma contents_write c live ps m p d a n :
  ps_inv c live → Forall (page_ok live) ps → p ∉ kp <$> ps → (PAGE_SIZE | p) →
  p ≤ d → 0 ≤ n → d + n ≤ p + PAGE_SIZE →
  contents (memory_copy d a (Z.to_nat n) m) ps = contents m ps.
Proof.
  intros Hc Hps Hp Hdiv Hd Hn Hdn. apply contents_ext. intros r Hr.
  rewrite Forall_forall in Hps. destruct (Hps r Hr) as (Hl & Hb & Hk & He).
  destruct (ps_frames _ _ _ Hc Hl) as (Hdr & _ & _).
  assert (kp r ≠ p) by (intros <-; apply Hp; by apply list_elem_of_fmap_2).
  apply bytes_ext. intros i Hi. rewrite memory_copy_at. rewrite decide_False; [done|]. intros Hx.
  apply H. eapply (same_frame _ _ (kbase r + i)); [done..| |lia]. unfold KQUEUE_PAGE_SIZE in *. lia.
Qed.

Lemma away_page d n live ps p c b k :
  ps_inv c live → away d n live ps → (PAGE_SIZE | p) → p ∉ live ∨ p ∈ kp <$> ps →
  p ≤ b → b + k ≤ p + PAGE_SIZE → ∀ i, 0 ≤ i < n → ¬ (b ≤ d + i < b + k).
Proof.
  intros Hc Ha Hdiv Hp Hb Hk i Hi Hx. destruct (Ha (d + i) p) as [? ?]; [lia|done|lia|]. tauto.
Qed.

Lemma data_write d n live ps p c b k m a :
  ps_inv c live → away d n live ps → (PAGE_SIZE | p) → p ∉ live ∨ p ∈ kp <$> ps →
  p ≤ b → 0 ≤ k → b + k ≤ p + PAGE_SIZE →
  bytes (memory_copy b a (Z.to_nat k) m) d n = bytes m d n.
Proof.
  intros Hc Ha Hdiv Hp Hb Hk0 Hk. apply bytes_ext. intros i Hi. rewrite memory_copy_at.
  rewrite decide_False; [done|]. rewrite Z2Nat.id by done. by eapply away_page.
Qed.

Lemma away_le d n n' live ps : away d n live ps → n' ≤ n → away d n' live ps.
Proof. intros H Hn x a Hx. apply H. lia. Qed.

(** ** Pushing *)

(** What the page loop adds for the data [l] of which [len] bytes are left:
    prefixes of [l]. *)
Fixpoint paged (fuel : nat) (l : list Z) (len : Z) : list Z :=
  match fuel with
  | O => []
  | Datatypes.S f =>
      let t := Z.min len MAX_COUNT in
      take (Z.to_nat t) l ++ (if decide (len - t = 0) then [] else paged f l (len - t))
  end.

(** The bytes [kqueue_push] adds to a queue whose newest page has [room]. *)
Definition pushed (room : Z) (l : list Z) : list Z :=
  let len := Z.of_nat (length l) in
  if decide (0 < room) then
    if decide (len ≤ room) then l else take (Z.to_nat room) l ++ paged (push_fuel (len - room)) l (len - room)
  else paged (push_fuel len) l len.

(** How a push may end: for want of memory, or with the bytes added. *)
Definition push_post s q (live : gset Z) (added : list Z) (o : outcome (Z * kst S)) : Prop :=
  match o with
  | Ok (r, s') => r = - ENOMEM ∨ (r = 0 ∧ ∃ live', live ⊆ live' ∧ qinv s' q live' ∧
      qcontents s' q = qcontents s q ++ added)
  | Hang => False
  | _ => True
  end.

Lemma queue_with q k s : queues (with_queue q k s) q = k.
Proof. simpl. by rewrite decide_True. Qed.

(** Replacing the newest page, or adding one, with [t] more bytes in it. *)
Lemma qinv_newest s q live c live' p b n t ps d :
  qinv s q live → live ⊆ live' → ps_inv c live' →
  (n = 0 ∧ kpages (queues s q) = ps) ∨ kpages (queues s q) = KPage p b n :: ps →
  p ∉ kp <$> ps → page_ok live' (KPage p b (n + t)) → 0 ≤ n → 0 ≤ t →
  let m := memory_copy (b + n) d (Z.to_nat t) (kmem s) in
  let s' := with_queue q (Kqueue (KPage p b (n + t) :: ps) (u32 (kq_count (queues s q) + t)))
              (with_kmem m (with_ksl (with_src c (ksl s)) s)) in
  qinv s' q live' ∧ qcontents s' q = qcontents s q ++ bytes (kmem s) d t.
Proof.
  intros H Hsub Hc Hk Hp Hok Hn Ht m s'.
  assert (Forall (page_ok live') ps ∧ NoDup (kp <$> ps)) as [Hps Hnd].
  { destruct H as [_ Hnd Hf _].
    assert (Forall (page_ok live') (kpages (queues s q))) as Hf'.
    { eapply Forall_impl; [exact Hf|]. intros r (? & ?). split; [set_solver|done]. }
    destruct Hk as [[_ E]|E]; rewrite E in Hf', Hnd; [done|].
    apply Forall_cons in Hf' as [_ ?]. apply NoDup_cons in Hnd as [_ ?]. done. }
  assert (qcontents s' q = qcontents s q ++ bytes (kmem s) d t) as Hcon.
  { unfold qcontents, s'. rewrite queue_with. cbn [kpages kmem with_queue with_kmem].
    rewrite contents_cons. cbn [kbase kcount]. rewrite bytes_app by lia. unfold m at 3.
    rewrite copy_in by done. rewrite app_assoc. f_equal. destruct Hok as (Hl & Hb & _ & He). simpl in *.
    destruct (ps_frames _ _ _ Hc Hl) as (Hdiv & _). unfold KQUEUE_PAGE_SIZE in *.
    unfold m. rewrite (contents_write c live' ps _ p) by (done || lia).
    rewrite copy_out by (lia || (left; lia)). destruct Hk as [[-> ->]| ->].
    - unfold bytes. simpl. by rewrite app_nil_r.
    - by rewrite contents_cons. }
  split; [|done]. split.
  - exact Hc.
  - unfold s'. rewrite queue_with. simpl. by apply NoDup_cons.
  - unfold s'. rewrite queue_with. by apply Forall_cons.
  - rewrite Hcon, length_app, Nat2Z.inj_add, bytes_length by done. unfold s'. rewrite queue_with.
    cbn [kq_count]. rewrite (qi_count _ _ _ H). apply u32_add_l.
Qed.

Lemma push_pages_spec fuel q d n len pushed s live l :
  qinv s q live → away d n live (kpages (queues s q)) → 0 ≤ len ≤ n → l = bytes (kmem s) d n →
  (Z.to_nat (len / MAX_COUNT) < fuel)%nat →
  push_post s q live (paged fuel l len) (push_pages fuel q d len pushed s).
Proof.
  revert len pushed s live. induction fuel as [|f IH]; intros len pu s live H Ha Hlen Hl Hf; [lia|].
  cbn [push_pages]. unfold get_page.
  destruct (ps_get_ok _ _ 0 (qi_src _ _ _ H)) as (r & c & -> & Hr); [done|].
  cbn [mbind outcome_bind]. destruct r as [a|]; [|done]. cbn [mbind outcome_bind].
  destruct Hr as [Hal Hc]. destruct (decide (a = 0)) as [->|Ha0].
  { case_decide; [done|]. by left. }
  destruct (ps_frames _ _ a Hc) as (Hdiv & _); [set_solver|].
  set (t := Z.min len MAX_COUNT). assert (0 ≤ t ≤ len ∧ t ≤ MAX_COUNT) as Ht by (unfold t, MAX_COUNT, PAGE_SIZE, KQUEUE_PAGE_SIZE; lia).
  unfold page_copy. rewrite decide_False by (unfold MAX_COUNT in Ht; lia). cbn [mbind outcome_bind].
  assert (Forall (page_ok live) (kpages (queues s q))) as Hpl by apply H.
  assert (a ∉ kp <$> kpages (queues s q)) as Hafr.
  { intros (p & -> & Hp)%list_elem_of_fmap. rewrite Forall_forall in Hpl. by apply Hal, (Hpl p). }
  pose proof (qinv_newest s q live c ({[a]} ∪ live) a (a + KQUEUE_PAGE_SIZE) 0 t (kpages (queues s q)) d
    H ltac:(set_solver) Hc ltac:(by left) Hafr) as Hn.
  rewrite Z.add_0_l, Z.add_0_r in Hn. cbv zeta in Hn. destruct Hn as [H' Hcon]; [|lia..|].
  { unfold page_ok. simpl. unfold MAX_COUNT, KQUEUE_PAGE_SIZE in *. split; [set_solver|]. lia. }
  cbn [queues with_kmem with_ksl]. set (s' := with_queue q _ _) in *. cbn [paged]. fold t.
  assert (bytes (kmem s) d t = take (Z.to_nat t) l) as Htk by (rewrite Hl, bytes_take; [done|lia]).
  rewrite Htk in Hcon. case_decide as Hz.
  { rewrite app_nil_r. right. split; [done|]. exists ({[a]} ∪ live). split; [set_solver|]. done. }
  assert (t = MAX_COUNT) as Et by (unfold t in *; lia).
  assert (push_post s' q ({[a]} ∪ live) (paged f l (len - t)) (push_pages f q d (len - t) (pu + t) s')) as Hp.
  { apply IH; [done| |lia| |].
    - intros x b Hx Hb Hxb. destruct (Ha x b Hx Hb Hxb) as [? ?]. unfold s'. rewrite queue_with. simpl. set_solver.
    - rewrite Hl. unfold s'. cbn [kmem with_queue with_kmem]. symmetry.
      eapply data_write; [apply H|exact Ha|done|by left|unfold KQUEUE_PAGE_SIZE; lia|lia|unfold MAX_COUNT in *; lia].
    - replace len with (len - t + 1 * MAX_COUNT) in Hf by lia.
      rewrite Z.div_add in Hf by done.
      assert (0 ≤ (len - t) / MAX_COUNT) by (apply Z.div_pos; [lia|done]). lia. }
  clear IH. unfold push_post in Hp |- *. destruct (push_pages _ _ _ _ _ _) as [[r s'']| | |]; [|done..].
  destruct Hp as [?|(-> & live' & ? & ? & E)]; [by left|]. right. split; [done|]. exists live'.
  split; [set_solver|]. split; [done|]. by rewrite E, Hcon, <- app_assoc.
Qed.

(** The room [kqueue_push] sees in the newest page. *)
Definition room (ps : list kqueue_page) : Z :=
  match ps with p :: _ => MAX_COUNT - kcount p | [] => 0 end.

(** The newest page has all its room behind its bytes: nothing has been
    pulled from it. *)
Definition unmoved (ps : list kqueue_page) : Prop :=
  match ps with p :: _ => kbase p = kp p + KQUEUE_PAGE_SIZE | [] => True end.

Lemma kqueue_push_spec q d len s live :
  qinv s q live → away d len live (kpages (queues s q)) → unmoved (kpages (queues s q)) → 0 ≤ len →
  push_post s q live (pushed (room (kpages (queues s q))) (bytes (kmem s) d len)) (kqueue_push q d len s).
Proof.
  intros H Ha Hu Hlen. unfold kqueue_push, pushed. rewrite bytes_length by done.
  destruct (kpages (queues s q)) as [|p ps] eqn:E; cbn [room].
  { rewrite decide_False by lia. apply (push_pages_spec _ _ _ len); [done|by rewrite E|lia|done|unfold push_fuel; lia]. }
  destruct (decide (kcount p < MAX_COUNT)) as [Hr|Hr]; cycle 1.
  { rewrite decide_False by lia. apply (push_pages_spec _ _ _ len); [done|by rewrite E|lia|done|unfold push_fuel; lia]. }
  rewrite decide_True by lia. destruct p as [a b n]. cbn [kp kbase kcount unmoved] in *.
  pose proof (qi_page _ _ _ H) as Hf. rewrite E in Hf. apply Forall_cons in Hf as [(Hal & Hb & Hn & Hbn) Hps].
  pose proof (qi_nodup _ _ _ H) as Hnd. rewrite E in Hnd. cbn [kp kbase kcount fmap list_fmap] in *. apply NoDup_cons in Hnd as [Hnin Hnd].
  destruct (ps_frames _ _ a (qi_src _ _ _ H) Hal) as (Hdiv & _). unfold MAX_COUNT in Hr.
  pose proof (λ t, qinv_newest s q live (src (ksl s)) live a b n t ps d H ltac:(done) (qi_src _ _ _ H)
    ltac:(by right) Hnin) as Hnew.
  assert (with_ksl (with_src (src (ksl s)) (ksl s)) s = s) as Eid by (destruct s as [[] ? ? ?]; done).
  rewrite Eid in Hnew. unfold page_copy, MAX_COUNT in *.
  destruct (decide (len ≤ PAGE_SIZE - KQUEUE_PAGE_SIZE - n)) as [Hfit|Hfit].
  - rewrite (decide_False (P := a + PAGE_SIZE < b + n + len)) by lia. cbn [mbind outcome_bind].
    destruct (Hnew len) as [H' Hc]; [unfold page_ok; simpl; split; [done|lia]|lia..|].
    right. split; [done|]. exists live. split; [done|]. split; [exact H'|exact Hc].
  - set (t := PAGE_SIZE - KQUEUE_PAGE_SIZE - n) in *.
    rewrite (decide_False (P := a + PAGE_SIZE < b + n + t)) by lia. cbn [mbind outcome_bind].
    destruct (Hnew t) as [H' Hc]; [unfold page_ok; simpl; split; [done|lia]|lia..|].
    replace (n + t) with (PAGE_SIZE - KQUEUE_PAGE_SIZE) in H', Hc by lia.
    cbn [queues with_kmem]. set (s' := with_queue q _ _) in *.
    assert (bytes (kmem s') d len = bytes (kmem s) d len) as Ed.
    { eapply (data_write _ _ _ _ a); [apply H|exact Ha|done|right; left|unfold t, KQUEUE_PAGE_SIZE in *; lia..]. }
    assert (push_post s' q live (paged (push_fuel (len - t)) (bytes (kmem s) d len) (len - t))
             (push_pages (push_fuel (len - t)) q d (len - t) t s')) as Hp.
    { apply (push_pages_spec _ _ _ len); [done| |lia|by rewrite Ed|unfold push_fuel; lia].
      intros x c Hx Hcd Hxc. destruct (Ha x c Hx Hcd Hxc) as [? ?]. unfold s'. rewrite queue_with. done. }
    unfold push_post in Hp |- *. destruct (push_pages _ _ _ _ _ _) as [[r s'']| | |]; [|done..].
    destruct Hp as [?|(-> & live' & ? & ? & E')]; [by left|]. right. split; [done|]. exists live'.
    split; [done|]. split; [done|]. rewrite E', Hc, <- app_assoc. by rewrite bytes_take by lia.
Qed.

(** ** Pulling *)

Lemma away_contents c d n live ps k a m :
  ps_inv c live → away d n live ps → Forall (page_ok live) ps → 0 ≤ k ≤ n →
  contents (memory_copy d a (Z.to_nat k) m) ps = contents m ps.
Proof.
  intros Hc Ha Hps Hk. apply contents_ext. intros r Hr. rewrite Forall_forall in Hps.
  destruct (Hps r Hr) as (Hl & Hb & Hn & He). destruct (ps_frames _ _ _ Hc Hl) as (Hd & _).
  apply bytes_ext. intros i Hi. rewrite memory_copy_at, decide_False; [done|]. intros Hx.
  destruct (Ha (kbase r + i) (kp r)) as [_ Hnin]; [lia|done|unfold KQUEUE_PAGE_SIZE in *; lia|].
  by apply Hnin, list_elem_of_fmap_2.
Qed.

(** The queue without the oldest [k] bytes, its pages being [ps']. *)
Lemma qinv_less s q live c live' m ps' k :
  qinv s q live → ps_inv c live' → NoDup (kp <$> ps') → Forall (page_ok live') ps' →
  0 ≤ k ≤ Z.of_nat (length (qcontents s q)) → contents m ps' = drop (Z.to_nat k) (qcontents s q) →
  qinv (with_queue q (Kqueue ps' (u32 (kq_count (queues s q) - k)))
          (with_kmem m (with_ksl (with_src c (ksl s)) s))) q live'.
Proof.
  intros H Hc Hnd Hps Hk Hcon. split.
  - exact Hc.
  - by rewrite queue_with.
  - by rewrite queue_with.
  - unfold qcontents at 1. rewrite queue_with. cbn [kq_count kpages kmem with_queue with_kmem].
    rewrite Hcon, (qi_count _ _ _ H), u32_sub_l, length_drop. f_equal. lia.
Qed.

(** What a pull of [len] bytes to [d] leaves. *)
Definition pull_post s q live d len pulled (ps : list kqueue_page) (o : outcome (Z * kst S)) : Prop :=
  ∃ r s' live', o = Ok (r, s') ∧ qinv s' q live' ∧ live' ⊆ live ∧
    qcontents s' q = drop (Z.to_nat len) (qcontents s q) ∧
    let total := Z.of_nat (length (qcontents s q)) in
    bytes (kmem s') d (Z.min len total) = take (Z.to_nat len) (qcontents s q) ∧
    (∀ x, ¬ (d ≤ x < d + Z.min len total) → kmem s' x = kmem s x) ∧
    (total ≤ len → r = pulled + total ∧ kpages (queues s' q) = []) ∧
    (∀ p, head ps = Some p → len < kcount p → r = len).

(** The oldest page of a queue and the others. *)
Lemma qinv_oldest s q live p ps :
  qinv s q live → kpages (queues s q) = reverse (p :: ps) →
  page_ok live p ∧ Forall (page_ok live) (reverse ps) ∧ NoDup (kp <$> reverse ps) ∧
  (kp p ∉ kp <$> reverse ps) ∧
  qcontents s q = bytes (kmem s) (kbase p) (kcount p) ++ contents (kmem s) (reverse ps) ∧
  Z.of_nat (length (qcontents s q)) = kcount p + Z.of_nat (length (contents (kmem s) (reverse ps))).
Proof.
  intros H E. pose proof (qi_page _ _ _ H) as Hf. rewrite E, reverse_cons in Hf.
  apply Forall_app in Hf as [Hps Hp]. rewrite Forall_singleton in Hp.
  pose proof (qi_nodup _ _ _ H) as Hnd. rewrite E, reverse_cons, fmap_app in Hnd.
  apply NoDup_app in Hnd as (Hnd & Hdis & _).
  assert (kp p ∉ kp <$> reverse ps) as Hpn by (intros Hi; apply (Hdis _ Hi); simpl; by left).
  assert (qcontents s q = bytes (kmem s) (kbase p) (kcount p) ++ contents (kmem s) (reverse ps)) as Hc.
  { unfold qcontents. by rewrite E, reverse_cons, contents_snoc. }
  pose proof Hp as (? & ? & Hn & ?). split_and!; try done; try apply Hp.
  rewrite Hc, length_app, Nat2Z.inj_add, bytes_length by done. done.
Qed.

(** The last page a pull looks at is not used up. *)
Lemma pull_partial p ps q d len pulled s live :
  qinv s q live → kpages (queues s q) = reverse (p :: ps) → away (d + pulled) len live (reverse (p :: ps)) →
  0 ≤ len < kcount p →
  pull_post s q live (d + pulled) len pulled (p :: ps) (pull_loop (p :: ps) q d len pulled s).
Proof.
  intros H E Ha Hlen. destruct (qinv_oldest _ _ _ _ _ H E) as (Hp & Hps & Hnd & Hpn & Hc & Hlc).
  pose proof Hp as (Hl & Hb & Hn & Hbn). cbn [pull_loop]. rewrite decide_True by lia.
  set (m := memory_copy _ _ _ _). set (p' := KPage _ _ _).
  assert (contents m (reverse (p' :: ps)) = drop (Z.to_nat len) (qcontents s q)) as Hm.
  { rewrite Hc, drop_app_le by (rewrite <- (Nat2Z.id (length _)), bytes_length by lia; lia).
    rewrite bytes_drop by lia.
    assert (contents m (reverse (p :: ps)) = contents (kmem s) (reverse (p :: ps))) as Hall.
    { unfold m. eapply away_contents; [apply H|exact Ha| |lia]. rewrite <- E. apply H. }
    rewrite reverse_cons, contents_snoc. rewrite reverse_cons in Hall. rewrite !contents_snoc in Hall. simpl.
    replace (kcount p) with (len + (kcount p - len)) in Hall by lia. rewrite !bytes_app in Hall by lia.
    rewrite <- !app_assoc in Hall. apply app_inj_1 in Hall as [_ Hall]; [done|].
    apply Nat2Z.inj. by rewrite !bytes_length by lia. }
  eexists _, _, live. split; [done|]. split.
  { change (with_kmem m s) with (with_kmem m (with_ksl (ksl s) s)).
    replace (ksl s) with (with_src (src (ksl s)) (ksl s)) by by destruct (ksl s).
    apply (qinv_less s q live); [done|apply H| | |lia|done].
    - rewrite reverse_cons, fmap_app. apply NoDup_app. split; [done|]. split; [|apply NoDup_singleton].
      intros x Hx Hx'. apply list_elem_of_singleton in Hx' as ->. done.
    - rewrite reverse_cons. apply Forall_app. split; [done|]. apply Forall_singleton.
      unfold page_ok, p'. simpl. split; [done|]. lia. }
  split; [done|]. split; [unfold qcontents at 1; rewrite queue_with; exact Hm|].
  cbv zeta. rewrite Z.min_l by lia. cbn [kmem with_queue with_kmem]. split.
  { unfold m. rewrite copy_in by lia. rewrite Hc, take_app_le, bytes_take; [done|lia|].
    rewrite <- (Nat2Z.id (length _)), bytes_length by lia. lia. }
  split; [|split; [lia|done]]. intros x Hx. unfold m. by rewrite memory_copy_at, decide_False by lia.
Qed.

Lemma pull_loop_spec ps q d len pulled s live :
  qinv s q live → kpages (queues s q) = reverse ps → away (d + pulled) len live (reverse ps) → 0 ≤ len →
  pull_post s q live (d + pulled) len pulled ps (pull_loop ps q d len pulled s).
Proof.
  revert len pulled s live. induction ps as [|p ps IH]; intros len pulled s live H E Ha Hlen.
  { assert (qcontents s q = []) as Hc by (unfold qcontents; by rewrite E).
    exists pulled, s, live. rewrite Hc. simpl. rewrite drop_nil, take_nil. split; [done|]. split; [done|].
    split; [done|]. split; [done|]. split; [by rewrite Z.min_r by lia|]. split; [done|].
    split; [intros _; split; [lia|by rewrite E]|done]. }
  destruct (decide (len < kcount p)) as [Hlt|Hge]; [by apply pull_partial|].
  destruct (qinv_oldest _ _ _ _ _ H E) as ((Hl & Hb & Hn & Hbn) & Hps & Hnd & Hpn & Hc & Hlc).
  cbn [pull_loop]. rewrite decide_False by done. set (m := memory_copy _ _ _ _).
  destruct (ps_put_ok _ _ _ (qi_src _ _ _ H) Hl) as (c & Ec & Hc').
  unfold put_page. cbn [ksl with_queue with_kmem]. rewrite Ec. cbn [mbind outcome_bind].
  set (s1 := with_ksl _ _).
  assert (contents m (reverse ps) = contents (kmem s) (reverse ps)) as Hm.
  { unfold m. eapply (away_contents _ _ len); [apply H| |exact Hps|split; [done|lia]].
    intros x a Hx Hxa Hd. destruct (Ha x a Hx Hxa Hd) as [? Hn']. split; [done|]. intros Hi. apply Hn'.
    rewrite reverse_cons, fmap_app. by apply elem_of_app; left. }
  assert (qcontents s1 q = contents (kmem s) (reverse ps)) as Hc1.
  { unfold qcontents, s1. cbn [queues kmem with_ksl with_queue with_kmem]. rewrite decide_True by done. done. }
  assert (qinv s1 q (live ∖ {[kp p]})) as H1.
  { apply (qinv_less s q live c _ m (reverse ps) (kcount p)); [done..| |lia|].
    - rewrite Forall_forall in Hps |- *. intros r Hr. destruct (Hps r Hr) as (? & ?). split; [|done].
      apply elem_of_difference. split; [done|]. intros E'%elem_of_singleton. apply Hpn. rewrite <- E'.
      by apply list_elem_of_fmap_2.
    - rewrite Hm, Hc, drop_app_length'; [done|]. rewrite <- (Nat2Z.id (length _)), bytes_length by lia. done. }
  assert (away (d + (pulled + kcount p)) (len - kcount p) (live ∖ {[kp p]}) (reverse ps)) as Ha1.
  { intros x a Hx Hxa Hd. destruct (Ha x a ltac:(lia) Hxa Hd) as [? Hn'].
    rewrite reverse_cons, fmap_app, elem_of_app in Hn'. split; [|tauto].
    apply elem_of_difference. split; [done|]. intros ->%elem_of_singleton. apply Hn'. right. by left. }
  destruct (IH (len - kcount p) (pulled + kcount p) s1 _ H1) as (r & s' & live' & -> & H' & Hsub & Hcon & Hby & Hfr & Hr & _);
    [unfold s1; simpl; by rewrite decide_True|done|lia|].
  clear IH. cbv zeta in Hby, Hfr, Hr. rewrite Hc1 in Hcon, Hby, Hfr, Hr. set (R := contents (kmem s) (reverse ps)) in *.
  assert (length (bytes (kmem s) (kbase p) (kcount p)) = Z.to_nat (kcount p)) as Hbl.
  { rewrite <- (Nat2Z.id (length _)), bytes_length by lia. done. }
  exists r, s', live'. split; [done|]. split; [done|]. split; [set_solver|]. cbv zeta. rewrite Hlc, Hc.
  split; [rewrite Hcon, drop_app_ge by lia; f_equal; lia|].
  replace (Z.min len (kcount p + Z.of_nat (length R))) with (kcount p + Z.min (len - kcount p) (Z.of_nat (length R))) by lia.
  split; [|split; [|split]].
  - rewrite bytes_app by lia. rewrite take_app_ge by lia. f_equal.
    + transitivity (bytes m (d + pulled) (kcount p)); [|by apply copy_in].
      apply bytes_ext. intros i Hi. rewrite Hfr by lia. done.
    + rewrite <- Z.add_assoc, Hby, Hbl. f_equal. lia.
  - intros x Hx. rewrite Hfr by lia. unfold s1. cbn [kmem with_ksl with_queue with_kmem].
    unfold m. by rewrite memory_copy_at, decide_False by lia.
  - intros Ht. destruct Hr as [-> Hr]; [lia|]. split; [lia|done].
  - intros p' [= <-] Hlt. lia.
Qed.
(** Data that fits into the newest page needs no memory. *)
Lemma kqueue_push_fits q d len s live :
  qinv s q live → unmoved (kpages (queues s q)) → 0 < room (kpages (queues s q)) → len ≤ room (kpages (queues s q)) →
  fst <$> kqueue_push q d len s = Ok 0.
Proof.
  intros H Hu Hr Hl. unfold kqueue_push.
  destruct (kpages (queues s q)) as [|p ps] eqn:E; cbn [room] in *; [lia|].
  rewrite !decide_True by lia. pose proof (qi_page _ _ _ H) as Hf. rewrite E in Hf.
  apply Forall_cons in Hf as [(_ & _ & _ & Hb) _]. unfold page_copy. cbn [unmoved] in Hu.
  rewrite decide_False by (unfold MAX_COUNT in *; lia). done.
Qed.

(** The pull from the oldest page on. *)
Lemma kqueue_pull_spec q d len s live :
  qinv s q live → away d len live (kpages (queues s q)) → 0 ≤ len →
  ∃ r s' live', kqueue_pull_tail q d len s = Ok (r, s') ∧ qinv s' q live' ∧ live' ⊆ live ∧
    let total := Z.of_nat (length (qcontents s q)) in
    bytes (kmem s') d (Z.min len total) = take (Z.to_nat len) (qcontents s q) ∧
    qcontents s' q = drop (Z.to_nat len) (qcontents s q) ∧
    (∀ x, ¬ (d ≤ x < d + Z.min len total) → kmem s' x = kmem s x) ∧
    (total ≤ len → r = total) ∧
    (∀ p, last (kpages (queues s q)) = Some p → len < kcount p → r = len).
Proof.
  intros H Ha Hlen.
  destruct (pull_loop_spec (reverse (kpages (queues s q))) q d len 0 s live)
    as (r & s' & live' & E & H' & Hs & Hc & Hb & Hfr & Ht & Hh);
    [done|by rewrite reverse_involutive|rewrite reverse_involutive, Z.add_0_r; done|done|].
  rewrite Z.add_0_r in Hb, Hfr. exists r, s', live'. cbv zeta. split_and!; try done.
  - intros Hle. destruct (Ht Hle) as [-> _]. lia.
  - intros p Hp. apply Hh. by rewrite head_reverse.
Qed.
End kqueue.

(** ** Properties *)

(** [kqueue_push] of data that lies in other pages than the queue's either
    stops for want of memory or adds [pushed] behind the bytes of the queue and
    keeps the invariant; it always ends.  Data that fits into the newest page is
    added without any allocation, and data that fits into the newest or one
    fresh page is added as it is. *)
Theorem kqueue_push_adds {S} `{PS : PageSource S} (s : kst S) q d len live :
  qinv s q live → away d len live (kpages (queues s q)) → unmoved (kpages (queues s q)) → 0 ≤ len →
  let l := bytes (kmem s) d len in
  let r := room (kpages (queues s q)) in
  push_post s q live (pushed r l) (kqueue_push q d len s) ∧
  (0 < r → len ≤ r → pushed r l = l ∧ fst <$> kqueue_push q d len s = Ok 0) ∧
  (r ≤ 0 → len ≤ MAX_COUNT → pushed r l = l).
Proof.
  intros H Ha Hu Hlen l r. split; [by apply kqueue_push_spec|]. unfold pushed.
  assert (Z.of_nat (length l) = len) as -> by by apply bytes_length. split.
  - intros Hr Hl. rewrite !decide_True by done. split; [done|]. by eapply kqueue_push_fits.
  - intros Hr Hl. rewrite decide_False by lia. unfold push_fuel. cbn [paged]. rewrite Z.min_l by done.
    rewrite decide_True by lia. rewrite app_nil_r. apply take_ge. unfold l.
    apply Nat2Z.inj_le. rewrite bytes_length by done. lia.
Qed.

(** [kqueue_pull_tail] takes the oldest bytes of the queue, in order, to the
    destination, leaves the others in the queue and touches no other memory; it
    answers their number when they use up the queue or lie in one page. *)
Theorem kqueue_pull_takes {S} `{PS : PageSource S} (s : kst S) q d len live :
  qinv s q live → away d len live (kpages (queues s q)) → 0 ≤ len →
  ∃ r s' live', kqueue_pull_tail q d len s = Ok (r, s') ∧ qinv s' q live' ∧ live' ⊆ live ∧
    let total := Z.of_nat (length (qcontents s q)) in
    bytes (kmem s') d (Z.min len total) = take (Z.to_nat len) (qcontents s q) ∧
    qcontents s' q = drop (Z.to_nat len) (qcontents s q) ∧
    (∀ x, ¬ (d ≤ x < d + Z.min len total) → kmem s' x = kmem s x) ∧
    (total ≤ len → r = total) ∧
    (∀ p, last (kpages (queues s q)) = Some p → len < kcount p → r = len).
Proof.
  apply kqueue_pull_spec.
Qed.

(** *** A page source of a list of free frames *)

Definition frame_ok (a : Z) : Prop := (PAGE_SIZE | a) ∧ 0 ≤ a ∧ a + PAGE_SIZE ≤ 2 ^ 32.

#[refine] Instance free_frames : PageSource (list Z) := {|
  ps_inv fl live := NoDup fl ∧ Forall frame_ok fl ∧ (∀ a, a ∈ fl → a ∉ live) ∧ (∀ a, a ∈ live → frame_ok a);
  ps_get _ fl := match fl with a :: fl => Ok (Some a, fl) | [] => Ok (None, []) end;
  ps_put a fl := Ok (a :: fl) |}.
Proof.
  - intros fl live a (_ & _ & _ & H) Ha. by apply H.
  - intros fl live flags (Hnd & Hf & Hn & Hl) _. destruct fl as [|a fl]; [by exists None, []|].
    apply NoDup_cons in Hnd as [Ha Hnd]. apply Forall_cons in Hf as [Hfa Hf].
    exists (Some a), fl. split; [done|]. split; [apply Hn; left|]. split; [done|]. split; [done|]. split.
    + intros b Hb [->%elem_of_singleton|Hbl]%elem_of_union; [done|]. apply (Hn b); [by right|done].
    + intros b [->%elem_of_singleton|Hbl]%elem_of_union; [done|by apply Hl].
  - intros fl live a (Hnd & Hf & Hn & Hl) Ha. exists (a :: fl). split; [done|]. split.
    { apply NoDup_cons. split; [|done]. intros Hx. by apply (Hn a). }
    split; [apply Forall_cons; split; [by apply Hl|done]|]. split.
    + intros b [->|Hb]%elem_of_cons; [set_solver|]. specialize (Hn b Hb). set_solver.
    + intros b Hb. apply Hl. set_solver.
Defined.

(** Two bytes in the frame at 4096, for a queue whose page is the frame at 8192. *)
Definition two_bytes : kst (list Z) :=
  Kst (Sl [12288] empty_heap (λ _ _, 0) (λ _, SlicePool 12 0)) (mem_at 4096 [7; 8])
      (λ _, Kqueue [KPage 8192 8208 0] 0) 0.

Lemma two_bytes_inv : qinv two_bytes 0 {[4096; 8192]}.
Proof.
  split.
  - split; [apply NoDup_singleton|]. unfold frame_ok, PAGE_SIZE. split; [|split].
    + apply Forall_singleton. split; [by exists 3|lia].
    + intros a ->%list_elem_of_singleton. set_solver.
    + intros a [->%elem_of_singleton| ->%elem_of_singleton]%elem_of_union; (split; [|lia]).
      * by exists 1.
      * by exists 2.
  - apply NoDup_singleton.
  - apply Forall_singleton. unfold page_ok. simpl. unfold KQUEUE_PAGE_SIZE, PAGE_SIZE. split; [set_solver|lia].
  - done.
Qed.

Lemma two_bytes_away : away 4096 2 {[4096; 8192]} [KPage 8192 8208 0].
Proof.
  unfold away, PAGE_SIZE. intros x a Hx [k ->] Ha. assert (k = 1) as -> by lia. split; [set_solver|].
  simpl. intros [H|H]%elem_of_cons; [lia|by apply elem_of_nil in H].
Qed.

Lemma kqueue_push_adds_witness : fst <$> kqueue_push 0 4096 2 two_bytes = Ok 0.
Proof.
  destruct (kqueue_push_adds two_bytes 0 4096 2 {[4096; 8192]} two_bytes_inv) as (_ & H & _);
    [exact two_bytes_away|reflexivity|lia|]. apply H; vm_compute; intuition congruence.
Defined.

(** The same queue with its two bytes in it. *)
Definition two_queued : kst (list Z) :=
  Kst (ksl two_bytes) (mem_at 8208 [7; 8]) (λ _, Kqueue [KPage 8192 8208 2] 2) 0.

Lemma two_queued_inv : qinv two_queued 0 {[4096; 8192]}.
Proof.
  destruct two_bytes_inv as [Hs Hn _ _]. split; [exact Hs|exact Hn| |reflexivity].
  apply Forall_singleton. unfold page_ok. simpl. unfold KQUEUE_PAGE_SIZE, PAGE_SIZE. split; [set_solver|lia].
Qed.

Lemma kqueue_pull_takes_witness :
  ∃ s', kqueue_pull_tail 0 4096 1 two_queued = Ok (1, s') ∧ qcontents s' 0 = [8].
Proof.
  destruct (kqueue_pull_takes two_queued 0 4096 1 {[4096; 8192]} two_queued_inv)
    as (r & s' & live' & E & _ & _ & _ & Hc & _ & _ & Hr).
  - intros x a Hx. apply two_bytes_away. lia.
  - lia.
  - exists s'. rewrite (Hr (KPage 8192 8208 2)) in E; [|reflexivity|reflexivity]. split; [exact E|exact Hc].
Defined.

(** *** Defects *)

(** [data] is not advanced from page to page: a push of 4090 bytes to an empty
    queue queues the first ten bytes twice and never the last ten. *)
Example push_repeats : pushed 0 (seqZ 0 4090) = seqZ 0 4080 ++ seqZ 0 10.
Proof. vm_compute. reflexivity. Qed.

(** After a pull from the newest page the room is still counted from its
    start, and a push that seems to fit is stored past the end of the page. *)
Example push_overflows :
  kqueue_push 0 4096 150 (Kst (ksl two_bytes) (λ _, 0) (λ _, Kqueue [KPage 8192 8308 3900] 3900) 0) = Fault.
Proof. vm_compute. reflexivity. Qed.

(** A pull that crosses into another page answers only what it took from the
    last one: here one byte of three. *)
Example pull_answers_last :
  fst <$> kqueue_pull_tail 0 4096 3
    (Kst (ksl two_bytes) (λ _, 0) (λ _, Kqueue [KPage 12288 12304 2; KPage 8192 8208 2] 4) 0) = Ok 1.
Proof. vm_compute. reflexivity. Qed.
