(* ===== verification/Paging.v ===== *)
(** * Page tables of the i386 (arch/i386/paging.c, include/i386/pages.h)

    A mapping is a page directory and its page tables, words of physical
    memory ([wmem], by byte address).  [__virt2phys] is the walk the processor
    makes.  [map_ok] says that the 1024 tables of a directory are pages of
    their own; [map_page], [map_pages], [unmap_page] change the translation of
    the pages they are asked for and of no other page, [init_rootmap] builds
    the identity, [clone_map] copies a translation. *)

From S2P Require Import Prelude KList Bitmap Klib Buddy PageAlloc.

Definition wmem : Type := Z → Z.
Definition wr (a v : Z) (m : wmem) : wmem := λ x, if decide (x = a) then v else m x.

(** ** Constants *)

(* include/i386/pages.h:26-26 PAGE_MASK *)
Definition PAGE_MASK : Z := PAGE_SIZE - 1.
(* include/i386/pages.h:27-27 NOPAGE_MASK *)
Definition NOPAGE_MASK : Z := u32 (Z.lnot PAGE_MASK).
(* include/i386/pages.h:31-36 PTE_BITS *)
Definition PTE_BITS : Z := 32.
Definition PTE_BYTES : Z := PTE_BITS / 8.
Definition PGD_SHIFT : Z := 22.
Definition PGT_SHIFT : Z := 12.
Definition PGD_ENTRIES : Z := Z.shiftl 1 (PTE_BITS - PGD_SHIFT).
Definition PGT_ENTRIES : Z := Z.shiftl 1 (PGD_SHIFT - PGT_SHIFT).
(* include/i386/pages.h:37-38 PGD_MASK *)
Definition PGD_MASK : Z := 0xffc00000.
Definition PGT_MASK : Z := 0x003ff000.
(* include/i386/pages.h:40-40 PGDIDX *)
Definition PGDIDX (addr : Z) : Z := Z.shiftr addr PGD_SHIFT.
(* include/i386/pages.h:41-41 PGTIDX *)
Definition PGTIDX (addr : Z) : Z := Z.shiftr (Z.land addr PGT_MASK) PGT_SHIFT.

(* include/i386/pages.h:44-53 PTF_PRESENT *)
Inductive ptf := PTF_PRESENT | PTF_RW | PTF_USER | PTF_PWT | PTF_PCD
  | PTF_ACCESSED | PTF_DIRTY | PTF_PGSIZE | PTF_GLOBAL.
Definition ptf_bit (f : ptf) : Z :=
  match f with
  | PTF_PRESENT => 0 | PTF_RW => 1 | PTF_USER => 2 | PTF_PWT => 3 | PTF_PCD => 4
  | PTF_ACCESSED => 5 | PTF_DIRTY => 6 | PTF_PGSIZE => 7 | PTF_GLOBAL => 8
  end.
Definition PTF (f : ptf) : Z := Z.shiftl 1 (ptf_bit f).
Definition PTF_EXEC : Z := 0.

(* include/i386/pages.h:55-59 PTE_DESC *)
Definition PTE_DESC (addr attrs : Z) : Z := Z.lor (u32 (Z.shiftl addr PAGE_SHIFT)) attrs.
(* include/i386/pages.h:62-62 PE_ADDR *)
Definition PE_ADDR (pe : Z) : Z := Z.land pe 0xFFFFF000.
(* include/i386/pages.h:63-63 PE_FLAGS *)
Definition PE_FLAGS (pe : Z) : Z := Z.land pe 0x00000FFF.

(** ** The walk of the processor *)

(* include/i386/pages.h:77-102 __virt2physpg *)
Definition __virt2physpg (cr3 : Z) (m : wmem) (pgaddr : Z) : Z :=
  let eax := Z.shiftr (Z.land pgaddr PGD_MASK) 20 in
  let ebx := Z.land (m (u32 (eax + cr3))) NOPAGE_MASK in
  let eax := Z.shiftr (Z.land pgaddr PGT_MASK) 10 in
  Z.land (m (u32 (eax + ebx))) NOPAGE_MASK.

(* include/i386/pages.h:109-137 __virt2phys *)
Definition __virt2phys (cr3 : Z) (m : wmem) (addr : Z) : Z :=
  let eax := Z.shiftr (Z.land addr PGD_MASK) 20 in
  let ebx := Z.land (m (u32 (eax + cr3))) NOPAGE_MASK in
  let eax := Z.shiftr (Z.land addr PGT_MASK) 10 in
  let ebx := Z.land (m (u32 (eax + ebx))) NOPAGE_MASK in
  Z.lor (Z.land addr PAGE_MASK) ebx.

(** ** State *)

Definition MMA_MAX : Z := 8.

(* include/mem_area.h:135-141 mapping *)
Record mapping := Mapping { m_pgdir : Z; m_pgtable : Z; m_mma : Z → Z; m_nmma : Z }.

(** The page allocator, the physical memory, the control registers and the
    size of the memory in pages. *)
Record vm := Vm { vpa : pa; vmem : wmem; cr0 : Z; cr3 : Z; phys_pgs : Z; root_map : mapping }.
Definition with_vpa (p : pa) (v : vm) : vm := Vm p (vmem v) (cr0 v) (cr3 v) (phys_pgs v) (root_map v).
Definition with_vmem (m : wmem) (v : vm) : vm := Vm (vpa v) m (cr0 v) (cr3 v) (phys_pgs v) (root_map v).

(** ** Operations on a mapping *)

(* arch/i386/paging.c:177-184 map_page *)
Definition map_page (pgdir virt phys flags : Z) (m : wmem) : wmem :=
  let pgtable := Z.land (m (pgdir + 4 * PGDIDX virt)) NOPAGE_MASK in
  let m := wr (pgdir + 4 * PGDIDX virt) (Z.lor (m (pgdir + 4 * PGDIDX virt)) (PTF PTF_PRESENT)) m in
  wr (pgtable + 4 * PGTIDX virt)
     (Z.lor (Z.lor (Z.lor phys (PTF PTF_PRESENT)) (PTF PTF_USER)) flags) m.

(* arch/i386/paging.c:186-191 unmap_page *)
Definition unmap_page (pgdir virt : Z) (m : wmem) : wmem :=
  let pgtable := Z.land (m (pgdir + 4 * PGDIDX virt)) NOPAGE_MASK in
  wr (pgtable + 4 * PGTIDX virt) 0 m.

Fixpoint map_pages_loop (n : nat) (i pgdir virt phys flags : Z) (m : wmem) : wmem :=
  match n with
  | O => m
  | S n => map_pages_loop n (i + 1) pgdir virt phys flags
             (map_page pgdir (u32 (virt + PAGE_SIZE * i)) (u32 (phys + PAGE_SIZE * i)) flags m)
  end.

(* arch/i386/paging.c:201-208 map_pages *)
Definition map_pages (pgdir virt phys : Z) (n : nat) (flags : Z) (m : wmem) : wmem :=
  map_pages_loop n 0 pgdir virt phys flags m.

(** A loop that stores [f i] as word [i] of an array, for [n] indices from
    [i] on. *)
Fixpoint fill_loop (n : nat) (base i : Z) (f : Z → Z) (m : wmem) : wmem :=
  match n with
  | O => m
  | S n => fill_loop n base (i + 1) f (wr (base + 4 * i) (f i) m)
  end.

(** The stores of [init_rootmap], loop after loop. *)
Definition fill_rootmap (pgdir pgtable phys_pgs : Z) (m : wmem) : wmem :=
  let tablesz := phys_pgs / PGT_ENTRIES + (if decide (phys_pgs `mod` PGT_ENTRIES ≠ 0) then 1 else 0) in
  let m := fill_loop (Z.to_nat phys_pgs) pgtable 0
             (λ pgaddr, PTE_DESC pgaddr (Z.lor (PTF PTF_PRESENT) (PTF PTF_RW))) m in
  let m := fill_loop (Z.to_nat (tablesz * PGT_ENTRIES - phys_pgs)) pgtable phys_pgs
             (λ _, Z.lor (PTF PTF_USER) (PTF PTF_RW)) m in
  let m := fill_loop (Z.to_nat tablesz) pgdir 0
             (λ pgt_idx, Z.lor (Z.lor (Z.lor (u32 (pgtable + 4 * (pgt_idx * PGT_ENTRIES))) (PTF PTF_PRESENT))
                                      (PTF PTF_RW)) (PTF PTF_GLOBAL)) m in
  fill_loop (Z.to_nat (PGT_ENTRIES - tablesz)) pgdir tablesz (λ _, Z.lor (PTF PTF_USER) (PTF PTF_RW)) m.

(* arch/i386/paging.c:94-132 init_rootmap *)
Definition init_rootmap (v : vm) : outcome vm :=
  let tablesz := phys_pgs v / PGT_ENTRIES + (if decide (phys_pgs v `mod` PGT_ENTRIES ≠ 0) then 1 else 0) in
  '(pgdir, p) ← get_pages 0 0 (vpa v);
  '(pgtable, p) ← get_pages 0 (log2 tablesz) p;
  Ok (Vm p (fill_rootmap pgdir pgtable (phys_pgs v) (vmem v)) (cr0 v) (cr3 v) (phys_pgs v)
         (Mapping pgdir pgtable (m_mma (root_map v)) (m_nmma (root_map v)))).

(** The inner loop of [clone_map]: the words of a page table. *)
Fixpoint copy_words (n : nat) (t dst src : Z) (m : wmem) : wmem :=
  match n with
  | O => m
  | S n => copy_words n (t + 1) dst src (wr (dst + 4 * t) (m (src + 4 * t)) m)
  end.

(** The loop of [clone_map] over the directory. *)
Fixpoint clone_loop (n : nat) (d dst src pgtable : Z) (m : wmem) : wmem :=
  match n with
  | O => m
  | S n =>
      let m := wr (dst + 4 * d) (Z.land (m (src + 4 * d)) PAGE_MASK) m in
      let m := wr (dst + 4 * d) (Z.lor (m (dst + 4 * d)) pgtable) m in
      let tbl := Z.land (m (src + 4 * d)) NOPAGE_MASK in
      let m := if Z.testbit (m (dst + 4 * d)) (ptf_bit PTF_PRESENT) then
                 copy_words (Z.to_nat PGT_ENTRIES) 0 pgtable tbl m
               else m in
      clone_loop n (d + 1) dst src (u32 (pgtable + PAGE_SIZE)) m
  end.

(* arch/i386/paging.c:137-162 clone_map *)
Definition clone_map (map : mapping) (v : vm) : outcome (mapping * vm) :=
  '(pgdir, p) ← get_pages 0 0 (vpa v);
  '(pgtable, p) ← get_pages 0 (log2 (u32 (phys_pgs v + PGT_ENTRIES - 1) / PGT_ENTRIES)) p;
  Ok (Mapping pgdir pgtable (m_mma map) 0,
      with_vmem (clone_loop (Z.to_nat PGD_ENTRIES) 0 pgdir (m_pgdir map) pgtable (vmem v)) (with_vpa p v)).

(* arch/i386/paging.c:164-168 free_map *)
Definition free_map (fuel : nat) (map : mapping) (v : vm) : outcome vm :=
  p ← put_pages fuel (m_pgtable map) (vpa v);
  p ← put_pages fuel (m_pgdir map) p;
  Ok (with_vpa p v).

(* arch/i386/paging.c:216-219 switch_map *)
Definition switch_map (from to : mapping) (v : vm) : vm :=
  Vm (vpa v) (vmem v) (cr0 v) (m_pgdir to) (phys_pgs v) (root_map v).

(* arch/i386/paging.c:221-229 paging_init *)
Definition paging_init (v : vm) : outcome vm :=
  v ← init_rootmap v;
  Ok (Vm (vpa v) (vmem v) (Z.lor (cr0 v) 0x80000000) (m_pgdir (root_map v)) (phys_pgs v) (root_map v)).

(* arch/i386/paging.c:36-64 display_pe_flags *)
Definition display_pe_flags (flags : Z) : list ptf :=
  filter (λ f, Z.testbit flags (ptf_bit f) = true)
    [PTF_PRESENT; PTF_RW; PTF_USER; PTF_PWT; PTF_PCD; PTF_ACCESSED; PTF_DIRTY; PTF_PGSIZE; PTF_GLOBAL].

(* arch/i386/paging.c:66-87 display_map *)
Definition display_map (pgdir : Z) (m : wmem) : list (Z * Z * list ptf) :=
  let dir i := m (pgdir + 4 * i) in
  (λ i, (i, u32 (i * PGT_ENTRIES * PAGE_SIZE), display_pe_flags (PE_FLAGS (dir i)))) <$>
    filter (λ i, Z.testbit (PE_FLAGS (dir i)) (ptf_bit PTF_PRESENT) = true) (seqZ 0 PGD_ENTRIES).

(** ** Addresses as numbers *)

Lemma land_field a lo n :
  0 ≤ lo → 0 ≤ n → Z.land a (Z.shiftl (Z.ones n) lo) = (a / 2 ^ lo) `mod` 2 ^ n * 2 ^ lo.
Proof.
  intros Hlo Hn. rewrite <- Z.shiftl_mul_pow2, <- Z.land_ones, <- Z.shiftr_div_pow2 by lia.
  apply Z.bits_inj'. intros i Hi. rewrite Z.land_spec, !Z.shiftl_spec, Z.land_spec by lia.
  destruct (decide (i < lo)).
  - rewrite (Z.testbit_neg_r _ (i - lo)) by lia. by rewrite !andb_false_r.
  - rewrite Z.shiftr_spec by lia. do 3 f_equal. lia.
Qed.

Lemma div_small_mod a k n : 0 ≤ k → 0 ≤ n → 0 ≤ a < 2 ^ (k + n) → (a / 2 ^ k) `mod` 2 ^ n = a / 2 ^ k.
Proof.
  intros Hk Hn Ha. apply Z.mod_small. rewrite Z.pow_add_r in Ha by done.
  assert (0 < 2 ^ k) by by apply Z.pow_pos_nonneg.
  split; [apply Z.div_pos; lia|]. apply Z.div_lt_upper_bound; lia.
Qed.

Lemma land_PGD a : is_u32 a → Z.land a PGD_MASK = a / 2 ^ 22 * 2 ^ 22.
Proof.
  intros Ha. change PGD_MASK with (Z.shiftl (Z.ones 10) 22). rewrite land_field by lia.
  rewrite div_small_mod by (done || lia). done.
Qed.
Lemma land_PGT a : Z.land a PGT_MASK = (a / 2 ^ 12) `mod` 2 ^ 10 * 2 ^ 12.
Proof. change PGT_MASK with (Z.shiftl (Z.ones 10) 12). by apply land_field. Qed.
Lemma land_NOPAGE a : is_u32 a → Z.land a NOPAGE_MASK = a / 4096 * 4096.
Proof.
  intros Ha. change NOPAGE_MASK with (Z.shiftl (Z.ones 20) 12). rewrite land_field by lia.
  rewrite div_small_mod by (done || lia). done.
Qed.
Lemma land_PAGE a : Z.land a PAGE_MASK = a `mod` 4096.
Proof. change PAGE_MASK with (Z.ones 12). by rewrite Z.land_ones. Qed.

Lemma PGDIDX_eq a : PGDIDX a = a / 2 ^ 22.
Proof. unfold PGDIDX, PGD_SHIFT. by rewrite Z.shiftr_div_pow2. Qed.
Lemma PGTIDX_eq a : PGTIDX a = (a / 2 ^ 12) `mod` 2 ^ 10.
Proof.
  unfold PGTIDX, PGT_SHIFT. rewrite land_PGT, Z.shiftr_div_pow2 by lia. by rewrite Z.div_mul.
Qed.
Lemma PGDIDX_range a : is_u32 a → 0 ≤ PGDIDX a < 1024.
Proof. unfold is_u32. rewrite PGDIDX_eq. intros. Z.div_mod_to_equations. lia. Qed.
Lemma PGTIDX_range a : 0 ≤ PGTIDX a < 1024.
Proof. rewrite PGTIDX_eq. by apply Z.mod_pos_bound. Qed.

(** A page-aligned part and an offset do not share bits. *)
Lemma lor_page p o : 0 ≤ o < 4096 → Z.lor (p * 4096) o = p * 4096 + o.
Proof. intros Ho. change 4096 with (2 ^ 12). rewrite <- Z.shiftl_mul_pow2, lor_shiftl by lia. by rewrite Z.shiftl_mul_pow2. Qed.

(** Two addresses of one page, and the parts of an address. *)
Lemma addr_split a b :
  is_u32 a → is_u32 b → PGDIDX a = PGDIDX b → PGTIDX a = PGTIDX b → a / 4096 = b / 4096.
Proof.
  unfold is_u32. rewrite !PGDIDX_eq, !PGTIDX_eq. intros Ha Hb H1 H2.
  change (2 ^ 22) with (4096 * 1024) in H1. rewrite <- !Z.div_div in H1 by lia.
  change (2 ^ 12) with 4096 in H2. change (2 ^ 10) with 1024 in H2.
  rewrite (Z.div_mod (a / 4096) 1024), (Z.div_mod (b / 4096) 1024) by lia. lia.
Qed.
Lemma page_idx a b : a / 4096 = b / 4096 → PGDIDX a = PGDIDX b ∧ PGTIDX a = PGTIDX b.
Proof.
  intros H. rewrite !PGDIDX_eq, !PGTIDX_eq. change (2 ^ 12) with 4096. rewrite H. split; [|done].
  change (2 ^ 22) with (4096 * 1024). by rewrite <- !Z.div_div, H by lia.
Qed.

(** ** Translation *)

(** The table of directory entry [d], and the entry of an address in it. *)
Definition tbl (m : wmem) (dir d : Z) : Z := Z.land (m (dir + 4 * d)) NOPAGE_MASK.
Definition pte (m : wmem) (dir a : Z) : Z := m (tbl m dir (PGDIDX a) + 4 * PGTIDX a).

(** Everything is a page-aligned page of words, the tables are apart from
    each other and from the directory. *)
Record map_ok (m : wmem) (dir : Z) : Prop := {
  mo_dir : (4096 | dir) ∧ 0 ≤ dir ∧ dir + 4096 ≤ 2 ^ 32;
  mo_words a : is_u32 (m a);
  mo_apart d : 0 ≤ d < 1024 → tbl m dir d ≠ dir;
  mo_inj d e : 0 ≤ d < 1024 → 0 ≤ e < 1024 → tbl m dir d = tbl m dir e → d = e;
}.

Lemma tbl_page m dir d : is_u32 (m (dir + 4 * d)) →
  (4096 | tbl m dir d) ∧ 0 ≤ tbl m dir d ∧ tbl m dir d + 4096 ≤ 2 ^ 32.
Proof.
  intros Hw. unfold tbl. rewrite land_NOPAGE by done. unfold is_u32 in Hw.
  split; [by eexists|]. Z.div_mod_to_equations. lia.
Qed.

(** What the processor's walk computes. *)
Lemma virt2phys_pte m dir a :
  (∀ x, is_u32 (m x)) → 0 ≤ dir → dir + 4096 ≤ 2 ^ 32 → is_u32 a →
  __virt2phys dir m a = pte m dir a / 4096 * 4096 + a `mod` 4096 ∧
  __virt2physpg dir m a = pte m dir a / 4096 * 4096.
Proof.
  intros Hw Hd0 Hd1 Ha. pose proof (PGDIDX_range a Ha) as Hd. pose proof (PGTIDX_range a) as Ht.
  unfold __virt2phys, __virt2physpg. cbv zeta. rewrite land_PGD, land_PGT by done.
  assert (Z.shiftr (a / 2 ^ 22 * 2 ^ 22) 20 = 4 * PGDIDX a) as ->.
  { rewrite PGDIDX_eq, Z.shiftr_div_pow2 by lia. change (2 ^ 22) with (4 * 2 ^ 20) at 2.
    rewrite Z.mul_assoc, Z.div_mul by lia. lia. }
  assert (Z.shiftr ((a / 2 ^ 12) `mod` 2 ^ 10 * 2 ^ 12) 10 = 4 * PGTIDX a) as ->.
  { rewrite PGTIDX_eq, Z.shiftr_div_pow2 by lia. change (2 ^ 12) with (4 * 2 ^ 10) at 2.
    rewrite Z.mul_assoc, Z.div_mul by lia. lia. }
  rewrite (u32_small (4 * PGDIDX a + dir)) by (unfold is_u32; lia). rewrite (Z.add_comm _ dir).
  fold (tbl m dir (PGDIDX a)). destruct (tbl_page m dir (PGDIDX a)) as (_ & ? & ?); [apply Hw|].
  rewrite u32_small by (unfold is_u32; lia). rewrite (Z.add_comm _ (tbl _ _ _)). fold (pte m dir a).
  rewrite land_NOPAGE by apply Hw. split; [|done]. rewrite land_PAGE, Z.lor_comm, lor_page; [done|].
  by apply Z.mod_pos_bound.
Qed.

Lemma virt2phys_map m dir a :
  map_ok m dir → is_u32 a → __virt2phys dir m a = pte m dir a / 4096 * 4096 + a `mod` 4096.
Proof. intros [(_ & ? & ?) Hw _ _] Ha. by apply virt2phys_pte. Qed.

Lemma page_words p q i j :
  (4096 | p) → (4096 | q) → 0 ≤ i < 1024 → 0 ≤ j < 1024 → p + 4 * i = q + 4 * j → p = q ∧ i = j.
Proof. intros [k ->] [l ->] ? ? ?. lia. Qed.

Lemma land_lor_present e : Z.land (Z.lor e (PTF PTF_PRESENT)) NOPAGE_MASK = Z.land e NOPAGE_MASK.
Proof. rewrite Z.land_lor_distr_l. change (Z.land (PTF PTF_PRESENT) NOPAGE_MASK) with 0. apply Z.lor_0_r. Qed.

(** A store into a page table changes one entry. *)
Lemma wr_pte m dir v e :
  map_ok m dir → is_u32 v → is_u32 e →
  let m' := wr (tbl m dir (PGDIDX v) + 4 * PGTIDX v) e m in
  map_ok m' dir ∧ (∀ d, 0 ≤ d < 1024 → m' (dir + 4 * d) = m (dir + 4 * d)) ∧
  ∀ a, is_u32 a → pte m' dir a = if decide (a / 4096 = v / 4096) then e else pte m dir a.
Proof.
  intros H Hv He m'. pose proof (PGDIDX_range v Hv) as Hd. pose proof (PGTIDX_range v) as Ht.
  destruct (tbl_page m dir (PGDIDX v)) as (Hal & ? & ?); [apply H|].
  pose proof (mo_dir _ _ H) as (Hdal & Hd0 & Hd1).
  assert (∀ d, 0 ≤ d < 1024 → m' (dir + 4 * d) = m (dir + 4 * d)) as Hdir.
  { intros d Hr. unfold m', wr. rewrite decide_False; [done|]. intros E.
    apply page_words in E as [E _]; [|done..]. by apply (mo_apart _ _ H (PGDIDX v)). }
  assert (∀ d, 0 ≤ d < 1024 → tbl m' dir d = tbl m dir d) as Htbl.
  { intros d Hr. unfold tbl. by rewrite Hdir. }
  split; [|split; [done|]].
  - split; [done| | |].
    + intros a. unfold m', wr. case_decide; [done|apply H].
    + intros d Hr. rewrite Htbl by done. by apply H.
    + intros d d' Hr Hr'. rewrite !Htbl by done. by apply H.
  - intros a Ha. pose proof (PGDIDX_range a Ha). pose proof (PGTIDX_range a).
    unfold pte. rewrite Htbl by done. unfold m', wr at 1.
    destruct (tbl_page m dir (PGDIDX a)) as (Hala & _); [apply H|]. case_decide as E; case_decide as Ep; try done.
    + exfalso. apply Ep. apply page_words in E as [E1 E2]; [|done..].
      apply (mo_inj _ _ H) in E1; [|done..]. by apply addr_split.
    + exfalso. apply E. apply page_idx in Ep as [-> ->]. done.
Qed.

(** Marking the table of an address present. *)
Lemma wr_present m dir d :
  map_ok m dir → 0 ≤ d < 1024 →
  let m' := wr (dir + 4 * d) (Z.lor (m (dir + 4 * d)) (PTF PTF_PRESENT)) m in
  map_ok m' dir ∧ (∀ e, 0 ≤ e < 1024 → tbl m' dir e = tbl m dir e) ∧
  ∀ a, is_u32 a → pte m' dir a = pte m dir a.
Proof.
  intros H Hd m'. pose proof (mo_dir _ _ H) as (Hdal & Hd0 & Hd1).
  assert (∀ e, 0 ≤ e < 1024 → tbl m' dir e = tbl m dir e) as Htbl.
  { intros e He. unfold tbl, m', wr. case_decide as E; [|done].
    assert (e = d) as -> by lia. apply land_lor_present. }
  split; [|split; [done|]].
  - split; [done| | |].
    + intros a. unfold m', wr. case_decide; [|apply H]. apply lor_is_u32; [apply H|done].
    + intros e Hr. rewrite Htbl by done. by apply H.
    + intros e e' Hr Hr'. rewrite !Htbl by done. by apply H.
  - intros a Ha. pose proof (PGDIDX_range a Ha). pose proof (PGTIDX_range a).
    unfold pte. rewrite Htbl by done. unfold m', wr. rewrite decide_False; [done|]. intros E.
    destruct (tbl_page m dir (PGDIDX a)) as (Hala & _); [apply H|].
    apply page_words in E as [E _]; [|done..]. by apply (mo_apart _ _ H (PGDIDX a)).
Qed.

Definition user_pte (phys flags : Z) : Z :=
  Z.lor (Z.lor (Z.lor phys (PTF PTF_PRESENT)) (PTF PTF_USER)) flags.

Lemma map_page_spec m dir v phys flags :
  map_ok m dir → is_u32 v → is_u32 (user_pte phys flags) →
  let m' := map_page dir v phys flags m in
  map_ok m' dir ∧ Z.testbit (m' (dir + 4 * PGDIDX v)) (ptf_bit PTF_PRESENT) = true ∧
  ∀ a, is_u32 a → pte m' dir a = if decide (a / 4096 = v / 4096) then user_pte phys flags else pte m dir a.
Proof.
  intros H Hv He m'. pose proof (PGDIDX_range v Hv) as Hd.
  destruct (wr_present m dir (PGDIDX v) H Hd) as (H1 & Ht & Hp). cbv zeta in H1, Ht, Hp.
  set (m1 := wr _ _ m) in *.
  assert (m' = wr (tbl m1 dir (PGDIDX v) + 4 * PGTIDX v) (user_pte phys flags) m1) as Em.
  { rewrite Ht by done. done. }
  destruct (wr_pte m1 dir v (user_pte phys flags) H1 Hv He) as (H2 & Hdir & Hpte). cbv zeta in *. rewrite <- Em in *.
  split; [done|]. split.
  - rewrite Hdir by done. unfold m1, wr. rewrite decide_True by done. rewrite Z.lor_spec. by rewrite orb_true_r.
  - intros a Ha. rewrite Hpte, Hp by done. done.
Qed.

Lemma lor_small a b n : 0 ≤ n → 0 ≤ a < 2 ^ n → 0 ≤ b < 2 ^ n → 0 ≤ Z.lor a b < 2 ^ n.
Proof.
  intros Hn Ha Hb. split; [apply Z.lor_nonneg; lia|].
  destruct (decide (a = 0)) as [->|]; [rewrite Z.lor_0_l; lia|].
  destruct (decide (b = 0)) as [->|]; [rewrite Z.lor_0_r; lia|].
  apply Z.log2_lt_pow2; [apply Z.le_neq; split; [apply Z.lor_nonneg; lia|]|].
  { intros E. symmetry in E. apply Z.lor_eq_0_iff in E. lia. }
  rewrite Z.log2_lor by lia. apply Z.max_lub_lt; (apply Z.log2_lt_pow2; lia).
Qed.

Lemma lor_page_parts p o f :
  0 ≤ o < 4096 → 0 ≤ f < 4096 → Z.lor (p * 4096 + o) f = p * 4096 + Z.lor o f ∧ 0 ≤ Z.lor o f < 4096.
Proof.
  intros Ho Hf. rewrite <- lor_page, <- Z.lor_assoc, lor_page by (done || by apply (lor_small o f 12)).
  split; [done|]. by apply (lor_small o f 12).
Qed.

(** The parts of an entry [map_page] writes. *)
Lemma user_pte_parts p flags :
  0 ≤ flags < 4096 →
  user_pte (p * 4096) flags = p * 4096 + Z.lor 5 flags ∧ 0 ≤ Z.lor 5 flags < 4096.
Proof.
  intros Hf. unfold user_pte. rewrite lor_page by done.
  change (Z.lor (p * 4096 + PTF PTF_PRESENT) (PTF PTF_USER)) with (Z.lor (p * 4096 + 1) 4).
  destruct (lor_page_parts p 1 4) as [-> _]; [done..|]. by apply lor_page_parts.
Qed.

Lemma user_pte_page p flags :
  0 ≤ flags < 4096 → 0 ≤ p < 2 ^ 20 →
  is_u32 (user_pte (p * 4096) flags) ∧ user_pte (p * 4096) flags / 4096 = p ∧
  PE_FLAGS (user_pte (p * 4096) flags) = Z.lor 5 flags.
Proof.
  intros Hf Hp. destruct (user_pte_parts p flags Hf) as [-> Hl]. unfold is_u32. split; [lia|].
  split; [Z.div_mod_to_equations; lia|]. unfold PE_FLAGS. change 0xfff with PAGE_MASK. rewrite land_PAGE.
  Z.div_mod_to_equations. lia.
Qed.

(** The pages of [map_pages], by their distance from the first. *)
Lemma map_pages_loop_spec n i m dir V P flags :
  map_ok m dir → 0 ≤ flags < 4096 → 0 ≤ i → 0 ≤ V → 0 ≤ P →
  V + i + Z.of_nat n ≤ 2 ^ 20 → P + i + Z.of_nat n ≤ 2 ^ 20 →
  let m' := map_pages_loop n i dir (V * 4096) (P * 4096) flags m in
  map_ok m' dir ∧
  ∀ a, is_u32 a → pte m' dir a =
    (let j := a / 4096 - V in
     if decide (i ≤ j < i + Z.of_nat n) then user_pte ((P + j) * 4096) flags else pte m dir a).
Proof.
  intros H Hf. revert i m H. induction n as [|n IH]; intros i m H Hi HV HP Hv Hp.
  { split; [done|]. intros a Ha. cbv zeta. by rewrite decide_False by lia. }
  cbn [map_pages_loop]. unfold PAGE_SIZE. rewrite !u32_small by (unfold is_u32; lia).
  replace (V * 4096 + 4096 * i) with ((V + i) * 4096) by lia.
  replace (P * 4096 + 4096 * i) with ((P + i) * 4096) by lia.
  destruct (user_pte_page (P + i) flags) as (Hu & _); [done|lia|].
  destruct (map_page_spec m dir ((V + i) * 4096) ((P + i) * 4096) flags H) as (H1 & _ & Hpte);
    [unfold is_u32; lia|done|].
  destruct (IH (i + 1) _ H1) as [H2 Hr]; [lia..|]. split; [exact H2|]. intros a Ha. rewrite Hr by done.
  cbv zeta. rewrite Hpte by done. rewrite Z.div_mul by lia.
  destruct (decide (a / 4096 - V = i)) as [E|E].
  - rewrite (decide_False (P := i + 1 ≤ _ < _)), !decide_True by lia. do 2 f_equal. lia.
  - rewrite (decide_False (P := a / 4096 = V + i)) by lia.
    destruct (decide (i + 1 ≤ a / 4096 - V < i + 1 + Z.of_nat n)); [rewrite decide_True by lia|rewrite decide_False by lia]; done.
Qed.

(** ** Arrays of words *)

Lemma fill_loop_at n base i f m j :
  fill_loop n base i f m (base + 4 * j) =
    if decide (i ≤ j < i + Z.of_nat n) then f j else m (base + 4 * j).
Proof.
  revert i m. induction n as [|n IH]; intros i m; cbn [fill_loop]; [by rewrite decide_False by lia|].
  rewrite IH. unfold wr. repeat case_decide; try lia; try done. f_equal. lia.
Qed.

Lemma fill_loop_out n base i f m x :
  ¬ (base + 4 * i ≤ x < base + 4 * (i + Z.of_nat n)) → fill_loop n base i f m x = m x.
Proof.
  revert i m. induction n as [|n IH]; intros i m Hx; cbn [fill_loop]; [done|].
  rewrite IH by lia. unfold wr. by rewrite decide_False by lia.
Qed.

Lemma fill_loop_u32 n base i f m :
  (∀ j, is_u32 (f j)) → (∀ x, is_u32 (m x)) → ∀ x, is_u32 (fill_loop n base i f m x).
Proof.
  intros Hf. revert i m. induction n as [|n IH]; intros i m Hm; cbn [fill_loop]; [done|].
  apply IH. intros x. unfold wr. by case_decide.
Qed.

Lemma copy_words_at n t dst src m j :
  (∀ k l, t ≤ k < t + Z.of_nat n → t ≤ l < t + Z.of_nat n → dst + 4 * k ≠ src + 4 * l) →
  copy_words n t dst src m (dst + 4 * j) =
    if decide (t ≤ j < t + Z.of_nat n) then m (src + 4 * j) else m (dst + 4 * j).
Proof.
  revert t m. induction n as [|n IH]; intros t m Hd; cbn [copy_words]; [by rewrite decide_False by lia|].
  rewrite IH by (intros; apply Hd; lia). unfold wr.
  destruct (decide (t + 1 ≤ j < t + 1 + Z.of_nat n)) as [Hj|Hj].
  - rewrite (decide_True (P := t ≤ j < _)) by lia. rewrite decide_False; [done|]. intros E.
    apply (Hd t j); lia.
  - destruct (decide (j = t)) as [->|Hne].
    + by rewrite !decide_True by lia.
    + by rewrite (decide_False (P := t ≤ j < _)), decide_False by lia.
Qed.

Lemma copy_words_out n t dst src m x :
  ¬ (dst + 4 * t ≤ x < dst + 4 * (t + Z.of_nat n)) → copy_words n t dst src m x = m x.
Proof.
  revert t m. induction n as [|n IH]; intros t m Hx; cbn [copy_words]; [done|].
  rewrite IH by lia. unfold wr. by rewrite decide_False by lia.
Qed.

Lemma copy_words_u32 n t dst src m :
  (∀ x, is_u32 (m x)) → ∀ x, is_u32 (copy_words n t dst src m x).
Proof.
  revert t m. induction n as [|n IH]; intros t m Hm; cbn [copy_words]; [done|].
  apply IH. intros x. unfold wr. by case_decide.
Qed.

(** ** The root mapping *)

Definition tablesz (pgs : Z) : Z := pgs / PGT_ENTRIES + (if decide (pgs `mod` PGT_ENTRIES ≠ 0) then 1 else 0).

Lemma tablesz_bounds pgs : 0 < pgs ≤ 2 ^ 20 → 1 ≤ tablesz pgs ≤ 1024 ∧ pgs ≤ tablesz pgs * 1024 < pgs + 1024.
Proof.
  intros H. unfold tablesz. change PGT_ENTRIES with 1024.
  pose proof (Z.div_mod pgs 1024 ltac:(lia)). pose proof (Z.mod_pos_bound pgs 1024 ltac:(lia)). case_decide; lia.
Qed.

Lemma lor_flags p : Z.lor (Z.lor (Z.lor (p * 4096) (PTF PTF_PRESENT)) (PTF PTF_RW)) (PTF PTF_GLOBAL) = p * 4096 + 259.
Proof. rewrite <- !Z.lor_assoc. by rewrite lor_page. Qed.

Lemma PTE_DESC_eq p f : 0 ≤ p < 2 ^ 20 → 0 ≤ f < 4096 → PTE_DESC p f = p * 4096 + f.
Proof.
  intros Hp Hf. unfold PTE_DESC. change PAGE_SHIFT with 12. rewrite Z.shiftl_mul_pow2 by lia.
  rewrite u32_small by (unfold is_u32; lia). by apply lor_page.
Qed.

Section rootmap.
Context (dir T pgs : Z) (m : wmem).
Context (Hpgs : 0 < pgs ≤ 2 ^ 20) (Hm : ∀ x, is_u32 (m x)).
Context (Hdir : 0 ≤ dir ∧ dir + 4096 ≤ 2 ^ 32) (HT : (4096 | T)) (HT0 : 0 ≤ T).
Context (HT1 : T + tablesz pgs * 4096 ≤ 2 ^ 32).
Context (Hsep : dir + 4096 ≤ T ∨ T + tablesz pgs * 4096 ≤ dir).

Let m' := fill_rootmap dir T pgs m.

Lemma rootmap_dir d :
  0 ≤ d < 1024 → m' (dir + 4 * d) = if decide (d < tablesz pgs) then T + d * 4096 + 259 else 6.
Proof.
  intros Hd. pose proof (tablesz_bounds pgs Hpgs). unfold m', fill_rootmap. cbv zeta. fold (tablesz pgs).
  change PGT_ENTRIES with 1024. rewrite fill_loop_at. case_decide as Ht.
  { rewrite decide_False by lia. done. }
  rewrite fill_loop_at, !decide_True by lia. rewrite u32_small by (unfold is_u32; lia).
  destruct HT as [k Ek]. replace (T + 4 * (d * 1024)) with ((k + d) * 4096) by lia. rewrite lor_flags. lia.
Qed.

Lemma rootmap_table j :
  0 ≤ j < tablesz pgs * 1024 → m' (T + 4 * j) = if decide (j < pgs) then j * 4096 + 3 else 6.
Proof.
  intros Hj. pose proof (tablesz_bounds pgs Hpgs). unfold m', fill_rootmap. cbv zeta. fold (tablesz pgs).
  change PGT_ENTRIES with 1024. rewrite !(fill_loop_out _ dir) by lia.
  rewrite !fill_loop_at. repeat case_decide; try lia; [done|]. by apply PTE_DESC_eq; lia.
Qed.

Lemma rootmap_u32 x : is_u32 (m' x).
Proof.
  pose proof (tablesz_bounds pgs Hpgs).
  unfold m', fill_rootmap. cbv zeta. repeat apply fill_loop_u32; try done; intros j.
  - repeat (apply lor_is_u32; [|done]). apply u32_range.
  - unfold PTE_DESC. apply lor_is_u32; [apply u32_range|done].
Qed.

Lemma rootmap_pte a :
  is_u32 a → PGDIDX a < tablesz pgs →
  pte m' dir a = if decide (a / 4096 < pgs) then a / 4096 * 4096 + 3 else 6.
Proof.
  intros Ha Hd. pose proof (PGDIDX_range a Ha). pose proof (PGTIDX_range a). pose proof (tablesz_bounds pgs Hpgs).
  unfold pte, tbl. rewrite rootmap_dir, decide_True by lia.
  rewrite land_NOPAGE by (unfold is_u32; lia). destruct HT as [k Ek].
  assert ((T + PGDIDX a * 4096 + 259) / 4096 * 4096 = T + PGDIDX a * 4096) as -> by (Z.div_mod_to_equations; lia).
  assert (a / 4096 = PGDIDX a * 1024 + PGTIDX a) as Ea.
  { rewrite PGDIDX_eq, PGTIDX_eq. change (2 ^ 22) with (4096 * 1024). rewrite <- Z.div_div by lia.
    change (2 ^ 12) with 4096. change (2 ^ 10) with 1024. rewrite Z.mul_comm. apply Z.div_mod. lia. }
  replace (T + PGDIDX a * 4096 + 4 * PGTIDX a) with (T + 4 * (a / 4096)) by lia.
  apply rootmap_table. lia.
Qed.

(** The pages of the memory translate to themselves, for the kernel only. *)
Lemma rootmap_identity a :
  is_u32 a → a < pgs * 4096 → __virt2phys dir m' a = a ∧ PE_FLAGS (pte m' dir a) = 3.
Proof.
  intros Ha Hap. pose proof (tablesz_bounds pgs Hpgs). unfold is_u32 in Ha.
  assert (a / 4096 < pgs) by (apply Z.div_lt_upper_bound; lia).
  assert (PGDIDX a < tablesz pgs).
  { rewrite PGDIDX_eq. apply Z.div_lt_upper_bound; lia. }
  assert (pte m' dir a = a / 4096 * 4096 + 3) as Hp by (rewrite rootmap_pte, decide_True by done; done).
  destruct (virt2phys_pte m' dir a rootmap_u32) as [-> _]; [lia..|done|]. rewrite Hp. split.
  - Z.div_mod_to_equations. lia.
  - unfold PE_FLAGS. change 0xfff with PAGE_MASK. rewrite land_PAGE. Z.div_mod_to_equations. lia.
Qed.

(** Nothing else is present. *)
Lemma rootmap_absent a :
  is_u32 a → pgs * 4096 ≤ a →
  Z.testbit (m' (dir + 4 * PGDIDX a)) (ptf_bit PTF_PRESENT) = false ∨
  Z.testbit (pte m' dir a) (ptf_bit PTF_PRESENT) = false.
Proof.
  intros Ha Hap. destruct (decide (PGDIDX a < tablesz pgs)) as [Hd|Hd].
  - right. rewrite rootmap_pte by done. rewrite decide_False; [done|]. unfold is_u32 in Ha. apply Z.le_ngt.
    by apply Z.div_le_lower_bound; lia.
  - left. rewrite rootmap_dir, decide_False by (done || by apply PGDIDX_range). done.
Qed.
End rootmap.

(** ** Cloning *)

Section clone.
Context (src dst pg0 : Z).

(** The source map is apart from the directory and the tables of the copy. *)
Definition outside (x : Z) : Prop := ¬ (dst ≤ x < dst + 4096) ∧ ¬ (pg0 ≤ x < pg0 + 1024 * 4096).

Context (Hdst : 0 ≤ dst ∧ dst + 4096 ≤ 2 ^ 32) (Hpal : (4096 | pg0)) (Hp0 : 0 ≤ pg0).
Context (Hp1 : pg0 + 1024 * 4096 < 2 ^ 32).
Context (Hsep : dst + 4096 ≤ pg0 ∨ pg0 + 1024 * 4096 ≤ dst).

Definition src_apart (m : wmem) : Prop :=
  (∀ e, 0 ≤ e < 1024 → outside (src + 4 * e)) ∧
  (∀ e t, 0 ≤ e < 1024 → 0 ≤ t < 1024 → outside (tbl m src e + 4 * t)).

Lemma clone_step_spec m d :
  (∀ x, is_u32 (m x)) → src_apart m → 0 ≤ d < 1024 →
  let pg := pg0 + d * 4096 in
  let m1 := wr (dst + 4 * d) (Z.land (m (src + 4 * d)) PAGE_MASK) m in
  let m2 := wr (dst + 4 * d) (Z.lor (m1 (dst + 4 * d)) pg) m1 in
  let T := Z.land (m2 (src + 4 * d)) NOPAGE_MASK in
  let m3 := if Z.testbit (m2 (dst + 4 * d)) (ptf_bit PTF_PRESENT)
            then copy_words (Z.to_nat PGT_ENTRIES) 0 pg T m2 else m2 in
  (∀ x, is_u32 (m3 x)) ∧
  (∀ x, x ≠ dst + 4 * d → ¬ (pg ≤ x < pg + 4096) → m3 x = m x) ∧
  m3 (dst + 4 * d) = pg + m (src + 4 * d) `mod` 4096 ∧
  (Z.testbit (m (src + 4 * d)) (ptf_bit PTF_PRESENT) = true →
   ∀ t, 0 ≤ t < 1024 → m3 (pg + 4 * t) = m (tbl m src d + 4 * t)).
Proof.
  intros Hm [Hs1 Hs2] Hd pg m1 m2 T m3. destruct Hpal as [k Ek].
  assert (m2 (dst + 4 * d) = pg + m (src + 4 * d) `mod` 4096) as E2.
  { unfold m2, m1, wr. rewrite !decide_True by done. rewrite land_PAGE. unfold pg. rewrite Ek, Z.lor_comm.
    replace (k * 4096 + d * 4096) with ((k + d) * 4096) by lia. rewrite lor_page; [done|]. by apply Z.mod_pos_bound. }
  assert (∀ x, x ≠ dst + 4 * d → m2 x = m x) as E2'.
  { intros x Hx. unfold m2, m1, wr. by rewrite !decide_False. }
  assert (0 ≤ m (src + 4 * d) `mod` 4096 < 4096) by by apply Z.mod_pos_bound.
  assert (∀ x, is_u32 (m2 x)) as H2.
  { intros x. destruct (decide (x = dst + 4 * d)) as [->|]; [rewrite E2; unfold is_u32; lia|by rewrite E2']. }
  assert (T = tbl m src d) as ET.
  { unfold T. rewrite E2'; [done|]. destruct (Hs1 d Hd) as [? _]. lia. }
  assert (Z.testbit (m2 (dst + 4 * d)) (ptf_bit PTF_PRESENT) = Z.testbit (m (src + 4 * d)) 0) as Ebit.
  { rewrite E2. change (ptf_bit PTF_PRESENT) with 0. rewrite !Z.bit0_odd. unfold pg.
    rewrite Ek, !Z.odd_add, !Z.odd_mul. change (Z.odd 4096) with false. rewrite !andb_false_r, !xorb_false_l. rewrite <- !Z.bit0_odd.
    change 4096 with (2 ^ 12). by rewrite Z.mod_pow2_bits_low. }
  unfold m3. rewrite Ebit. clear m3. change (Z.to_nat PGT_ENTRIES) with 1024%nat. change (ptf_bit PTF_PRESENT) with 0.
  clearbody m2 m1. destruct (Z.testbit (m (src + 4 * d)) 0) eqn:Eb.
  - split; [by apply copy_words_u32|]. split; [|split].
    + intros x Hx Hxp. rewrite copy_words_out by lia. by apply E2'.
    + rewrite copy_words_out by lia. done.
    + intros _ t Ht. rewrite ET, copy_words_at, decide_True by (try intros ? j ? ?; try destruct (Hs2 d j) as [_ ?]; lia).
      apply E2'. destruct (Hs2 d t Hd Ht) as [? _]. lia.
  - split; [done|]. split; [intros; by apply E2'|]. split; [done|]. done.
Qed.

Lemma clone_loop_spec n d m :
  (∀ x, is_u32 (m x)) → src_apart m → 0 ≤ d → d + Z.of_nat n ≤ 1024 →
  let m' := clone_loop n d dst src (pg0 + d * 4096) m in
  (∀ x, is_u32 (m' x)) ∧
  (∀ x, ¬ (dst + 4 * d ≤ x < dst + 4096) → ¬ (pg0 + d * 4096 ≤ x < pg0 + 1024 * 4096) → m' x = m x) ∧
  (∀ e, d ≤ e < d + Z.of_nat n →
     m' (dst + 4 * e) = pg0 + e * 4096 + m (src + 4 * e) `mod` 4096 ∧
     (Z.testbit (m (src + 4 * e)) (ptf_bit PTF_PRESENT) = true →
      ∀ t, 0 ≤ t < 1024 → m' (pg0 + e * 4096 + 4 * t) = m (tbl m src e + 4 * t))).
Proof.
  revert d m. induction n as [|n IH]; intros d m Hm Hs Hd Hn; [split; [done|]; split; [done|]; intros; lia|].
  cbn [clone_loop]. cbv zeta.
  destruct (clone_step_spec m d Hm Hs ltac:(lia)) as (H3 & Hf & Hde & Hte). cbv zeta in H3, Hf, Hde, Hte.
  set (m3 := if Z.testbit _ _ then _ else _) in *. clearbody m3.
  unfold PAGE_SIZE. rewrite u32_small by (unfold is_u32; lia).
  replace (pg0 + d * 4096 + 4096) with (pg0 + (d + 1) * 4096) by lia.
  assert (∀ x, outside x → m3 x = m x) as Hout by (intros x [? ?]; apply Hf; lia).
  assert (∀ e, 0 ≤ e < 1024 → tbl m3 src e = tbl m src e) as Htbl.
  { intros e He. unfold tbl. rewrite Hout; [done|]. by apply Hs. }
  destruct (IH (d + 1) m3 H3) as (H' & Hf' & He'); [|lia..|].
  { split; [apply Hs|]. intros e t He Ht. rewrite Htbl by done. by apply Hs. }
  split; [done|]. split.
  { intros x Hx Hxp. rewrite Hf' by lia. apply Hf; lia. }
  intros e He. destruct (decide (e = d)) as [->|Hne].
  - rewrite Hf', Hde by lia. split; [done|]. intros Hb t Ht. rewrite Hf' by lia. by apply Hte.
  - destruct (He' e ltac:(lia)) as [H1 H2]. rewrite Hout in H1, H2 by (apply Hs; lia). split; [done|].
    intros Hb t Ht. rewrite H2, Htbl by (done || lia). apply Hout. apply Hs; lia.
Qed.

Lemma clone_loop_clones m :
  (∀ x, is_u32 (m x)) → src_apart m → (4096 | dst) →
  let m' := clone_loop (Z.to_nat PGD_ENTRIES) 0 dst src pg0 m in
  map_ok m' dst ∧ (∀ x, outside x → m' x = m x) ∧
  (∀ d, 0 ≤ d < 1024 → PE_FLAGS (m' (dst + 4 * d)) = PE_FLAGS (m (src + 4 * d)) ∧ tbl m' dst d = pg0 + d * 4096) ∧
  ∀ a, is_u32 a → Z.testbit (m (src + 4 * PGDIDX a)) (ptf_bit PTF_PRESENT) = true → pte m' dst a = pte m src a.
Proof.
  intros Hm Hs Hal. change (Z.to_nat PGD_ENTRIES) with 1024%nat. intros m'.
  pose proof (clone_loop_spec 1024 0 m Hm Hs ltac:(lia) ltac:(lia)) as H. cbv zeta in H.
  replace (pg0 + 0 * 4096) with pg0 in H by lia. fold m' in H. clearbody m'. destruct H as (Hw & Hf & He).
  assert (∀ d, 0 ≤ d < 1024 → tbl m' dst d = pg0 + d * 4096) as Ht.
  { intros d Hd. unfold tbl. destruct (He d ltac:(lia)) as [-> _].
    pose proof (Z.mod_pos_bound (m (src + 4 * d)) 4096 ltac:(lia)). destruct Hpal as [k Ek].
    rewrite land_NOPAGE by (unfold is_u32; lia). rewrite Ek.
    replace (k * 4096 + d * 4096 + m (src + 4 * d) `mod` 4096) with (m (src + 4 * d) `mod` 4096 + (k + d) * 4096) by lia.
    rewrite Z.div_add, Z.div_small by lia. lia. }
  split; [split; [split; [done|lia]|done|intros d Hd; rewrite Ht by done; lia|]|split; [|split]].
  - intros d e Hd He'. rewrite !Ht by done. lia.
  - intros x [H1 H2]. apply Hf; [clear -H1; lia|clear -H2; lia].
  - intros d Hd. split; [|by apply Ht]. unfold PE_FLAGS. change 0xfff with PAGE_MASK. rewrite !land_PAGE.
    destruct (He d ltac:(lia)) as [-> _]. destruct Hpal as [k Ek]. rewrite Ek.
    replace (k * 4096 + d * 4096 + m (src + 4 * d) `mod` 4096) with (m (src + 4 * d) `mod` 4096 + (k + d) * 4096) by lia.
    rewrite Z_mod_plus_full. by apply Z.mod_mod.
  - intros a Ha Hb. pose proof (PGDIDX_range a Ha). pose proof (PGTIDX_range a).
    unfold pte. rewrite Ht by done. by apply He.
Qed.
End clone.

(** ** Properties *)


(** [unmap_page] takes the page of an address out of the mapping and leaves
    the translation of every other page alone. *)
Theorem unmap_page_removes m dir virt a :
  map_ok m dir → is_u32 virt → is_u32 a →
  let m' := unmap_page dir virt m in
  map_ok m' dir ∧
  (a / 4096 = virt / 4096 → Z.testbit (pte m' dir a) (ptf_bit PTF_PRESENT) = false) ∧
  (a / 4096 ≠ virt / 4096 → pte m' dir a = pte m dir a ∧ __virt2phys dir m' a = __virt2phys dir m a).
Proof.
  intros H Hv Ha m'. destruct (wr_pte m dir virt 0 H Hv) as (H' & _ & Hpte); [done|]. cbv zeta in H', Hpte.
  change (wr _ 0 m) with m' in H', Hpte. specialize (Hpte a Ha). split; [done|]. split; intros E.
  - rewrite Hpte, decide_True by done. done.
  - rewrite decide_False in Hpte by done. rewrite !virt2phys_map by done. by rewrite Hpte.
Qed.

(** The address of a pile of the boot zone. *)
Lemma boot_pile s L F A i k :
  zinv ZONE_BOOT s L F A A → (i, k) ∈ A → 0 ≤ base (zones s ZONE_BOOT) →
  base (zones s ZONE_BOOT) + total_pages (zones s ZONE_BOOT) * PAGE_SIZE ≤ 2 ^ 32 →
  0 ≤ i ∧ 0 ≤ k ∧ base (zones s ZONE_BOOT) + (i + 2 ^ k) * PAGE_SIZE ≤ 2 ^ 32 ∧
  page_to_addr (ZONE_BOOT, i) s = base (zones s ZONE_BOOT) + i * PAGE_SIZE.
Proof.
  intros H Hi Hb Ht. destruct (zi_block _ _ _ _ _ _ i k H) as (Hk & _ & Hi0 & Hit); [set_solver|].
  destruct (zi_page _ _ _ _ _ _ i k H) as [Hx Hz]; [set_solver|]. unfold PAGE_SIZE in *.
  assert (0 < 2 ^ k) by (apply pow2_pos; lia).
  split; [lia|]. split; [lia|]. split; [nia|]. unfold page_to_addr, page_at. cbn [fst snd]. rewrite Hx, Hz.
  apply u32_small. unfold is_u32, PAGE_SIZE. nia.
Qed.

Lemma get_pages_boot s L F A ord :
  zinv ZONE_BOOT s L F A A → 0 ≤ ord ≤ 10 →
  get_pages 0 ord s = Fault ∨
  ∃ q s' L' F', get_pages 0 ord s = Ok (page_to_addr (ZONE_BOOT, q) s', s') ∧ ((q, ord) ∉ A) ∧
    zinv ZONE_BOOT s' L' F' ({[(q, ord)]} ∪ A) ({[(q, ord)]} ∪ A) ∧ zones s' = zones s.
Proof.
  intros H Hord. unfold get_pages, alloc_pages. rewrite decide_True by done.
  destruct (alloc_pages_spec ZONE_BOOT s L F A 0 ord H Hord) as [[E _]|(q & s' & L' & F' & E & Hq & H' & _ & Hz & _)].
  - left. change (Z.land 0 ZONE_MASK) with ZONE_BOOT. rewrite E. done.
  - right. change (Z.land 0 ZONE_MASK) with ZONE_BOOT. rewrite E. by exists q, s', L', F'.
Qed.


(** the loop of [clone_map] gives the copy the translation of the original:
    same flags in the directory, same entries in every table that is present,
    in tables of its own, and the original is left alone; the copy needs 1024
    pages for its tables. *)
Theorem clone_map_copies m src dst pg0 a :
  (∀ x, is_u32 (m x)) → (4096 | dst) → 0 ≤ dst → dst + 4096 ≤ 2 ^ 32 →
  (4096 | pg0) → 0 ≤ pg0 → pg0 + 1024 * 4096 < 2 ^ 32 →
  dst + 4096 ≤ pg0 ∨ pg0 + 1024 * 4096 ≤ dst → src_apart src dst pg0 m → is_u32 a →
  let m' := clone_loop (Z.to_nat PGD_ENTRIES) 0 dst src pg0 m in
  map_ok m' dst ∧
  (Z.testbit (m (src + 4 * PGDIDX a)) (ptf_bit PTF_PRESENT) = true → pte m' dst a = pte m src a) ∧
  PE_FLAGS (m' (dst + 4 * PGDIDX a)) = PE_FLAGS (m (src + 4 * PGDIDX a)) ∧
  m' (src + 4 * PGDIDX a) = m (src + 4 * PGDIDX a) ∧ pte m' src a = pte m src a.
Proof.
  intros Hm Hda Hd0 Hd1 Hpa Hp0 Hp1 Hsep Hs Ha m'. pose proof (PGDIDX_range a Ha). pose proof (PGTIDX_range a).
  destruct (clone_loop_clones src dst pg0 (conj Hd0 Hd1) Hpa Hp0 Hp1 Hsep m Hm Hs Hda) as (H' & Hf & Hfl & Hpte).
  fold m' in H', Hf, Hfl, Hpte. clearbody m'. destruct Hs as [Hs1 Hs2].
  split; [done|]. split; [intros; by apply Hpte|]. split; [by apply Hfl|]. split; [by apply Hf, Hs1|].
  unfold pte, tbl. rewrite (Hf (src + _)) by by apply Hs1. by apply Hf, Hs2.
Qed.

(** *** Instances *)

(** A directory at 4 MB whose tables are the 1024 pages from 8 MB on. *)
Definition flat_words : wmem := λ x,
  if decide (2 ^ 22 ≤ x < 2 ^ 22 + 4096) then 2 ^ 23 + (x - 2 ^ 22) / 4 * 4096 else 0.

Lemma flat_dir d : 0 ≤ d < 1024 → flat_words (2 ^ 22 + 4 * d) = 2 ^ 23 + d * 4096.
Proof.
  intros Hd. unfold flat_words. rewrite decide_True by lia.
  replace (2 ^ 22 + 4 * d - 2 ^ 22) with (d * 4) by lia. by rewrite Z.div_mul.
Qed.
Lemma flat_u32 x : is_u32 (flat_words x).
Proof. unfold flat_words, is_u32. case_decide; [|lia]. Z.div_mod_to_equations. lia. Qed.
Lemma flat_tbl d : 0 ≤ d < 1024 → tbl flat_words (2 ^ 22) d = 2 ^ 23 + d * 4096.
Proof.
  intros Hd. unfold tbl. rewrite flat_dir, land_NOPAGE by (done || unfold is_u32; lia).
  replace (2 ^ 23 + d * 4096) with ((2048 + d) * 4096) by lia. by rewrite Z.div_mul.
Qed.
Lemma flat_ok : map_ok flat_words (2 ^ 22).
Proof.
  split.
  - split; [by exists 1024|lia].
  - apply flat_u32.
  - intros d Hd. rewrite flat_tbl by done. lia.
  - intros d e Hd He. rewrite !flat_tbl by done. lia.
Qed.


Lemma unmap_page_removes_witness :
  Z.testbit (pte (unmap_page (2 ^ 22) 4096 flat_words) (2 ^ 22) 5000) (ptf_bit PTF_PRESENT) = false.
Proof.
  destruct (unmap_page_removes flat_words (2 ^ 22) 4096 5000 flat_ok) as (_ & H & _); [unfold is_u32; lia..|].
  apply H. reflexivity.
Defined.

Definition vm16 : vm := Vm zone16 (λ _, 0) 0 0 16 (Mapping 0 0 (λ _, 0) 0).


Lemma clone_map_copies_witness :
  map_ok (clone_loop (Z.to_nat PGD_ENTRIES) 0 (2 ^ 24) (2 ^ 22) (2 ^ 25) flat_words) (2 ^ 24).
Proof.
  apply (clone_map_copies flat_words (2 ^ 22) (2 ^ 24) (2 ^ 25) 0); try lia.
  - exact flat_u32.
  - by exists 4096.
  - by exists 8192.
  - split; intros; [|rewrite flat_tbl by done]; split; lia.
  - unfold is_u32. lia.
Defined.

(** *** The tables of a clone do not fit into what [clone_map] allocates *)

(** On a machine with 16 MB, [clone_map] asks for four pages for the tables,
    but the tables of the copy are spread over 1024 pages. *)
Example clone_map_short :
  log2 (u32 (4096 + PGT_ENTRIES - 1) / PGT_ENTRIES) = 2 ∧
  tbl (clone_loop 5 0 (2 ^ 24) (2 ^ 22) (2 ^ 25) flat_words) (2 ^ 24) 4 = 2 ^ 25 + 4 * PAGE_SIZE.
Proof. split; vm_compute; reflexivity. Qed.
