(* ===== verification/MemArea.v ===== *)
(** * Memory areas (kernel/mem_area.c, include/mem_area.h, kernel/brk.c)

    A memory area of a mapping is a range of virtual pages backed by a list of
    physical pages.  The pages are linked by their [area_list] nodes, in the
    klist0 heap of the page allocator; the list head of area [a] is the node
    [Ext a].  The structures are slices of [mma_pool]; the page tables are
    those of Paging. *)

From S2P Require Import Prelude KList Bitmap Klib Buddy PageAlloc Slice Paging.

(* include/mem_area.h:50-56 MMA_RW *)
Definition MMA_RO : Z := 0x00.
Definition MMA_RW : Z := 0x01.
Definition MMA_GROWS : Z := 0x02.
Definition MMA_STACK : Z := 0x04.
Definition MMA_EXEC : Z := 0x08.
Definition MMA_CONT : Z := 0x10.
Definition MMA_CLONE : Z := 0x20.

(** [m_original] shares its place with the list of pages: it is only used of
    areas with MMA_CLONE, the list only of the others. *)
(* include/mem_area.h:30-45 mem_area *)
Record mem_area := Mma {
  m_start : Z; m_end : Z; m_sizelim : Z; m_pages : Z; m_users : Z; m_prot : Z; m_flags : Z;
  m_original : Z; m_map : Z }.

Definition has (f flags : Z) : bool := bool_decide (Z.land flags f ≠ 0).

(** The slices with the page allocator below them, the words of the page
    tables, the bytes of the pages, the mappings and the areas by address. *)
Record ms := Ms {
  msl : slst pa; mwords : wmem; mbytes : memory; maps : Z → mapping; mmas : Z → mem_area; mma_pool : Z }.

Definition with_msl (c : slst pa) (s : ms) : ms := Ms c (mwords s) (mbytes s) (maps s) (mmas s) (mma_pool s).
Definition mpa (s : ms) : pa := src (msl s).
Definition with_mpa (p : pa) (s : ms) : ms := with_msl (with_src p (msl s)) s.
Definition with_mwords (m : wmem) (s : ms) : ms := Ms (msl s) m (mbytes s) (maps s) (mmas s) (mma_pool s).
Definition with_mbytes (m : memory) (s : ms) : ms := Ms (msl s) (mwords s) m (maps s) (mmas s) (mma_pool s).
Definition set_mma (a : Z) (v : mem_area) (s : ms) : ms :=
  Ms (msl s) (mwords s) (mbytes s) (maps s) (λ b, if decide (b = a) then v else mmas s b) (mma_pool s).
Definition set_virt (p : pptr) (v : Z) (s : pa) : pa :=
  let pg := page_at s p in set_page p (Page (index pg) v (order pg) (pzone pg)) s.

(** [&root_map] among the mappings. *)
Definition ROOT_MAP : Z := 0.

(** The directory of the mapping of an area. *)
Definition dir_of (mma : Z) (s : ms) : Z := m_pgdir (maps s (m_map (mmas s mma))).
Definition mmap_page (mma virt phys : Z) (s : ms) : ms :=
  with_mwords (map_page (dir_of mma s) virt phys (m_prot (mmas s mma)) (mwords s)) s.

(* kernel/mem_area.c:30-34 mma_init *)
Definition mma_init (s : ms) : outcome ms :=
  '(p, c) ← slice_pool_create 0 40 (msl s);
  match p with
  | Some p => Ok (Ms c (mwords s) (mbytes s) (maps s) (mmas s) p)
  | None => Bug
  end.

(* include/mem_area.h:70-78 mma_original *)
Fixpoint mma_original (fuel : nat) (mma : Z) (s : ms) : outcome Z :=
  match fuel with
  | O => Hang
  | S f => if has MMA_CLONE (m_flags (mmas s mma)) then mma_original f (m_original (mmas s mma)) s else Ok mma
  end.

(* include/mem_area.h:80-91 __mem_area_add_page *)
Definition __mem_area_add_page (mma : Z) (pg : pptr) (s : ms) : ms :=
  let a := mmas s mma in
  if has MMA_STACK (m_flags a) then
    let start := u32 (m_start a - PAGE_SIZE) in
    let s := set_mma mma (Mma start (m_end a) (m_sizelim a) (u32 (m_pages a + 1)) (m_users a) (m_prot a)
                              (m_flags a) (m_original a) (m_map a)) s in
    with_mpa (set_virt pg start (mpa s)) s
  else
    let s := set_mma mma (Mma (m_start a) (u32 (m_end a + PAGE_SIZE)) (m_sizelim a) (u32 (m_pages a + 1)) (m_users a)
                              (m_prot a) (m_flags a) (m_original a) (m_map a)) s in
    with_mpa (set_virt pg (m_end a) (mpa s)) s.

(* include/mem_area.h:93-98 __mem_area_remove_page *)
Definition __mem_area_remove_page (mma : Z) (pg : pptr) (s : ms) : ms :=
  let a := mmas s mma in
  let s := with_mpa (set_virt pg NOPAGE_ADDR (mpa s)) s in
  set_mma mma (Mma (m_start a) (u32 (m_end a - PAGE_SIZE)) (m_sizelim a) (u32 (m_pages a - 1)) (m_users a)
                   (m_prot a) (m_flags a) (m_original a) (m_map a)) s.

(* include/mem_area.h:105-110 mem_area_is_hit *)
Definition mem_area_is_hit (mma : mem_area) (addr : Z) : bool :=
  bool_decide (m_start mma ≤ addr ∧ addr < m_end mma).

(* include/mem_area.h:113-129 mem_area_hit_offset *)
Definition mem_area_hit_offset (mma : mem_area) (addr : Z) : Z :=
  if has MMA_STACK (m_flags mma) then
    if decide (u32 (m_end mma - m_sizelim mma) ≤ addr ∧ addr < m_end mma)
    then u32 (m_start mma - addr) else NOPAGE_ADDR
  else if has MMA_GROWS (m_flags mma) then
    if decide (m_start mma ≤ addr ∧ addr < u32 (m_start mma + m_sizelim mma))
    then u32 (addr - m_end mma) else NOPAGE_ADDR
  else NOPAGE_ADDR.

(** The body of the loop of [mma_map_pages], for each node of the list. *)
Fixpoint map_nodes (l : list node) (mma : Z) (add : bool) (s : ms) : outcome ms :=
  match l with
  | [] => Ok s
  | Area z i :: l =>
      let pg := (z, i) in
      let a := mmas s mma in
      let virt :=
        if has MMA_STACK (m_flags a)
        then (if add then u32 (m_start a - PAGE_SIZE) else virt (page_at (mpa s) pg))
        else (if add then m_end a else virt (page_at (mpa s) pg)) in
      let s := mmap_page mma virt (page_to_addr pg (mpa s)) s in
      map_nodes l mma add (if add then __mem_area_add_page mma pg s else s)
  | _ => Fault
  end.

Definition walk (fuel : nat) (head : node) (s : ms) : outcome (list node) :=
  match klist0_for_each fuel (lists (mpa s)) head with Some l => Ok l | None => Hang end.

(* kernel/mem_area.c:46-67 mma_map_pages *)
Definition mma_map_pages (fuel : nat) (mma : Z) (add : bool) (s : ms) : outcome ms :=
  org ← mma_original fuel mma s;
  l ← walk fuel (Ext org) s;
  map_nodes l mma add s.

Definition prot_of (flags : Z) : Z :=
  Z.lor (if has MMA_RW flags then PTF PTF_RW else 0) (if has MMA_EXEC flags then PTF_EXEC else 0).

(* kernel/mem_area.c:69-78 mem_area_remap *)
Definition mem_area_remap (fuel : nat) (mma flags : Z) (s : ms) : outcome ms :=
  let a := mmas s mma in
  let f := Z.lor (Z.ldiff (m_flags a) (Z.lor MMA_RW MMA_EXEC)) (Z.land flags (Z.lor MMA_RW MMA_EXEC)) in
  let s := set_mma mma (Mma (m_start a) (m_end a) (m_sizelim a) (m_pages a) (m_users a) (prot_of flags) f
                            (m_original a) (m_map a)) s in
  mma_map_pages fuel mma false s.

(* kernel/mem_area.c:80-115 mem_area_alloc *)
Definition mem_area_alloc (fuel : nat) (map start : Z) (page_list : option node) (flags : Z) (s : ms)
    : outcome (option Z * ms) :=
  '(p, c) ← slice_alloc (mma_pool s) (msl s);
  let s := with_msl c s in
  match p with
  | None => Ok (None, s)
  | Some mma =>
      let a := mmas s mma in
      let s := set_mma mma (Mma start start (m_sizelim a) 0 1 (prot_of flags) flags (m_original a) map) s in
      match page_list with
      | None => Ok (Some mma, s)
      | Some pl =>
          if klist0_empty pl (lists (mpa s)) then Ok (Some mma, s) else
          let s := with_mpa (with_lists (klist0_reparent pl (Ext mma)) (mpa s)) s in
          s ← mma_map_pages fuel mma true s;
          Ok (Some mma, s)
      end
  end.

(** The list head on the stack of [mem_area_alloc_new]. *)
Definition PG_LIST : node := Ext (-1).

(* kernel/mem_area.c:117-142 mem_area_alloc_new *)
Definition mem_area_alloc_new (fuel : nat) (map start pages flags : Z) (s : ms) : outcome (option Z * ms) :=
  let zone := if decide (map = ROOT_MAP) then ZONE_VMAP else ZONE_USER in
  let s := with_mpa (with_lists (KLIST0_INIT PG_LIST) (mpa s)) s in
  '(ret, start_phys, p) ←
    (if has MMA_CONT flags then
       '(ret, sp, p) ← alloc_pagelist_contig zone pages PG_LIST (mpa s);
       Ok (ret, default 0 sp, p)
     else alloc_pagelist_sparse fuel zone (Z.to_nat pages) PG_LIST (mpa s));
  let s := with_mpa p s in
  if decide (ret ≠ 0) then Ok (None, s)
  else
    let start := if decide (zone = ZONE_VMAP) then start_phys else start in
    mem_area_alloc fuel map start (Some PG_LIST) flags s.

(* kernel/mem_area.c:267-274 mem_area_add_page *)
Definition mem_area_add_page (mma : Z) (pg : pptr) (s : ms) : outcome ms :=
  if klist0_empty (Area pg.1 pg.2) (lists (mpa s)) then
    let s := with_mpa (with_lists (klist0_prepend (Area pg.1 pg.2) (Ext mma)) (mpa s)) s in
    Ok (__mem_area_add_page mma pg s)
  else Bug.

(* kernel/mem_area.c:276-283 mem_area_remove_page *)
Definition mem_area_remove_page (mma : Z) (pg : pptr) (s : ms) : outcome ms :=
  if klist0_empty (Area pg.1 pg.2) (lists (mpa s)) then Bug else
  let s := with_mpa (with_lists (klist0_unlink (Area pg.1 pg.2)) (mpa s)) s in
  Ok (__mem_area_remove_page mma pg s).

Fixpoint grow_loop (pages : nat) (mma : Z) (s : ms) : outcome ms :=
  match pages with
  | O => Ok s
  | S n =>
      '(pg, p) ← alloc_pages ZONE_USER 0 (mpa s);
      match pg with
      | None => Bug
      | Some pg =>
          s ← mem_area_add_page mma pg (with_mpa p s);
          grow_loop n mma (mmap_page mma (virt (page_at (mpa s) pg)) (page_to_addr pg (mpa s)) s)
      end
  end.

(* kernel/mem_area.c:144-162 mem_area_grow *)
Definition mem_area_grow (mma pages : Z) (s : ms) : outcome ms :=
  if has (Z.lor MMA_GROWS MMA_STACK) (m_flags (mmas s mma)) then grow_loop (Z.to_nat pages) mma s else Ok s.

(* kernel/mem_area.c:164-184 mem_area_clone *)
Definition mem_area_clone (fuel : nat) (map mma : Z) (s : ms) : outcome (option Z * ms) :=
  if has (Z.lor MMA_STACK MMA_GROWS) (m_flags (mmas s mma)) then Bug else
  '(ret, s) ← mem_area_alloc fuel map (m_start (mmas s mma)) None (m_flags (mmas s mma)) s;
  match ret with
  | None => Ok (None, s)
  | Some ret =>
      let a := mmas s mma in
      let s := set_mma mma (Mma (m_start a) (m_end a) (m_sizelim a) (m_pages a) (u32 (m_users a + 1)) (m_prot a)
                                (m_flags a) (m_original a) (m_map a)) s in
      let r := mmas s ret in
      let s := set_mma ret (Mma (m_start r) (m_end r) (m_sizelim a) (m_pages a) (m_users r) (m_prot a)
                                (Z.lor (m_flags r) MMA_CLONE) mma (m_map r)) s in
      s ← mma_map_pages fuel ret true s;
      Ok (Some ret, s)
  end.

(** The copy loop of [mem_area_copy]: page by page along the two lists; an
    exhausted destination is a bug(). *)
Fixpoint copy_pages (lsrc ldst : list node) (p : pa) (m : memory) : outcome memory :=
  match lsrc, ldst with
  | [], _ => Ok m
  | Area z i :: lsrc, Area z' i' :: ldst =>
      copy_pages lsrc ldst p
        (memory_copy (page_to_addr (z', i') p) (page_to_addr (z, i) p) (Z.to_nat PAGE_SIZE) m)
  | Area _ _ :: _, [] => Bug
  | _, _ => Fault
  end.

(* kernel/mem_area.c:186-217 mem_area_copy *)
Definition mem_area_copy (fuel : nat) (map mma : Z) (s : ms) : outcome (option Z * ms) :=
  let a := mmas s mma in
  '(ret, s) ← mem_area_alloc_new fuel map (m_start a) (m_pages a)
                (Z.ldiff (Z.lor (m_flags a) MMA_RW) MMA_STACK) s;
  match ret with
  | None => Ok (None, s)
  | Some ret =>
      ldst ← walk fuel (Ext ret) s;
      lsrc ← walk fuel (Ext mma) s;
      m ← copy_pages lsrc ldst (mpa s) (mbytes s);
      let s := with_mbytes m s in
      let r := mmas s ret in
      let s := set_mma ret (Mma (m_start r) (m_end r) (m_sizelim a) (m_pages r) (m_users r) (m_prot r)
                                (Z.lor (m_flags r) (Z.land (m_flags a) MMA_STACK)) (m_original r) (m_map r)) s in
      if has MMA_RW (m_flags a) then Ok (Some ret, s)
      else s ← mem_area_remap fuel ret (m_flags a) s; Ok (Some ret, s)
  end.

(** The loops of [mem_area_unmap] and [mem_area_kill]: from node [tmp] to the
    head of area [mma], reading pages on the way. *)
Fixpoint unmap_loop (fuel : nat) (tmp : node) (mma : Z) (reset : bool) (s : ms) : outcome ms :=
  match fuel with
  | O => Hang
  | S f =>
      if decide (tmp = Ext mma) then Ok s
      else match tmp with
      | Area z i =>
          let s := with_mwords (unmap_page (dir_of mma s) (virt (page_at (mpa s) (z, i))) (mwords s)) s in
          let s := if reset then with_mpa (set_virt (z, i) NOPAGE_ADDR (mpa s)) s else s in
          unmap_loop f (next (lists (mpa s) tmp)) mma reset s
      | _ => Fault
      end
  end.

(* kernel/mem_area.c:219-236 mem_area_unmap *)
Definition mem_area_unmap (fuel : nat) (mma : Z) (s : ms) : outcome ms :=
  org ← mma_original fuel mma s;
  s ← unmap_loop fuel (next (lists (mpa s) (Ext org))) mma false s;
  c ← slice_free fuel mma (mma_pool s) (msl s);
  Ok (with_msl c s).

(* kernel/mem_area.c:238-265 mem_area_kill *)
Definition mem_area_kill (fuel : nat) (mma : Z) (s : ms) : outcome ms :=
  let tmp := next (lists (mpa s) (Ext mma)) in
  if has MMA_CLONE (m_flags (mmas s mma)) then Bug else
  s ← (if klist0_empty (Ext mma) (lists (mpa s)) then Ok s
       else
         s ← unmap_loop fuel tmp mma true s;
         if has MMA_CONT (m_flags (mmas s mma)) then
           match next (lists (mpa s) (Ext mma)) with
           | Area z i => p ← free_pages (z, i) (mpa s); Ok (with_mpa p s)
           | _ => Fault
           end
         else p ← free_pagelist fuel (Ext mma) (mpa s); Ok (with_mpa p s));
  c ← slice_free fuel mma (mma_pool s) (msl s);
  Ok (with_msl c s).

(* kernel/mem_area.c:285-293 mem_area_put *)
Definition mem_area_put (fuel : nat) (mma : Z) (s : ms) : outcome ms :=
  org ← mma_original fuel mma s;
  let o := mmas s org in
  let users := u32 (m_users o - 1) in
  let s := set_mma org (Mma (m_start o) (m_end o) (m_sizelim o) (m_pages o) users (m_prot o) (m_flags o)
                            (m_original o) (m_map o)) s in
  if decide (users = 0) then mem_area_kill fuel mma s else mem_area_unmap fuel mma s.

(** The loop of [kill_user_map]; [i] stays 0. *)
Fixpoint put_areas (n fuel : nat) (map : Z) (s : ms) : outcome ms :=
  match n with
  | O => Hang
  | S n =>
      if decide (m_mma (maps s map) 0 = 0) then Ok s
      else s ← mem_area_put fuel (m_mma (maps s map) 0) s; put_areas n fuel map s
  end.

(* kernel/mem_area.c:36-44 kill_user_map *)
Definition kill_user_map (fuel : nat) (map : Z) (s : ms) : outcome ms :=
  s ← put_areas fuel fuel map s;
  p ← put_pages fuel (m_pgtable (maps s map)) (mpa s);
  p ← put_pages fuel (m_pgdir (maps s map)) p;
  Ok (with_mpa p s).

(** ** The heap of a process (kernel/brk.c) *)

(* include/i386/memory.h:32-32 USERMEM_HEAPLIM *)
Definition USERMEM_HEAPLIM : Z := 0x00080000.

(* kernel/brk.c:25-37 sbrk *)
Definition sbrk (inc map : Z) (s : ms) : Z * ms :=
  let mma := m_mma (maps s map) 3 in
  let a := mmas s mma in
  if decide (u32 (m_sizelim a + inc) ≤ USERMEM_HEAPLIM) then
    let lim := u32 (m_sizelim a + inc) in
    (u32 (m_start a + lim),
     set_mma mma (Mma (m_start a) (m_end a) lim (m_pages a) (m_users a) (m_prot a) (m_flags a)
                      (m_original a) (m_map a)) s)
  else (2 ^ 32 - 1, s).

(* kernel/brk.c:39-51 brk *)
Definition brk (end_ map : Z) (s : ms) : Z * ms :=
  let mma := m_mma (maps s map) 3 in
  if decide (end_ = 0) then (m_start (mmas s mma), s)
  else sbrk (u32 (end_ - m_start (mmas s mma))) map s.

(** ** Mapping the pages of an area *)

(** The virtual page of the [k]-th page added to an area: downwards from
    [m_start] in a stack, upwards from [m_end] otherwise. *)
Definition slot (st : bool) (V k : Z) : Z := if st then V - 1 - k else V + k.
Definition edge (a : mem_area) : Z := if has MMA_STACK (m_flags a) then m_start a else m_end a.

Definition area_node (p : pptr) : node := Area p.1 p.2.

Definition add_pages (n : Z) (a : mem_area) : mem_area :=
  let st := has MMA_STACK (m_flags a) in
  Mma (if st then m_start a - n * PAGE_SIZE else m_start a) (if st then m_end a else m_end a + n * PAGE_SIZE)
      (m_sizelim a) (u32 (m_pages a + n)) (m_users a) (m_prot a) (m_flags a) (m_original a) (m_map a).

Lemma add_pages_0 a : is_u32 (m_pages a) → add_pages 0 a = a.
Proof.
  intros H. unfold add_pages. rewrite (Z.add_0_r (m_pages a)), (u32_small _ H), Z.mul_0_l, Z.sub_0_r, Z.add_0_r.
  by destruct a, (has _ _).
Qed.
Lemma add_pages_add n k a : add_pages n (add_pages k a) = add_pages (k + n) a.
Proof.
  unfold add_pages. cbn [m_start m_end m_sizelim m_pages m_users m_prot m_flags m_original m_map].
  rewrite u32_add_l. destruct (has _ _); f_equal; (lia || f_equal; lia).
Qed.

Lemma set_virt_addr p q v s : page_to_addr p (set_virt q v s) = page_to_addr p s.
Proof.
  unfold set_virt, page_to_addr, page_at, set_page. cbn [pages zones].
  case_decide as E; [|done]. destruct p, q. simpl in *. by simplify_eq.
Qed.
Lemma set_virt_same p v s : virt (page_at (set_virt p v s) p) = v.
Proof. unfold set_virt, page_at, set_page. cbn [pages]. destruct p. simpl. by rewrite decide_True. Qed.
Lemma set_virt_other p q v s : p ≠ q → virt (page_at (set_virt q v s) p) = virt (page_at s p).
Proof. intros. unfold set_virt, page_at, set_page. cbn [pages]. destruct p. simpl. by rewrite decide_False. Qed.

(** One page more. *)
Lemma add_page_area mma pg s V :
  let a := mmas s mma in
  edge a = V * 4096 → 0 ≤ slot (has MMA_STACK (m_flags a)) V 0 → V + 1 < 2 ^ 20 →
  let s' := __mem_area_add_page mma pg s in
  mmas s' mma = add_pages 1 a ∧ (∀ b, b ≠ mma → mmas s' b = mmas s b) ∧
  mpa s' = set_virt pg (slot (has MMA_STACK (m_flags a)) V 0 * 4096) (mpa s) ∧
  mwords s' = mwords s ∧ maps s' = maps s.
Proof.
  intros a He Hs HV. unfold __mem_area_add_page, add_pages, edge, slot in *. fold a.
  revert He Hs. destruct (has MMA_STACK (m_flags a)); cbn [mmas maps mwords mpa with_mpa with_msl msl set_mma]; unfold PAGE_SIZE; intros He Hs.
  - rewrite decide_True by done. split_and!; try done.
    + rewrite u32_small by (unfold is_u32; lia). f_equal; lia.
    + intros b Hb. by rewrite decide_False.
    + transitivity (set_virt pg (u32 (m_start a - 4096)) (mpa s)); [done|].
      rewrite u32_small by (unfold is_u32; lia). f_equal. lia.
  - rewrite decide_True by done. split_and!; try done.
    + rewrite (u32_small (m_end a + 4096)) by (unfold is_u32; lia). f_equal; lia.
    + intros b Hb. by rewrite decide_False.
    + transitivity (set_virt pg (m_end a) (mpa s)); [done|]. f_equal. lia.
Qed.

Definition frames (pages : list pptr) (p : pa) : Prop :=
  ∀ q, q ∈ pages → ∃ P, page_to_addr q p = P * 4096 ∧ 0 ≤ P < 2 ^ 20.

Lemma map_nodes_spec pages mma s V :
  let a := mmas s mma in
  let st := has MMA_STACK (m_flags a) in
  let n := Z.of_nat (length pages) in
  map_ok (mwords s) (dir_of mma s) → 0 ≤ m_prot a < 4096 → is_u32 (m_pages a) → edge a = V * 4096 → 0 ≤ V →
  V + n < 2 ^ 20 → (st = true → n ≤ V) → frames pages (mpa s) → NoDup pages →
  ∃ s', map_nodes (area_node <$> pages) mma true s = Ok s' ∧
    map_ok (mwords s') (dir_of mma s) ∧ maps s' = maps s ∧
    mmas s' mma = add_pages n a ∧ (∀ b, b ≠ mma → mmas s' b = mmas s b) ∧
    (∀ q, page_to_addr q (mpa s') = page_to_addr q (mpa s)) ∧
    (∀ k q, pages !! k = Some q → virt (page_at (mpa s') q) = slot st V (Z.of_nat k) * 4096) ∧
    (∀ q, q ∉ pages → virt (page_at (mpa s') q) = virt (page_at (mpa s) q)) ∧
    ∀ x, is_u32 x →
      (∀ k q, pages !! k = Some q → x / 4096 = slot st V (Z.of_nat k) →
         pte (mwords s') (dir_of mma s) x = user_pte (page_to_addr q (mpa s)) (m_prot a)) ∧
      ((∀ k, (k < length pages)%nat → x / 4096 ≠ slot st V (Z.of_nat k)) →
         pte (mwords s') (dir_of mma s) x = pte (mwords s) (dir_of mma s) x).
Proof.
  revert s V. induction pages as [|q pages IH]; intros s V a st n Hm Hp Hpg He HV0 HV Hst Hfr Hnd.
  { exists s. split_and!; try done. symmetry. by apply add_pages_0. }
  apply NoDup_cons in Hnd as [Hq Hnd]. unfold n in *. cbn [length] in *. rewrite Nat2Z.inj_succ in *.
  cbn [fmap list_fmap map_nodes area_node]. fold a. fold st. destruct q as [z i]. cbn [fst snd].
  destruct (Hfr (z, i)) as (P & HP & HPr); [by left|].
  assert (0 ≤ slot st V 0) as Hs0 by (unfold slot; destruct st; [specialize (Hst eq_refl)|]; lia).
  assert (slot st V 0 < 2 ^ 20) as Hs1 by (unfold slot; destruct st; lia).
  replace (if st then u32 (m_start a - PAGE_SIZE) else m_end a) with (slot st V 0 * 4096) by
    (unfold edge, slot, PAGE_SIZE in *; fold st in He; destruct st; [rewrite u32_small by (unfold is_u32; lia)|]; lia).
  set (s1 := mmap_page mma (slot st V 0 * 4096) (page_to_addr (z, i) (mpa s)) s).
  destruct (user_pte_page P (m_prot a) Hp HPr) as (Hu & _).
  destruct (map_page_spec (mwords s) (dir_of mma s) (slot st V 0 * 4096) (page_to_addr (z, i) (mpa s)) (m_prot a) Hm)
    as (Hm1 & _ & Hpte1); [unfold is_u32; lia|by rewrite HP|].
  destruct (add_page_area mma (z, i) s1 V He Hs0 ltac:(lia)) as (Ha & Hoth & Hpa & Hw & Hmaps). cbv zeta in *.
  set (s2 := __mem_area_add_page mma (z, i) s1) in *. clearbody s2.
  change (mmas s1 mma) with a in Ha, Hpa. fold st in Hpa.
  assert (m_flags (mmas s2 mma) = m_flags a ∧ m_prot (mmas s2 mma) = m_prot a ∧ m_map (mmas s2 mma) = m_map a) as (Hfl & Hpr & Hmp)
    by by rewrite Ha.
  assert (dir_of mma s2 = dir_of mma s) as Hd by (unfold dir_of; rewrite Hmp, Hmaps; done).
  assert (∀ k, slot st (if st then V - 1 else V + 1) k = slot st V (k + 1)) as Hslot
    by (intros k; unfold slot; destruct st; lia).
  assert (∀ p, page_to_addr p (mpa s2) = page_to_addr p (mpa s)) as Haddr by (intros p; rewrite Hpa; apply set_virt_addr).
  destruct (IH s2 (if st then V - 1 else V + 1)) as (s' & E & H' & Hmaps' & Ha' & Hoth' & Hadr' & Hv' & Hvo' & Hx').
  - rewrite Hd, Hw. exact Hm1.
  - by rewrite Hpr.
  - rewrite Ha. unfold add_pages. cbn [m_pages]. apply u32_range.
  - rewrite Ha. unfold edge, add_pages. cbn [m_flags m_start m_end]. fold st.
    unfold edge in He. fold st in He. unfold PAGE_SIZE. destruct st; lia.
  - unfold slot in Hs0. destruct st; [specialize (Hst eq_refl)|]; lia.
  - destruct st; lia.
  - rewrite Hfl. fold st. intros Est. rewrite Est. specialize (Hst Est). lia.
  - intros p Hp'. rewrite Haddr. apply Hfr. by right.
  - done.
  - rewrite Hfl in Hv', Hx'. fold st in Hv', Hx'. setoid_rewrite Hslot in Hv'. setoid_rewrite Hslot in Hx'.
    rewrite Hd in H', Hx'. rewrite Hpr in Hx'. exists s'. split; [done|]. split; [done|].
    split; [by rewrite Hmaps', Hmaps|]. split; [rewrite Ha', Ha, add_pages_add; f_equal; lia|].
    split; [intros b Hb; rewrite Hoth', Hoth by done; done|].
    split; [intros p; by rewrite Hadr', Haddr|]. split; [|split].
    + intros [|k] p; cbn [lookup list_lookup]; [intros [= <-]|intros Hk].
      * rewrite Hvo' by done. rewrite Hpa. by apply set_virt_same.
      * rewrite (Hv' k p Hk). do 2 f_equal. lia.
    + intros p Hp'. apply not_elem_of_cons in Hp' as [Hne Hp']. rewrite Hvo', Hpa by done. by apply set_virt_other.
    + intros x Hx. destruct (Hx' x Hx) as [Hin Hout]. rewrite Hw in Hout.
      specialize (Hpte1 x Hx). rewrite Z.div_mul in Hpte1 by lia. change (mwords s1) with (map_page (dir_of mma s)
        (slot st V 0 * 4096) (page_to_addr (z, i) (mpa s)) (m_prot a) (mwords s)) in Hout.
      split.
      * intros [|k] p; cbn [lookup list_lookup]; [intros [= <-] Ex|intros Hk Ex].
        -- rewrite Hout, Hpte1, decide_True by (done || (intros k _; rewrite Ex; unfold slot; destruct st; lia)). done.
        -- rewrite (Hin k p Hk), Haddr; [done|]. rewrite Ex. f_equal. lia.
      * intros Hno. rewrite Hout, Hpte1, decide_False; [done| |].
        -- apply (Hno 0%nat). lia.
        -- intros k Hk. replace (Z.of_nat k + 1) with (Z.of_nat (S k)) by lia. apply Hno. lia.
Qed.

(** ** What keeps the mappings *)

Lemma unmap_loop_maps fuel tmp mma r s s' : unmap_loop fuel tmp mma r s = Ok s' → maps s' = maps s.
Proof.
  revert tmp s. induction fuel as [|f IH]; intros tmp s; cbn [unmap_loop]; [done|].
  case_decide as Hd; [by intros [= ->]|]. destruct tmp; try done. intros H. apply IH in H. rewrite H. by destruct r.
Qed.

Lemma mem_area_unmap_maps fuel mma s s' : mem_area_unmap fuel mma s = Ok s' → maps s' = maps s.
Proof.
  unfold mem_area_unmap. intros H. bind_inv H as org Ho. bind_inv H as s1 H1. bind_inv H as c Hc.
  injection H as <-. by apply unmap_loop_maps in H1.
Qed.

Lemma mem_area_kill_maps fuel mma s s' : mem_area_kill fuel mma s = Ok s' → maps s' = maps s.
Proof.
  unfold mem_area_kill. destruct (has _ _); [done|]. intros H. bind_inv H as s1 H1. bind_inv H as c Hc.
  injection H as <-. cbn. destruct (klist0_empty _ _); [by injection H1 as <-|].
  bind_inv H1 as s2 H2. apply unmap_loop_maps in H2. rewrite <- H2.
  destruct (has _ _); [destruct (next _)|]; try done; bind_inv H1 as p Hp; by injection H1 as <-.
Qed.

Lemma mem_area_put_maps fuel mma s s' : mem_area_put fuel mma s = Ok s' → maps s' = maps s.
Proof.
  unfold mem_area_put. intros H. bind_inv H as org Ho. cbv zeta in H. case_decide as Hd.
  - by apply mem_area_kill_maps in H.
  - by apply mem_area_unmap_maps in H.
Qed.

(** ** Properties *)

(** [mma_map_pages] with [add] puts the pages of the list of an area behind
    each other, upwards from its end or, for a stack, downwards from its start:
    page number [k] gets the [k]-th virtual page, every address in it translates
    into the page with the protection of the area, no other translation changes,
    and the bounds and the page count of the area grow by the pages added. *)
Theorem mma_map_pages_maps fuel mma s pages V :
  let a := mmas s mma in
  let st := has MMA_STACK (m_flags a) in
  let n := Z.of_nat (length pages) in
  has MMA_CLONE (m_flags a) = false →
  klist0_for_each fuel (lists (mpa s)) (Ext mma) = Some (area_node <$> pages) →
  map_ok (mwords s) (dir_of mma s) → 0 ≤ m_prot a < 4096 → is_u32 (m_pages a) → edge a = V * 4096 → 0 ≤ V →
  V + n < 2 ^ 20 → (st = true → n ≤ V) → frames pages (mpa s) → NoDup pages →
  ∃ s', mma_map_pages fuel mma true s = Ok s' ∧ mmas s' mma = add_pages n a ∧
    map_ok (mwords s') (dir_of mma s) ∧
    (∀ k q, pages !! k = Some q → virt (page_at (mpa s') q) = slot st V (Z.of_nat k) * 4096) ∧
    ∀ x, is_u32 x →
      (∀ k q, pages !! k = Some q → x / 4096 = slot st V (Z.of_nat k) →
         __virt2phys (dir_of mma s) (mwords s') x = page_to_addr q (mpa s') + x `mod` 4096 ∧
         PE_FLAGS (pte (mwords s') (dir_of mma s) x) = Z.lor 5 (m_prot a)) ∧
      ((∀ k, (k < length pages)%nat → x / 4096 ≠ slot st V (Z.of_nat k)) →
         __virt2phys (dir_of mma s) (mwords s') x = __virt2phys (dir_of mma s) (mwords s) x).
Proof.
  intros a st n Hcl Hl Hm Hp Hpg He HV0 HV Hst Hfr Hnd.
  destruct (map_nodes_spec pages mma s V Hm Hp Hpg He HV0 HV Hst Hfr Hnd)
    as (s' & E & H' & _ & Ha & _ & Hadr & Hv & _ & Hx).
  exists s'. unfold mma_map_pages. destruct fuel as [|f]; [done|]. cbn [mma_original]. fold a. rewrite Hcl.
  cbn [mbind outcome_bind]. unfold walk. rewrite Hl. cbn [mbind outcome_bind]. split_and!; try done.
  intros x Hxr. destruct (Hx x Hxr) as [Hin Hout]. rewrite !virt2phys_map by done. split.
  - intros k q Hk Ex. rewrite (Hin k q Hk Ex), Hadr.
    destruct (Hfr q) as (P & -> & HP); [by eapply list_elem_of_lookup_2|].
    destruct (user_pte_page P (m_prot a) Hp HP) as (_ & E1 & E2). subst a. by rewrite E1, E2.
  - intros Hno. by rewrite Hout.
Qed.


(** C11: [sbrk] moves the limit of the heap by the increment and answers the new
    end of the heap, and refuses without any change to go past the limit; the
    limit never exceeds [USERMEM_HEAPLIM]. *)
Theorem sbrk_bounded inc map s :
  let h := m_mma (maps s map) 3 in
  let a := mmas s h in
  is_u32 inc → m_sizelim a ≤ USERMEM_HEAPLIM → m_start a + USERMEM_HEAPLIM < 2 ^ 32 → 0 ≤ m_start a →
  let lim := u32 (m_sizelim a + inc) in
  let '(r, s') := sbrk inc map s in
  m_sizelim (mmas s' h) ≤ USERMEM_HEAPLIM ∧
  (lim ≤ USERMEM_HEAPLIM → r = m_start a + lim ∧ m_sizelim (mmas s' h) = lim) ∧
  (USERMEM_HEAPLIM < lim → r = 2 ^ 32 - 1 ∧ s' = s).
Proof.
  intros h a Hi Hl Hs Hs0 lim. unfold sbrk. fold h. cbv zeta. fold a. fold lim.
  pose proof (u32_range (m_sizelim a + inc)) as Hr. fold lim in Hr. unfold is_u32 in Hr.
  case_decide as Hd; cbn [mmas set_mma]; [|split; [done|]; split; [lia|done]].
  rewrite decide_True by done. cbn [m_sizelim]. split; [done|]. split; [|lia]. intros _. split; [|done].
  apply u32_small. unfold is_u32. lia.
Qed.

(** *** Instances *)

(** Two pages of the sixteen-page zone, linked as an area at 16 MB that is
    mapped by the tables of [flat_words]. *)
Definition area2 : ms :=
  Ms (Sl (with_lists (λ h, klist0_append (Area 0 3) (Ext 1) (klist0_append (Area 0 4) (Ext 1) (KLIST0_INIT (Ext 1) h))) zone16)
         empty_heap (λ _ _, 0) (λ _, SlicePool 40 0))
     flat_words (λ _, 0) (λ _, Mapping (2 ^ 22) (2 ^ 23) (λ _, 1) 1)
     (λ _, Mma (2 ^ 24) (2 ^ 24) 0x1000 0 1 2 MMA_RW 0 1) 0.

Lemma mma_map_pages_maps_witness :
  ∃ s', mma_map_pages 5 1 true area2 = Ok s' ∧
    __virt2phys (2 ^ 22) (mwords s') (2 ^ 24 + 4096 + 5) = page_to_addr (0, 4) (mpa s') + 5.
Proof.
  destruct (mma_map_pages_maps 5 1 area2 [(0, 3); (0, 4)] 4096) as (s' & E & _ & _ & _ & Hx).
  - reflexivity.
  - vm_compute. reflexivity.
  - exact flat_ok.
  - simpl. lia.
  - unfold is_u32. simpl. lia.
  - reflexivity.
  - lia.
  - simpl. lia.
  - done.
  - intros q Hq. exists (match q with (_, i) => 256 + i end).
    apply elem_of_cons in Hq as [->|Hq%list_elem_of_singleton]; [split; [vm_compute; reflexivity|lia]|subst q].
    split; [vm_compute; reflexivity|lia].
  - repeat constructor; set_solver.
  - exists s'. split; [exact E|]. destruct (Hx (2 ^ 24 + 4096 + 5)) as [Hin _]; [unfold is_u32; lia|].
    destruct (Hin 1%nat (0, 4)) as [Ht _]; [reflexivity|reflexivity|]. exact Ht.
Defined.


Lemma sbrk_bounded_witness : fst (sbrk 0x2000 1 area2) = 2 ^ 24 + 0x3000.
Proof.
  pose proof (sbrk_bounded 0x2000 1 area2) as H. destruct (sbrk 0x2000 1 area2) as [r s'] eqn:E.
  destruct H as (_ & H & _); [unfold is_u32; lia|vm_compute; congruence..|].
  destruct H as [-> _]; [vm_compute; congruence|]. reflexivity.
Defined.

(** *** Defects *)

(** [brk] hands the distance of the wanted end to [sbrk] as an increment: asking
    twice for the same end moves the end twice. *)
Example brk_moves_twice :
  let '(r1, s1) := brk (2 ^ 24 + 0x4000) 1 area2 in
  let '(r2, s2) := brk (2 ^ 24 + 0x4000) 1 s1 in
  r1 = 2 ^ 24 + 0x5000 ∧ r2 = 2 ^ 24 + 0x9000.
Proof. vm_compute. done. Qed.

(** A clone counts the pages of its original twice, and unmapping it walks off
    the end of the list of the original. *)
Definition clone2 : ms :=
  set_mma 1 (Mma (2 ^ 24) (2 ^ 24 + 0x2000) 0 2 2 2 MMA_RW 0 1)
    (set_mma 2 (Mma (2 ^ 24) (2 ^ 24) 0 2 1 2 (Z.lor MMA_RW MMA_CLONE) 1 2) area2).
Example clone_counts_twice :
  (λ s, m_pages (mmas s 2)) <$> mma_map_pages 5 2 true clone2 = Ok 4 ∧ mem_area_put 9 2 clone2 = Fault.
Proof. split; vm_compute; reflexivity. Qed.
