(* ===== verification/Zones.v ===== *)
(** * The memory zones at boot (kernel/mm_zone.c, arch/i386/bootmem_zone.c)

    How the physical memory behind the kernel is divided into the zone of the
    kernel and the zone of the user pages, and the order in which the memory
    management is set up.  [kernel_end] is the end of the kernel image, on a
    page boundary by its linker script; [mem_upper] is the memory above 1 MB in
    KB, as the boot loader tells it. *)

From S2P Require Import Prelude KList Bitmap Klib Buddy PageAlloc Slice Paging MemArea.

(* include/i386/memory.h:25-25 KERN_ALLOWANCE *)
Definition KERN_ALLOWANCE : Z := 8.

(** [phys_mem] and [phys_pgs] with the allocator. *)
(* arch/i386/bootmem_zone.c:33-60 arch_init_boot_zone *)
Definition arch_init_boot_zone (kernel_end mem_upper : Z) (s : pa) : Z * Z * pa :=
  let phys_mem := u32 (mem_upper * 1024) in
  let total_mem := u32 (phys_mem - u32 (kernel_end - 0x100000)) in
  let phys_mem := u32 (phys_mem + 0x100000) in
  let boot_pages := total_mem / PAGE_SIZE / KERN_ALLOWANCE in
  let phys_pgs := phys_mem / PAGE_SIZE in
  let s := mem_zone_init ZONE_BOOT (set_zone ZONE_BOOT (MemZone kernel_end boot_pages (free_pages_count (zones s ZONE_BOOT))) s) in
  let b := zones s ZONE_BOOT in
  let user := MemZone (u32 (base b + total_pages b * PAGE_SIZE)) (u32 (total_mem / PAGE_SIZE - total_pages b))
                (free_pages_count (zones s ZONE_USER)) in
  (phys_mem, phys_pgs, mem_zone_init ZONE_USER (set_zone ZONE_USER user s)).

Definition all_zones : list Z := [ZONE_BOOT; ZONE_USER; ZONE_VMAP].

(* kernel/mm_zone.c:36-52 init_mem_info *)
Definition init_mem_info (kernel_end mem_upper : Z) (s : ms) : outcome (Z * Z * ms) :=
  let p := with_lists (KLIST0_INIT MemoryInfo) (mpa s) in
  let p := foldl (λ p z, with_lists (KLIST0_INIT (Zone z)) p) p all_zones in
  let '(phys_mem, phys_pgs, p) := arch_init_boot_zone kernel_end mem_upper p in
  let s := with_msl (slice_init (with_src p (msl s))) s in
  let p := foldl (λ p z, with_lists (klist0_append (Zone z) MemoryInfo) p) (mpa s) all_zones in
  s ← mma_init (with_mpa p s);
  Ok (phys_mem, phys_pgs, s).

(** ** The division *)

(** What setting up a zone leaves of the sizes and bases. *)
Lemma mem_zone_init_zones z s y :
  base (zones (mem_zone_init z s) y) = base (zones s y) ∧ total_pages (zones (mem_zone_init z s) y) = total_pages (zones s y).
Proof.
  assert (∀ n i s, zones (init_pages n z i s) = zones s) as H1 by (induction n as [|n IH]; intros i t; cbn [init_pages]; [done|by rewrite IH]).
  assert (∀ n i s, zones (init_levels n z i s) = zones s) as H2 by (induction n as [|n IH]; intros i t; cbn [init_levels]; [done|by rewrite IH]).
  assert (∀ n i s, zones (insert_piles n z i s) = zones s) as H3.
  { induction n as [|n IH]; intros i t; cbn [insert_piles]; [done|]. case_decide; [by rewrite IH|done]. }
  unfold mem_zone_init. cbn [zones with_lists]. rewrite H3. cbn [zones set_zone with_lists]. rewrite H2, H1.
  destruct (decide (y = z)) as [->|]; done.
Qed.
Lemma set_zone_same z v s : zones (set_zone z v s) z = v.
Proof. cbn. by rewrite decide_True. Qed.
Lemma set_zone_other z y v s : y ≠ z → zones (set_zone z v s) y = zones s y.
Proof. intros H. cbn. by rewrite decide_False. Qed.

(** The two zones divide the memory behind the kernel: that of the kernel
    starts at its end and has an eighth of the pages, that of the users follows
    without a gap, both start on page boundaries, and less than a page at the
    end of the memory is left over. *)
Theorem zones_divide_memory kernel_end mem_upper s :
  0 ≤ mem_upper → mem_upper * 1024 + 0x100000 < 2 ^ 32 → 0x100000 ≤ kernel_end ≤ mem_upper * 1024 + 0x100000 → (PAGE_SIZE | kernel_end) →
  let '(phys_mem, phys_pgs, s') := arch_init_boot_zone kernel_end mem_upper s in
  let b := zones s' ZONE_BOOT in
  let u := zones s' ZONE_USER in
  base b = kernel_end ∧ base u = base b + total_pages b * PAGE_SIZE ∧ (PAGE_SIZE | base u) ∧
  base u + total_pages u * PAGE_SIZE ≤ phys_mem < base u + total_pages u * PAGE_SIZE + PAGE_SIZE ∧
  total_pages b = (total_pages b + total_pages u) / KERN_ALLOWANCE ∧ phys_pgs = phys_mem / PAGE_SIZE.
Proof.
  intros H0 H1 H2 H3. unfold arch_init_boot_zone. set (s1 := mem_zone_init ZONE_BOOT _).
  assert (u32 (mem_upper * 1024) = mem_upper * 1024) as -> by (apply u32_small; unfold is_u32; lia).
  assert (u32 (mem_upper * 1024 + 0x100000) = mem_upper * 1024 + 0x100000) as -> by (apply u32_small; unfold is_u32; lia).
  assert (u32 (mem_upper * 1024 - u32 (kernel_end - 0x100000)) = mem_upper * 1024 + 0x100000 - kernel_end) as Et.
  { rewrite (u32_small (kernel_end - 0x100000)) by (unfold is_u32; lia). rewrite u32_small; [lia|unfold is_u32; lia]. }
  rewrite Et. set (n := (mem_upper * 1024 + 0x100000 - kernel_end) / PAGE_SIZE) in *.
  assert (base (zones s1 ZONE_BOOT) = kernel_end ∧ total_pages (zones s1 ZONE_BOOT) = n / KERN_ALLOWANCE) as [Eb Ep].
  { unfold s1. destruct (mem_zone_init_zones ZONE_BOOT (set_zone ZONE_BOOT
      (MemZone kernel_end (u32 (u32 (mem_upper * 1024) - u32 (kernel_end - 0x100000)) / PAGE_SIZE / KERN_ALLOWANCE)
         (free_pages_count (zones s ZONE_BOOT))) s) ZONE_BOOT) as [-> ->].
    rewrite set_zone_same. cbn [base total_pages]. rewrite (u32_small (mem_upper * 1024)) by (unfold is_u32; lia). by rewrite Et. }
  cbv zeta. set (u := MemZone _ _ _). destruct (mem_zone_init_zones ZONE_USER (set_zone ZONE_USER u s1) ZONE_BOOT) as [-> ->].
  destruct (mem_zone_init_zones ZONE_USER (set_zone ZONE_USER u s1) ZONE_USER) as [-> ->].
  rewrite set_zone_other, set_zone_same by done. unfold u. cbn [base total_pages]. rewrite Eb, Ep.
  assert (0 ≤ n ∧ n * 4096 ≤ mem_upper * 1024 + 0x100000 - kernel_end < n * 4096 + 4096) as [Hn Hn2].
  { unfold n, PAGE_SIZE. pose proof (Z_div_mod_eq_full (mem_upper * 1024 + 0x100000 - kernel_end) 4096).
    pose proof (Z.mod_pos_bound (mem_upper * 1024 + 0x100000 - kernel_end) 4096). lia. }
  assert (0 ≤ n / KERN_ALLOWANCE ≤ n) as Hk.
  { unfold KERN_ALLOWANCE. split; [apply Z.div_pos; lia|]. apply Z.div_le_upper_bound; lia. }
  unfold PAGE_SIZE in *. rewrite !u32_small by (unfold is_u32; lia). split_and!; try (done || lia).
  - apply Z.divide_add_r; [done|]. apply Z.divide_factor_r.
  - f_equal. lia.
Qed.

(** Sixteen MB of memory with a kernel of one MB. *)
Lemma zones_divide_memory_witness :
  let '(phys_mem, phys_pgs, s') := arch_init_boot_zone 0x200000 15360 boot16 in
  phys_pgs = 4096 ∧ base (zones s' ZONE_USER) = 0x200000 + total_pages (zones s' ZONE_BOOT) * PAGE_SIZE.
Proof.
  pose proof (zones_divide_memory 0x200000 15360 boot16 ltac:(lia) ltac:(lia) ltac:(lia) ltac:(exists 512; reflexivity)) as H.
  unfold arch_init_boot_zone in *. cbv zeta in *. destruct H as (Hb & Hu & _ & _ & _ & _). split; [reflexivity|].
  rewrite Hu, Hb. reflexivity.
Defined.

(** ** The list of zones *)

Lemma append_next (n l : node) h m :
  n ≠ l → next (klist0_append n l h m) = if decide (m = l) then n else if decide (m = n) then next (h l) else next (h m).
Proof.
  intros Hne. unfold klist0_append, set_next, set_prev. cbn [next prev]. repeat (case_decide; cbn [next prev]; try congruence).
Qed.

(** The last loop of [init_mem_info] links zones that [mem_zone_init] has put
    on the list of [global_mem_info] into the one of [memory_info]; the first
    list then leads into the second and never back. *)
Lemma zones_linked_twice (h : heap node) :
  next (h MemoryInfo) = MemoryInfo → next (h GlobalInfo) = Zone ZONE_USER →
  let h' := foldl (λ h z, klist0_append (Zone z) MemoryInfo h) h all_zones in
  next (h' GlobalInfo) = Zone ZONE_USER ∧ next (h' (Zone ZONE_USER)) = Zone ZONE_BOOT ∧
  next (h' (Zone ZONE_BOOT)) = MemoryInfo ∧ next (h' MemoryInfo) = Zone ZONE_VMAP ∧ next (h' (Zone ZONE_VMAP)) = Zone ZONE_USER.
Proof.
  intros H1 H2. cbn [foldl all_zones]. unfold ZONE_BOOT, ZONE_USER, ZONE_VMAP in *.
  repeat (rewrite append_next by done; repeat (rewrite decide_True by done || rewrite decide_False by done)).
  by rewrite H1.
Qed.

(** From the head of the first list a walk goes through the zones and comes to
    the head of the second, which [addr_to_page] takes for a zone; an address
    in no zone does not get the answer NULL. *)
Lemma addr_to_page_lost fuel addr s :
  next (lists s GlobalInfo) = Zone ZONE_USER → next (lists s (Zone ZONE_USER)) = Zone ZONE_BOOT →
  next (lists s (Zone ZONE_BOOT)) = MemoryInfo →
  (∀ z, z ∈ [ZONE_BOOT; ZONE_USER] → ¬ (base (zones s z) < addr ∧ addr < u32 (base (zones s z) + u32 (total_pages (zones s z) * PAGE_SIZE)))) →
  addr_to_page (S (S (S fuel))) addr s = Fault.
Proof.
  intros H1 H2 H3 Hz. unfold addr_to_page. rewrite H1. cbn [zone_walk].
  rewrite decide_False by (apply Hz; set_solver). rewrite H2. cbn [zone_walk].
  rewrite decide_False by (apply Hz; set_solver). by rewrite H3.
Qed.
