(* ===== verification/Sched.v ===== *)
(** * Threads and the trivial scheduler (include/thread.h, kernel/thread_queue.c,
      kernel/sched0.c, kernel/scheduler.c, include/i386/spinlock.h,
      include/mutex.h, kernel/thread.c)

    Thread queues are klist0 lists of the [krunq] nodes of threads.  The state
    also has the counters of the debugging spinlocks, the interrupt flag, the
    thread that runs and what the tick handler left for the return from the
    interrupt.  [debug] is OPT_DEBUG_SPINLOCKS.

    [tinv s Q] says that the queues hold the lists [Q]; under it the operations
    are operations on lists, [sched0] is round robin, and a mutex has at most
    one holder. *)

From S2P Require Import Prelude KList.

(* include/scheduler.h:28-29 SCHED_MAX_QUANTUM *)
Definition SCHED_MAX_QUANTUM : Z := 100.
Definition SCHED_MIN_QUANTUM : Z := 1.
(* include/thread.h:31-32 MAX_THREADS *)
Definition MAX_THREADS : Z := 128.
Definition THREAD_NAME_LEN : Z := 32.
(* include/thread.h:35-38 THREAD_RUNNABLE *)
Definition THREAD_RUNNABLE : Z := 0x1.
Definition THREAD_NEW : Z := 0x2.
Definition THREAD_ILL : Z := 0x4.
Definition THREAD_WAIT : Z := 0x8.

(** The list nodes: the heads of the thread queues, the [krunq] nodes of the
    threads, the head of the list of all threads and their [kthreads] nodes. *)
Inductive tnode := TQ (q : Z) | Run (t : Z) | ThreadList | Kt (t : Z).
#[global] Instance tnode_eq_dec : EqDecision tnode.
Proof. solve_decision. Defined.

(* include/thread.h:48-74 thread *)
Record thread := Thread { krunq_head : option Z; quantum : Z; last_tick : Z; pid : Z; tstate : Z }.

(** [&rq.queue] and the lock of [&thread_list] among the queues. *)
Definition RQ : Z := 0.
Definition THREAD_LIST : Z := 1.

Record sched := Sched {
  hp : heap tnode; threads : Z → thread; counter : Z → Z; irqs : bool; current : Z;
  need_reschedule : bool; next_thread : option Z; jiffies : Z }.

Definition with_hp (f : heap tnode → heap tnode) (s : sched) : sched :=
  Sched (f (hp s)) (threads s) (counter s) (irqs s) (current s) (need_reschedule s) (next_thread s) (jiffies s).
Definition with_thread (t : Z) (f : thread → thread) (s : sched) : sched :=
  Sched (hp s) (λ u, if decide (u = t) then f (threads s u) else threads s u) (counter s) (irqs s) (current s)
        (need_reschedule s) (next_thread s) (jiffies s).
Definition with_counter (q c : Z) (s : sched) : sched :=
  Sched (hp s) (threads s) (λ r, if decide (r = q) then c else counter s r) (irqs s) (current s)
        (need_reschedule s) (next_thread s) (jiffies s).
Definition with_irqs (b : bool) (s : sched) : sched :=
  Sched (hp s) (threads s) (counter s) b (current s) (need_reschedule s) (next_thread s) (jiffies s).
Definition with_current (t : Z) (s : sched) : sched :=
  Sched (hp s) (threads s) (counter s) (irqs s) t (need_reschedule s) (next_thread s) (jiffies s).
Definition with_next (t : Z) (s : sched) : sched :=
  Sched (hp s) (threads s) (counter s) (irqs s) (current s) true (Some t) (jiffies s).
Definition set_head (h : option Z) (t : thread) : thread := Thread h (quantum t) (last_tick t) (pid t) (tstate t).
Definition set_quantum (q : Z) (t : thread) : thread := Thread (krunq_head t) q (last_tick t) (pid t) (tstate t).
Definition set_tick (j : Z) (t : thread) : thread := Thread (krunq_head t) (quantum t) j (pid t) (tstate t).

Section sched.
Context (debug : bool).
Implicit Types (t q : Z).

(** ** Spinlocks on a uniprocessor *)

(* include/i386/spinlock.h:47-47 spinlock_init *)
Definition spinlock_init q : M sched unit :=
  if debug then modify (with_counter q 0) else mret tt.

(* include/i386/spinlock.h:49-53 spin_lock *)
Definition spin_lock q : M sched unit :=
  if debug then
    c ← gets (λ s, counter s q);
    _ ← bug_on (bool_decide (c ≠ 0));
    modify (with_counter q (c + 1))
  else mret tt.

(* include/i386/spinlock.h:55-59 spin_unlock *)
Definition spin_unlock q : M sched unit :=
  if debug then
    c ← gets (λ s, counter s q);
    _ ← bug_on (bool_decide (c ≠ 1));
    modify (with_counter q (c - 1))
  else mret tt.

(* include/i386/spinlock.h:61-70 spin_trylock *)
Definition spin_trylock_debug q : M sched bool :=
  c ← gets (λ s, counter s q);
  _ ← bug_on (bool_decide (c ≠ 0 ∧ c ≠ 1));
  if decide (c ≠ 0) then mret false
  else _ ← modify (with_counter q (c + 1)); mret true.

(* include/i386/spinlock.h:87-90 spin_trylock *)
Definition spin_trylock q : M sched bool :=
  if debug then spin_trylock_debug q else mret true.

(* include/i386/irq.h:30-33 local_irq_save *)
Definition local_irq_save : M sched bool :=
  f ← gets irqs; _ ← modify (with_irqs false); mret f.
(* include/i386/irq.h:35-37 local_irq_restore *)
Definition local_irq_restore (flags : bool) : M sched unit := modify (with_irqs flags).

(* include/spinlock.h:29-32 spin_lock_irqsave *)
Definition spin_lock_irqsave q : M sched bool :=
  f ← local_irq_save; _ ← spin_lock q; mret f.
(* include/spinlock.h:34-37 spin_unlock_irqrestore *)
Definition spin_unlock_irqrestore q (flags : bool) : M sched unit :=
  _ ← spin_unlock q; local_irq_restore flags.
(* include/spinlock.h:40-47 spin_trylock_irqsave *)
Definition spin_trylock_irqsave q : M sched bool :=
  f ← local_irq_save;
  b ← spin_trylock q;
  if (b : bool) then _ ← local_irq_restore f; mret true else mret false.

(** ** Thread queues *)

(* include/thread.h:76-80 tq_init *)
Definition tq_init q : M sched unit :=
  _ ← modify (with_hp (KLIST0_INIT (TQ q))); spinlock_init q.

(* include/thread.h:82-86 tq_is_empty *)
Definition tq_is_empty q : M sched bool := gets (λ s, klist0_empty (TQ q) (hp s)).

(* include/thread.h:91-98 __tq_insert_head *)
Definition __tq_insert_head t q : M sched unit :=
  e ← gets (λ s, klist0_empty (Run t) (hp s));
  _ ← bug_on (negb e);
  b ← spin_trylock q;
  _ ← bug_on b;
  _ ← modify (with_hp (klist0_append (Run t) (TQ q)));
  modify (with_thread t (set_head (Some q))).

(* include/thread.h:103-110 __tq_insert_tail *)
Definition __tq_insert_tail t q : M sched unit :=
  e ← gets (λ s, klist0_empty (Run t) (hp s));
  _ ← bug_on (negb e);
  b ← spin_trylock q;
  _ ← bug_on b;
  _ ← modify (with_hp (klist0_prepend (Run t) (TQ q)));
  modify (with_thread t (set_head (Some q))).

(* include/thread.h:115-122 __tq_remove_thread *)
Definition __tq_remove_thread t : M sched unit :=
  h ← gets (λ s, krunq_head (threads s t));
  _ ← bug_on (bool_decide (h = None));
  e ← gets (λ s, klist0_empty (Run t) (hp s));
  _ ← bug_on e;
  _ ← modify (with_hp (klist0_unlink (Run t)));
  modify (with_thread t (set_head None)).

(** The thread of a [krunq] node. *)
Definition thread_of (n : tnode) : M sched Z := match n with Run t => mret t | _ => fault end.

(* include/thread.h:127-137 __tq_remove_head *)
Definition __tq_remove_head q : M sched (option Z) :=
  e ← gets (λ s, klist0_empty (TQ q) (hp s));
  if (e : bool) then mret None
  else
    n ← gets (λ s, next (hp s (TQ q)));
    t ← thread_of n;
    _ ← __tq_remove_thread t;
    mret (Some t).

(* include/thread.h:142-152 __tq_remove_tail *)
Definition __tq_remove_tail q : M sched (option Z) :=
  e ← gets (λ s, klist0_empty (TQ q) (hp s));
  if (e : bool) then mret None
  else
    n ← gets (λ s, prev (hp s (TQ q)));
    t ← thread_of n;
    _ ← __tq_remove_thread t;
    mret (Some t).

(* kernel/thread_queue.c:30-37 tq_insert_head *)
Definition tq_insert_head t q : M sched unit :=
  f ← spin_lock_irqsave q; _ ← __tq_insert_head t q; spin_unlock_irqrestore q f.

(* kernel/thread_queue.c:42-49 tq_insert_tail *)
Definition tq_insert_tail t q : M sched unit :=
  f ← spin_lock_irqsave q; _ ← __tq_insert_tail t q; spin_unlock_irqrestore q f.

(* kernel/thread_queue.c:51-61 tq_remove_head *)
Definition tq_remove_head q : M sched (option Z) :=
  f ← spin_lock_irqsave q; t ← __tq_remove_head q; _ ← spin_unlock_irqrestore q f; mret t.

(* kernel/thread_queue.c:63-73 tq_remove_tail *)
Definition tq_remove_tail q : M sched (option Z) :=
  f ← spin_lock_irqsave q; t ← __tq_remove_tail q; _ ← spin_unlock_irqrestore q f; mret t.

(** The common shape of the four transfers. *)
Definition tq_transfer (take : Z → M sched (option Z)) (give : Z → Z → M sched unit) (from_q to_q : Z) : M sched bool :=
  f ← local_irq_save;
  _ ← spin_lock from_q;
  t ← take from_q;
  _ ← spin_unlock from_q;
  match t with
  | Some t =>
      _ ← spin_lock to_q;
      _ ← give t to_q;
      _ ← spin_unlock to_q;
      _ ← local_irq_restore f;
      mret true
  | None => _ ← local_irq_restore f; mret false
  end.

(* kernel/thread_queue.c:78-99 tq_transfer_head_to_head *)
Definition tq_transfer_head_to_head : Z → Z → M sched bool := tq_transfer __tq_remove_head __tq_insert_head.
(* kernel/thread_queue.c:104-124 tq_transfer_head_to_tail *)
Definition tq_transfer_head_to_tail : Z → Z → M sched bool := tq_transfer __tq_remove_head __tq_insert_tail.
(* kernel/thread_queue.c:129-149 tq_transfer_tail_to_head *)
Definition tq_transfer_tail_to_head : Z → Z → M sched bool := tq_transfer __tq_remove_tail __tq_insert_head.
(* kernel/thread_queue.c:153-173 tq_transfer_tail_to_tail *)
Definition tq_transfer_tail_to_tail : Z → Z → M sched bool := tq_transfer __tq_remove_tail __tq_insert_tail.

(** ** The scheduler *)

(* kernel/sched0.c:40-62 sched0_enqueue *)
Definition sched0_enqueue (from_q : Z) : M sched bool :=
  f ← local_irq_save;
  _ ← spin_lock from_q;
  t ← __tq_remove_head from_q;
  _ ← spin_unlock from_q;
  match t with
  | Some t =>
      _ ← modify (with_thread t (set_quantum SCHED_MAX_QUANTUM));
      _ ← spin_lock RQ;
      _ ← __tq_insert_head t RQ;
      _ ← spin_unlock RQ;
      _ ← local_irq_restore f;
      mret true
  | None => _ ← local_irq_restore f; mret false
  end.

(** Taking the first thread of the run queue to its end; bug() when there is
    none. *)
Definition rotate : M sched Z :=
  next ← __tq_remove_head RQ;
  match next with
  | None => bug
  | Some next => _ ← __tq_insert_tail next RQ; mret next
  end.

(* kernel/sched0.c:64-90 sched0_dequeue *)
Definition sched0_dequeue (to_q : Z) : M sched unit :=
  f ← local_irq_save;
  cur ← gets current;
  h ← gets (λ s, krunq_head (threads s cur));
  _ ← bug_on (bool_decide (h ≠ Some RQ));
  _ ← spin_lock RQ;
  _ ← __tq_remove_thread cur;
  _ ← rotate;
  _ ← spin_unlock RQ;
  _ ← modify (with_thread cur (set_quantum SCHED_MAX_QUANTUM));
  j ← gets jiffies;
  _ ← modify (with_thread cur (set_tick j));
  _ ← spin_lock to_q;
  _ ← __tq_insert_tail cur to_q;
  _ ← spin_unlock to_q;
  local_irq_restore f.

(* kernel/sched0.c:93-116 sched0_tick *)
Definition sched0_tick : M sched unit :=
  prev ← gets current;
  e ← tq_is_empty RQ;
  _ ← bug_on e;
  _ ← modify (with_thread prev (λ th, set_quantum (u32 (quantum th - 1)) th));
  q ← gets (λ s, quantum (threads s prev));
  _ ← (if decide (q = 0) then
         _ ← modify (with_thread prev (set_quantum SCHED_MAX_QUANTUM));
         _ ← spin_lock RQ;
         next ← rotate;
         _ ← spin_unlock RQ;
         if decide (prev ≠ next) then modify (with_next next) else mret tt
       else mret tt);
  j ← gets jiffies;
  modify (with_thread prev (set_tick j)).

(** [thread_switch_context(prev, next)]: [next] runs. *)
Definition thread_switch_context (prev next : Z) : M sched unit := modify (with_current next).

(* kernel/sched0.c:118-135 sched0_yield *)
Definition sched0_yield : M sched unit :=
  prev ← gets current;
  j ← gets jiffies;
  _ ← modify (with_thread prev (λ th, set_tick j (set_quantum SCHED_MAX_QUANTUM th)));
  f ← spin_lock_irqsave RQ;
  next ← rotate;
  _ ← spin_unlock_irqrestore RQ f;
  thread_switch_context prev next.

(* kernel/sched0.c:137-139 sched0_schedule *)
Definition sched0_schedule : M sched unit := mret tt.
(* kernel/sched0.c:141-144 sched0_start *)
Definition sched0_start : M sched unit := mret tt.
(* kernel/sched0.c:146-148 sched0_stop *)
Definition sched0_stop : M sched unit := mret tt.
(* kernel/sched0.c:150-153 sched0_init *)
Definition sched0_init : M sched unit := tq_init RQ.
(* kernel/sched0.c:155-157 sched0_exit *)
Definition sched0_exit : M sched unit := mret tt.
End sched.

(* include/scheduler.h:36-47 cpu_scheduler *)
Record cpu_scheduler := CpuSched {
  cs_enqueue : option (Z → M sched bool); cs_dequeue : option (Z → M sched unit); cs_tick : option (M sched unit);
  cs_yield : option (M sched unit); cs_schedule : option (M sched unit); cs_start : option (M sched unit);
  cs_stop : option (M sched unit); cs_init : option (M sched unit); cs_exit : option (M sched unit) }.

(* kernel/sched0.c:159-170 sched0 *)
Definition sched0 (debug : bool) : cpu_scheduler :=
  CpuSched (Some (sched0_enqueue debug)) (Some (sched0_dequeue debug)) (Some (sched0_tick debug))
    (Some (sched0_yield debug)) (Some sched0_schedule) (Some sched0_start) (Some sched0_stop)
    (Some (sched0_init debug)) (Some sched0_exit).

(* kernel/scheduler.c:98-119 register_cpusched *)
Definition register_cpusched (sc : cpu_scheduler) (reg : option cpu_scheduler) (s : sched)
    : outcome (Z * option cpu_scheduler * sched) :=
  match sc with
  | CpuSched (Some _) (Some _) (Some _) (Some _) (Some _) (Some _) (Some _) (Some init) (Some _) =>
      '(_, s) ← init s; Ok (0, Some sc, s)
  | _ => Ok (- EINVAL, reg, s)
  end.

(** The calls through [reg_sched]; [bug_on] of a missing method, and a NULL
    [reg_sched] faults. *)
Definition through {A} (reg : option cpu_scheduler) (m : cpu_scheduler → option A) : outcome A :=
  match reg with
  | None => Fault
  | Some sc => match m sc with Some f => Ok f | None => Bug end
  end.

(* kernel/scheduler.c:121-125 scheduler_enqueue *)
Definition scheduler_enqueue (reg : option cpu_scheduler) (from_q : Z) : M sched bool :=
  f ← lift (through reg cs_enqueue); f from_q.
(* kernel/scheduler.c:130-135 scheduler_dequeue *)
Definition scheduler_dequeue (reg : option cpu_scheduler) (to_q : Z) : M sched unit :=
  f ← lift (through reg cs_dequeue); f to_q.
(* kernel/scheduler.c:137-142 scheduler_tick *)
Definition scheduler_tick (reg : option cpu_scheduler) : M sched unit :=
  f ← lift (through reg cs_tick); f.
(* kernel/scheduler.c:144-149 scheduler_yield *)
Definition scheduler_yield (reg : option cpu_scheduler) : M sched unit :=
  f ← lift (through reg cs_yield); f.
(* kernel/scheduler.c:151-156 schedule *)
Definition schedule (reg : option cpu_scheduler) : M sched unit :=
  f ← lift (through reg cs_schedule); f.

(** ** Queues as lists *)

Record tinv (s : sched) (Q : Z → list Z) : Prop := {
  ti_rep : ∃ L, rep (hp s) L ∧ (∀ q, L (TQ q) = Run <$> Q q) ∧ (∀ q, is_head L (TQ q)) ∧
             (∀ t, L (Run t) = []) ∧ (∀ t y, Run t ∈ L y → ∃ q, y = TQ q);
  ti_head t q : krunq_head (threads s t) = Some q ↔ t ∈ Q q;
}.

Lemma tinv_ext s s' Q :
  tinv s Q → hp s' = hp s → (∀ t, krunq_head (threads s' t) = krunq_head (threads s t)) → tinv s' Q.
Proof. intros [Hr Hh] E1 E2. split; [by rewrite E1|]. intros t q. by rewrite E2. Qed.

Lemma run_mem t (l : list Z) : Run t ∈ Run <$> l ↔ t ∈ l.
Proof. rewrite list_elem_of_fmap. split; [by intros (? & [= ->] & ?)|by eauto]. Qed.

Lemma tinv_uniq s Q t q r : tinv s Q → t ∈ Q q → t ∈ Q r → q = r.
Proof. intros H H1%(ti_head _ _ H) H2%(ti_head _ _ H). congruence. Qed.

Lemma tinv_nodup s Q q : tinv s Q → NoDup (Q q).
Proof.
  intros [(L & HR & HL & Hh & _) _]. destruct (rep_ring _ _ HR _ (Hh q)) as [_ Hd].
  rewrite HL in Hd. apply NoDup_cons in Hd as [_ Hd]. by apply NoDup_fmap_1 in Hd.
Qed.

Lemma tinv_empty s Q q : tinv s Q → klist0_empty (TQ q) (hp s) = bool_decide (Q q = []).
Proof.
  intros [(L & HR & HL & Hh & _) _]. rewrite (rep_empty_head _ L) by done. rewrite HL.
  apply bool_decide_ext. by destruct (Q q).
Qed.

Lemma tinv_linked s Q t q : tinv s Q → t ∈ Q q → klist0_empty (Run t) (hp s) = false.
Proof.
  intros [(L & HR & HL & _) _] Ht. apply (rep_empty_member _ L _ (TQ q)); [done|]. rewrite HL. by apply run_mem.
Qed.

Lemma tinv_detached s Q t : tinv s Q → (∀ q, t ∉ Q q) →
  ∃ L, rep (hp s) L ∧ (∀ q, L (TQ q) = Run <$> Q q) ∧ (∀ q, is_head L (TQ q)) ∧
    (∀ t, L (Run t) = []) ∧ (∀ t y, Run t ∈ L y → ∃ q, y = TQ q) ∧ detached L (Run t).
Proof.
  intros [(L & HR & HL & Hh & Hr & Hm) _] Ht. exists L. split_and!; try done. split; [|done].
  intros y Hy. destruct (Hm _ _ Hy) as [q ->]. rewrite HL, run_mem in Hy. by apply (Ht q).
Qed.

Lemma tinv_unlinked s Q t : tinv s Q → (∀ q, t ∉ Q q) → klist0_empty (Run t) (hp s) = true.
Proof.
  intros H Ht. destruct (tinv_detached s Q t H Ht) as (L & HR & _ & _ & _ & _ & [Hd He]).
  rewrite (rep_empty_head _ L), He by done. done.
Qed.

Lemma tinv_init s Q q : tinv s Q → Q q = [] → tinv (with_hp (KLIST0_INIT (TQ q)) s) Q.
Proof.
  intros [(L & HR & HL & Hh & Hrest) Hd] E. split; [|exact Hd]. exists L. split; [|done].
  apply rep_init; [done|]. split; [apply Hh|by rewrite HL, E].
Qed.
Lemma tinv_next s Q t q l : tinv s Q → Q q = t :: l → next (hp s (TQ q)) = Run t.
Proof.
  intros [(L & HR & HL & Hh & _) _] E. rewrite (rep_next _ L) by done. by rewrite HL, E.
Qed.
Lemma tinv_prev s Q t q l : tinv s Q → Q q = l ++ [t] → prev (hp s (TQ q)) = Run t.
Proof.
  intros [(L & HR & HL & Hh & _) _] E. rewrite (ring_last _ _ _ (rep_ring _ _ HR _ (Hh q))).
  rewrite HL, E, fmap_app. cbn [fmap list_fmap]. by rewrite last_snoc.
Qed.

(** The effect of the insertions and removals on the state and on the lists. *)
Definition st_head t q (s : sched) : sched :=
  with_thread t (set_head (Some q)) (with_hp (klist0_append (Run t) (TQ q)) s).
Definition st_tail t q (s : sched) : sched :=
  with_thread t (set_head (Some q)) (with_hp (klist0_prepend (Run t) (TQ q)) s).
Definition st_remove t (s : sched) : sched :=
  with_thread t (set_head None) (with_hp (klist0_unlink (Run t)) s).

Lemma head_with t f s u :
  krunq_head (threads (with_thread t f s) u) = krunq_head (if decide (u = t) then f (threads s u) else threads s u).
Proof. done. Qed.

Lemma tinv_insert s s' Q t q l' :
  tinv s Q → (∀ r, t ∉ Q r) → (∀ u, u ∈ l' ↔ u = t ∨ u ∈ Q q) →
  threads s' = threads (with_thread t (set_head (Some q)) s) →
  (∀ L, rep (hp s) L → (∀ r, L (TQ r) = Run <$> Q r) → is_head L (TQ q) → detached L (Run t) →
     rep (hp s') (upd L (TQ q) (Run <$> l'))) →
  tinv s' (upd Q q l').
Proof.
  intros H Ht Hl Ethr Hrep. destruct (tinv_detached s Q t H Ht) as (L & HR & HL & Hh & Hr & Hm & Hd). split.
  - exists (upd L (TQ q) (Run <$> l')). split; [by apply Hrep|]. split_and!.
    + intros r. unfold upd. repeat case_decide; congruence.
    + intros r y. unfold upd. case_decide; [|apply Hh]. intros (u & E & _)%list_elem_of_fmap. done.
    + intros u. unfold upd. by rewrite decide_False.
    + intros u y. unfold upd. case_decide; [subst; by eauto|apply Hm].
  - intros u r. rewrite Ethr, head_with. unfold upd. repeat case_decide; subst; simpl.
    + rewrite Hl. naive_solver.
    + split; [by intros [= ->]|]. intros Hu. by apply Ht in Hu.
    + rewrite Hl, (ti_head _ _ H). naive_solver.
    + apply (ti_head _ _ H).
Qed.

Lemma tinv_head s Q t q : tinv s Q → (∀ r, t ∉ Q r) → tinv (st_head t q s) (upd Q q (t :: Q q)).
Proof.
  intros H Ht. eapply tinv_insert; [done|done|set_solver|done|]. intros L HR HL Hh Hd. cbn [fmap list_fmap].
  rewrite <- HL. by apply rep_append.
Qed.
Lemma tinv_tail s Q t q : tinv s Q → (∀ r, t ∉ Q r) → tinv (st_tail t q s) (upd Q q (Q q ++ [t])).
Proof.
  intros H Ht. eapply tinv_insert; [done|done|set_solver|done|]. intros L HR HL Hh Hd.
  rewrite fmap_app, <- HL. by apply rep_prepend.
Qed.

Lemma tinv_remove s Q t q l1 l2 :
  tinv s Q → Q q = l1 ++ t :: l2 → tinv (st_remove t s) (upd Q q (l1 ++ l2)) ∧ ∀ r, t ∉ upd Q q (l1 ++ l2) r.
Proof.
  intros H E. assert (t ∉ l1 ++ l2) as Hnin.
  { pose proof (tinv_nodup _ _ q H) as Hnd. rewrite E in Hnd. apply NoDup_app in Hnd as (_ & Hd & Hnd).
    apply NoDup_cons in Hnd as [Hnd _]. intros [Hi|Hi]%elem_of_app; [|done]. apply (Hd t Hi). left. }
  assert (t ∈ Q q) as Htq by (rewrite E; set_solver).
  assert (∀ r, t ∉ upd Q q (l1 ++ l2) r) as Hno.
  { intros r. unfold upd. case_decide; [done|]. intros Hi. by pose proof (tinv_uniq _ _ _ _ _ H Htq Hi). }
  split; [|done]. pose proof (ti_rep _ _ H) as (L & HR & HL & Hh & Hr & Hm). split.
  - exists (upd L (TQ q) (Run <$> l1 ++ l2)). split.
    { rewrite fmap_app. apply rep_unlink; [done|]. by rewrite HL, E, fmap_app. }
    split_and!.
    + intros r. unfold upd. repeat case_decide; congruence.
    + intros r y. unfold upd. case_decide; [|apply Hh]. intros (u & E' & _)%list_elem_of_fmap. done.
    + intros u. unfold upd. by rewrite decide_False.
    + intros u y. unfold upd. case_decide; [subst; by eauto|apply Hm].
  - intros u r. unfold st_remove. rewrite head_with. cbn [threads with_hp]. case_decide as Eu.
    { subst. split; [done|]. intros Hi. by apply Hno in Hi. }
    rewrite (ti_head _ _ H). unfold upd. case_decide; [|done]. subst. rewrite E. set_solver.
Qed.

(** ** Runs with the debugging spinlocks *)

(** No lock is held. *)
Definition quiet (s : sched) : Prop := ∀ q, counter s q = 0.

Lemma spin_lock_run q s : counter s q = 0 → spin_lock true q s = Ok (tt, with_counter q 1 s).
Proof. intros E. unfold spin_lock. mrun. by rewrite E. Qed.
Lemma spin_unlock_run q s : counter s q = 1 → spin_unlock true q s = Ok (tt, with_counter q 0 s).
Proof. intros E. unfold spin_unlock. mrun. by rewrite E. Qed.
Lemma spin_trylock_run q s : counter s q = 1 → spin_trylock true q s = Ok (false, s).
Proof. intros E. unfold spin_trylock, spin_trylock_debug. mrun. by rewrite E. Qed.

Lemma insert_head_run s Q t q :
  tinv s Q → (∀ r, t ∉ Q r) → counter s q = 1 → __tq_insert_head true t q s = Ok (tt, st_head t q s).
Proof.
  intros H Ht Hc. unfold __tq_insert_head. mrun. rewrite (tinv_unlinked _ _ _ H Ht). simpl negb. mrun.
  rewrite (bind_run _ _ _ _ _ (spin_trylock_run q s Hc)). by mrun.
Qed.
Lemma insert_tail_run s Q t q :
  tinv s Q → (∀ r, t ∉ Q r) → counter s q = 1 → __tq_insert_tail true t q s = Ok (tt, st_tail t q s).
Proof.
  intros H Ht Hc. unfold __tq_insert_tail. mrun. rewrite (tinv_unlinked _ _ _ H Ht). simpl negb. mrun.
  rewrite (bind_run _ _ _ _ _ (spin_trylock_run q s Hc)). by mrun.
Qed.

Lemma remove_run s Q t q : tinv s Q → t ∈ Q q → __tq_remove_thread t s = Ok (tt, st_remove t s).
Proof.
  intros H Ht. unfold __tq_remove_thread. mrun. rewrite (proj2 (ti_head _ _ H t q) Ht).
  rewrite bool_decide_false by done. mrun. rewrite (tinv_linked _ _ _ _ H Ht). by mrun.
Qed.

(** Taking the thread [t] from an end of queue [q], [l] being the others; or
    finding the queue empty. *)
Definition takes (take : Z → M sched (option Z)) (pick : list Z → option (Z * list Z)) : Prop :=
  ∀ s Q q, tinv s Q →
    match pick (Q q) with
    | Some (t, l) => take q s = Ok (Some t, st_remove t s) ∧ tinv (st_remove t s) (upd Q q l) ∧ (∀ r, t ∉ upd Q q l r)
    | None => take q s = Ok (None, s)
    end.

Definition first (l : list Z) : option (Z * list Z) := match l with t :: l => Some (t, l) | [] => None end.
Definition final (l : list Z) : option (Z * list Z) :=
  match last l with Some t => Some (t, removelast l) | None => None end.

Lemma remove_head_takes : takes __tq_remove_head first.
Proof.
  intros s Q q H. unfold __tq_remove_head. rewrite bind_gets, (tinv_empty _ _ _ H).
  destruct (Q q) as [|t l] eqn:E; cbn [first]; [done|]. rewrite bool_decide_false by done. cbv beta iota. mrun.
  rewrite (tinv_next _ _ _ _ _ H E). cbn [thread_of]. mrun.
  rewrite (bind_run _ _ _ _ _ (remove_run s Q t q H ltac:(rewrite E; left))).
  destruct (tinv_remove s Q t q [] l H E) as [H' Hn]. done.
Qed.

Lemma remove_tail_takes : takes __tq_remove_tail final.
Proof.
  intros s Q q H. unfold __tq_remove_tail, final. rewrite bind_gets, (tinv_empty _ _ _ H).
  destruct (Q q) as [|t l _] eqn:E using rev_ind; [done|]. rewrite bool_decide_false by by destruct l.
  cbv beta iota. mrun. rewrite last_snoc, removelast_last.
  rewrite (tinv_prev _ _ _ _ _ H E). cbn [thread_of]. mrun.
  rewrite (bind_run _ _ _ _ _ (remove_run s Q t q H ltac:(rewrite E; set_solver))).
  destruct (tinv_remove s Q t q l [] H E) as [H' Hn]. rewrite app_nil_r in H', Hn. done.
Qed.

(** Putting a thread that is in no queue into queue [q]. *)
Definition gives (give : Z → Z → M sched unit) (st : Z → Z → sched → sched) (put : Z → list Z → list Z) : Prop :=
  ∀ s Q t q, tinv s Q → (∀ r, t ∉ Q r) →
    (counter s q = 1 → give t q s = Ok (tt, st t q s)) ∧ tinv (st t q s) (upd Q q (put t (Q q))).

Definition snoc (t : Z) (l : list Z) : list Z := l ++ [t].

Lemma insert_head_gives : gives (__tq_insert_head true) st_head cons.
Proof. intros s Q t q H Ht. split; [intros; by eapply insert_head_run|by apply tinv_head]. Qed.
Lemma insert_tail_gives : gives (__tq_insert_tail true) st_tail snoc.
Proof. intros s Q t q H Ht. split; [intros; by eapply insert_tail_run|by apply tinv_tail]. Qed.

(** What the queue operations leave alone: everything but the queues. *)
Record same (s s' : sched) : Prop := {
  sm_counter q : counter s' q = counter s q; sm_irqs : irqs s' = irqs s; sm_current : current s' = current s;
  sm_need : need_reschedule s' = need_reschedule s; sm_next : next_thread s' = next_thread s;
  sm_jiffies : jiffies s' = jiffies s;
  sm_threads t : quantum (threads s' t) = quantum (threads s t) ∧ last_tick (threads s' t) = last_tick (threads s t);
}.

Lemma same_refl s : same s s.
Proof. by split. Qed.
Lemma same_trans s1 s2 s3 : same s1 s2 → same s2 s3 → same s1 s3.
Proof.
  intros [Hc1 ? ? ? ? ? H1] [Hc2 ? ? ? ? ? H2]. split; try congruence.
  intros t. destruct (H1 t), (H2 t). split; congruence.
Qed.

Lemma with_thread_same t f s :
  (∀ th, quantum (f th) = quantum th ∧ last_tick (f th) = last_tick th) → same s (with_thread t f s).
Proof. intros Hf. split; try done. intros u. cbn. case_decide; [apply Hf|done]. Qed.
Lemma st_head_same t q s : same s (st_head t q s).
Proof. apply (same_trans _ (with_hp (klist0_append (Run t) (TQ q)) s)); [by split|by apply with_thread_same]. Qed.
Lemma st_tail_same t q s : same s (st_tail t q s).
Proof. apply (same_trans _ (with_hp (klist0_prepend (Run t) (TQ q)) s)); [by split|by apply with_thread_same]. Qed.
Lemma st_remove_same t s : same s (st_remove t s).
Proof. apply (same_trans _ (with_hp (klist0_unlink (Run t)) s)); [by split|by apply with_thread_same]. Qed.

Lemma same_quiet s s' : same s s' → quiet s → quiet s'.
Proof. intros H Hq q. by rewrite (sm_counter _ _ H). Qed.

Lemma tinv_counter q c s Q : tinv s Q → tinv (with_counter q c s) Q.
Proof. intros H. by eapply tinv_ext. Qed.
Lemma tinv_irqs b s Q : tinv s Q → tinv (with_irqs b s) Q.
Proof. intros H. by eapply tinv_ext. Qed.
Lemma tinv_thread t f s Q : (∀ th, krunq_head (f th) = krunq_head th) → tinv s Q → tinv (with_thread t f s) Q.
Proof. intros Hf H. eapply tinv_ext; [done|done|]. intros u. cbn. by case_decide. Qed.
Lemma counter_with q c s r : counter (with_counter q c s) r = if decide (r = q) then c else counter s r.
Proof. done. Qed.
Create HintDb sched.
#[global] Hint Resolve tinv_counter tinv_irqs tinv_thread : sched.
#[global] Hint Resolve same_refl st_head_same st_tail_same st_remove_same : sched.

(** A critical section: the lock of [q] is taken, code that leaves [s1] runs,
    the lock is released. *)
Lemma locked q s s1 :
  quiet s → same (with_counter q 1 s) s1 →
  counter s1 q = 1 ∧ quiet (with_counter q 0 s1) ∧ same s (with_counter q 0 s1).
Proof.
  intros Hq Hs. split_and!.
  - rewrite (sm_counter _ _ Hs), counter_with. by rewrite decide_True.
  - intros r. rewrite counter_with. case_decide; [done|]. rewrite (sm_counter _ _ Hs), counter_with. by rewrite decide_False.
  - destruct Hs as [Hc ? ? ? ? ? ?]. split; try done. intros r. rewrite counter_with. case_decide; [subst; by rewrite Hq|].
    rewrite Hc, counter_with. by rewrite decide_False.
Qed.

(** Running through a bind whose first part is known to return. *)
Ltac mbind_with H := rewrite (bind_run _ _ _ _ _ H); mrun.

(** The queues after a transfer. *)
Definition moved (pick : list Z → option (Z * list Z)) (put : Z → list Z → list Z) (from to : Z) (Q : Z → list Z)
    : bool * (Z → list Z) :=
  match pick (Q from) with
  | Some (t, l) => let Q1 := upd Q from l in (true, upd Q1 to (put t (Q1 to)))
  | None => (false, Q)
  end.

Lemma transfer_spec take pick give st put from to s Q :
  takes take pick → gives give st put → (∀ t q s, same s (st t q s)) → tinv s Q → quiet s →
  ∃ s', tq_transfer true take give from to s = Ok ((moved pick put from to Q).1, s') ∧
    same s s' ∧ tinv s' (moved pick put from to Q).2.
Proof.
  intros Ht Hg Hst H Hq. unfold tq_transfer, moved, local_irq_save. mrun.
  set (s0 := with_irqs false s). assert (quiet s0) as Hq0 by apply Hq.
  mbind_with (spin_lock_run from s0 (Hq0 from)).
  pose proof (Ht (with_counter from 1 s0) Q from ltac:(eauto with sched)) as Htake.
  destruct (pick (Q from)) as [[t l]|].
  - destruct Htake as (Etake & H1 & Hno). mbind_with Etake.
    destruct (locked from s0 _ Hq0 (st_remove_same t _)) as (Hc1 & Hq1 & Hs1).
    mbind_with (spin_unlock_run from _ Hc1). set (s1 := with_counter from 0 _) in *. set (Q1 := upd Q from l) in *.
    mbind_with (spin_lock_run to s1 (Hq1 to)).
    assert (tinv s1 Q1) as H1' by by apply tinv_counter.
    destruct (Hg (with_counter to 1 s1) Q1 t to (tinv_counter _ _ _ _ H1') Hno) as [Egive H2].
    mbind_with (Egive ltac:(rewrite counter_with; by rewrite decide_True)).
    destruct (locked to s1 _ Hq1 (Hst t to _)) as (Hc2 & Hq2 & Hs2). mbind_with (spin_unlock_run to _ Hc2).
    eexists. split; [done|]. split.
    + destruct (same_trans _ _ _ Hs1 Hs2). by split.
    + by apply tinv_irqs, tinv_counter.
  - mbind_with Htake. destruct (locked from s0 _ Hq0 (same_refl _)) as (Hc1 & Hq1 & Hs1).
    mbind_with (spin_unlock_run from _ Hc1).
    eexists. split; [done|]. split; [|by eauto with sched]. destruct Hs1. by split.
Qed.

Lemma tinv_lists s Q Q' : (∀ q, Q' q = Q q) → tinv s Q → tinv s Q'.
Proof.
  intros E [(L & HR & HL & Hrest) Hh]. split.
  - exists L. split; [done|]. split; [intros q; by rewrite E|done].
  - intros t q. by rewrite E.
Qed.

Lemma rotate_run s Q h l :
  tinv s Q → Q RQ = h :: l → counter s RQ = 1 →
  ∃ s', rotate true s = Ok (h, s') ∧ same s s' ∧ tinv s' (upd Q RQ (l ++ [h])).
Proof.
  intros H E Hc. pose proof (remove_head_takes s Q RQ H) as Ht. rewrite E in Ht. cbn [first] in Ht.
  destruct Ht as (Et & H1 & Hno). unfold rotate. rewrite (bind_run _ _ _ _ _ Et).
  rewrite (bind_run _ _ _ _ _ (insert_tail_run _ _ h RQ H1 Hno Hc)).
  eexists. split; [done|]. split; [eapply same_trans; eauto with sched|].
  eapply tinv_lists; [|by apply tinv_tail]. intros q. unfold upd. by repeat case_decide.
Qed.

Lemma rotate_bug s Q : tinv s Q → Q RQ = [] → rotate true s = Bug.
Proof.
  intros H E. pose proof (remove_head_takes s Q RQ H) as Ht. rewrite E in Ht. unfold rotate.
  by rewrite (bind_run _ _ _ _ _ Ht).
Qed.

(** The context of a thread other than the queues. *)
Lemma yield_run s Q h l :
  tinv s Q → quiet s → Q RQ = h :: l →
  ∃ s', sched0_yield true s = Ok (tt, s') ∧ tinv s' (upd Q RQ (l ++ [h])) ∧ quiet s' ∧
    current s' = h ∧ irqs s' = irqs s ∧ quantum (threads s' (current s)) = SCHED_MAX_QUANTUM.
Proof.
  intros H Hq E. unfold sched0_yield, spin_lock_irqsave, spin_unlock_irqrestore, local_irq_save. mrun.
  set (s0 := with_irqs false _).
  assert (tinv s0 Q) as H0 by (apply tinv_irqs, tinv_thread; [done|exact H]).
  destruct (rotate_run (with_counter RQ 1 s0) Q h l) as (s1 & Er & Hs1 & H1); [by apply tinv_counter|done|done|].
  mbind_with (spin_lock_run RQ s0 (Hq RQ)). mbind_with Er.
  destruct (locked RQ s0 s1 Hq Hs1) as (Hc1 & Hq2 & Hs2). mbind_with (spin_unlock_run RQ s1 Hc1).
  eexists. split; [done|]. split; [eapply tinv_ext; [exact H1|done|done]|]. split; [exact Hq2|]. split; [done|].
  split; [done|]. destruct (sm_threads _ _ Hs2 (current s)) as [E' _].
  cbn [threads with_current with_irqs] in *. rewrite E'. unfold s0. cbn. by rewrite decide_True.
Qed.

Lemma tick_run s Q h l :
  tinv s Q → quiet s → Q RQ = h :: l → 1 ≤ quantum (threads s (current s)) < 2 ^ 32 →
  ∃ s', sched0_tick true s = Ok (tt, s') ∧ quiet s' ∧ irqs s' = irqs s ∧ current s' = current s ∧
    if decide (quantum (threads s (current s)) = 1) then
      tinv s' (upd Q RQ (l ++ [h])) ∧ quantum (threads s' (current s)) = SCHED_MAX_QUANTUM ∧
      (current s ≠ h → need_reschedule s' = true ∧ next_thread s' = Some h) ∧
      (current s = h → need_reschedule s' = need_reschedule s)
    else
      tinv s' Q ∧ quantum (threads s' (current s)) = quantum (threads s (current s)) - 1 ∧
      need_reschedule s' = need_reschedule s.
Proof.
  intros H Hq E Hqu. unfold sched0_tick, tq_is_empty. mrun. rewrite (tinv_empty _ _ _ H), E.
  rewrite bool_decide_false by done. mrun. set (c := current s) in *. set (n := quantum (threads s c)) in *.
  set (s0 := with_thread c _ s).
  assert (tinv s0 Q) as H0 by (apply tinv_thread; [done|exact H]).
  assert (threads s0 c = set_quantum (n - 1) (threads s c)) as Et.
  { unfold s0. cbn. rewrite decide_True by done. fold n. rewrite u32_small by (unfold is_u32; lia). done. }
  rewrite Et. cbn [quantum set_quantum]. case_decide as Hz.
  - destruct (decide (n = 1)) as [_|]; [|lia]. mrun. set (s1 := with_thread c (set_quantum SCHED_MAX_QUANTUM) s0).
    assert (tinv s1 Q) as H1 by (apply tinv_thread; [done|exact H0]).
    assert (quiet s1) as Hq1 by apply Hq.
    destruct (rotate_run (with_counter RQ 1 s1) Q h l) as (s2 & Er & Hs2 & H2); [by apply tinv_counter|done|done|].
    mbind_with (spin_lock_run RQ s1 (Hq1 RQ)). mbind_with Er.
    destruct (locked RQ s1 s2 Hq1 Hs2) as (Hc2 & Hq3 & Hs3). mbind_with (spin_unlock_run RQ s2 Hc2).
    set (s3 := with_counter RQ 0 s2) in *.
    assert (tinv s3 (upd Q RQ (l ++ [h]))) as H3 by by apply tinv_counter.
    assert (quantum (threads s3 c) = SCHED_MAX_QUANTUM) as Hqc.
    { destruct (sm_threads _ _ Hs3 c) as [-> _]. unfold s1. cbn. by rewrite decide_True. }
    pose proof (sm_current _ _ Hs3) as Hc3. pose proof (sm_irqs _ _ Hs3) as Hi3. pose proof (sm_need _ _ Hs3) as Hn3.
    destruct (decide (c ≠ h)) as [Hne|Heq]; mrun; (eexists; split; [done|]); (split; [exact Hq3|]); (split; [done|]);
      (split; [done|]); (split; [apply tinv_thread; [done|by eapply tinv_ext]|]); cbn; rewrite decide_True by done;
      (split; [exact Hqc|]); split; done || (intros; lia) || (intros ?; by destruct Heq).
  - destruct (decide (n = 1)) as [|_]; [lia|]. mrun. eexists. split; [done|]. split; [exact Hq|]. split; [done|]. split; [done|].
    split; [apply tinv_thread; [done|exact H0]|]. split; [|done]. cbn [threads with_thread].
    rewrite decide_True by done. rewrite Et. done.
Qed.

Lemma enqueue_run s Q from t l :
  tinv s Q → quiet s → Q from = t :: l → from ≠ RQ →
  ∃ s', sched0_enqueue true from s = Ok (true, s') ∧ quiet s' ∧ irqs s' = irqs s ∧ current s' = current s ∧
    tinv s' (upd (upd Q from l) RQ (t :: Q RQ)) ∧ quantum (threads s' t) = SCHED_MAX_QUANTUM.
Proof.
  intros H Hq E Hne. unfold sched0_enqueue, local_irq_save. mrun. set (s0 := with_irqs false s).
  assert (quiet s0) as Hq0 by apply Hq. mbind_with (spin_lock_run from s0 (Hq0 from)).
  pose proof (remove_head_takes (with_counter from 1 s0) Q from ltac:(eauto with sched)) as Htake.
  rewrite E in Htake. destruct Htake as (Etake & H1 & Hno). mbind_with Etake.
  destruct (locked from s0 _ Hq0 (st_remove_same t _)) as (Hc1 & Hq1 & Hs1).
  mbind_with (spin_unlock_run from _ Hc1). set (s1 := with_thread t _ _).
  assert (tinv s1 (upd Q from l)) as H1' by (apply tinv_thread; [done|by apply tinv_counter]).
  mbind_with (spin_lock_run RQ s1 (Hq1 RQ)).
  mbind_with (insert_head_run (with_counter RQ 1 s1) _ t RQ (tinv_counter _ _ _ _ H1') Hno eq_refl).
  destruct (locked RQ s1 _ Hq1 (st_head_same t RQ _)) as (Hc2 & Hq2 & Hs2). mbind_with (spin_unlock_run RQ _ Hc2).
  pose proof (sm_current _ _ Hs1) as Hcur. eexists. split; [done|]. split; [exact Hq2|]. split; [done|].
  split; [exact Hcur|]. split.
  - apply tinv_irqs, tinv_counter. eapply tinv_lists; [|apply tinv_head; [apply tinv_counter; exact H1'|exact Hno]].
    intros q. unfold upd. repeat case_decide; congruence.
  - destruct (sm_threads _ _ Hs2 t) as [E2 _]. etransitivity; [exact E2|]. unfold s1. cbn. by rewrite decide_True.
Qed.

Lemma enqueue_none s Q from :
  tinv s Q → quiet s → Q from = [] →
  ∃ s', sched0_enqueue true from s = Ok (false, s') ∧ same s s' ∧ tinv s' Q.
Proof.
  intros H Hq E. unfold sched0_enqueue, local_irq_save. mrun. set (s0 := with_irqs false s).
  assert (quiet s0) as Hq0 by apply Hq. mbind_with (spin_lock_run from s0 (Hq0 from)).
  pose proof (remove_head_takes (with_counter from 1 s0) Q from ltac:(eauto with sched)) as Htake.
  rewrite E in Htake. mbind_with Htake. destruct (locked from s0 _ Hq0 (same_refl _)) as (Hc1 & Hq1 & Hs1).
  mbind_with (spin_unlock_run from _ Hc1).
  eexists. split; [done|]. split; [|by eauto with sched]. destruct Hs1. by split.
Qed.

(** What waking does to the queues: the first sleeper is the first to run. *)
Definition woken (tq : Z) (Q : Z → list Z) : Z → list Z :=
  match Q tq with t :: l => upd (upd Q tq l) RQ (t :: Q RQ) | [] => Q end.
Lemma wake_run s Q tq :
  tinv s Q → quiet s → tq ≠ RQ →
  ∃ b c, scheduler_enqueue (Some (sched0 true)) tq s = Ok (b, c) ∧ tinv c (woken tq Q) ∧ quiet c ∧ current c = current s ∧
    (b = true ↔ Q tq ≠ []).
Proof.
  intros H Hq Hne. unfold woken. destruct (Q tq) as [|t l] eqn:E.
  - destruct (enqueue_none s Q tq H Hq E) as (c & Hc & Hs & Hi). exists false, c.
    split; [done|]. split; [done|]. split; [by eapply same_quiet|]. split; [apply (sm_current _ _ Hs)|done].
  - destruct (enqueue_run s Q tq t l H Hq E Hne) as (c & Hc & Hqc & _ & Hcur & Hi & _). by exists true, c.
Qed.

Lemma dequeue_run s Q to c l1 l2 h l :
  tinv s Q → quiet s → current s = c → Q RQ = l1 ++ c :: l2 → l1 ++ l2 = h :: l → to ≠ RQ →
  ∃ s', sched0_dequeue true to s = Ok (tt, s') ∧ quiet s' ∧ irqs s' = irqs s ∧ current s' = c ∧
    tinv s' (upd (upd Q RQ (l ++ [h])) to (Q to ++ [c])) ∧ quantum (threads s' c) = SCHED_MAX_QUANTUM.
Proof.
  intros H Hq Hc E El Hne. unfold sched0_dequeue, local_irq_save. mrun. cbn [threads current with_irqs]. rewrite Hc.
  set (s0 := with_irqs false s). assert (tinv s0 Q) as H0 by by apply tinv_irqs.
  assert (c ∈ Q RQ) as Hin by (rewrite E; set_solver).
  rewrite (proj2 (ti_head _ _ H c RQ) Hin), bool_decide_false by (intros Hx; by apply Hx). mrun.
  mbind_with (spin_lock_run RQ s0 (Hq RQ)). set (s1 := with_counter RQ 1 s0).
  assert (tinv s1 Q) as H1 by by apply tinv_counter. mbind_with (remove_run s1 Q c RQ H1 Hin).
  destruct (tinv_remove s1 Q c RQ l1 l2 H1 E) as [H2 Hno]. rewrite El in H2, Hno.
  destruct (rotate_run (st_remove c s1) _ h l H2 ltac:(by rewrite upd_eq) eq_refl) as (s3 & Er & Hs3 & H3).
  mbind_with Er. assert (same s1 s3) as Hs13 by (eapply same_trans; [apply st_remove_same|done]).
  destruct (locked RQ s0 s3 Hq Hs13) as (Hc3 & Hq4 & Hs4). mbind_with (spin_unlock_run RQ s3 Hc3).
  set (s5 := with_thread c (set_tick _) _). cbn [jiffies with_thread with_counter] in s5.
  set (Q3 := upd (upd Q RQ (h :: l)) RQ (l ++ [h])) in *.
  assert (tinv s5 Q3) as H5 by (repeat (apply tinv_thread; [done|]); by apply tinv_counter).
  assert (∀ r, c ∉ Q3 r) as Hno3.
  { intros r. specialize (Hno r). unfold Q3, upd in *. case_decide; [set_solver|done]. }
  assert (quiet s5) as Hq5 by exact Hq4. mbind_with (spin_lock_run to s5 (Hq5 to)).
  mbind_with (insert_tail_run (with_counter to 1 s5) Q3 c to (tinv_counter _ _ _ _ H5) Hno3
    ltac:(rewrite counter_with; by rewrite decide_True)).
  destruct (locked to s5 _ Hq5 (st_tail_same c to _)) as (Hc6 & Hq6 & Hs6). mbind_with (spin_unlock_run to _ Hc6).
  eexists. split; [done|]. split; [exact Hq6|]. split; [done|].
  split; [rewrite <- Hc; etransitivity; [exact (sm_current _ _ Hs6)|exact (sm_current _ _ Hs4)]|]. split.
  - apply tinv_irqs, tinv_counter. eapply tinv_lists; [|apply tinv_tail; [apply tinv_counter; exact H5|exact Hno3]].
    intros q. unfold Q3, upd. repeat case_decide; congruence.
  - destruct (sm_threads _ _ Hs6 c) as [E6 _]. etransitivity; [exact E6|]. unfold s5. cbn.
    by rewrite !decide_True.
Qed.

Lemma dequeue_bug s Q to c :
  tinv s Q → quiet s → current s = c → Q RQ = [c] → sched0_dequeue true to s = Bug.
Proof.
  intros H Hq Hc E. unfold sched0_dequeue, local_irq_save. mrun. cbn [threads current with_irqs]. rewrite Hc.
  set (s0 := with_irqs false s). assert (tinv s0 Q) as H0 by by apply tinv_irqs.
  assert (c ∈ Q RQ) as Hin by (rewrite E; left).
  rewrite (proj2 (ti_head _ _ H c RQ) Hin), bool_decide_false by (intros Hx; by apply Hx). mrun.
  mbind_with (spin_lock_run RQ s0 (Hq RQ)). set (s1 := with_counter RQ 1 s0).
  assert (tinv s1 Q) as H1 by by apply tinv_counter. mbind_with (remove_run s1 Q c RQ H1 Hin).
  destruct (tinv_remove s1 Q c RQ [] [] H1 E) as [H2 _].
  unfold mbind at 1, M_bind. by rewrite (rotate_bug _ _ H2) by by rewrite upd_eq.
Qed.

(** Going to sleep on [tq]: the next thread runs, the running one is last in
    the queue. *)
Lemma sleep_run s Q tq c l1 l2 h l :
  tinv s Q → quiet s → current s = c → Q RQ = l1 ++ c :: l2 → l1 ++ l2 = h :: l → tq ≠ RQ →
  ∃ s1 s2 Q', scheduler_dequeue (Some (sched0 true)) tq s = Ok (tt, s1) ∧ scheduler_yield (Some (sched0 true)) s1 = Ok (tt, s2) ∧
    tinv s2 Q' ∧ quiet s2 ∧ current s2 = hd h l ∧ Q' tq = Q tq ++ [c] ∧ (c ∉ Q' RQ) ∧
    Q' RQ = tail (l ++ [h]) ++ [hd h l].
Proof.
  intros Hi Hq Hc HQ Hh Hne.
  destruct (dequeue_run s Q tq c l1 l2 h l) as (c1 & E1 & Hq1 & _ & Hc1 & Hi1 & _); [done..|].
  destruct (yield_run c1 _ (hd h l) (tl (l ++ [h])) Hi1 Hq1) as (c2 & E2 & Hi2 & Hq2 & Hc2 & _).
  { rewrite upd_ne, upd_eq by done. by destruct l. }
  exists c1, c2. eexists. split; [done|]. split; [done|]. split; [exact Hi2|]. split; [done|]. split; [done|]. split.
  - by rewrite upd_ne, upd_eq by done.
  - split; [|by rewrite upd_eq]. rewrite upd_eq. pose proof (tinv_nodup _ _ RQ Hi) as Hnd. rewrite HQ in Hnd. apply NoDup_app in Hnd as (_ & Hd1 & Hd2).
    assert (c ∉ h :: l) as Hn.
    { rewrite <- Hh, elem_of_app. apply NoDup_cons in Hd2 as [Hd2 _]. intros [H|H]; [|done]. apply (Hd1 c H). by left. }
    destruct l; set_solver.
Qed.

(** Initialising a queue nobody waits in. *)
Definition st_init q (s : sched) : sched := with_counter q 0 (with_hp (KLIST0_INIT (TQ q)) s).
Lemma tq_init_run s Q q :
  tinv s Q → quiet s → Q q = [] → tq_init true q s = Ok (tt, st_init q s) ∧ tinv (st_init q s) Q ∧ quiet (st_init q s).
Proof.
  intros H Hq E. split; [done|]. split; [by apply tinv_counter, tinv_init|].
  intros r. unfold st_init. rewrite counter_with. case_decide; [done|apply Hq].
Qed.

(** ** The rest of the scheduler core *)

(* kernel/scheduler.c:158-164 scheduler_start *)
Definition scheduler_start (reg : option cpu_scheduler) (active : bool) : M sched bool :=
  f ← lift (through reg cs_start); _ ← f; mret true.
(* kernel/scheduler.c:166-172 scheduler_stop *)
Definition scheduler_stop (reg : option cpu_scheduler) (active : bool) : M sched bool :=
  f ← lift (through reg cs_stop); _ ← f; mret false.
(* kernel/scheduler.c:174-179 scheduler_init *)
Definition scheduler_init (debug : bool) : M sched unit :=
  _ ← modify (with_hp (KLIST0_INIT ThreadList));
  _ ← spinlock_init debug THREAD_LIST;
  modify (λ s, Sched (hp s) (threads s) (counter s) (irqs s) (current s) false (next_thread s) (jiffies s)).

(* include/scheduler.h:63-65 LIST_CURRENT *)
Definition LIST_CURRENT : Z := 1.
Definition LIST_BACKTRACE : Z := 2.
Definition LIST_MAPPING : Z := 4.

(** The lines [list_threads] prints: the thread, and whether its stack and its
    mapping are shown; bug() when there are too many. *)
Fixpoint list_loop (l : list tnode) (ops i : Z) (s : sched) : outcome (list (Z * bool * bool)) :=
  match l with
  | [] => Ok []
  | Kt t :: l =>
      if decide (Z.testbit ops 0 = true ∧ t ≠ current s) then list_loop l ops i s
      else if decide (MAX_THREADS < i) then Bug
      else rest ← list_loop l ops (i + 1) s; Ok ((t, Z.testbit ops 1, Z.testbit ops 2) :: rest)
  | _ => Fault
  end.

(* kernel/scheduler.c:62-91 list_threads *)
Definition list_threads (fuel : nat) (debug : bool) (ops : Z) : M sched (list (Z * bool * bool)) :=
  f ← spin_lock_irqsave debug THREAD_LIST;
  l ← gets (λ s, klist0_for_each fuel (hp s) ThreadList);
  r ← (λ s, match l with
            | None => Hang
            | Some l => r ← list_loop l ops 0 s; Ok (r, s)
            end);
  _ ← spin_unlock_irqrestore debug THREAD_LIST f;
  mret r.

Fixpoint find_pid (l : list tnode) (p : Z) (s : sched) : outcome (option Z) :=
  match l with
  | [] => Ok None
  | Kt t :: l => if decide (pid (threads s t) = p) then Ok (Some t) else find_pid l p s
  | _ => Fault
  end.

(* kernel/thread.c:47-60 thread_get *)
Definition thread_get (fuel : nat) (p : Z) (s : sched) : outcome (option Z) :=
  match klist0_for_each fuel (hp s) ThreadList with
  | None => Hang
  | Some l => find_pid l p s
  end.

(** ** Properties *)

(** Each of the four transfers moves the thread at one end of a queue to
    one end of the other, or answers 0 on an empty queue; locks are released,
    the interrupt flag and all else are as before. *)
Theorem tq_transfers_correct s Q from to :
  tinv s Q → quiet s →
  (∃ s', tq_transfer_head_to_head true from to s = Ok ((moved first cons from to Q).1, s') ∧
     same s s' ∧ tinv s' (moved first cons from to Q).2) ∧
  (∃ s', tq_transfer_head_to_tail true from to s = Ok ((moved first snoc from to Q).1, s') ∧
     same s s' ∧ tinv s' (moved first snoc from to Q).2) ∧
  (∃ s', tq_transfer_tail_to_head true from to s = Ok ((moved final cons from to Q).1, s') ∧
     same s s' ∧ tinv s' (moved final cons from to Q).2) ∧
  (∃ s', tq_transfer_tail_to_tail true from to s = Ok ((moved final snoc from to Q).1, s') ∧
     same s s' ∧ tinv s' (moved final snoc from to Q).2).
Proof.
  intros H Hq. split_and!.
  - exact (transfer_spec _ _ _ _ _ from to s Q remove_head_takes insert_head_gives st_head_same H Hq).
  - exact (transfer_spec _ _ _ _ _ from to s Q remove_head_takes insert_tail_gives st_tail_same H Hq).
  - exact (transfer_spec _ _ _ _ _ from to s Q remove_tail_takes insert_head_gives st_head_same H Hq).
  - exact (transfer_spec _ _ _ _ _ from to s Q remove_tail_takes insert_tail_gives st_tail_same H Hq).
Qed.

Fixpoint yields (k : nat) : M sched unit :=
  match k with O => mret tt | S k => _ ← yields k; sched0_yield true end.

(** A list turned by [k]. *)
Definition turned (k : nat) (l : list Z) : list Z := drop k l ++ take k l.

Lemma turned_step k l t :
  l !! k = Some t → ∃ r, turned k l = t :: r ∧ r ++ [t] = turned (S k `mod` length l) l.
Proof.
  intros Hk. pose proof (lookup_lt_Some _ _ _ Hk) as Hlt. unfold turned. rewrite (drop_S _ _ _ Hk).
  exists (drop (S k) l ++ take k l). split; [done|]. rewrite <- app_assoc.
  rewrite <- (take_S_r _ _ _ Hk). destruct (decide (S k = length l)) as [E|E].
  - rewrite E, Nat.Div0.mod_same, drop_all, take_ge by lia. cbn. by rewrite app_nil_r.
  - by rewrite Nat.mod_small by lia.
Qed.

(** C12: [sched0] is round robin: from any state with the threads [l] in the run
    queue, yield number [k] runs thread number [k] of [l], counted in a circle;
    so every thread of the queue runs within any [length l] yields, and no
    thread is lost or duplicated. *)
Theorem sched0_round_robin s Q l k :
  tinv s Q → quiet s → Q RQ = l → l ≠ [] →
  ∃ s', yields (S k) s = Ok (tt, s') ∧ l !! (k `mod` length l)%nat = Some (current s') ∧
    quiet s' ∧ tinv s' (upd Q RQ (turned (S k `mod` length l) l)).
Proof.
  intros H Hq E Hne. assert (0 < length l)%nat as Hlen by (destruct l; [done|simpl; lia]).
  assert (∀ j, (∃ s', yields j s = Ok (tt, s') ∧ quiet s' ∧ tinv s' (upd Q RQ (turned (j `mod` length l) l))) →
    ∃ s' , yields (S j) s = Ok (tt, s') ∧ l !! (j `mod` length l)%nat = Some (current s') ∧
      quiet s' ∧ tinv s' (upd Q RQ (turned (S j `mod` length l) l))) as Hstep.
  { intros j (s1 & E1 & Hq1 & H1).
    destruct (lookup_lt_is_Some_2 l (j `mod` length l)) as [t Ht]; [by apply Nat.mod_upper_bound; lia|].
    destruct (turned_step _ _ _ Ht) as (r & Er & Et).
    destruct (yield_run s1 _ t r H1 Hq1) as (s2 & E2 & H2 & Hq2 & Hc & _); [by rewrite upd_eq|].
    exists s2. cbn [yields]. rewrite (bind_run _ _ _ _ _ E1). split; [done|]. split; [by rewrite Hc|]. split; [done|].
    eapply tinv_lists; [|exact H2]. intros q. rewrite Et. unfold upd. case_decide; [|done].
    f_equal. rewrite <- (Nat.add_1_l j), <- (Nat.add_1_l (j `mod` _)). by rewrite Nat.Div0.add_mod_idemp_r. }
  apply Hstep. induction k as [|k IH].
  - exists s. split; [done|]. split; [done|]. eapply tinv_lists; [|exact H]. intros q. unfold upd.
    case_decide; [|done]. subst. rewrite Nat.Div0.mod_0_l. unfold turned. cbn. by rewrite app_nil_r.
  - destruct (Hstep _ IH) as (s' & ? & _ & ? & ?). by exists s'.
Qed.

(** A tick takes one from the quantum of the running thread; when that was
    the last one, the quantum is refilled, the run queue is turned and the
    thread that was first is the next to run.  [sched0_dequeue] moves the
    running thread to the end of another queue and turns the run queue (a bug()
    when no other thread can run), [sched0_enqueue] moves the first thread of a
    queue to the front of the run queue, with a full quantum. *)
Theorem sched0_correct s Q h l :
  tinv s Q → quiet s → Q RQ = h :: l → 1 ≤ quantum (threads s (current s)) < 2 ^ 32 →
  (∃ s', sched0_tick true s = Ok (tt, s') ∧ current s' = current s ∧
     if decide (quantum (threads s (current s)) = 1) then
       tinv s' (upd Q RQ (l ++ [h])) ∧ quantum (threads s' (current s)) = SCHED_MAX_QUANTUM ∧
       (current s ≠ h → need_reschedule s' = true ∧ next_thread s' = Some h)
     else tinv s' Q ∧ quantum (threads s' (current s)) = quantum (threads s (current s)) - 1) ∧
  (∀ to l1 l2 h' l', to ≠ RQ → h :: l = l1 ++ current s :: l2 → l1 ++ l2 = h' :: l' →
     ∃ s', sched0_dequeue true to s = Ok (tt, s') ∧ quiet s' ∧
       tinv s' (upd (upd Q RQ (l' ++ [h'])) to (Q to ++ [current s]))) ∧
  (∀ to, h :: l = [current s] → sched0_dequeue true to s = Bug) ∧
  (∀ from t l', from ≠ RQ → Q from = t :: l' →
     ∃ s', sched0_enqueue true from s = Ok (true, s') ∧ quiet s' ∧ quantum (threads s' t) = SCHED_MAX_QUANTUM ∧
       tinv s' (upd (upd Q from l') RQ (t :: h :: l))).
Proof.
  intros H Hq E Hqu. split_and!.
  - destruct (tick_run s Q h l H Hq E Hqu) as (s' & Er & _ & _ & Hc & Hr). exists s'. split; [done|]. split; [done|].
    case_decide; [destruct Hr as (? & ? & ? & _)|destruct Hr as (? & ? & _)]; done.
  - intros to l1 l2 h' l' Hto El Eh. rewrite El in E.
    destruct (dequeue_run s Q to (current s) l1 l2 h' l' H Hq eq_refl E Eh Hto) as (s' & ? & ? & _ & _ & ? & _). by exists s'.
  - intros to El. rewrite El in E. by eapply dequeue_bug.
  - intros from t l' Hf Ef. destruct (enqueue_run s Q from t l' H Hq Ef Hf) as (s' & ? & ? & _ & _ & ? & ?).
    rewrite E in *. by exists s'.
Qed.

(** *** Instances *)

(** Threads 1 and 2 in the run queue, the first one running. *)
Definition two_threads : sched :=
  st_tail 2 RQ (st_tail 1 RQ (Sched empty_heap (λ _, Thread None 1 0 0 1) (λ _, 0) true 1 false None 0)).

Lemma two_threads_inv : tinv two_threads (upd (upd (λ _, []) RQ [1]) RQ [1; 2]).
Proof.
  assert (tinv (Sched empty_heap (λ _, Thread None 1 0 0 1) (λ _, 0) true 1 false None 0) (λ _, [])) as H0.
  { split; [|intros t q; split; [done|intros Ht; by apply elem_of_nil in Ht]]. exists (λ _, []).
    split; [apply empty_heap_rep|]. split_and!; try done.
    - intros q y. apply not_elem_of_nil.
    - intros t y Hy. by apply elem_of_nil in Hy. }
  pose proof (tinv_tail _ _ 1 RQ H0 ltac:(intros r; apply not_elem_of_nil)) as H1.
  apply (tinv_tail _ _ 2 RQ H1). intros r. unfold upd. case_decide; set_solver.
Qed.

Lemma tq_transfers_correct_witness :
  ∃ s', tq_transfer_head_to_tail true RQ 7 two_threads = Ok (true, s') ∧ same two_threads s'.
Proof.
  destruct (tq_transfers_correct two_threads _ RQ 7 two_threads_inv) as (_ & (s' & E & Hs & _) & _); [intros q; reflexivity|].
  exists s'. split; [exact E|exact Hs].
Defined.

Lemma sched0_round_robin_witness : ∃ s', yields 3 two_threads = Ok (tt, s') ∧ current s' = 1.
Proof.
  destruct (sched0_round_robin two_threads _ [1; 2] 2 two_threads_inv) as (s' & E & Hc & _);
    [intros q; reflexivity|reflexivity|discriminate|].
  exists s'. split; [exact E|]. injection Hc as <-. reflexivity.
Defined.

Lemma sched0_correct_witness : ∃ s', sched0_tick true two_threads = Ok (tt, s') ∧ current s' = 1.
Proof.
  destruct (sched0_correct two_threads _ 1 [2] two_threads_inv) as ((s' & E & Hc & _) & _);
    [intros q; reflexivity|reflexivity|vm_compute; intuition congruence|].
  exists s'. split; [exact E|]. rewrite Hc. reflexivity.
Defined.

(** *** Without the debugging spinlocks *)

(** [spin_trylock] then always answers 1, and the check of the insertions ends
    every one of them in bug(). *)
Example insert_without_debug :
  tq_insert_tail false 1 RQ (Sched empty_heap (λ _, Thread None 1 0 0 1) (λ _, 0) true 1 false None 0) = Bug.
Proof. reflexivity. Qed.
