(* ===== verification/Mutex.v ===== *)
(** * Sleeping locks (include/mutex.h, include/i386/atomic.h)

    A mutex is a word, 1 when free, and a queue of sleeping threads; mutex [m]
    has the queue [m].  [mutex_lock] is one turn of its loop: it acquires the
    mutex, or puts the running thread to sleep, lets another one run, and takes
    another turn when the thread runs again. *)

From S2P Require Import Prelude KList Sched.

Record mst := Mst { msch : sched; mword : Z → Z }.

Definition set_word (m v : Z) (s : mst) : mst :=
  Mst (msch s) (λ n, if decide (n = m) then v else mword s n).

(** Running code of the scheduler. *)
Definition on_sched {A} (m : M sched A) : M mst A := λ s,
  '(a, c) ← m (msch s); Ok (a, Mst c (mword s)).

Section mutex.
Context (debug : bool) (reg : option cpu_scheduler).
Implicit Types m : Z.

(* include/i386/atomic.h:50-59 ATOMIC_TEST_AND_SET *)
Definition atomic_test_and_set_u32 m (v : Z) : M mst Z :=
  old ← gets (λ s, mword s m); _ ← modify (set_word m v); mret old.

(* include/i386/atomic.h:84-84 orl *)
Definition atomic_set_u32 m (v : Z) : M mst unit :=
  modify (λ s, set_word m (Z.lor (mword s m) v) s).

(* include/mutex.h:31-35 mutex_init *)
Definition mutex_init m : M mst unit :=
  _ ← atomic_test_and_set_u32 m 1; on_sched (tq_init debug m).

(* include/mutex.h:41-44 mutex_trylock *)
Definition mutex_trylock m : M mst bool :=
  old ← atomic_test_and_set_u32 m 0; mret (bool_decide (old = 0)).

(* include/mutex.h:49-59 mutex_lock *)
Definition mutex_lock m : M mst bool :=
  busy ← mutex_trylock m;
  if (busy : bool) then
    _ ← on_sched (scheduler_dequeue reg m);
    _ ← on_sched (scheduler_yield reg);
    mret false
  else mret true.

(* include/mutex.h:64-72 mutex_unlock *)
Definition mutex_unlock m : M mst unit :=
  busy ← mutex_trylock m;
  _ ← bug_on (negb busy);
  _ ← on_sched (scheduler_enqueue reg m);
  atomic_set_u32 m 1.

(** ** Threads that use a mutex *)

(** The threads that hold mutex [m]: the running thread may take a turn of
    [mutex_lock], release a mutex it holds, or do anything that leaves the word
    alone (being preempted, sleeping, using other mutexes). *)
Inductive mstep m : mst * list Z → mst * list Z → Prop :=
| step_lock s hs s' :
    current (msch s) ∉ hs → mutex_lock m s = Ok (true, s') → mstep m (s, hs) (s', current (msch s) :: hs)
| step_sleep s hs s' :
    mutex_lock m s = Ok (false, s') → mstep m (s, hs) (s', hs)
| step_unlock s hs s' :
    current (msch s) ∈ hs → mutex_unlock m s = Ok (tt, s') →
    mstep m (s, hs) (s', filter (λ t, t ≠ current (msch s)) hs)
| step_other s hs s' : mword s' m = mword s m → mstep m (s, hs) (s', hs).

Definition exclusive m (c : mst * list Z) : Prop :=
  (mword c.1 m = 1 ∧ c.2 = []) ∨ (mword c.1 m = 0 ∧ ∃ t, c.2 = [t]).

Lemma on_sched_word {A} (k : M sched A) s a s' : on_sched k s = Ok (a, s') → mword s' = mword s.
Proof. unfold on_sched. intros H. bind_inv H as [b c] Hc. by injection H as _ <-. Qed.

Lemma lock_word m s b s' : mutex_lock m s = Ok (b, s') → mword s' m = 0 ∧ (b = true → mword s m ≠ 0).
Proof.
  unfold mutex_lock, mutex_trylock, atomic_test_and_set_u32. mrun. case_bool_decide as E.
  - intros H. apply bind_ok in H as (a1 & s1 & H1%on_sched_word & H). apply bind_ok in H as (a2 & s2 & H2%on_sched_word & H).
    injection H as <- <-. rewrite H2, H1. cbn. by rewrite decide_True.
  - intros [= <- <-]. cbn. by rewrite decide_True.
Qed.

Lemma unlock_word m s s' : mutex_unlock m s = Ok (tt, s') → mword s m = 0 ∧ mword s' m = 1.
Proof.
  unfold mutex_unlock, mutex_trylock, atomic_test_and_set_u32. mrun. case_bool_decide as E; [|done]. simpl negb. mrun.
  intros H. apply bind_ok in H as (a & s1 & H1%on_sched_word & H). injection H as <-. split; [done|].
  cbn. rewrite decide_True, H1 by done. cbn. by rewrite decide_True.
Qed.

Lemma exclusive_step m c c' : exclusive m c → mstep m c c' → exclusive m c'.
Proof.
  intros He Hs. destruct Hs as [s hs s' Hc H|s hs s' H|s hs s' Hc H|s hs s' Hw]; unfold exclusive in *; cbn [fst snd] in *.
  - apply lock_word in H as [Hw Hb]. specialize (Hb eq_refl). right. split; [done|].
    destruct He as [[_ ->]|[? _]]; [by eexists|congruence].
  - unfold mutex_lock, mutex_trylock, atomic_test_and_set_u32 in H. revert H. mrun. case_bool_decide as E; [|done].
    intros H. assert (mutex_lock m s = Ok (false, s')) as H'.
    { unfold mutex_lock, mutex_trylock, atomic_test_and_set_u32. mrun. by rewrite bool_decide_true. }
    apply lock_word in H' as [Hw _]. right. split; [done|]. destruct He as [[? _]|[_ ?]]; [congruence|done].
  - apply unlock_word in H as [H0 H1]. left. split; [done|]. destruct He as [[? _]|[_ [t ->]]]; [congruence|].
    apply list_elem_of_singleton in Hc as <-. cbn. by rewrite decide_False by (intros Hx; by apply Hx).
  - by rewrite Hw.
Qed.
End mutex.

(** ** Properties *)


(** under [sched0], locking a free mutex takes it at once; locking a held one
    puts the running thread at the end of the sleepers and runs another thread;
    unlocking wakes the first sleeper, at the front of the run queue; unlocking
    a free mutex is a bug(). *)
Theorem mutex_blocks_and_wakes s Q m h l :
  tinv (msch s) Q → quiet (msch s) → m ≠ RQ → Q RQ = h :: l →
  let reg := Some (sched0 true) in
  (mword s m = 1 → ∃ s', mutex_lock reg m s = Ok (true, s') ∧ mword s' m = 0 ∧ msch s' = msch s) ∧
  (∀ l1 l2 h1 h2 l', mword s m = 0 → h :: l = l1 ++ current (msch s) :: l2 → l1 ++ l2 = h1 :: h2 :: l' →
     ∃ s', mutex_lock reg m s = Ok (false, s') ∧ current (msch s') = h2 ∧ quiet (msch s') ∧
       tinv (msch s') (upd (upd Q RQ (l' ++ [h1; h2])) m (Q m ++ [current (msch s)]))) ∧
  (∀ t ts, mword s m = 0 → Q m = t :: ts →
     ∃ s', mutex_unlock reg m s = Ok (tt, s') ∧ mword s' m = 1 ∧ quiet (msch s') ∧
       tinv (msch s') (upd (upd Q m ts) RQ (t :: h :: l))) ∧
  (mword s m ≠ 0 → mutex_unlock reg m s = Bug).
Proof.
  intros H Hq Hm E reg. unfold mutex_lock, mutex_unlock, mutex_trylock, atomic_test_and_set_u32. split_and!.
  - intros Hw. mrun. rewrite Hw. rewrite bool_decide_false by done. eexists. split; [done|]. cbn. by rewrite decide_True.
  - intros l1 l2 h1 h2 l' Hw El Eh. mrun. rewrite bool_decide_true by done. rewrite El in E.
    destruct (dequeue_run (msch s) Q m _ l1 l2 h1 (h2 :: l') H Hq eq_refl E Eh Hm) as (s1 & E1 & Hq1 & _ & Hc1 & H1 & _).
    set (s0 := set_word m 0 s).
    assert (on_sched (scheduler_dequeue reg m) s0 = Ok (tt, Mst s1 (mword s0))) as Ed.
    { unfold on_sched. change (scheduler_dequeue reg m (msch s0)) with (sched0_dequeue true m (msch s)). by rewrite E1. }
    rewrite (bind_run _ _ _ _ _ Ed).
    destruct (yield_run s1 _ h2 (l' ++ [h1]) H1 Hq1) as (s2 & E2 & H2 & Hq2 & Hc2 & _).
    { rewrite upd_ne, upd_eq by done. done. }
    assert (on_sched (scheduler_yield reg) (Mst s1 (mword s0)) = Ok (tt, Mst s2 (mword s0))) as Ey.
    { unfold on_sched. change (scheduler_yield reg (msch (Mst s1 (mword s0)))) with (sched0_yield true s1). by rewrite E2. }
    rewrite (bind_run _ _ _ _ _ Ey). eexists. split; [done|]. split; [done|]. split; [done|].
    eapply tinv_lists; [|exact H2]. intros q. unfold upd. repeat case_decide; try congruence. by rewrite <- app_assoc.
  - intros t ts Hw Et. mrun. rewrite bool_decide_true by done. simpl negb. mrun.
    destruct (enqueue_run (msch s) Q m t ts H Hq Et Hm) as (s1 & E1 & Hq1 & _ & _ & H1 & _).
    set (s0 := set_word m 0 s).
    assert (on_sched (scheduler_enqueue reg m) s0 = Ok (true, Mst s1 (mword s0))) as Ee.
    { unfold on_sched. change (scheduler_enqueue reg m (msch s0)) with (sched0_enqueue true m (msch s)). by rewrite E1. }
    rewrite (bind_run _ _ _ _ _ Ee). eexists. split; [done|]. rewrite E in H1. split; [|done].
    cbn. rewrite !decide_True by done. done.
  - intros Hw. mrun. by rewrite bool_decide_false.
Qed.

Definition mutex2 (w : Z) : mst := Mst two_threads (λ _, w).


Lemma mutex_blocks_and_wakes_witness :
  ∃ s', mutex_lock (Some (sched0 true)) 7 (mutex2 1) = Ok (true, s') ∧ mword s' 7 = 0.
Proof.
  destruct (mutex_blocks_and_wakes (mutex2 1) _ 7 1 [2] two_threads_inv) as (H & _);
    [intros q; reflexivity|discriminate|reflexivity|].
  destruct (H eq_refl) as (s' & E & Hw & _). exists s'. split; [exact E|exact Hw].
Defined.
