(* ===== verification/Timers.v ===== *)
(** * Sleeping for a time (kernel/timecore.c)

    The queue [future] holds intervals, each with the ticks left after the
    interval before it and the queue of the threads to wake; the queue of the
    interval at address [a] is the thread queue [a].  [future] is the list view
    of its klist0 list.  The intervals are slices of a pool over any page
    source.

    [due] turns the ticks left into times from now; [tsleep] inserts the asked
    time and leaves the others alone. *)

From S2P Require Import Prelude KList Bitmap Klib Buddy PageAlloc Slice Kqueue Sched.

(* kernel/timecore.c:31-35 time_interval *)
Record time_interval := Interval { iaddr : Z; ticks_left : Z }.

Record tst (S : Type) := Tst {
  tsl : slst S; tsch : sched; future : list time_interval; fcounter : Z; interval_pool : Z }.
Arguments Tst {S}.
Arguments tsl {S}.
Arguments tsch {S}.
Arguments future {S}.
Arguments fcounter {S}.
Arguments interval_pool {S}.

Section timers.
Context {S : Type} `{PS : PageSource S} (debug : bool) (reg : option cpu_scheduler).
Implicit Types s : tst S.

Definition with_tsch (c : sched) s : tst S := Tst (tsl s) c (future s) (fcounter s) (interval_pool s).
Definition with_tsl (c : slst S) s : tst S := Tst c (tsch s) (future s) (fcounter s) (interval_pool s).
Definition with_future (l : list time_interval) s : tst S := Tst (tsl s) (tsch s) l (fcounter s) (interval_pool s).
Definition with_fcounter (c : Z) s : tst S := Tst (tsl s) (tsch s) (future s) c (interval_pool s).
Definition on_tsch {A} (m : M sched A) : M (tst S) A := λ s, '(a, c) ← m (tsch s); Ok (a, with_tsch c s).

(** [spin_lock] and [spin_unlock] of [future_lock]. *)
Definition lock_future : M (tst S) unit := λ s,
  if debug then if decide (fcounter s ≠ 0) then Bug else Ok (tt, with_fcounter 1 s) else Ok (tt, s).
Definition unlock_future : M (tst S) unit := λ s,
  if debug then if decide (fcounter s ≠ 1) then Bug else Ok (tt, with_fcounter 0 s) else Ok (tt, s).

(** A spin lock has a counter, of 4 bytes, only with debugging. *)
(* kernel/timecore.c:43-49 timers_init *)
Definition timers_init : M (tst S) unit := λ s,
  '(p, c) ← slice_pool_create 0 (if debug then 24 else 20) (tsl s);
  match p with
  | Some p => Ok (tt, Tst c (tsch s) [] (if debug then 0 else fcounter s) p)
  | None => Bug
  end.

(** [while (scheduler_enqueue(&interval->wake_list));] *)
Fixpoint wake_all (fuel : nat) (q : Z) : M sched unit :=
  match fuel with
  | O => hang
  | Datatypes.S f => b ← scheduler_enqueue reg q; if (b : bool) then wake_all f q else mret tt
  end.

(** One tick of the first interval, and the interval that is over. *)
Definition expire (f : list time_interval) : list time_interval * option Z :=
  match f with
  | [] => ([], None)
  | i :: l => if decide (ticks_left i = 0) then (l, Some (iaddr i))
              else (Interval (iaddr i) (ticks_left i - 1) :: l, None)
  end.

Definition free_interval (fuel : nat) (a : Z) : M (tst S) unit := λ s,
  c ← slice_free fuel a (interval_pool s) (tsl s); Ok (tt, with_tsl c s).

(* kernel/timecore.c:51-75 update_timers *)
Definition update_timers (fuel : nat) : M (tst S) unit :=
  _ ← lock_future;
  f ← gets future;
  _ ← modify (with_future (expire f).1);
  _ ← unlock_future;
  match (expire f).2 with
  | Some a => _ ← on_tsch (wake_all fuel a); free_interval fuel a
  | None => mret tt
  end.

(** A new interval: its structure, with an empty queue. *)
Definition new_interval : M (tst S) (option Z) := λ s,
  '(p, c) ← slice_alloc (interval_pool s) (tsl s);
  match p with
  | None => Ok (None, with_tsl c s)
  | Some a => '(_, sc) ← tq_init debug a (tsch s); Ok (Some a, with_tsch sc (with_tsl c s))
  end.

(** The loop of [tsleep] and what follows it, up to the label [out]; [false]
    stands for the return of -ENOMEM on the way. *)
Fixpoint sleep_loop (pre l : list time_interval) (delay : Z) : M (tst S) bool :=
  match l with
  | [] =>
      n ← new_interval;
      match n with
      | None => mret false
      | Some a =>
          _ ← modify (with_future (pre ++ [Interval a delay]));
          _ ← on_tsch (scheduler_dequeue reg a);
          mret true
      end
  | i :: l =>
      if decide (delay < ticks_left i) then
        _ ← modify (with_future (pre ++ Interval (iaddr i) (ticks_left i - delay) :: l));
        n ← new_interval;
        match n with
        | None => mret false
        | Some a =>
            _ ← modify (with_future (pre ++ Interval a delay :: Interval (iaddr i) (ticks_left i - delay) :: l));
            _ ← on_tsch (scheduler_dequeue reg a);
            mret true
        end
      else if decide (delay = ticks_left i) then
        _ ← on_tsch (scheduler_dequeue reg (iaddr i)); mret true
      else sleep_loop (pre ++ [i]) l (delay - ticks_left i)
  end.

(* kernel/timecore.c:77-128 tsleep *)
Definition tsleep (delay : Z) : M (tst S) Z :=
  f ← on_tsch local_irq_save;
  _ ← lock_future;
  l ← gets future;
  b ← sleep_loop [] l delay;
  if (b : bool) then
    _ ← unlock_future;
    _ ← on_tsch (local_irq_restore f);
    _ ← on_tsch (scheduler_yield reg);
    mret 0
  else mret (- ENOMEM).
End timers.

(** ** Times *)

(** The time of every interval, counted from now. *)
Fixpoint due (now : Z) (l : list time_interval) : list (Z * Z) :=
  match l with
  | [] => []
  | i :: l => (iaddr i, now + ticks_left i) :: due (now + ticks_left i) l
  end.

Definition ticks_ok (l : list time_interval) : Prop := Forall (λ i, 0 ≤ ticks_left i) l.

Definition total (l : list time_interval) : Z := foldr (λ i z, ticks_left i + z) 0 l.

Lemma due_app now l1 l2 : due now (l1 ++ l2) = due now l1 ++ due (now + total l1) l2.
Proof.
  revert now. induction l1 as [|i l1 IH]; intros now.
  { cbn. by rewrite Z.add_0_r. }
  cbn [app due total foldr]. rewrite IH. fold (total l1). cbn [app]. do 2 f_equal. f_equal. lia.
Qed.
Lemma due_cons now i l : due now (i :: l) = (iaddr i, now + ticks_left i) :: due (now + ticks_left i) l.
Proof. done. Qed.
Lemma due_addr now l b t : (b, t) ∈ due now l → ∃ i, i ∈ l ∧ iaddr i = b.
Proof.
  revert now. induction l as [|i l IH]; intros now; [by intros ?%elem_of_nil|]. rewrite due_cons.
  intros [[= -> _]|Hin]%elem_of_cons; [exists i; split; [left|done]|].
  destruct (IH _ Hin) as (j & ? & ?). exists j. split; [by right|done].
Qed.
Lemma total_snoc l i : total (l ++ [i]) = total l + ticks_left i.
Proof. induction l as [|j l IH]; cbn [app total foldr]; [lia|]. fold (total l). fold (total (l ++ [i])). lia. Qed.


Section spec.
Context {S : Type} `{PS : PageSource S}.
Implicit Types s : tst S.

Lemma on_tsch_run {A} (m : M sched A) s a c : m (tsch s) = Ok (a, c) → on_tsch m s = Ok (a, with_tsch c s).
Proof. intros E. unfold on_tsch. by rewrite E. Qed.

Lemma new_interval_run s Q a c :
  slice_alloc (interval_pool s) (tsl s) = Ok (Some a, c) → tinv (tsch s) Q → quiet (tsch s) → Q a = [] →
  ∃ sc, new_interval true s = Ok (Some a, with_tsch sc (with_tsl c s)) ∧ tinv sc Q ∧ quiet sc ∧
    current sc = current (tsch s) ∧ irqs sc = irqs (tsch s).
Proof.
  intros E H Hq Ha. unfold new_interval. rewrite E. eexists. split; [done|]. split.
  - apply tinv_counter, tinv_init; done.
  - split; [|done]. intros r. rewrite counter_with. by case_decide; [|apply Hq].
Qed.

(** The running thread can be put to sleep: another one is in the run queue. *)
Definition can_sleep (c : sched) (Q : Z → list Z) (h : Z) (r : list Z) : Prop :=
  ∃ l1 l2, Q RQ = l1 ++ current c :: l2 ∧ l1 ++ l2 = h :: r.

(** What the loop of [tsleep] does to the times: a new interval with the asked
    time, or an old one that has it. *)
Definition slept (T a b : Z) (f f' : list time_interval) : Prop :=
  (∃ d1 d2, b = a ∧ due 0 f = d1 ++ d2 ∧ due 0 f' = d1 ++ (a, T) :: d2) ∨ (f' = f ∧ (b, T) ∈ due 0 f).

Lemma sleep_loop_spec pre l delay s Q h r a c :
  tinv (tsch s) Q → quiet (tsch s) → future s = pre ++ l → can_sleep (tsch s) Q h r →
  slice_alloc (interval_pool s) (tsl s) = Ok (Some a, c) → a ≠ RQ → Q a = [] →
  Forall (λ i, iaddr i ≠ RQ) l →
  ∃ s' b, sleep_loop true (Some (sched0 true)) pre l delay s = Ok (true, s') ∧ quiet (tsch s') ∧ fcounter s' = fcounter s ∧
    current (tsch s') = current (tsch s) ∧ irqs (tsch s') = irqs (tsch s) ∧
    tinv (tsch s') (upd (upd Q RQ (r ++ [h])) b (Q b ++ [current (tsch s)])) ∧
    slept (total pre + delay) a b (pre ++ l) (future s').
Proof.
  intros H Hq Hf (l1 & l2 & El & Eh) Hal Ha Hqa. revert pre delay Hf.
  assert (∀ b sc, b ≠ RQ → tinv sc Q → quiet sc → current sc = current (tsch s) → irqs sc = irqs (tsch s) →
    ∃ sc', scheduler_dequeue (Some (sched0 true)) b sc = Ok (tt, sc') ∧ quiet sc' ∧ current sc' = current (tsch s) ∧
      irqs sc' = irqs (tsch s) ∧ tinv sc' (upd (upd Q RQ (r ++ [h])) b (Q b ++ [current (tsch s)]))) as Hdeq.
  { intros b sc Hb H' Hq' Hc' Hi'. rewrite <- Hc' in El.
    destruct (dequeue_run sc Q b _ l1 l2 h r H' Hq' eq_refl El Eh Hb) as (sc' & E & ? & ? & ? & ? & _).
    exists sc'. rewrite <- Hc'. split; [exact E|]. split; [done|]. split; [done|]. split; [congruence|done]. }
  induction l as [|i l IH]; intros pre delay Hf Hi.
  - cbn [sleep_loop]. destruct (new_interval_run s Q a c Hal H Hq Hqa) as (sc & En & H' & Hq' & Hc' & Hi').
    mbind_with En. set (s1 := with_future _ _).
    destruct (Hdeq a sc Ha H' Hq' Hc' Hi') as (sc' & Ed & Hq2 & Hc2 & Hi2 & H2).
    mbind_with (on_tsch_run _ s1 _ _ Ed). exists (with_tsch sc' s1), a. split; [done|].
    split_and!; try done. left. rewrite app_nil_r. exists (due 0 pre), []. rewrite app_nil_r. split; [done|]. split; [done|].
    cbn. by rewrite due_app.
  - apply Forall_cons in Hi as [Hi Hl]. cbn [sleep_loop]. destruct (decide (delay < ticks_left i)) as [Hlt|Hge].
    + mrun. set (s0 := with_future _ s).
      destruct (new_interval_run s0 Q a c Hal H Hq Hqa) as (sc & En & H' & Hq' & Hc' & Hi').
      mbind_with En. set (s1 := with_future _ _).
      destruct (Hdeq a sc Ha H' Hq' Hc' Hi') as (sc' & Ed & Hq2 & Hc2 & Hi2 & H2).
      mbind_with (on_tsch_run _ s1 _ _ Ed). exists (with_tsch sc' s1), a. split; [done|].
      split_and!; try done. left. exists (due 0 pre), (due (total pre) (i :: l)). split; [done|].
      rewrite due_app. split; [done|]. cbn [future with_tsch s1 with_future]. rewrite due_app, !due_cons. cbn [iaddr ticks_left].
      rewrite Z.add_0_l. do 2 f_equal. f_equal; [f_equal; lia|]. f_equal. lia.
    + destruct (decide (delay = ticks_left i)) as [->|Hne].
      * destruct (Hdeq (iaddr i) (tsch s) Hi H Hq eq_refl eq_refl) as (sc' & Ed & Hq2 & Hc2 & Hi2 & H2).
        mbind_with (on_tsch_run _ s _ _ Ed). exists (with_tsch sc' s), (iaddr i). split; [done|].
        split_and!; try done. right. split; [done|]. rewrite due_app, due_cons. apply elem_of_app. right. left.
      * destruct (IH (pre ++ [i]) (delay - ticks_left i)) as (s' & b & E & ? & ? & ? & ? & ? & Hs); [by rewrite <- app_assoc|done|].
        exists s', b. split; [exact E|]. split_and!; try done.
        rewrite total_snoc, <- app_assoc in Hs. cbn [app] in Hs.
        by replace (total pre + delay) with (total pre + ticks_left i + (delay - ticks_left i)) by lia.
Qed.

(** All threads of a queue are moved to the front of the run queue. *)
Lemma wake_all_run fuel sc Q a ws :
  tinv sc Q → quiet sc → a ≠ RQ → Q a = ws → (length ws < fuel)%nat →
  ∃ sc', wake_all (Some (sched0 true)) fuel a sc = Ok (tt, sc') ∧ quiet sc' ∧ current sc' = current sc ∧
    tinv sc' (upd (upd Q a []) RQ (reverse ws ++ Q RQ)).
Proof.
  intros H Hq Ha. revert fuel sc Q H Hq. induction ws as [|w ws IH]; intros fuel sc Q H Hq Ew Hf.
  - destruct fuel as [|f]; [simpl in Hf; lia|]. cbn [wake_all].
    destruct (enqueue_none sc Q a H Hq Ew) as (sc' & E & Hs & H').
    assert (scheduler_enqueue (Some (sched0 true)) a sc = Ok (false, sc')) as E' by exact E.
    mbind_with E'. exists sc'. split; [done|]. split; [by eapply same_quiet|]. split; [apply Hs|].
    eapply tinv_lists; [|exact H']. intros q. unfold upd. rewrite reverse_nil. repeat case_decide; subst; done.
  - destruct fuel as [|f]; [simpl in Hf; lia|]. cbn [wake_all].
    destruct (enqueue_run sc Q a w ws H Hq Ew Ha) as (sc1 & E & Hq1 & _ & Hc1 & H1 & _).
    assert (scheduler_enqueue (Some (sched0 true)) a sc = Ok (true, sc1)) as E' by exact E.
    mbind_with E'. destruct (IH f sc1 _ H1 Hq1) as (sc' & E2 & Hq2 & Hc2 & H2).
    { rewrite upd_ne, upd_eq by done. done. }
    { simpl in Hf. lia. }
    exists sc'. split; [exact E2|]. split; [done|]. split; [congruence|]. eapply tinv_lists; [|exact H2].
    intros q. unfold upd. repeat case_decide; try congruence. rewrite reverse_cons, <- app_assoc. done.
Qed.
End spec.

(** *** Ticks *)

Fixpoint ticked (k : nat) (f : list time_interval) : list time_interval :=
  match k with O => f | S k => ticked k (expire f).1 end.

Lemma ticked_add j k f : ticked (j + k) f = ticked k (ticked j f).
Proof. revert f. induction j as [|j IH]; intros f; [done|]. cbn. apply IH. Qed.

Lemma ticked_first n i l : ticks_left i = Z.of_nat n → ticked n (i :: l) = Interval (iaddr i) 0 :: l.
Proof.
  revert i. induction n as [|n IH]; intros i Hn.
  - cbn. destruct i. simpl in *. by subst.
  - cbn [ticked expire]. rewrite decide_False by lia. cbn [fst]. rewrite IH by (simpl; lia). done.
Qed.

Lemma ticked_prefix l1 l2 :
  ticks_ok l1 → ticked (Z.to_nat (total l1) + length l1) (l1 ++ l2) = l2.
Proof.
  unfold ticks_ok. induction l1 as [|i l1 IH]; intros Hok; [done|]. apply Forall_cons in Hok as [Hi Hok].
  cbn [total foldr app length]. fold (total l1).
  assert (0 ≤ total l1) by (clear -Hok; induction Hok as [|j l Hj _ IH]; [done|]; cbn [total foldr]; fold (total l); lia).
  replace (Z.to_nat (ticks_left i + total l1) + S (length l1))%nat
    with (Z.to_nat (ticks_left i) + (1 + (Z.to_nat (total l1) + length l1)))%nat by lia.
  rewrite ticked_add, (ticked_first (Z.to_nat (ticks_left i))) by lia. cbn [ticked expire plus].
  cbn [ticks_left iaddr]. rewrite decide_True by done. by apply IH.
Qed.

(** ** Properties *)

(** [tsleep] puts the running thread to sleep in an interval whose time is
    the delay it asked for, a new one or one that has that time already, leaves
    the times of all other intervals alone, and runs another thread. *)
Theorem tsleep_keeps_times {S} `{PS : PageSource S} (s : tst S) Q delay h r a c :
  tinv (tsch s) Q → quiet (tsch s) → fcounter s = 0 → can_sleep (tsch s) Q h r →
  slice_alloc (interval_pool s) (tsl s) = Ok (Some a, c) → a ≠ RQ → Q a = [] →
  Forall (λ i, iaddr i ≠ RQ) (future s) →
  ∃ s' b h' r', tsleep true (Some (sched0 true)) delay s = Ok (0, s') ∧ r ++ [h] = h' :: r' ∧ b ≠ RQ ∧
    current (tsch s') = h' ∧ quiet (tsch s') ∧ fcounter s' = 0 ∧
    tinv (tsch s') (upd (upd Q RQ (r' ++ [h'])) b (Q b ++ [current (tsch s)])) ∧
    slept delay a b (future s) (future s').
Proof.
  intros H Hq Hfc Hcs Hal Ha Hqa Hi. destruct (r ++ [h]) as [|h' r'] eqn:Er; [by destruct r|].
  unfold tsleep. set (s0 := with_tsch (with_irqs false (tsch s)) s).
  assert (on_tsch local_irq_save s = Ok (irqs (tsch s), s0)) as E0 by done. mbind_with E0.
  assert (lock_future true s0 = Ok (tt, with_fcounter 1 s0)) as E1 by (unfold lock_future; cbn; by rewrite Hfc).
  mbind_with E1. set (s1 := with_fcounter 1 s0).
  destruct (sleep_loop_spec [] (future s) delay s1 Q h r a c) as (s2 & b & E2 & Hq2 & Hf2 & Hc2 & Hi2 & H2 & Hs2);
    [by apply tinv_irqs|exact Hq|done|exact Hcs|exact Hal|done..|].
  assert (b ≠ RQ) as Hb.
  { destruct Hs2 as [(? & ? & -> & _)|[_ Hin]]; [done|]. apply due_addr in Hin as (i & Hin & <-).
    rewrite Forall_forall in Hi. by apply Hi. }
  change (future s1) with (future s). mbind_with E2. cbv beta iota.
  assert (unlock_future true s2 = Ok (tt, with_fcounter 0 s2)) as E3 by (unfold unlock_future; by rewrite Hf2).
  mbind_with E3. mrun. set (s3 := with_fcounter 0 s2).
  assert (on_tsch (local_irq_restore (irqs (tsch s))) s3 = Ok (tt, with_tsch (with_irqs (irqs (tsch s)) (tsch s3)) s3)) as E4 by done.
  mbind_with E4. set (s4 := with_tsch _ s3).
  destruct (yield_run (tsch s4) _ h' r' (tinv_irqs _ _ _ H2) Hq2) as (sc & E5 & H5 & Hq5 & Hc5 & _).
  { rewrite upd_ne, upd_eq by done. exact Er. }
  assert (scheduler_yield (Some (sched0 true)) (tsch s4) = Ok (tt, sc)) as E5' by exact E5.
  mbind_with (on_tsch_run _ s4 _ _ E5'). exists (with_tsch sc s4), b, h', r'. split; [done|]. split; [done|]. split; [done|].
  split; [done|]. split; [done|]. split; [done|]. split; [|exact Hs2].
  eapply tinv_lists; [|exact H5]. intros q. cbn [current s1 s0 with_fcounter with_tsch tsch with_irqs].
  unfold upd. repeat case_decide; congruence.
Qed.


(** *** Instances *)

(** Two threads, no interval yet, one free frame for the pool. *)
Definition timers2 : tst (list Z) :=
  Tst (Sl [8192] empty_heap (λ _ _, 0) (λ _, SlicePool 20 0)) two_threads [] 0 0.

Lemma tsleep_keeps_times_witness :
  ∃ s' a, tsleep true (Some (sched0 true)) 5 timers2 = Ok (0, s') ∧ current (tsch s') = 2 ∧ due 0 (future s') = [(a, 5)].
Proof.
  assert (fst <$> slice_alloc 0 (tsl timers2) = Ok (Some (8192 + 202 * 20))) as E by (vm_compute; reflexivity).
  destruct (slice_alloc 0 (tsl timers2)) as [[p c]| | |] eqn:Es; try discriminate. injection E as ->.
  destruct (tsleep_keeps_times timers2 _ 5 2 [] (8192 + 202 * 20) c two_threads_inv) as (s' & b & h' & r' & Er & Eh & _ & Hc & _ & _ & _ & Hs);
    [intros q; reflexivity|reflexivity|exists [], [2]; split; reflexivity|exact Es|discriminate|reflexivity|constructor|].
  injection Eh as <- <-. exists s', (8192 + 202 * 20). split; [exact Er|]. split; [exact Hc|].
  destruct Hs as [(d1 & d2 & -> & E1 & E2)|[_ Hin]]; [|by apply elem_of_nil in Hin].
  symmetry in E1. apply app_eq_nil in E1 as [-> ->]. exact E2.
Defined.


(** *** Out of memory *)

(** When no interval can be allocated [tsleep] returns with [future_lock] held
    and interrupts off: the next tick ends in bug(). *)
Example tsleep_keeps_lock :
  match tsleep true (Some (sched0 true)) 5
          (Tst (Sl ([] : list Z) empty_heap (λ _ _, 0) (λ _, SlicePool 20 0)) two_threads [] 0 0) with
  | Ok (r, s) => r = - ENOMEM ∧ irqs (tsch s) = false ∧ update_timers true (Some (sched0 true)) 5 s = Bug
  | _ => False
  end.
Proof. vm_compute. done. Qed.
