(* ===== verification/Vfs.v ===== *)
(** * The file system core (kernel/fs/super.c, inode.c, namespace.c, mount.c, device.c, virtfs.c)

    Superblocks, inodes, directory entries, mounts, devices and entries of
    the virtual file system are structures by address.  A klist0 list of
    structures is the list of their addresses in order ([klist0_append] links
    at the front).  Names are byte strings without their NUL; a name in an
    array is terminated when it is shorter than the array, and the kernel's
    string functions read past the end of an empty string.  The answers of
    the general allocator and of the slice pools are the list [v_heap].

    Tables of methods are tags; the operations the tables hold are dispatched
    on the tag. *)

From Stdlib Require Import Ascii String.
From S2P Require Import Prelude Bitmap Klib.

(** The bytes of a string constant. *)
Definition bytes (s : string) : list Z := (λ a, Z.of_nat (nat_of_ascii a)) <$> list_ascii_of_string s.
Arguments bytes s%_string.

Definition NULL : Z := 0.

(** The structure at an address; a fault when there is none. *)
Definition deref {S A} (m : S → gmap Z A) (p : Z) : M S A := λ s,
  match m s !! p with Some a => Ok (a, s) | None => Fault end.

(* include/khui/fs.h:25-25 FILENAME_MAX *)
Definition FILENAME_MAX : Z := 256.
(* include/device.h:24-24 NODEV *)
Definition NODEV : Z := 0.
(* include/device.h:25-25 ROOTFSDEV *)
Definition ROOTFSDEV : Z := 1.
(* include/device.h:26-26 VIRTFSDEV *)
Definition VIRTFSDEV : Z := 2.
(* include/device.h:30-31 DEV_MAJOR_BITS *)
Definition DEV_MAJOR_BITS : Z := 16.
Definition DEV_MINOR_BITS : Z := 4 * 8 - DEV_MAJOR_BITS.
(* include/device.h:33-37 DEV_MAJOR *)
Definition DEV_MAJOR (d : Z) : Z := Z.land (Z.shiftr d DEV_MAJOR_BITS) (Z.shiftl 1 DEV_MAJOR_BITS - 1).
(* include/device.h:38-38 DEV_MINOR *)
Definition DEV_MINOR (d : Z) : Z := Z.land d (Z.shiftl 1 DEV_MINOR_BITS - 1).
(* include/device.h:40-45 DEV_DEVICE *)
Definition DEV_DEVICE (maj min : Z) : Z := Z.lor (u32 (Z.shiftl maj DEV_MAJOR_BITS)) min.
(* include/device.h:47-47 DEVNAME_MAX *)
Definition DEVNAME_MAX : Z := 32.

(* include/khui/stat.h:31-31 S_IFMT *)
Definition S_IFMT : Z := 0xF000.
(* include/khui/stat.h:34-34 S_IFREG *)
Definition S_IFREG : Z := 0x8000.
(* include/khui/stat.h:36-36 S_IFDIR *)
Definition S_IFDIR : Z := 0x4000.
(* include/khui/stat.h:37-37 S_IFCHR *)
Definition S_IFCHR : Z := 0x2000.
(* include/khui/stat.h:38-38 S_IFIFO *)
Definition S_IFIFO : Z := 0x1000.
(* include/khui/stat.h:44-44 S_ISREG *)
Definition S_ISREG (m : Z) : bool := bool_decide (Z.land m S_IFMT = S_IFREG).
(* include/khui/stat.h:45-45 S_ISDIR *)
Definition S_ISDIR (m : Z) : bool := bool_decide (Z.land m S_IFMT = S_IFDIR).
(* include/khui/stat.h:46-46 S_ISCHR *)
Definition S_ISCHR (m : Z) : bool := bool_decide (Z.land m S_IFMT = S_IFCHR).

(** Tables of methods: inode, file, superblock and virtfs operations.  The
    file operations of a device driver are known by a number. *)
Inductive iops := NullIops | GenericIops | VirtfsIops.
Inductive fops := NullFops | GenericFops | VirtfsFops | DriverFops (n : Z).
Inductive sops := GenericSops | VirtfsSops.
Inductive veops := VeopsNop | VeopsProc | VeopsDev.
#[global] Instance iops_eq_dec : EqDecision iops.
Proof. solve_decision. Defined.
#[global] Instance fops_eq_dec : EqDecision fops.
Proof. solve_decision. Defined.

(* include/super.h:39-49 superblock *)
Record superblock := Super {
  s_ilist : list Z; s_root : Z; s_magic : Z; s_inodes : Z; s_dev : Z; s_flags : Z; s_ops : sops; s_iops : iops }.
Definition set_s_ilist (v : list Z) (b : superblock) : superblock :=
  Super v (s_root b) (s_magic b) (s_inodes b) (s_dev b) (s_flags b) (s_ops b) (s_iops b).
Definition set_s_root (v : Z) (b : superblock) : superblock :=
  Super (s_ilist b) v (s_magic b) (s_inodes b) (s_dev b) (s_flags b) (s_ops b) (s_iops b).
Definition set_s_ops (v : sops) (b : superblock) : superblock :=
  Super (s_ilist b) (s_root b) (s_magic b) (s_inodes b) (s_dev b) (s_flags b) v (s_iops b).
Definition set_s_iops (v : iops) (b : superblock) : superblock :=
  Super (s_ilist b) (s_root b) (s_magic b) (s_inodes b) (s_dev b) (s_flags b) (s_ops b) v.

(* include/inode.h:34-76 inode *)
Record inode := Inode {
  i_dent : list Z; i_sb : Z; i_mount : Z; i_private : Z; i_state : Z; i_ino : Z; i_refcnt : Z; i_mode : Z; i_dev : Z; i_size : Z; i_nlinks : Z; i_uid : Z; i_gid : Z; i_atime : Z; i_ctime : Z; i_mtime : Z; i_ctl : Z; i_pages : list Z; i_filled : Z; i_children : list Z; i_parent : Z; i_ops : iops; i_fops : fops }.
Definition set_i_dent (v : list Z) (i : inode) : inode :=
  Inode v (i_sb i) (i_mount i) (i_private i) (i_state i) (i_ino i) (i_refcnt i) (i_mode i) (i_dev i) (i_size i) (i_nlinks i) (i_uid i) (i_gid i) (i_atime i) (i_ctime i) (i_mtime i) (i_ctl i) (i_pages i) (i_filled i) (i_children i) (i_parent i) (i_ops i) (i_fops i).
Definition set_i_mount (v : Z) (i : inode) : inode :=
  Inode (i_dent i) (i_sb i) v (i_private i) (i_state i) (i_ino i) (i_refcnt i) (i_mode i) (i_dev i) (i_size i) (i_nlinks i) (i_uid i) (i_gid i) (i_atime i) (i_ctime i) (i_mtime i) (i_ctl i) (i_pages i) (i_filled i) (i_children i) (i_parent i) (i_ops i) (i_fops i).
Definition set_i_private (v : Z) (i : inode) : inode :=
  Inode (i_dent i) (i_sb i) (i_mount i) v (i_state i) (i_ino i) (i_refcnt i) (i_mode i) (i_dev i) (i_size i) (i_nlinks i) (i_uid i) (i_gid i) (i_atime i) (i_ctime i) (i_mtime i) (i_ctl i) (i_pages i) (i_filled i) (i_children i) (i_parent i) (i_ops i) (i_fops i).
Definition set_i_ino (v : Z) (i : inode) : inode :=
  Inode (i_dent i) (i_sb i) (i_mount i) (i_private i) (i_state i) v (i_refcnt i) (i_mode i) (i_dev i) (i_size i) (i_nlinks i) (i_uid i) (i_gid i) (i_atime i) (i_ctime i) (i_mtime i) (i_ctl i) (i_pages i) (i_filled i) (i_children i) (i_parent i) (i_ops i) (i_fops i).
Definition set_i_refcnt (v : Z) (i : inode) : inode :=
  Inode (i_dent i) (i_sb i) (i_mount i) (i_private i) (i_state i) (i_ino i) v (i_mode i) (i_dev i) (i_size i) (i_nlinks i) (i_uid i) (i_gid i) (i_atime i) (i_ctime i) (i_mtime i) (i_ctl i) (i_pages i) (i_filled i) (i_children i) (i_parent i) (i_ops i) (i_fops i).
Definition set_i_mode (v : Z) (i : inode) : inode :=
  Inode (i_dent i) (i_sb i) (i_mount i) (i_private i) (i_state i) (i_ino i) (i_refcnt i) v (i_dev i) (i_size i) (i_nlinks i) (i_uid i) (i_gid i) (i_atime i) (i_ctime i) (i_mtime i) (i_ctl i) (i_pages i) (i_filled i) (i_children i) (i_parent i) (i_ops i) (i_fops i).
Definition set_i_dev (v : Z) (i : inode) : inode :=
  Inode (i_dent i) (i_sb i) (i_mount i) (i_private i) (i_state i) (i_ino i) (i_refcnt i) (i_mode i) v (i_size i) (i_nlinks i) (i_uid i) (i_gid i) (i_atime i) (i_ctime i) (i_mtime i) (i_ctl i) (i_pages i) (i_filled i) (i_children i) (i_parent i) (i_ops i) (i_fops i).
Definition set_i_size (v : Z) (i : inode) : inode :=
  Inode (i_dent i) (i_sb i) (i_mount i) (i_private i) (i_state i) (i_ino i) (i_refcnt i) (i_mode i) (i_dev i) v (i_nlinks i) (i_uid i) (i_gid i) (i_atime i) (i_ctime i) (i_mtime i) (i_ctl i) (i_pages i) (i_filled i) (i_children i) (i_parent i) (i_ops i) (i_fops i).
Definition set_i_ctl (v : Z) (i : inode) : inode :=
  Inode (i_dent i) (i_sb i) (i_mount i) (i_private i) (i_state i) (i_ino i) (i_refcnt i) (i_mode i) (i_dev i) (i_size i) (i_nlinks i) (i_uid i) (i_gid i) (i_atime i) (i_ctime i) (i_mtime i) v (i_pages i) (i_filled i) (i_children i) (i_parent i) (i_ops i) (i_fops i).
Definition set_i_pages (v : list Z) (i : inode) : inode :=
  Inode (i_dent i) (i_sb i) (i_mount i) (i_private i) (i_state i) (i_ino i) (i_refcnt i) (i_mode i) (i_dev i) (i_size i) (i_nlinks i) (i_uid i) (i_gid i) (i_atime i) (i_ctime i) (i_mtime i) (i_ctl i) v (i_filled i) (i_children i) (i_parent i) (i_ops i) (i_fops i).
Definition set_i_filled (v : Z) (i : inode) : inode :=
  Inode (i_dent i) (i_sb i) (i_mount i) (i_private i) (i_state i) (i_ino i) (i_refcnt i) (i_mode i) (i_dev i) (i_size i) (i_nlinks i) (i_uid i) (i_gid i) (i_atime i) (i_ctime i) (i_mtime i) (i_ctl i) (i_pages i) v (i_children i) (i_parent i) (i_ops i) (i_fops i).
Definition set_i_children (v : list Z) (i : inode) : inode :=
  Inode (i_dent i) (i_sb i) (i_mount i) (i_private i) (i_state i) (i_ino i) (i_refcnt i) (i_mode i) (i_dev i) (i_size i) (i_nlinks i) (i_uid i) (i_gid i) (i_atime i) (i_ctime i) (i_mtime i) (i_ctl i) (i_pages i) (i_filled i) v (i_parent i) (i_ops i) (i_fops i).
Definition set_i_ops (v : iops) (i : inode) : inode :=
  Inode (i_dent i) (i_sb i) (i_mount i) (i_private i) (i_state i) (i_ino i) (i_refcnt i) (i_mode i) (i_dev i) (i_size i) (i_nlinks i) (i_uid i) (i_gid i) (i_atime i) (i_ctime i) (i_mtime i) (i_ctl i) (i_pages i) (i_filled i) (i_children i) (i_parent i) v (i_fops i).
Definition set_i_fops (v : fops) (i : inode) : inode :=
  Inode (i_dent i) (i_sb i) (i_mount i) (i_private i) (i_state i) (i_ino i) (i_refcnt i) (i_mode i) (i_dev i) (i_size i) (i_nlinks i) (i_uid i) (i_gid i) (i_atime i) (i_ctime i) (i_mtime i) (i_ctl i) (i_pages i) (i_filled i) (i_children i) (i_parent i) (i_ops i) v.

(* include/namespace.h:32-38 direntry *)
Record direntry := Dent {
  d_inode : Z; d_name : list Z; d_refcnt : Z }.
Definition set_d_inode (v : Z) (d : direntry) : direntry :=
  Dent v (d_name d) (d_refcnt d).
Definition set_d_refcnt (v : Z) (d : direntry) : direntry :=
  Dent (d_inode d) (d_name d) v.

(* include/namespace.h:47-50 namespace *)
Record namespace := Ns {
  n_inode : Z; n_dent : Z }.


(* include/mount.h:29-33 mount *)
Record mount := Mount {
  m_sb : Z; m_inode : Z }.


(* include/device.h:56-62 device *)
Record device := Device {
  dv_name : list Z; dv_dev : Z; dv_flags : Z; dv_fops : fops }.


(* include/virtfs.h:57-71 virtfs_entry *)
Record virtfs_entry := Ve {
  ve_name : list Z; ve_mode : Z; ve_dev : Z; ve_flags : Z; ve_inode : Z; ve_child : Z; ve_ops : veops; ve_siblings : list Z }.
Definition set_ve_mode (v : Z) (e : virtfs_entry) : virtfs_entry :=
  Ve (ve_name e) v (ve_dev e) (ve_flags e) (ve_inode e) (ve_child e) (ve_ops e) (ve_siblings e).
Definition set_ve_dev (v : Z) (e : virtfs_entry) : virtfs_entry :=
  Ve (ve_name e) (ve_mode e) v (ve_flags e) (ve_inode e) (ve_child e) (ve_ops e) (ve_siblings e).
Definition set_ve_inode (v : Z) (e : virtfs_entry) : virtfs_entry :=
  Ve (ve_name e) (ve_mode e) (ve_dev e) (ve_flags e) v (ve_child e) (ve_ops e) (ve_siblings e).
Definition set_ve_child (v : Z) (e : virtfs_entry) : virtfs_entry :=
  Ve (ve_name e) (ve_mode e) (ve_dev e) (ve_flags e) (ve_inode e) v (ve_ops e) (ve_siblings e).
Definition set_ve_siblings (v : list Z) (e : virtfs_entry) : virtfs_entry :=
  Ve (ve_name e) (ve_mode e) (ve_dev e) (ve_flags e) (ve_inode e) (ve_child e) (ve_ops e) v.

(* include/file.h:40-47 file *)
Record file := File {
  f_sb : Z; f_inode : Z; f_ops : fops; f_offset : Z; f_fd : Z }.
Definition set_f_ops (v : fops) (f : file) : file :=
  File (f_sb f) (f_inode f) v (f_offset f) (f_fd f).
Definition set_f_offset (v : Z) (f : file) : file :=
  File (f_sb f) (f_inode f) (f_ops f) v (f_fd f).

(** The state: the structures by address and the lists that hold them; the
    files, the descriptors and the namespace of the current thread
    ([thread_create] gives every thread [root_ns]); the counter of
    [fs_add_entry]; whether the table of generic superblock operations has its
    [read_inode]; the pids of all threads; the free structures and pages; what
    a structure just allocated holds; the bytes of memory. *)
Record vfs := Vfs {
  v_supers : gmap Z superblock; superblock_list : list Z; v_inodes : gmap Z inode; anon_inodes : list Z; v_dents : gmap Z direntry; v_mounts : gmap Z mount; mount_list : list Z; v_devs : gmap Z device; devices : list Z; v_ves : gmap Z virtfs_entry; v_files : gmap Z file; t_files : list Z; last_fd : Z; fdset : words; root_ns : namespace; ino_count : Z; sb_read_inode : bool; v_pids : list Z; v_heap : list Z; v_pages : list Z; v_stale : inode; v_mem : memory }.
Definition set_v_supers (v : gmap Z superblock) (s : vfs) : vfs :=
  Vfs v (superblock_list s) (v_inodes s) (anon_inodes s) (v_dents s) (v_mounts s) (mount_list s) (v_devs s) (devices s) (v_ves s) (v_files s) (t_files s) (last_fd s) (fdset s) (root_ns s) (ino_count s) (sb_read_inode s) (v_pids s) (v_heap s) (v_pages s) (v_stale s) (v_mem s).
Definition set_superblock_list (v : list Z) (s : vfs) : vfs :=
  Vfs (v_supers s) v (v_inodes s) (anon_inodes s) (v_dents s) (v_mounts s) (mount_list s) (v_devs s) (devices s) (v_ves s) (v_files s) (t_files s) (last_fd s) (fdset s) (root_ns s) (ino_count s) (sb_read_inode s) (v_pids s) (v_heap s) (v_pages s) (v_stale s) (v_mem s).
Definition set_v_inodes (v : gmap Z inode) (s : vfs) : vfs :=
  Vfs (v_supers s) (superblock_list s) v (anon_inodes s) (v_dents s) (v_mounts s) (mount_list s) (v_devs s) (devices s) (v_ves s) (v_files s) (t_files s) (last_fd s) (fdset s) (root_ns s) (ino_count s) (sb_read_inode s) (v_pids s) (v_heap s) (v_pages s) (v_stale s) (v_mem s).
Definition set_anon_inodes (v : list Z) (s : vfs) : vfs :=
  Vfs (v_supers s) (superblock_list s) (v_inodes s) v (v_dents s) (v_mounts s) (mount_list s) (v_devs s) (devices s) (v_ves s) (v_files s) (t_files s) (last_fd s) (fdset s) (root_ns s) (ino_count s) (sb_read_inode s) (v_pids s) (v_heap s) (v_pages s) (v_stale s) (v_mem s).
Definition set_v_dents (v : gmap Z direntry) (s : vfs) : vfs :=
  Vfs (v_supers s) (superblock_list s) (v_inodes s) (anon_inodes s) v (v_mounts s) (mount_list s) (v_devs s) (devices s) (v_ves s) (v_files s) (t_files s) (last_fd s) (fdset s) (root_ns s) (ino_count s) (sb_read_inode s) (v_pids s) (v_heap s) (v_pages s) (v_stale s) (v_mem s).
Definition set_v_mounts (v : gmap Z mount) (s : vfs) : vfs :=
  Vfs (v_supers s) (superblock_list s) (v_inodes s) (anon_inodes s) (v_dents s) v (mount_list s) (v_devs s) (devices s) (v_ves s) (v_files s) (t_files s) (last_fd s) (fdset s) (root_ns s) (ino_count s) (sb_read_inode s) (v_pids s) (v_heap s) (v_pages s) (v_stale s) (v_mem s).
Definition set_mount_list (v : list Z) (s : vfs) : vfs :=
  Vfs (v_supers s) (superblock_list s) (v_inodes s) (anon_inodes s) (v_dents s) (v_mounts s) v (v_devs s) (devices s) (v_ves s) (v_files s) (t_files s) (last_fd s) (fdset s) (root_ns s) (ino_count s) (sb_read_inode s) (v_pids s) (v_heap s) (v_pages s) (v_stale s) (v_mem s).
Definition set_v_devs (v : gmap Z device) (s : vfs) : vfs :=
  Vfs (v_supers s) (superblock_list s) (v_inodes s) (anon_inodes s) (v_dents s) (v_mounts s) (mount_list s) v (devices s) (v_ves s) (v_files s) (t_files s) (last_fd s) (fdset s) (root_ns s) (ino_count s) (sb_read_inode s) (v_pids s) (v_heap s) (v_pages s) (v_stale s) (v_mem s).
Definition set_devices (v : list Z) (s : vfs) : vfs :=
  Vfs (v_supers s) (superblock_list s) (v_inodes s) (anon_inodes s) (v_dents s) (v_mounts s) (mount_list s) (v_devs s) v (v_ves s) (v_files s) (t_files s) (last_fd s) (fdset s) (root_ns s) (ino_count s) (sb_read_inode s) (v_pids s) (v_heap s) (v_pages s) (v_stale s) (v_mem s).
Definition set_v_ves (v : gmap Z virtfs_entry) (s : vfs) : vfs :=
  Vfs (v_supers s) (superblock_list s) (v_inodes s) (anon_inodes s) (v_dents s) (v_mounts s) (mount_list s) (v_devs s) (devices s) v (v_files s) (t_files s) (last_fd s) (fdset s) (root_ns s) (ino_count s) (sb_read_inode s) (v_pids s) (v_heap s) (v_pages s) (v_stale s) (v_mem s).
Definition set_v_files (v : gmap Z file) (s : vfs) : vfs :=
  Vfs (v_supers s) (superblock_list s) (v_inodes s) (anon_inodes s) (v_dents s) (v_mounts s) (mount_list s) (v_devs s) (devices s) (v_ves s) v (t_files s) (last_fd s) (fdset s) (root_ns s) (ino_count s) (sb_read_inode s) (v_pids s) (v_heap s) (v_pages s) (v_stale s) (v_mem s).
Definition set_t_files (v : list Z) (s : vfs) : vfs :=
  Vfs (v_supers s) (superblock_list s) (v_inodes s) (anon_inodes s) (v_dents s) (v_mounts s) (mount_list s) (v_devs s) (devices s) (v_ves s) (v_files s) v (last_fd s) (fdset s) (root_ns s) (ino_count s) (sb_read_inode s) (v_pids s) (v_heap s) (v_pages s) (v_stale s) (v_mem s).
Definition set_last_fd (v : Z) (s : vfs) : vfs :=
  Vfs (v_supers s) (superblock_list s) (v_inodes s) (anon_inodes s) (v_dents s) (v_mounts s) (mount_list s) (v_devs s) (devices s) (v_ves s) (v_files s) (t_files s) v (fdset s) (root_ns s) (ino_count s) (sb_read_inode s) (v_pids s) (v_heap s) (v_pages s) (v_stale s) (v_mem s).
Definition set_fdset (v : words) (s : vfs) : vfs :=
  Vfs (v_supers s) (superblock_list s) (v_inodes s) (anon_inodes s) (v_dents s) (v_mounts s) (mount_list s) (v_devs s) (devices s) (v_ves s) (v_files s) (t_files s) (last_fd s) v (root_ns s) (ino_count s) (sb_read_inode s) (v_pids s) (v_heap s) (v_pages s) (v_stale s) (v_mem s).
Definition set_root_ns (v : namespace) (s : vfs) : vfs :=
  Vfs (v_supers s) (superblock_list s) (v_inodes s) (anon_inodes s) (v_dents s) (v_mounts s) (mount_list s) (v_devs s) (devices s) (v_ves s) (v_files s) (t_files s) (last_fd s) (fdset s) v (ino_count s) (sb_read_inode s) (v_pids s) (v_heap s) (v_pages s) (v_stale s) (v_mem s).
Definition set_ino_count (v : Z) (s : vfs) : vfs :=
  Vfs (v_supers s) (superblock_list s) (v_inodes s) (anon_inodes s) (v_dents s) (v_mounts s) (mount_list s) (v_devs s) (devices s) (v_ves s) (v_files s) (t_files s) (last_fd s) (fdset s) (root_ns s) v (sb_read_inode s) (v_pids s) (v_heap s) (v_pages s) (v_stale s) (v_mem s).
Definition set_sb_read_inode (v : bool) (s : vfs) : vfs :=
  Vfs (v_supers s) (superblock_list s) (v_inodes s) (anon_inodes s) (v_dents s) (v_mounts s) (mount_list s) (v_devs s) (devices s) (v_ves s) (v_files s) (t_files s) (last_fd s) (fdset s) (root_ns s) (ino_count s) v (v_pids s) (v_heap s) (v_pages s) (v_stale s) (v_mem s).
Definition set_v_heap (v : list Z) (s : vfs) : vfs :=
  Vfs (v_supers s) (superblock_list s) (v_inodes s) (anon_inodes s) (v_dents s) (v_mounts s) (mount_list s) (v_devs s) (devices s) (v_ves s) (v_files s) (t_files s) (last_fd s) (fdset s) (root_ns s) (ino_count s) (sb_read_inode s) (v_pids s) v (v_pages s) (v_stale s) (v_mem s).
Definition set_v_pages (v : list Z) (s : vfs) : vfs :=
  Vfs (v_supers s) (superblock_list s) (v_inodes s) (anon_inodes s) (v_dents s) (v_mounts s) (mount_list s) (v_devs s) (devices s) (v_ves s) (v_files s) (t_files s) (last_fd s) (fdset s) (root_ns s) (ino_count s) (sb_read_inode s) (v_pids s) (v_heap s) v (v_stale s) (v_mem s).
Definition set_v_mem (v : memory) (s : vfs) : vfs :=
  Vfs (v_supers s) (superblock_list s) (v_inodes s) (anon_inodes s) (v_dents s) (v_mounts s) (mount_list s) (v_devs s) (devices s) (v_ves s) (v_files s) (t_files s) (last_fd s) (fdset s) (root_ns s) (ino_count s) (sb_read_inode s) (v_pids s) (v_heap s) (v_pages s) (v_stale s) v.

Lemma vfs_ext s s' :
  v_supers s = v_supers s' →
  superblock_list s = superblock_list s' →
  v_inodes s = v_inodes s' →
  anon_inodes s = anon_inodes s' →
  v_dents s = v_dents s' →
  v_mounts s = v_mounts s' →
  mount_list s = mount_list s' →
  v_devs s = v_devs s' →
  devices s = devices s' →
  v_ves s = v_ves s' →
  v_files s = v_files s' →
  t_files s = t_files s' →
  last_fd s = last_fd s' →
  fdset s = fdset s' →
  root_ns s = root_ns s' →
  ino_count s = ino_count s' →
  sb_read_inode s = sb_read_inode s' →
  v_pids s = v_pids s' →
  v_heap s = v_heap s' →
  v_pages s = v_pages s' →
  v_stale s = v_stale s' →
  v_mem s = v_mem s' →
  s = s'.
Proof. destruct s, s'. cbn. intros. by subst. Qed.

Definition inode_at : Z → M vfs inode := deref v_inodes.
Definition dent_at : Z → M vfs direntry := deref v_dents.
Definition super_at : Z → M vfs superblock := deref v_supers.
Definition mount_at : Z → M vfs mount := deref v_mounts.
Definition ve_at : Z → M vfs virtfs_entry := deref v_ves.
Definition file_at : Z → M vfs file := deref v_files.
Definition dev_at : Z → M vfs device := deref v_devs.
Definition put_inode (p : Z) (i : inode) : M vfs unit := modify (λ s, set_v_inodes (<[p := i]> (v_inodes s)) s).
Definition put_dent (p : Z) (d : direntry) : M vfs unit := modify (λ s, set_v_dents (<[p := d]> (v_dents s)) s).
Definition put_super (p : Z) (b : superblock) : M vfs unit := modify (λ s, set_v_supers (<[p := b]> (v_supers s)) s).
Definition put_ve (p : Z) (e : virtfs_entry) : M vfs unit := modify (λ s, set_v_ves (<[p := e]> (v_ves s)) s).
Definition put_file (p : Z) (f : file) : M vfs unit := modify (λ s, set_v_files (<[p := f]> (v_files s)) s).
(** [p->field = v] on an inode. *)
Definition upd_inode (f : inode → inode) (p : Z) : M vfs unit := i ← inode_at p; put_inode p (f i).

(** [gobj_alloc] and [slice_alloc]; NULL when there is no memory left. *)
Definition gobj_alloc : M vfs Z := λ s,
  match v_heap s with
  | [] => Ok (NULL, s)
  | a :: l => Ok (a, set_v_heap l s)
  end.
Definition gobj_free (p : Z) : M vfs unit := modify (λ s, set_v_heap (p :: v_heap s) s).

(** [kstrcmp] of the name in an array of [max] bytes and another string.
    [kstrlen], called on both, runs past the end of an empty string and of an
    array that is not terminated. *)
Definition name_ok (max : Z) (n : list Z) : bool := bool_decide (n ≠ [] ∧ Z.of_nat (length n) < max).
Definition names_eq (max : Z) (buf name : list Z) : M vfs bool := λ s,
  if name_ok max buf && bool_decide (name ≠ []) then Ok (bool_decide (buf = name), s) else Fault.

(** ** Inodes *)

(* include/inode.h:30-30 INODE_NEW *)
Definition INODE_NEW : Z := 1.
(* include/inode.h:32-32 ROOT_INO *)
Definition ROOT_INO : Z := 2.
(* include/inode.h:34-35 INODE_PAGES *)
Definition INODE_PAGES : Z := 64.

(** [klist0_for_each] with a test that ends it. *)
Fixpoint first_of {A} (at_ : Z → M vfs A) (test : A → M vfs bool) (l : list Z) : M vfs Z :=
  match l with
  | [] => mret NULL
  | p :: l => a ← at_ p; b ← test a; if (b : bool) then mret p else first_of at_ test l
  end.

(* kernel/fs/inode.c:39-49 generic_lookup *)
Definition generic_lookup (inode : Z) (name : list Z) : M vfs Z :=
  i ← inode_at inode;
  if negb (S_ISDIR (i_mode i)) then mret NULL else mret NULL.

(* kernel/fs/inode.c:58-71 alloc_inode *)
Definition alloc_inode : M vfs Z :=
  a ← gobj_alloc;
  if decide (a = NULL) then mret NULL else
  st ← gets v_stale;
  _ ← put_inode a st;
  mret a.

(** [klist0_unlink] of the node an inode is linked by, and of the node a
    directory entry is linked to its inode by. *)
Definition unlink_inode (p : Z) : M vfs unit := modify (λ s,
  set_anon_inodes (filter (.≠ p) (anon_inodes s))
    (set_v_supers ((λ b, set_s_ilist (filter (.≠ p) (s_ilist b)) b) <$> v_supers s) s)).
Definition unlink_dent (p : Z) : M vfs unit := modify (λ s,
  set_v_inodes ((λ i, set_i_dent (filter (.≠ p) (i_dent i)) i) <$> v_inodes s) s).

(* kernel/fs/inode.c:73-85 kill_inode *)
Definition kill_inode (inode : Z) : M vfs unit :=
  i ← inode_at inode;
  _ ← bug_on (bool_decide (i_refcnt i ≠ 0));
  _ ← unlink_inode inode;
  _ ← modify (λ s, set_v_inodes (delete inode (v_inodes s)) s);
  gobj_free inode.

(* kernel/fs/virtfs.c:227-241 virtfs_kill_inode *)
Definition virtfs_kill_inode (inode : Z) : M vfs unit :=
  i ← inode_at inode;
  if decide (i_private i = NULL) then mret tt else
  e ← ve_at (i_private i);
  put_ve (i_private i) (set_ve_inode NULL e).

(* kernel/fs/super.c:33-38 generic_sbops *)
Definition sops_alloc_inode (o : sops) : M vfs Z := alloc_inode.
(* kernel/fs/virtfs.c:243-248 virtfs_sops *)
Definition sops_kill_inode (o : sops) : Z → M vfs unit :=
  match o with GenericSops => kill_inode | VirtfsSops => virtfs_kill_inode end.
(* kernel/fs/fs.c:37-44 fs_read_inode *)
Definition fs_read_inode (inode : Z) : M vfs unit := bug.
(* kernel/fs/fs.c:46-51 fs_write_inode *)
Definition fs_write_inode (inode : Z) : M vfs unit := mret tt.

(** The call of [sb->s_ops->read_inode]; a NULL method faults. *)
Definition sops_read_inode (o : sops) (inode : Z) : M vfs unit :=
  b ← gets sb_read_inode;
  match o with
  | GenericSops => if (b : bool) then fs_read_inode inode else fault
  | VirtfsSops => fault
  end.

(* kernel/fs/inode.c:87-131 new_inode *)
Definition new_inode (sb : Z) : M vfs Z :=
  inode ← (if decide (sb = NULL) then alloc_inode else b ← super_at sb; sops_alloc_inode (s_ops b));
  st ← inode_at inode;
  b ← super_at sb;
  _ ← put_super sb (set_s_ilist (inode :: s_ilist b) b);
  _ ← put_inode inode
        (Inode [] sb NULL (i_private st) INODE_NEW 0 0 0 NODEV 0 0 0 0 0 0 0 NULL (i_pages st) 0 []
           NULL (if decide (s_iops b = NullIops) then GenericIops else s_iops b) NullFops);
  mret inode.

(* kernel/fs/mount.c:41-53 alloc_mount *)
Definition alloc_mount : M vfs Z :=
  a ← gobj_alloc;
  if decide (a = NULL) then mret NULL else
  _ ← modify (λ s, set_mount_list (a :: mount_list s) s);
  mret a.
(* kernel/fs/mount.c:55-59 kill_mount *)
Definition kill_mount (mnt : Z) : M vfs unit :=
  _ ← modify (λ s, set_v_mounts (delete mnt (v_mounts s)) (set_mount_list (filter (.≠ mnt) (mount_list s)) s));
  gobj_free mnt.
(* kernel/fs/mount.c:61-64 get_mount *)
Definition get_mount (path : list Z) : M vfs Z := mret NULL.

(* kernel/fs/mount.c:66-81 mount0 *)
Definition mount0 (mntpt mntsb : Z) : M vfs Z :=
  mnt ← alloc_mount;
  if decide (mnt = NULL) then mret (- ENOMEM) else
  d ← dent_at mntpt;
  _ ← modify (λ s, set_v_mounts (<[mnt := Mount mntsb (d_inode d)]> (v_mounts s)) s);
  _ ← upd_inode (set_i_mount mnt) (d_inode d);
  b ← super_at mntsb;
  _ ← put_dent mntpt (set_d_inode (s_root b) d);
  mret 0.

(** The loop of [free_inode] takes the list head itself, a part of the inode,
    for the first directory entry. *)
(* kernel/fs/inode.c:133-161 free_inode *)
Definition free_inode (inode : Z) : M vfs unit :=
  i ← inode_at inode;
  if decide (i_dent i ≠ []) then fault else
  _ ← (if decide (i_mount i = NULL) then mret tt else kill_mount (i_mount i));
  if decide (i_sb i = NULL) then kill_inode inode
  else b ← super_at (i_sb i); sops_kill_inode (s_ops b) inode.

(** [atomic_inc_u32] and [atomic_dec_and_test_u32] of a reference count. *)
Definition inode_inc (p : Z) : M vfs unit := upd_inode (λ i, set_i_refcnt (u32 (i_refcnt i + 1)) i) p.
Definition dent_inc (p : Z) : M vfs unit := d ← dent_at p; put_dent p (set_d_refcnt (u32 (d_refcnt d + 1)) d).
Definition inode_dec_and_test (p : Z) : M vfs bool :=
  i ← inode_at p;
  _ ← put_inode p (set_i_refcnt (u32 (i_refcnt i - 1)) i);
  mret (bool_decide (u32 (i_refcnt i - 1) = 0)).
Definition dent_dec_and_test (p : Z) : M vfs bool :=
  d ← dent_at p;
  _ ← put_dent p (set_d_refcnt (u32 (d_refcnt d - 1)) d);
  mret (bool_decide (u32 (d_refcnt d - 1) = 0)).

(* kernel/fs/inode.c:163-201 get_inode *)
Definition get_inode (sb ino : Z) : M vfs Z :=
  l ← (if decide (sb = NULL) then gets anon_inodes else b ← super_at sb; mret (s_ilist b));
  p ← first_of inode_at (λ i, mret (bool_decide (i_ino i = ino))) l;
  inode ← (if decide (p = NULL) then
             n ← new_inode sb;
             _ ← upd_inode (set_i_ino ino) n;
             b ← super_at sb;
             _ ← sops_read_inode (s_ops b) n;
             mret n
           else mret p);
  _ ← inode_inc inode;
  mret inode.

(* kernel/fs/inode.c:203-212 release_inode *)
Definition release_inode (inode : Z) : M vfs unit :=
  b ← inode_dec_and_test inode;
  if (b : bool) then free_inode inode else mret tt.

(** ** Superblocks *)

(* include/super.h:27-27 SB_MAGIC_ROOTFS *)
Definition SB_MAGIC_ROOTFS : Z := 0.
(* include/super.h:30-30 SB_NEW *)
Definition SB_NEW : Z := 1.

(* kernel/fs/super.c:40-64 alloc_super *)
Definition alloc_super (dev : Z) : M vfs Z :=
  a ← gobj_alloc;
  if decide (a = NULL) then mret NULL else
  _ ← put_super a (Super [] NULL SB_MAGIC_ROOTFS 0 dev SB_NEW GenericSops NullIops);
  _ ← modify (λ s, set_superblock_list (a :: superblock_list s) s);
  mret a.

(* kernel/fs/super.c:66-77 kill_super *)
Definition kill_super (sb : Z) : M vfs Z :=
  _ ← modify (λ s, set_v_supers (delete sb (v_supers s)) (set_superblock_list (filter (.≠ sb) (superblock_list s)) s));
  _ ← gobj_free sb;
  mret 0.

(* kernel/fs/super.c:79-99 get_super *)
Definition get_super (dev : Z) : M vfs Z :=
  l ← gets superblock_list;
  if decide (l = []) then mret NULL
  else first_of super_at (λ b, mret (bool_decide (s_dev b = dev))) l.

(* kernel/fs/super.c:101-106 fs_init_super *)
Definition fs_init_super : M vfs unit :=
  _ ← modify (set_superblock_list []);
  _ ← alloc_super ROOTFSDEV;
  mret tt.

(* kernel/fs/inode.c:244-263 fs_init_inodes *)
Definition fs_init_inodes : M vfs Z :=
  sb ← get_super ROOTFSDEV;
  _ ← bug_on (bool_decide (sb = NULL));
  root ← new_inode sb;
  _ ← upd_inode (set_i_ino ROOT_INO) root;
  _ ← upd_inode (set_i_mode S_IFDIR) root;
  b ← super_at sb;
  _ ← put_super sb (set_s_root root b);
  _ ← modify (set_anon_inodes []);
  mret 0.

(** ** Devices *)

(* kernel/fs/device.c:32-40 register_device *)
Definition register_device (device : Z) : M vfs Z :=
  _ ← modify (λ s, set_devices (device :: devices s) s); mret 0.

(* kernel/fs/device.c:42-58 get_device *)
Definition get_device (dev : Z) : M vfs Z :=
  l ← gets devices; first_of dev_at (λ d, mret (bool_decide (dv_dev d = dev))) l.

(* kernel/fs/device.c:78-81 devices_init *)
Definition devices_init : M vfs unit := modify (set_devices []).

(** ** Names *)

(** [memory_copy] of a name and its NUL into an array of [max] bytes, or what
    fits. *)
Definition name_copy (max : Z) (name : list Z) : M vfs (list Z) := λ s,
  if decide (name = []) then Fault else Ok (take (Z.to_nat max) name, s).

(* kernel/fs/namespace.c:38-57 new_direntry *)
Definition new_direntry (name : list Z) (inode : Z) : M vfs Z :=
  _ ← bug_on (bool_decide (inode = NULL));
  dent ← gobj_alloc;
  if decide (dent = NULL) then mret NULL else
  n ← name_copy FILENAME_MAX name;
  _ ← put_dent dent (Dent inode n 0);
  _ ← upd_inode (λ i, set_i_dent (dent :: i_dent i) i) inode;
  mret dent.

(* kernel/fs/namespace.c:59-69 free_direntry *)
Definition free_direntry (dent : Z) : M vfs unit :=
  d ← dent_at dent;
  _ ← bug_on (bool_decide (d_refcnt d ≠ 0));
  _ ← unlink_dent dent;
  _ ← modify (λ s, set_v_dents (delete dent (v_dents s)) s);
  gobj_free dent.

(** *** The virtual file system *)

(** [ve_name] has 12 bytes; a longer name would go over the other members. *)
Definition VE_NAME_MAX : Z := 12.

(* kernel/fs/virtfs.c:36-59 virtfs_get_entry *)
Definition virtfs_get_entry (root : Z) (name : list Z) : M vfs Z :=
  i ← inode_at root;
  if decide (i_private i = NULL) then mret NULL else
  root_ve ← ve_at (i_private i);
  if decide (ve_child root_ve = NULL) then mret NULL else
  c ← ve_at (ve_child root_ve);
  first_of ve_at (λ e, names_eq VE_NAME_MAX (ve_name e) name) (ve_siblings c).

(* kernel/fs/virtfs.c:63-75 new_ve *)
Definition new_ve : M vfs Z :=
  ve ← gobj_alloc;
  if decide (ve = NULL) then mret NULL else
  _ ← put_ve ve (Ve [] 0 0 0 NULL NULL VeopsNop []);
  mret ve.

(* kernel/fs/virtfs.c:77-81 free_ve *)
Definition free_ve (ve : Z) : M vfs unit :=
  _ ← modify (λ s, set_v_ves (delete ve ((λ e, set_ve_siblings (filter (.≠ ve) (ve_siblings e)) e) <$> v_ves s)) s);
  gobj_free ve.

(* kernel/fs/virtfs_proc.c:50-66 virtfs_proc_lookup *)
Definition virtfs_proc_lookup (name : list Z) : M vfs Z :=
  ve ← gobj_alloc;
  if decide (ve = NULL) then fault else
  if name_ok VE_NAME_MAX name then
    _ ← put_ve ve (Ve name S_IFREG NODEV 0 NULL NULL VeopsNop []);
    mret ve
  else fault.

(* kernel/fs/virtfs_dev.c:54-70 virtfs_dev_lookup *)
Definition virtfs_dev_lookup (name : list Z) : M vfs Z :=
  ve ← gobj_alloc;
  if decide (ve = NULL) then fault else
  if name_ok VE_NAME_MAX name then
    _ ← put_ve ve (Ve name S_IFREG NODEV 0 NULL NULL VeopsNop []);
    mret ve
  else fault.

(** [klist0_append(&dent->d_siblings, &inode->i_children)]. *)
Definition add_child (dent inode : Z) : M vfs unit :=
  upd_inode (λ i, set_i_children (dent :: i_children i) i) inode.

(* kernel/fs/virtfs.c:91-146 virtfs_lookup *)
Definition virtfs_lookup (inode : Z) (name : list Z) : M vfs Z :=
  i ← inode_at inode;
  if negb (S_ISDIR (i_mode i)) then mret NULL else
  if decide (i_private i = NULL) then mret NULL else
  root_ve ← ve_at (i_private i);
  ve ← match ve_ops root_ve with
       | VeopsNop => virtfs_get_entry inode name
       | VeopsProc => virtfs_proc_lookup name
       | VeopsDev => virtfs_dev_lookup name
       end;
  if decide (ve = NULL) then mret NULL else
  e ← ve_at ve;
  _ ← bug_on (bool_decide (ve_inode e ≠ NULL));
  ret_inode ← new_inode (i_sb i);
  _ ← bug_on (bool_decide (ret_inode = NULL));
  _ ← upd_inode (set_i_ino (u32 ve)) ret_inode;
  _ ← upd_inode (set_i_mode (ve_mode e)) ret_inode;
  _ ← upd_inode (set_i_size (if S_ISDIR (ve_mode e) then 0 else 1)) ret_inode;
  _ ← upd_inode (set_i_dev (ve_dev e)) ret_inode;
  _ ← upd_inode (set_i_fops VirtfsFops) ret_inode;
  _ ← upd_inode (set_i_ops VirtfsIops) ret_inode;
  _ ← inode_inc ret_inode;
  dent ← new_direntry name ret_inode;
  _ ← bug_on (bool_decide (dent = NULL));
  _ ← dent_inc dent;
  _ ← add_child dent inode;
  _ ← put_ve ve (set_ve_inode ret_inode e);
  _ ← upd_inode (set_i_private ve) ret_inode;
  mret dent.

(* kernel/fs/virtfs.c:250-260 virtfs_init_inodes *)
Definition virtfs_init_inodes (sb : Z) : M vfs unit :=
  root ← new_inode sb;
  _ ← upd_inode (set_i_ino ROOT_INO) root;
  _ ← upd_inode (set_i_mode S_IFDIR) root;
  _ ← upd_inode (set_i_fops VirtfsFops) root;
  _ ← upd_inode (set_i_ops VirtfsIops) root;
  b ← super_at sb;
  put_super sb (set_s_root root b).

(** *** Paths *)

(* kernel/fs/inode.c:51-56 generic_iops *)
Definition iops_lookup (o : iops) (inode : Z) (name : list Z) : M vfs Z :=
  match o with
  | NullIops => fault
  | GenericIops => generic_lookup inode name
  | VirtfsIops => virtfs_lookup inode name
  end.

(* kernel/fs/namespace.c:71-94 lookup_direntry *)
Definition lookup_direntry (name : list Z) (inode : Z) : M vfs Z :=
  i ← inode_at inode;
  if negb (S_ISDIR (i_mode i)) then mret NULL else
  d ← first_of dent_at (λ d, names_eq FILENAME_MAX (d_name d) name) (i_children i);
  if decide (d = NULL) then iops_lookup (i_ops i) inode name else mret d.

(** [kstrchr(p, '/')]: what stands before the first slash and after it. *)
Fixpoint cut_slash (p : list Z) : option (list Z * list Z) :=
  match p with
  | [] => None
  | c :: p => if decide (c = c_slash) then Some ([], p)
              else '(a, b) ← cut_slash p; Some (c :: a, b)
  end.

(** [while (p[0] == '/') p++]. *)
Fixpoint skip_slashes (p : list Z) : list Z :=
  match p with
  | c :: q => if decide (c = c_slash) then skip_slashes q else p
  | [] => []
  end.

(** [inode->i_mount] followed. *)
Definition follow_mount (inode : Z) : M vfs Z :=
  i ← inode_at inode;
  if decide (i_mount i = NULL) then mret inode else
  m ← mount_at (i_mount i); b ← super_at (m_sb m); mret (s_root b).

(** The loop of [lookup_path] and the last component. *)
Fixpoint walk (fuel : nat) (p : list Z) (inode : Z) : M vfs Z :=
  match fuel with
  | O => hang
  | S f =>
      match cut_slash p with
      | None => lookup_direntry p inode
      | Some (name, q) =>
          if decide (FILENAME_MAX ≤ Z.of_nat (length name)) then fault else
          dent ← lookup_direntry name inode;
          if decide (dent = NULL) then mret NULL else
          d ← dent_at dent;
          _ ← bug_on (bool_decide (d_inode d = NULL));
          i ← follow_mount (d_inode d);
          walk f q i
      end
  end.

(* kernel/fs/namespace.c:96-136 lookup_path *)
Definition lookup_path (pathname : list Z) : M vfs Z :=
  ns ← gets root_ns;
  match skip_slashes pathname with
  | [] => mret (n_dent ns)
  | p => walk (S (length p)) p (n_inode ns)
  end.

(* kernel/fs/namespace.c:138-146 release_direntry *)
Definition release_direntry (dent : Z) : M vfs unit :=
  d ← dent_at dent;
  b ← dent_dec_and_test dent;
  _ ← (if (b : bool) then free_direntry dent else mret tt);
  release_inode (d_inode d).

(* kernel/fs/namespace.c:148-172 fs_init_namespace *)
Definition fs_init_namespace : M vfs unit :=
  sb ← get_super ROOTFSDEV;
  _ ← bug_on (bool_decide (sb = NULL));
  inode ← get_inode sb ROOT_INO;
  _ ← bug_on (bool_decide (inode = NULL));
  dent ← new_direntry [c_slash] inode;
  modify (set_root_ns (Ns inode dent)).

(** *** The tree of virtual entries *)

(** The static entries, by the addresses the model gives them. *)
Definition VE_TREE : Z := 1.
Definition VE_DOT : Z := 2.
Definition VE_SRV_DOT : Z := 3.
Definition VE_SRV : Z := 4.
Definition VE_OMG : Z := 5.
Definition VE_WTF : Z := 6.
Definition VE_LOL : Z := 7.
Definition VE_PROC : Z := 8.
Definition VE_DEV : Z := 9.

(* include/virtfs.h:81-94 VE_ENTRY *)
Definition VE_ENTRY (name : string) (mode dev : Z) (op : veops) : virtfs_entry :=
  Ve (bytes name) mode dev 0 NULL NULL op [].

(* kernel/fs/virtfs.c:262-272 virtfs_tree *)
Definition virtfs_static : gmap Z virtfs_entry :=
  list_to_map [(VE_TREE, VE_ENTRY "koowaldah" S_IFDIR NODEV VeopsNop);
               (VE_DOT, VE_ENTRY "." S_IFDIR NODEV VeopsNop);
               (VE_SRV_DOT, VE_ENTRY "." S_IFDIR NODEV VeopsNop);
               (VE_SRV, VE_ENTRY "srv" S_IFDIR NODEV VeopsNop);
               (VE_OMG, VE_ENTRY "omg" S_IFDIR NODEV VeopsNop);
               (VE_WTF, VE_ENTRY "wtf" S_IFREG NODEV VeopsNop);
               (VE_LOL, VE_ENTRY "lol" S_IFREG NODEV VeopsNop);
               (VE_PROC, VE_ENTRY "proc" S_IFDIR NODEV VeopsProc);
               (VE_DEV, VE_ENTRY "devices" S_IFDIR NODEV VeopsDev)].

(* include/virtfs.h:112-116 VE_ADD_SUBTREE *)
Definition VE_ADD_SUBTREE (t c : Z) : M vfs unit := e ← ve_at t; put_ve t (set_ve_child c e).

(* include/virtfs.h:118-124 VE_ADD_SIBLING *)
Definition VE_ADD_SIBLING (t c : Z) : M vfs unit :=
  e ← ve_at t; put_ve t (set_ve_siblings (c :: ve_siblings e) e).

(* kernel/fs/virtfs_proc.c:75-78 virtfs_proc_init *)
Definition virtfs_proc_init : M vfs unit := VE_ADD_SIBLING VE_DOT VE_PROC.
(* kernel/fs/virtfs_dev.c:79-82 virtfs_dev_init *)
Definition virtfs_dev_init : M vfs unit := VE_ADD_SIBLING VE_DOT VE_DEV.

(* kernel/fs/virtfs.c:274-289 virtfs_init_tree *)
Definition virtfs_init_tree : M vfs unit :=
  _ ← VE_ADD_SUBTREE VE_TREE VE_DOT;
  _ ← VE_ADD_SIBLING VE_DOT VE_SRV;
  _ ← VE_ADD_SIBLING VE_DOT VE_WTF;
  _ ← VE_ADD_SUBTREE VE_SRV VE_SRV_DOT;
  _ ← VE_ADD_SIBLING VE_SRV_DOT VE_OMG;
  _ ← VE_ADD_SIBLING VE_SRV_DOT VE_LOL;
  _ ← virtfs_proc_init;
  virtfs_dev_init.

(** The slice pools of the entries and of the pipes are part of [v_heap]. *)
(* kernel/fs/virtfs.c:291-325 fs_init_virtfs *)
Definition fs_init_virtfs : M vfs unit :=
  sb ← alloc_super VIRTFSDEV;
  _ ← bug_on (bool_decide (sb = NULL));
  b ← super_at sb;
  _ ← put_super sb (set_s_ops VirtfsSops (set_s_iops VirtfsIops b));
  _ ← virtfs_init_inodes sb;
  _ ← virtfs_init_tree;
  b ← super_at sb;
  _ ← upd_inode (set_i_private VE_TREE) (s_root b);
  _ ← get_super ROOTFSDEV;
  dent ← lookup_path (bytes "/koowaldah");
  r ← mount0 dent sb;
  bug_on (bool_decide (r ≠ 0)).

(* kernel/fs/stat.c:24-38 stat *)
Definition stat (path : list Z) : M vfs (Z * option (Z * Z * Z * Z)) :=
  dent ← lookup_path path;
  if decide (dent = NULL) then mret (- ENOENT, None) else
  d ← dent_at dent;
  i ← inode_at (d_inode d);
  mret (0, Some (i_ino i, i_dev i, i_mode i, i_size i)).

(** ** Resolution of paths

    [child s ino name] is the entry of that name in a directory, [target] the
    inode a path goes on from, [resolve] a path given by its components. *)

Definition child (s : vfs) (ino : Z) (name : list Z) : option Z :=
  i ← v_inodes s !! ino;
  if S_ISDIR (i_mode i) then snd <$> list_find (λ p, d_name <$> v_dents s !! p = Some name) (i_children i)
  else None.

Definition mounted (s : vfs) (ino : Z) : option Z :=
  i ← v_inodes s !! ino;
  if decide (i_mount i = NULL) then Some ino else
  m ← v_mounts s !! i_mount i; b ← v_supers s !! m_sb m; Some (s_root b).

Definition target (s : vfs) (dent : Z) : option Z := d ← v_dents s !! dent; mounted s (d_inode d).

Fixpoint resolve (s : vfs) (ino : Z) (cs : list (list Z)) : option Z :=
  match cs with
  | [] => None
  | [c] => child s ino c
  | c :: cs => d ← child s ino c; j ← target s d; resolve s j cs
  end.

Fixpoint components (p : list Z) : list (list Z) :=
  match p with
  | [] => [[]]
  | c :: p => if decide (c = c_slash) then [] :: components p
              else match components p with [] => [[c]] | n :: l => (c :: n) :: l end
  end.

(** A directory entry is a structure with a terminated name, of an inode; an
    inode with a mount has the mounted root. *)
Definition dent_ok (s : vfs) (p : Z) : Prop :=
  p ≠ NULL ∧ ∃ d, v_dents s !! p = Some d ∧ name_ok FILENAME_MAX (d_name d) = true ∧ d_inode d ≠ NULL ∧
                  is_Some (v_inodes s !! d_inode d).
Definition inode_ok (s : vfs) (ino : Z) (i : inode) : Prop :=
  Forall (dent_ok s) (i_children i) ∧ ∃ j, mounted s ino = Some j ∧ is_Some (v_inodes s !! j).
Definition tree_ok (s : vfs) : Prop := map_Forall (inode_ok s) (v_inodes s).

Lemma cut_slash_none p : cut_slash p = None → components p = [p].
Proof.
  induction p as [|c p IH]; [done|]. cbn [cut_slash components]. destruct (decide (c = c_slash)); [done|].
  destruct (cut_slash p) as [[a b]|]; [done|]. intros _. by rewrite IH.
Qed.

Lemma cut_slash_some p a b :
  cut_slash p = Some (a, b) → components p = a :: components b ∧ (length b < length p)%nat.
Proof.
  revert a. induction p as [|c p IH]; intros a; [done|]. cbn [cut_slash components].
  destruct (decide (c = c_slash)) as [->|]; [intros [= <- <-]; cbn; split; [done|lia]|].
  destruct (cut_slash p) as [[a' b']|]; [|done]. cbn. intros [= <- <-].
  destruct (IH a' eq_refl) as [-> ?]. split; [done|lia].
Qed.

Lemma first_of_name s name l :
  name ≠ [] → Forall (dent_ok s) l →
  first_of dent_at (λ d, names_eq FILENAME_MAX (d_name d) name) l s =
    Ok (default NULL (snd <$> list_find (λ p, d_name <$> v_dents s !! p = Some name) l), s).
Proof.
  intros Hn. induction 1 as [|p l (Hp & d & Hd & Hok & _) _ IH]; [done|].
  cbn [first_of list_find]. rewrite (bind_run _ _ s d s) by by unfold dent_at, deref; rewrite Hd.
  rewrite (bind_run _ _ s (bool_decide (d_name d = name)) s).
  2:{ unfold names_eq. rewrite Hok, bool_decide_true by done. done. }
  rewrite Hd. cbn [fmap option_fmap option_map]. case_bool_decide as E.
  - by rewrite decide_True by by rewrite E.
  - rewrite decide_False by (intros [=]; done). rewrite IH.
    by destruct (list_find _ l) as [[k q]|].
Qed.

Lemma inode_at_run s p i : v_inodes s !! p = Some i → inode_at p s = Ok (i, s).
Proof. intros E. unfold inode_at, deref. by rewrite E. Qed.
Lemma dent_at_run s p i : v_dents s !! p = Some i → dent_at p s = Ok (i, s).
Proof. intros E. unfold dent_at, deref. by rewrite E. Qed.
Lemma super_at_run s p i : v_supers s !! p = Some i → super_at p s = Ok (i, s).
Proof. intros E. unfold super_at, deref. by rewrite E. Qed.

Lemma child_ok s ino name d : tree_ok s → child s ino name = Some d → dent_ok s d.
Proof.
  intros Ht. unfold child. destruct (v_inodes s !! ino) as [i|] eqn:Hi; [|done]. cbn.
  destruct (S_ISDIR _); [|done]. intros Hx.
  apply fmap_Some in Hx as ([k q] & Hf & ->). apply list_find_Some in Hf as (Hl & _).
  destruct (Ht _ _ Hi) as [Hc _]. eapply Forall_lookup_1; [exact Hc|exact Hl].
Qed.

Lemma name_ok_spec max n : name_ok max n = true ↔ n ≠ [] ∧ Z.of_nat (length n) < max.
Proof. unfold name_ok. by rewrite bool_decide_eq_true. Qed.

(** What [lookup_direntry] does when the directory holds the name, and when
    it does not and its driver knows no more. *)
Lemma lookup_direntry_hit s name ino d :
  tree_ok s → name ≠ [] → child s ino name = Some d → lookup_direntry name ino s = Ok (d, s).
Proof.
  intros Ht Hn Hc. pose proof (child_ok _ _ _ _ Ht Hc) as [Hd0 _]. revert Hc.
  unfold child, lookup_direntry. destruct (v_inodes s !! ino) as [i|] eqn:Hi; [|done]. cbn [mbind option_bind].
  rewrite (bind_run _ _ _ _ _ (inode_at_run _ _ _ Hi)). destruct (S_ISDIR (i_mode i)); [|done].
  cbn [negb]. intros Hf. destruct (Ht _ _ Hi) as [Hch _].
  rewrite (bind_run _ _ _ _ _ (first_of_name _ _ _ Hn Hch)). rewrite Hf. cbn.
  by destruct (decide (d = NULL)).
Qed.

Definition generic_dirs (s : vfs) : Prop := map_Forall (λ _ i, i_ops i = GenericIops) (v_inodes s).

Lemma lookup_direntry_miss s name ino :
  tree_ok s → generic_dirs s → name ≠ [] → is_Some (v_inodes s !! ino) → child s ino name = None →
  lookup_direntry name ino s = Ok (NULL, s).
Proof.
  intros Ht Hg Hn [i Hi]. unfold child, lookup_direntry. rewrite Hi. cbn [mbind option_bind].
  rewrite (bind_run _ _ _ _ _ (inode_at_run _ _ _ Hi)). destruct (S_ISDIR (i_mode i)) eqn:E; [|done].
  cbn [negb]. intros Hf. destruct (Ht _ _ Hi) as [Hch _].
  rewrite (bind_run _ _ _ _ _ (first_of_name _ _ _ Hn Hch)). rewrite Hf. cbn [default].
  rewrite decide_True by done. rewrite (Hg _ _ Hi). cbn [iops_lookup]. unfold generic_lookup.
  by rewrite (bind_run _ _ _ _ _ (inode_at_run _ _ _ Hi)), E.
Qed.

Lemma follow_mount_run s ino j : mounted s ino = Some j → follow_mount ino s = Ok (j, s).
Proof.
  unfold mounted, follow_mount. destruct (v_inodes s !! ino) as [i|] eqn:Hi; [|done]. cbn [mbind option_bind].
  rewrite (bind_run _ _ _ _ _ (inode_at_run _ _ _ Hi)).
  destruct (decide (i_mount i = NULL)); [by intros [= ->]|].
  destruct (v_mounts s !! i_mount i) as [m|] eqn:Hm; [|done]. cbn [mbind option_bind].
  destruct (v_supers s !! m_sb m) as [b|] eqn:Hb; [|done]. intros [= <-].
  rewrite (bind_run _ _ s m s) by by unfold mount_at, deref; rewrite Hm.
  by rewrite (bind_run _ _ _ _ _ (super_at_run _ _ _ Hb)).
Qed.

Lemma target_ok s d : tree_ok s → dent_ok s d → ∃ j, target s d = Some j ∧ is_Some (v_inodes s !! j).
Proof.
  intros Ht (_ & e & He & _ & _ & [i Hi]). unfold target. rewrite He. cbn.
  destruct (Ht _ _ Hi) as [_ Hm]. exact Hm.
Qed.

(** The names of a path the components of which fit the buffer. *)
Definition path_ok (cs : list (list Z)) : Prop := Forall (λ c, name_ok FILENAME_MAX c = true) cs.

Lemma resolve_cons s ino c cs :
  cs ≠ [] → resolve s ino (c :: cs) = (d ← child s ino c; j ← target s d; resolve s j cs).
Proof. by destruct cs. Qed.

Lemma components_ne p : components p ≠ [].
Proof. destruct p as [|c p]; cbn; [done|]. case_decide; [done|]. by destruct (components p). Qed.

Lemma walk_resolves fuel p ino s :
  tree_ok s → is_Some (v_inodes s !! ino) → path_ok (components p) → (length p < fuel)%nat →
  (∀ d, resolve s ino (components p) = Some d → walk fuel p ino s = Ok (d, s)) ∧
  (generic_dirs s → resolve s ino (components p) = None → walk fuel p ino s = Ok (NULL, s)).
Proof.
  intros Ht. revert p ino. induction fuel as [|fuel IH]; intros p ino Hino Hp Hf; [lia|].
  cbn [walk]. destruct (cut_slash p) as [[c q]|] eqn:Hcut.
  2:{ rewrite (cut_slash_none _ Hcut) in *. unfold path_ok in Hp. rewrite Forall_singleton in Hp. apply name_ok_spec in Hp as [Hp _]. cbn [resolve].
      split; intros; [by apply lookup_direntry_hit|by apply lookup_direntry_miss]. }
  destruct (cut_slash_some _ _ _ Hcut) as [Hcs Hl]. rewrite Hcs in *.
  unfold path_ok in Hp. rewrite Forall_cons in Hp. destruct Hp as [Hc Hq]. apply name_ok_spec in Hc as [Hc Hlen].
  rewrite resolve_cons by apply components_ne. rewrite decide_False by lia.
  destruct (child s ino c) as [d|] eqn:Hd; cbn [mbind option_bind].
  2:{ split; [done|]. intros Hg _. rewrite (bind_run _ _ _ _ _ (lookup_direntry_miss _ _ _ Ht Hg Hc Hino Hd)).
      by rewrite decide_True. }
  rewrite (bind_run _ _ _ _ _ (lookup_direntry_hit _ _ _ _ Ht Hc Hd)).
  pose proof (child_ok _ _ _ _ Ht Hd) as Hok. destruct (target_ok _ _ Ht Hok) as (j & Hj & Hjs).
  destruct Hok as (Hd0 & e & He & _ & He0 & _). rewrite decide_False by done.
  rewrite (bind_run _ _ _ _ _ (dent_at_run _ _ _ He)). rewrite bool_decide_false by done. mrun.
  rewrite Hj. cbn [mbind option_bind]. unfold target in Hj. rewrite He in Hj. cbn in Hj.
  rewrite (bind_run _ _ _ _ _ (follow_mount_run _ _ _ Hj)). apply IH; [done..|lia].
Qed.

Lemma lookup_path_run s path :
  tree_ok s → is_Some (v_inodes s !! n_inode (root_ns s)) → skip_slashes path ≠ [] →
  path_ok (components (skip_slashes path)) →
  (∀ d, resolve s (n_inode (root_ns s)) (components (skip_slashes path)) = Some d →
        lookup_path path s = Ok (d, s)) ∧
  (generic_dirs s → resolve s (n_inode (root_ns s)) (components (skip_slashes path)) = None →
        lookup_path path s = Ok (NULL, s)).
Proof.
  intros Ht Hr Hne Hp. unfold lookup_path. rewrite bind_gets.
  destruct (skip_slashes path) as [|c p]; [done|]. apply walk_resolves; [done..|lia].
Qed.

(** ** Running the operations *)

Lemma upd_inode_run f p s i :
  v_inodes s !! p = Some i → upd_inode f p s = Ok (tt, set_v_inodes (<[p := f i]> (v_inodes s)) s).
Proof. intros E. unfold upd_inode. by rewrite (bind_run _ _ _ _ _ (inode_at_run _ _ _ E)). Qed.

Lemma dent_inc_run p s d :
  v_dents s !! p = Some d →
  dent_inc p s = Ok (tt, set_v_dents (<[p := set_d_refcnt (u32 (d_refcnt d + 1)) d]> (v_dents s)) s).
Proof. intros E. unfold dent_inc. by rewrite (bind_run _ _ _ _ _ (dent_at_run _ _ _ E)). Qed.

Lemma gobj_alloc_run s a l : v_heap s = a :: l → gobj_alloc s = Ok (a, set_v_heap l s).
Proof. intros E. unfold gobj_alloc. by rewrite E. Qed.

(** A new inode of a file system. *)
Definition fresh_inode (s : vfs) (sb : Z) (b : superblock) : inode :=
  Inode [] sb NULL (i_private (v_stale s)) INODE_NEW 0 0 0 NODEV 0 0 0 0 0 0 0 NULL (i_pages (v_stale s)) 0 []
    NULL (if decide (s_iops b = NullIops) then GenericIops else s_iops b) NullFops.

Lemma new_inode_run s sb b ino rest :
  sb ≠ NULL → v_supers s !! sb = Some b → v_heap s = ino :: rest → ino ≠ NULL →
  new_inode sb s = Ok (ino, set_v_inodes (<[ino := fresh_inode s sb b]> (v_inodes s))
                      (set_v_supers (<[sb := set_s_ilist (ino :: s_ilist b) b]> (v_supers s)) (set_v_heap rest s))).
Proof.
  intros Hsb Hb Hh Hino. unfold new_inode. rewrite decide_False by done.
  rewrite bind_bind, (bind_run _ _ _ _ _ (super_at_run _ _ _ Hb)).
  unfold sops_alloc_inode, alloc_inode. rewrite bind_bind, (bind_run _ _ _ _ _ (gobj_alloc_run _ _ _ Hh)).
  rewrite decide_False by done. unfold put_inode, put_super. mrun.
  rewrite (bind_run _ _ _ (v_stale s) _) by (apply inode_at_run; cbn; by rewrite lookup_insert_eq).
  rewrite (bind_run _ _ _ b _) by (apply super_at_run; done). mrun.
  unfold set_v_inodes, set_v_supers. cbn. by rewrite insert_insert_eq.
Qed.

Lemma new_direntry_run s name inode i d rest :
  inode ≠ NULL → v_inodes s !! inode = Some i → v_heap s = d :: rest → d ≠ NULL → name ≠ [] →
  new_direntry name inode s =
    Ok (d, set_v_inodes (<[inode := set_i_dent (d :: i_dent i) i]> (v_inodes s))
             (set_v_dents (<[d := Dent inode (take (Z.to_nat FILENAME_MAX) name) 0]> (v_dents s)) (set_v_heap rest s))).
Proof.
  intros Hn Hi Hh Hd Hname. unfold new_direntry. rewrite bool_decide_false by done. mrun.
  rewrite (bind_run _ _ _ _ _ (gobj_alloc_run _ _ _ Hh)). rewrite decide_False by done.
  rewrite (bind_run _ _ _ (take (Z.to_nat FILENAME_MAX) name) (set_v_heap rest s)).
  2:{ unfold name_copy. by rewrite decide_False. }
  unfold put_dent. mrun. erewrite (bind_run _ _ _ tt); [|apply upd_inode_run; exact Hi]. done.
Qed.

(** ** States with the same tree

    What paths depend on: the entries, the mounts, the roots of the file
    systems and of the namespace, and of an inode its mode, its mount, its
    children and its operations. *)

Definition shape (i : inode) : Z * Z * list Z * iops := (i_mode i, i_mount i, i_children i, i_ops i).
Definition same_tree (s s' : vfs) : Prop :=
  v_dents s = v_dents s' ∧ v_mounts s = v_mounts s' ∧ root_ns s = root_ns s' ∧
  (∀ q, s_root <$> v_supers s !! q = s_root <$> v_supers s' !! q) ∧
  (∀ j, shape <$> v_inodes s !! j = shape <$> v_inodes s' !! j).

#[global] Instance same_tree_equivalence : Equivalence same_tree.
Proof.
  split.
  - by intros s.
  - intros s s' (H1 & H2 & H3 & H4 & H5). by split_and!.
  - intros s1 s2 s3 (H1 & H2 & H3 & H4 & H5) (K1 & K2 & K3 & K4 & K5).
    split_and!; [congruence..| |]; intros q; [by rewrite H4, K4|by rewrite H5, K5].
Qed.

Lemma same_tree_inode s s' j i :
  same_tree s s' → v_inodes s !! j = Some i → ∃ i', v_inodes s' !! j = Some i' ∧ shape i' = shape i.
Proof.
  intros (_ & _ & _ & _ & H) Hi. specialize (H j). rewrite Hi in H.
  destruct (v_inodes s' !! j) as [i'|]; [|done]. exists i'. split; [done|]. apply (inj Some). symmetry. exact H.
Qed.

#[global] Instance child_proper : Proper (same_tree ==> eq ==> eq ==> eq) child.
Proof.
  intros s s' Hs j _ <- n _ <-. pose proof Hs as (Hd & _ & _ & _ & Hi). specialize (Hi j). unfold child. rewrite Hd.
  destruct (v_inodes s !! j) as [i|], (v_inodes s' !! j) as [i'|]; try done. cbn in Hi |- *.
  injection Hi as -> _ -> _. done.
Qed.

#[global] Instance mounted_proper : Proper (same_tree ==> eq ==> eq) mounted.
Proof.
  intros s s' (_ & Hm & _ & Hq & Hi) j _ <-. specialize (Hi j). unfold mounted. rewrite Hm.
  destruct (v_inodes s !! j) as [i|], (v_inodes s' !! j) as [i'|]; try done. cbn in Hi |- *.
  injection Hi as _ -> _ _. destruct (decide (i_mount i' = NULL)); [done|].
  destruct (v_mounts s' !! i_mount i') as [m|]; [|done]. cbn. specialize (Hq (m_sb m)).
  destruct (v_supers s !! m_sb m), (v_supers s' !! m_sb m); try done.
Qed.

#[global] Instance target_proper : Proper (same_tree ==> eq ==> eq) target.
Proof.
  intros s s' Hs d _ <-. unfold target. pose proof Hs as (-> & _). destruct (v_dents s' !! d) as [x|]; [|done].
  cbn. by rewrite Hs.
Qed.

#[global] Instance resolve_proper : Proper (same_tree ==> eq ==> eq ==> eq) resolve.
Proof.
  intros s s' Hs j _ <- cs _ <-. revert j. induction cs as [|c cs IH]; intros j; [done|].
  destruct cs as [|c' cs]; [cbn; by rewrite Hs|]. rewrite !resolve_cons by done. rewrite Hs.
  destruct (child s' j c) as [x|]; [|done]. cbn [mbind option_bind]. rewrite Hs.
  destruct (target s' x) as [k|]; [|done]. apply IH.
Qed.

Lemma same_tree_some s s' j : same_tree s s' → is_Some (v_inodes s !! j) → is_Some (v_inodes s' !! j).
Proof. intros Hs [i Hi]. destruct (same_tree_inode _ _ _ _ Hs Hi) as (i' & -> & _). eauto. Qed.

Lemma same_tree_ok s s' : same_tree s s' → tree_ok s → tree_ok s'.
Proof.
  intros Hs Ht j i' Hi'. destruct (same_tree_inode s' s j i') as (i & Hi & Hsh); [by symmetry|done|].
  destruct (Ht _ _ Hi) as (Hc & k & Hk & Hks). injection Hsh as _ _ Hch _. split.
  - rewrite <- Hch. eapply Forall_impl; [exact Hc|]. intros e (H0 & x & Hx & Hn & H1 & H2).
    split; [done|]. exists x. pose proof Hs as (<- & _). split_and!; [done..|by eapply same_tree_some].
  - exists k. split; [by rewrite <- Hs|by eapply same_tree_some].
Qed.

Lemma same_tree_generic s s' : same_tree s s' → generic_dirs s → generic_dirs s'.
Proof.
  intros Hs Hg j i' Hi'. destruct (same_tree_inode s' s j i') as (i & Hi & Hsh); [by symmetry|done|].
  injection Hsh as _ _ _ Hop. rewrite <- Hop. by apply (Hg _ _ Hi).
Qed.
