(* ===== verification/Fs.v ===== *)
(** * Files and the root file system (kernel/fs/file.c, fs.c)

    The files of the current thread over the file system core of Vfs, and the
    entries of the root file system with their contents.  The contents of an
    inode are pages of memory; the pages [alloc_pages] answers are the list
    [v_pages].  The file operations of device drivers are a parameter.

    [readdir] answers its result with the names it wrote into the array of the
    caller, in order, whether they fit there or not. *)

From Stdlib Require Import Ascii String.
From S2P Require Import Prelude Bitmap Klib Printf Buddy PageAlloc Vfs.

(* include/khui/fs.h:26-26 FS_MAX_FDS *)
Definition FS_MAX_FDS : Z := 256.
(* include/khui/fcntl.h:32-32 O_CREAT *)
Definition O_CREAT : Z := 0x200.
(* include/khui/fcntl.h:35-35 O_FORCE *)
Definition O_FORCE : Z := 0x10000000.

(** ** The root file system *)

(* kernel/fs/fs.c:53-77 fs_add_entry *)
Definition fs_add_entry (parent : Z) (name : list Z) (mode dev : Z) : M vfs Z :=
  p ← inode_at parent;
  inode ← new_inode (i_sb p);
  _ ← bug_on (bool_decide (inode = NULL));
  _ ← modify (λ s, set_ino_count (u32 (ino_count s + 1)) s);
  n ← gets ino_count;
  _ ← upd_inode (set_i_ino n) inode;
  _ ← upd_inode (set_i_mode mode) inode;
  _ ← upd_inode (set_i_dev dev) inode;
  _ ← inode_inc inode;
  dent ← new_direntry name inode;
  _ ← bug_on (bool_decide (dent = NULL));
  _ ← dent_inc dent;
  _ ← add_child dent parent;
  mret inode.

(** [alloc_pages(0, 0)] with [page_to_addr]: NULL has no address. *)
Definition alloc_page : M vfs Z := λ s,
  match v_pages s with
  | [] => Fault
  | a :: l => Ok (a, set_v_pages l s)
  end.

(** A store to [i_map.i_pages] and a load from it, inside the array. *)
Definition store_page (inode n page : Z) : M vfs unit :=
  i ← inode_at inode;
  if decide (0 ≤ n < Z.of_nat (length (i_pages i)))
  then put_inode inode (set_i_pages (<[Z.to_nat n := page]> (i_pages i)) i)
  else fault.
Definition load_page (i : inode) (n : Z) : M vfs Z := λ s,
  if decide (0 ≤ n) then match i_pages i !! Z.to_nat n with Some a => Ok (a, s) | None => Fault end
  else Fault.

(** The loop of [fs_stuff_inode], with [n] pages to go. *)
Fixpoint stuff_loop (n : nat) (inode npages from left : Z) : M vfs Z :=
  match n with
  | O => mret npages
  | S n =>
      a ← alloc_page;
      _ ← store_page inode npages a;
      _ ← modify (λ s, set_v_mem (memory_copy a from (Z.to_nat (Z.min PAGE_SIZE left)) (v_mem s)) s);
      stuff_loop n inode (npages + 1) (from + PAGE_SIZE) (left - PAGE_SIZE)
  end.

(* kernel/fs/fs.c:79-99 fs_stuff_inode *)
Definition fs_stuff_inode (inode src len : Z) : M vfs unit :=
  npages ← stuff_loop (Z.to_nat (Z.shiftr len PAGE_SHIFT + 1)) inode 0 src len;
  _ ← upd_inode (set_i_size (u32 len)) inode;
  upd_inode (set_i_filled npages) inode.

(** [kstrrchr(pathname, '/')]: what stands before the last slash and after
    it. *)
Fixpoint rcut_slash (p : list Z) : option (list Z * list Z) :=
  match p with
  | [] => None
  | c :: p =>
      match rcut_slash p with
      | Some (a, b) => Some (c :: a, b)
      | None => if decide (c = c_slash) then Some ([], p) else None
      end
  end.

(** The directory the entry goes to, and its name there: without a slash, or
    with the only one in front, the directory is the root and [p] still
    points to the start of the path. *)
Definition insert_at (pathname : list Z) : M vfs (Z * list Z) :=
  ns ← gets root_ns;
  match rcut_slash pathname with
  | None | Some ([], _) => mret (n_inode ns, pathname)
  | Some (dir, p) =>
      if decide (FILENAME_MAX ≤ Z.of_nat (length dir)) then fault else
      dent ← lookup_path dir;
      _ ← bug_on (bool_decide (dent = NULL));
      d ← dent_at dent;
      mret (d_inode d, p)
  end.

(* kernel/fs/fs.c:101-141 fs_insert_entry *)
Definition fs_insert_entry (pathname : list Z) (mode dev buf len : Z) : M vfs unit :=
  if decide (pathname = []) then fault else
  if decide (pathname = [46]) then mret tt else
  dent ← lookup_path pathname;
  if decide (dent ≠ NULL) then mret tt else
  '(dir, p) ← insert_at pathname;
  inode ← fs_add_entry dir p mode dev;
  if S_ISREG mode && bool_decide (buf ≠ NULL ∧ len ≠ 0) then fs_stuff_inode inode buf len else mret tt.

(** ** Files *)

(* include/file.h:32-38 file_operations *)
Record file_operations := Fops {
  fo_open : Z → M vfs Z;
  fo_close : Z → M vfs Z;
  fo_read : Z → Z → Z → M vfs Z;
  fo_write : Z → Z → Z → M vfs Z;
  fo_readdir : option (Z → Z → M vfs (Z * list (list Z))) }.

(* kernel/fs/file.c:38-52 new_file *)
Definition new_file : M vfs Z :=
  a ← gobj_alloc;
  if decide (a = NULL) then mret NULL else
  _ ← put_file a (File NULL NULL NullFops 0 0);
  mret a.

(* kernel/fs/file.c:54-57 kill_file *)
Definition kill_file (file : Z) : M vfs unit :=
  _ ← modify (λ s, set_v_files (delete file (v_files s)) s); gobj_free file.

(* kernel/fs/file.c:59-62 generic_open *)
Definition generic_open (file : Z) : M vfs Z := mret 0.
(* kernel/fs/file.c:64-67 generic_close *)
Definition generic_close (file : Z) : M vfs Z := mret 0.

(** The copying loop of [generic_read], from the page [r] of the inode. *)
Fixpoint read_loop (fuel : nat) (i : inode) (r npages to pgstart_off left : Z) : M vfs unit :=
  match fuel with
  | O => hang
  | S f =>
      a ← load_page i r;
      _ ← modify (λ s, set_v_mem (memory_copy to (a + pgstart_off) (Z.to_nat (Z.min PAGE_SIZE left)) (v_mem s)) s);
      if decide (r + 1 < npages)
      then read_loop f i (r + 1) npages (to + PAGE_SIZE) 0 (u32 (left - PAGE_SIZE))
      else mret tt
  end.

(** No inode has a [read_page] method: [new_inode] leaves it NULL. *)
(* kernel/fs/file.c:69-140 generic_read *)
Definition generic_read (file buf len : Z) : M vfs Z :=
  f ← file_at file;
  i ← inode_at (f_inode f);
  let len := if decide (i_size i < f_offset f + len) then u32 (i_size i - f_offset f) else len in
  let npages := i_filled i in
  let pgstart := Z.shiftr (f_offset f) PAGE_SHIFT in
  let pgstart_off := Z.land (f_offset f) (PAGE_SIZE - 1) in
  let pgsize := Z.shiftr len PAGE_SHIFT in
  if decide (npages < pgstart + pgsize) then bug else
  if decide (pgsize = 0) then
    a ← load_page i pgstart;
    _ ← modify (λ s, set_v_mem (memory_copy buf (a + pgstart_off) (Z.to_nat len) (v_mem s)) s);
    _ ← put_file file (set_f_offset (f_offset f + len) f);
    mret (s32 len)
  else
    _ ← read_loop (S (Z.to_nat (npages - pgstart))) i pgstart npages buf pgstart_off len;
    _ ← put_file file (set_f_offset (f_offset f + len) f);
    mret (s32 len).

(* kernel/fs/file.c:142-145 generic_write *)
Definition generic_write (file buf offset : Z) : M vfs Z := mret 0.

(** The loop of [generic_readdir]: the name is copied before the test. *)
Fixpoint readdir_loop (l : list Z) (i count : Z) : M vfs (Z * list (list Z)) :=
  match l with
  | [] => mret (i, [])
  | d :: l =>
      e ← dent_at d;
      if decide (i = count) then mret (i + 1, [d_name e])
      else '(r, names) ← readdir_loop l (i + 1) count; mret (r, d_name e :: names)
  end.

(* kernel/fs/file.c:147-171 generic_readdir *)
Definition generic_readdir (file count : Z) : M vfs (Z * list (list Z)) :=
  f ← file_at file;
  i ← inode_at (f_inode f);
  if negb (S_ISDIR (i_mode i)) then mret (- EINVAL, []) else
  if decide (count ≤ 0) then mret (- EINVAL, []) else
  readdir_loop (i_children i) 0 count.

(* kernel/fs/file.c:173-179 generic_fops *)
Definition generic_fops : file_operations :=
  Fops generic_open generic_close generic_read generic_write (Some generic_readdir).

(** *** Files of the virtual file system *)

(* kernel/fs/virtfs.c:155-159 virtfs_open *)
Definition virtfs_open (file : Z) : M vfs Z := mret 0.
(* kernel/fs/virtfs.c:161-165 virtfs_close *)
Definition virtfs_close (file : Z) : M vfs Z := mret 0.

(* kernel/fs/virtfs.c:167-176 virtfs_read *)
Definition virtfs_read (file buf len : Z) : M vfs Z :=
  _ ← modify (λ s, set_v_mem (put_bytes (v_mem s) buf (bytes "virtfs test" ++ [10; 0])) s);
  mret 12.

(* kernel/fs/virtfs.c:178-181 virtfs_write *)
Definition virtfs_write (file buf offset : Z) : M vfs Z := mret 0.

(* kernel/fs/virtfs_proc.c:31-48 virtfs_proc_readdir *)
Definition virtfs_proc_readdir (count : Z) : M vfs (Z * list (list Z)) :=
  l ← gets v_pids;
  mret (Z.of_nat (length l), (λ p, bytes "[task:" ++ signed_text (s32 p) ++ bytes "]") <$> l).

Fixpoint dev_readdir_loop (l : list Z) : M vfs (list (list Z)) :=
  match l with
  | [] => mret []
  | p :: l =>
      d ← dev_at p;
      ns ← dev_readdir_loop l;
      mret ((bytes "[" ++ dv_name d ++ bytes ":" ++ signed_text (s32 (DEV_MAJOR (dv_dev d))) ++ bytes "." ++
             signed_text (s32 (DEV_MINOR (dv_dev d))) ++ bytes "]") :: ns)
  end.

(* kernel/fs/virtfs_dev.c:33-52 virtfs_dev_readdir *)
Definition virtfs_dev_readdir (count : Z) : M vfs (Z * list (list Z)) :=
  l ← gets devices;
  ns ← dev_readdir_loop l;
  mret (Z.of_nat (length l), ns).

Fixpoint ve_readdir_loop (l : list Z) (c count : Z) : M vfs (Z * list (list Z)) :=
  match l with
  | [] => mret (c, [])
  | p :: l =>
      if decide (c = count) then mret (c, []) else
      e ← ve_at p;
      '(r, names) ← ve_readdir_loop l (c + 1) count;
      mret (r, ve_name e :: names)
  end.

(* kernel/fs/virtfs.c:183-213 virtfs_readdir *)
Definition virtfs_readdir (file count : Z) : M vfs (Z * list (list Z)) :=
  f ← file_at file;
  i ← inode_at (f_inode f);
  if negb (S_ISDIR (i_mode i)) then mret (- ENOTDIR, []) else
  root_ve ← ve_at (i_private i);
  match ve_ops root_ve with
  | VeopsProc => virtfs_proc_readdir count
  | VeopsDev => virtfs_dev_readdir count
  | VeopsNop =>
      if decide (ve_child root_ve = NULL) then mret (0, []) else
      c ← ve_at (ve_child root_ve);
      ve_readdir_loop (ve_siblings c) 0 count
  end.

(* kernel/fs/virtfs.c:215-221 virtfs_fops *)
Definition virtfs_fops : file_operations :=
  Fops virtfs_open virtfs_close virtfs_read virtfs_write (Some virtfs_readdir).

(** *** Descriptors *)

(* kernel/fs/file.c:181-197 alloc_fd *)
Definition alloc_fd : M vfs Z :=
  last ← gets last_fd;
  set ← gets fdset;
  let fd := bitmap_seek_unset set (last + 1) in
  if decide (fd = -1) then mret (- EBADF) else
  _ ← (if decide (fd = last ∧ last < FS_MAX_FDS) then modify (set_last_fd (last + 1)) else mret tt);
  _ ← modify (λ s, set_fdset (bitmap_bit_set (fdset s) fd) s);
  mret fd.

(* kernel/fs/file.c:199-202 free_fd *)
Definition free_fd (fd : Z) : M vfs unit := modify (λ s, set_fdset (bitmap_bit_clear (fdset s) fd) s).

(* kernel/fs/file.c:259-279 fd2file *)
Definition fd2file (fd : Z) : M vfs Z :=
  last ← gets last_fd;
  if decide (last < fd) then mret NULL else
  l ← gets t_files;
  first_of file_at (λ f, mret (bool_decide (f_fd f = fd))) l.

Section files.
Context (drivers : Z → file_operations).

(** The table a file's operations are called through. *)
Definition fops_of (o : fops) : option file_operations :=
  match o with
  | NullFops => None
  | GenericFops => Some generic_fops
  | VirtfsFops => Some virtfs_fops
  | DriverFops n => Some (drivers n)
  end.
Definition call {A} (o : fops) (op : file_operations → M vfs A) : M vfs A :=
  match fops_of o with Some t => op t | None => fault end.

(** The operations of the device an inode stands for; [None] when the open
    has to fail with -ENODEV. *)
Definition device_fops (i : inode) (flags : Z) : M vfs (option fops) :=
  if decide (i_dev i ≠ NODEV ∧ Z.land flags O_FORCE = 0) then
    p ← get_device (i_dev i);
    if decide (p = NULL) then mret None else d ← dev_at p; mret (Some (dv_fops d))
  else mret (Some NullFops).

(* kernel/fs/file.c:204-257 open *)
Definition open (name : list Z) (flags mode : Z) : M vfs Z :=
  _ ← (if decide (Z.land flags O_CREAT ≠ 0) then fs_insert_entry name mode NODEV NULL 0 else mret tt);
  dent ← lookup_path name;
  if decide (dent = NULL) then mret (- ENOENT) else
  d ← dent_at dent;
  i ← inode_at (d_inode d);
  o ← device_fops i flags;
  match o with
  | None => mret (- ENODEV)
  | Some ops =>
      file ← new_file;
      if decide (file = NULL) then mret (- ENOMEM) else
      _ ← dent_inc dent;
      _ ← inode_inc (d_inode d);
      _ ← modify (λ s, set_t_files (file :: t_files s) s);
      fd ← alloc_fd;
      let ops := if decide (ops ≠ NullFops) then ops
                 else if decide (i_fops i ≠ NullFops) then i_fops i else GenericFops in
      _ ← put_file file (File (i_sb i) (d_inode d) ops 0 fd);
      _ ← call ops (λ t, fo_open t file);
      mret fd
  end.

(* kernel/fs/file.c:281-306 read *)
Definition read (fd buf len : Z) : M vfs Z :=
  file ← fd2file fd;
  if decide (file = NULL) then mret (- EBADF) else
  f ← file_at file;
  _ ← bug_on (bool_decide (f_inode f = NULL));
  i ← inode_at (f_inode f);
  if decide (f_offset f = i_size i ∧ S_ISCHR (i_mode i) = false) then mret 0 else
  call (f_ops f) (λ t, fo_read t file buf len).

(* kernel/fs/file.c:308-323 write *)
Definition write (fd buf len : Z) : M vfs Z :=
  file ← fd2file fd;
  if decide (file = NULL) then mret (- EBADF) else
  f ← file_at file;
  _ ← bug_on (bool_decide (f_inode f = NULL));
  call (f_ops f) (λ t, fo_write t file buf len).

(* kernel/fs/file.c:325-336 close *)
Definition close (fd : Z) : M vfs Z :=
  file ← fd2file fd;
  if decide (file = NULL) then mret (- EBADF) else
  f ← file_at file;
  _ ← release_inode (f_inode f);
  _ ← free_fd fd;
  call (f_ops f) (λ t, fo_close t file).

(* kernel/fs/file.c:338-366 readdir *)
Definition readdir (fd count : Z) : M vfs (Z * list (list Z)) :=
  file ← fd2file fd;
  if decide (file = NULL) then mret (- EBADF, []) else
  f ← file_at file;
  call (f_ops f) (λ t,
    match fo_readdir t with
    | None => mret (- EINVAL, [])
    | Some op => _ ← bug_on (bool_decide (f_inode f = NULL)); op file count
    end).
End files.

(** ** Entries added to the tree *)

(** The inode and the state [fs_add_entry] makes. *)
Definition entry_inode (s : vfs) (sb : Z) (b : superblock) (d mode dev : Z) : inode :=
  set_i_dent [d] (set_i_refcnt 1 (set_i_dev dev (set_i_mode mode
    (set_i_ino (u32 (ino_count s + 1)) (fresh_inode s sb b))))).
Definition added (s : vfs) (parent : Z) (P : inode) (b : superblock) (ino d : Z) (rest : list Z)
    (name : list Z) (mode dev : Z) : vfs :=
  set_v_inodes (<[parent := set_i_children (d :: i_children P) P]>
                 (<[ino := entry_inode s (i_sb P) b d mode dev]> (v_inodes s)))
    (set_v_dents (<[d := Dent ino (take (Z.to_nat FILENAME_MAX) name) 1]> (v_dents s))
      (set_ino_count (u32 (ino_count s + 1))
        (set_v_supers (<[i_sb P := set_s_ilist (ino :: s_ilist b) b]> (v_supers s)) (set_v_heap rest s)))).

(** The memory and the structures an entry needs. *)
Record can_add (s : vfs) (parent : Z) (P : inode) (b : superblock) (ino d : Z) (rest : list Z) : Prop := {
  ca_parent : v_inodes s !! parent = Some P;
  ca_sb : i_sb P ≠ NULL;
  ca_super : v_supers s !! i_sb P = Some b;
  ca_heap : v_heap s = ino :: d :: rest;
  ca_ino : ino ≠ NULL;
  ca_dent : d ≠ NULL;
  ca_fresh_ino : v_inodes s !! ino = None;
  ca_fresh_dent : v_dents s !! d = None }.

(** [upd_inode] of the inode just stored. *)
Lemma upd_inode_again f p i m s :
  upd_inode f p (set_v_inodes (<[p := i]> m) s) = Ok (tt, set_v_inodes (<[p := f i]> m) s).
Proof.
  rewrite (upd_inode_run _ _ _ i) by apply lookup_insert_eq. f_equal. f_equal.
  apply vfs_ext; try reflexivity. apply insert_insert_eq.
Qed.

Lemma fs_add_entry_run s parent P b ino d rest name mode dev :
  can_add s parent P b ino d rest → name ≠ [] →
  fs_add_entry parent name mode dev s = Ok (ino, added s parent P b ino d rest name mode dev).
Proof.
  intros [Hp Hsb Hb Hh Hi Hd Hfi Hfd] Hn. assert (parent ≠ ino) as Hne by congruence.
  unfold fs_add_entry. rewrite (bind_run _ _ _ _ _ (inode_at_run _ _ _ Hp)).
  rewrite (bind_run _ _ _ _ _ (new_inode_run _ _ _ _ _ Hsb Hb Hh Hi)).
  rewrite bool_decide_false by done. mrun.
  set (s1 := set_v_supers _ _). change (set_ino_count ?n (set_v_inodes ?m s1)) with (set_v_inodes m (set_ino_count n s1)).
  cbn [ino_count set_v_inodes].
  do 3 rewrite (bind_run _ _ _ _ _ (upd_inode_again _ _ _ _ _)).
  unfold inode_inc. rewrite (bind_run _ _ _ _ _ (upd_inode_again _ _ _ _ _)).
  set (s2 := set_ino_count _ s1).
  erewrite (bind_run _ _ _ d).
  2:{ eapply new_direntry_run; [done|apply lookup_insert_eq|reflexivity|done|done]. }
  rewrite bool_decide_false by done. mrun.
  erewrite (bind_run _ _ _ tt); [|apply dent_inc_run; apply lookup_insert_eq].
  unfold add_child. erewrite (bind_run _ _ _ tt).
  2:{ apply upd_inode_run. cbn [v_inodes set_v_inodes set_v_dents]. rewrite lookup_insert_ne, lookup_insert_ne by done. exact Hp. }
  unfold mret, M_ret. f_equal. f_equal. apply vfs_ext; try reflexivity.
  - cbn. rewrite !insert_insert_eq. reflexivity.
  - cbn. rewrite !insert_insert_eq. reflexivity.
Qed.

Section added.
Context (s : vfs) (parent : Z) (P : inode) (b : superblock) (ino d : Z) (rest : list Z)
  (name : list Z) (mode dev : Z).
Context (Htree : tree_ok s) (Hadd : can_add s parent P b ino d rest) (Hname : name_ok FILENAME_MAX name = true).
Abbreviation s' := (added s parent P b ino d rest name mode dev).

Lemma added_name : take (Z.to_nat FILENAME_MAX) name = name.
Proof. apply name_ok_spec in Hname as [_ Hl]. apply take_ge. lia. Qed.

Lemma added_parent_ne : parent ≠ ino.
Proof. destruct Hadd. congruence. Qed.

Lemma added_inode j : j ≠ parent → j ≠ ino → v_inodes s' !! j = v_inodes s !! j.
Proof. intros. cbn. by rewrite !lookup_insert_ne. Qed.

Lemma added_dent e : e ≠ d → v_dents s' !! e = v_dents s !! e.
Proof. intros. cbn. by rewrite lookup_insert_ne. Qed.

Lemma dent_not_fresh e : dent_ok s e → e ≠ d.
Proof. intros (_ & x & Hx & _) ->. rewrite (ca_fresh_dent _ _ _ _ _ _ _ Hadd) in Hx. done. Qed.

Lemma added_find n l :
  Forall (dent_ok s) l →
  list_find (λ p, d_name <$> v_dents s' !! p = Some n) l = list_find (λ p, d_name <$> v_dents s !! p = Some n) l.
Proof.
  induction 1 as [|e l He _ IH]; [done|]. cbn [list_find].
  rewrite added_dent by by apply dent_not_fresh. by rewrite IH.
Qed.

Lemma children_ok j i : v_inodes s !! j = Some i → Forall (dent_ok s) (i_children i).
Proof. intros Hj. by destruct (Htree _ _ Hj). Qed.

(** The new entry is found, and every other name is as before. *)
Lemma added_child_new : S_ISDIR (i_mode P) = true → child s' parent name = Some d.
Proof.
  intros Hdir. unfold child. cbn. rewrite lookup_insert_eq. cbn. rewrite Hdir. cbn.
  rewrite decide_True; [done|]. rewrite lookup_insert_eq, added_name. done.
Qed.

Lemma added_child_old j n : j ≠ ino → (j = parent → n ≠ name) → child s' j n = child s j n.
Proof.
  intros Hj Hn. unfold child. destruct (decide (j = parent)) as [->|Hjp].
  - pose proof (ca_parent _ _ _ _ _ _ _ Hadd) as Hp. rewrite Hp. cbn [v_inodes added set_v_inodes].
    rewrite lookup_insert_eq. cbn [mbind option_bind]. cbn [i_mode i_children set_i_children].
    destruct (S_ISDIR (i_mode P)); [|done]. cbn [list_find].
    rewrite decide_False.
    2:{ cbn. rewrite lookup_insert_eq, added_name. cbn. intros [= ?]. by apply Hn. }
    rewrite added_find by by eapply children_ok.
    by destruct (list_find _ (i_children P)) as [[]|].
  - rewrite added_inode by done. destruct (v_inodes s !! j) as [i|] eqn:Hi; [|done]. cbn [mbind option_bind].
    destruct (S_ISDIR (i_mode i)); [|done]. by rewrite added_find by by eapply children_ok.
Qed.

Lemma added_super q : s_root <$> v_supers s' !! q = s_root <$> v_supers s !! q.
Proof.
  cbn. destruct (decide (q = i_sb P)) as [->|]; [|by rewrite lookup_insert_ne].
  by rewrite lookup_insert_eq, (ca_super _ _ _ _ _ _ _ Hadd).
Qed.

Lemma added_is_some j : is_Some (v_inodes s !! j) → is_Some (v_inodes s' !! j).
Proof.
  intros. destruct (decide (j = parent)) as [->|]; [cbn; rewrite lookup_insert_eq; eauto|].
  destruct (decide (j = ino)) as [->|]; [|by rewrite added_inode].
  cbn. rewrite lookup_insert_ne, lookup_insert_eq by done. eauto.
Qed.

Lemma added_mounted j : j ≠ ino → mounted s' j = mounted s j.
Proof.
  intros Hj. unfold mounted.
  assert (i_mount <$> v_inodes s' !! j = i_mount <$> v_inodes s !! j) as E.
  { destruct (decide (j = parent)) as [->|]; [|by rewrite added_inode].
    cbn. by rewrite lookup_insert_eq, (ca_parent _ _ _ _ _ _ _ Hadd). }
  destruct (v_inodes s' !! j) as [i'|], (v_inodes s !! j) as [i|]; try done. cbn [fmap option_fmap option_map] in E. cbn [mbind option_bind].
  injection E as ->. destruct (decide (i_mount i = NULL)); [done|].
  change (v_mounts s') with (v_mounts s). destruct (v_mounts s !! i_mount i) as [m|]; [|done]. cbn [mbind option_bind].
  pose proof (added_super (m_sb m)) as Hs.
  destruct (v_supers s' !! m_sb m), (v_supers s !! m_sb m); done.
Qed.

Lemma added_dent_ok e : dent_ok s e → dent_ok s' e.
Proof.
  intros He. pose proof (dent_not_fresh _ He). destruct He as (H0 & x & Hx & Hn & Hi & Hs).
  split; [done|]. exists x. rewrite added_dent by done. split_and!; [done..|by apply added_is_some].
Qed.

Lemma added_dent_new : dent_ok s' d.
Proof.
  destruct Hadd. split; [done|]. exists (Dent ino name 1). split_and!; cbn.
  - by rewrite lookup_insert_eq, added_name.
  - done.
  - done.
  - rewrite lookup_insert_ne, lookup_insert_eq by (apply not_eq_sym, added_parent_ne || apply added_parent_ne). eauto.
Qed.

Lemma inode_not_fresh j : is_Some (v_inodes s !! j) → j ≠ ino.
Proof. intros [i Hi] ->. rewrite (ca_fresh_ino _ _ _ _ _ _ _ Hadd) in Hi. done. Qed.

Lemma added_tree_ok : tree_ok s'.
Proof.
  intros j i Hj. destruct (decide (j = ino)) as [->|Hji].
  { cbn in Hj. rewrite lookup_insert_ne, lookup_insert_eq in Hj by apply added_parent_ne.
    injection Hj as <-. split; [apply Forall_nil_2|]. exists ino. unfold mounted. cbn.
    rewrite lookup_insert_ne, lookup_insert_eq by apply added_parent_ne. eauto. }
  assert (∀ i0, v_inodes s !! j = Some i0 → ∃ k, mounted s' j = Some k ∧ is_Some (v_inodes s' !! k)) as Hm.
  { intros i0 Hi0. destruct (Htree _ _ Hi0) as (_ & k & Hk & Hks). exists k.
    rewrite added_mounted by done. split; [done|by apply added_is_some]. }
  destruct (decide (j = parent)) as [->|Hjp].
  - pose proof (ca_parent _ _ _ _ _ _ _ Hadd) as Hp. split; [|by eapply Hm].
    cbn in Hj. rewrite lookup_insert_eq in Hj. injection Hj as <-. cbn. constructor; [apply added_dent_new|].
    eapply Forall_impl; [by eapply children_ok|apply added_dent_ok].
  - rewrite added_inode in Hj by done. split; [|by eapply Hm].
    eapply Forall_impl; [by eapply children_ok|apply added_dent_ok].
Qed.

Lemma added_target e : dent_ok s e → target s' e = target s e.
Proof.
  intros He. unfold target. rewrite added_dent by by apply dent_not_fresh.
  destruct He as (_ & x & -> & _ & _ & Hi). cbn. by apply added_mounted, inode_not_fresh.
Qed.

(** A path that was there leads to the same entry. *)
Lemma added_resolve cs j e :
  child s parent name = None → is_Some (v_inodes s !! j) → resolve s j cs = Some e → resolve s' j cs = Some e.
Proof.
  intros Hfree. revert j. induction cs as [|c cs IH]; intros j Hj; [done|].
  assert (∀ x, child s j c = Some x → child s' j c = Some x) as Hc.
  { intros x Hx. rewrite added_child_old; [done|by apply inode_not_fresh|]. intros -> ->. by rewrite Hfree in Hx. }
  destruct cs as [|c' cs]; [by apply Hc|]. rewrite !resolve_cons by done.
  destruct (child s j c) as [x|] eqn:Hx; [|done]. rewrite (Hc x) by done. cbn [mbind option_bind].
  pose proof (child_ok _ _ _ _ Htree Hx) as Hok. rewrite added_target by done.
  destruct (target_ok _ _ Htree Hok) as (k & -> & Hk). cbn [mbind option_bind]. by apply IH.
Qed.
End added.

(** ** Paths that name an entry of a directory *)

Lemma components_app a q : components (a ++ c_slash :: q) = components a ++ components q.
Proof.
  induction a as [|c a IH]; [done|]. cbn [app components]. destruct (decide (c = c_slash)); [by rewrite IH|].
  rewrite IH. destruct (components a) as [|y l] eqn:E; [by destruct (components_ne a)|done].
Qed.

Lemma components_name n : c_slash ∉ n → components n = [n].
Proof.
  induction n as [|c n IH]; [done|]. intros Hn. apply not_elem_of_cons in Hn as [? Hn]. cbn [components].
  rewrite decide_False by done. by rewrite IH.
Qed.

Lemma skip_slashes_app a q : skip_slashes a ≠ [] → skip_slashes (a ++ q) = skip_slashes a ++ q.
Proof.
  induction a as [|c a IH]; [done|]. cbn [app skip_slashes]. destruct (decide (c = c_slash)); [done|done].
Qed.

Lemma rcut_slash_none n : c_slash ∉ n → rcut_slash n = None.
Proof.
  induction n as [|c n IH]; [done|]. intros Hn. apply not_elem_of_cons in Hn as [? Hn]. cbn [rcut_slash].
  rewrite IH by done. by rewrite decide_False.
Qed.

Lemma rcut_slash_app a n : c_slash ∉ n → rcut_slash (a ++ c_slash :: n) = Some (a, n).
Proof.
  intros H. induction a as [|c a IH]; cbn [app rcut_slash].
  - by rewrite rcut_slash_none, decide_True.
  - by rewrite IH.
Qed.

Lemma resolve_app s j cs n :
  cs ≠ [] → resolve s j (cs ++ [n]) = (e ← resolve s j cs; k ← target s e; child s k n).
Proof.
  revert j. induction cs as [|c cs IH]; intros j; [done|]. intros _.
  destruct cs as [|c' cs]; [done|]. cbn [app]. rewrite !resolve_cons by done.
  destruct (child s j c) as [x|]; [|done]. cbn [mbind option_bind].
  destruct (target s x) as [k|]; [|done]. cbn [mbind option_bind]. by apply IH.
Qed.

Lemma resolve_ok s j cs e : tree_ok s → resolve s j cs = Some e → dent_ok s e.
Proof.
  intros Ht. revert j. induction cs as [|c cs IH]; intros j; [done|].
  destruct cs as [|c' cs]; [by apply child_ok|]. rewrite resolve_cons by done.
  destruct (child s j c) as [x|]; [|done]. cbn [mbind option_bind].
  destruct (target s x) as [k|]; [|done]. by apply IH.
Qed.

(** The names of a path, and the entry it leads to in the tree. *)
Definition names (path : list Z) : list (list Z) := components (skip_slashes path).
Definition entry_of (s : vfs) (path : list Z) : option Z := resolve s (n_inode (root_ns s)) (names path).

(** A path [dir/name] in a directory that is not a mount point. *)
Record in_dir (s : vfs) (dir name : list Z) (e : Z) (x : direntry) (P : inode) : Prop := {
  id_name : c_slash ∉ name;
  id_ne : skip_slashes dir ≠ [];
  id_len : Z.of_nat (length dir) < FILENAME_MAX;
  id_path : path_ok (names (dir ++ c_slash :: name));
  id_root : is_Some (v_inodes s !! n_inode (root_ns s));
  id_dir : entry_of s dir = Some e;
  id_dent : v_dents s !! e = Some x;
  id_inode : v_inodes s !! d_inode x = Some P;
  id_isdir : S_ISDIR (i_mode P) = true;
  id_mount : i_mount P = NULL }.

Lemma names_in_dir dir name :
  c_slash ∉ name → skip_slashes dir ≠ [] → names (dir ++ c_slash :: name) = names dir ++ [name].
Proof. intros. unfold names. by rewrite skip_slashes_app, components_app, (components_name name). Qed.

Lemma entry_in_dir s dir name e x P :
  in_dir s dir name e x P → entry_of s (dir ++ c_slash :: name) = child s (d_inode x) name.
Proof.
  intros [Hn Hd _ _ _ He Hx Hi _ Hm]. unfold entry_of in *.
  rewrite names_in_dir, resolve_app by (done || apply components_ne). rewrite He. cbn [mbind option_bind].
  unfold target, mounted. rewrite Hx. cbn [mbind option_bind]. rewrite Hi. cbn [mbind option_bind].
  by rewrite decide_True.
Qed.

Lemma in_dir_name_ok s dir name e x P :
  in_dir s dir name e x P → name_ok FILENAME_MAX name = true ∧ path_ok (names dir).
Proof.
  intros [Hn Hd _ Hp _ _ _ _ _ _]. rewrite names_in_dir in Hp by done.
  unfold path_ok in *. rewrite Forall_app, Forall_singleton in Hp. tauto.
Qed.

Lemma added_root s parent P b ino d rest name mode dev :
  root_ns (added s parent P b ino d rest name mode dev) = root_ns s.
Proof. done. Qed.

(** The entry is made where the path says, is found there, and hides no
    other. *)
Lemma fs_insert_entry_run s dir name e x P b ino d rest mode dev buf len :
  tree_ok s → generic_dirs s → in_dir s dir name e x P → can_add s (d_inode x) P b ino d rest →
  entry_of s (dir ++ c_slash :: name) = None →
  let s' := added s (d_inode x) P b ino d rest name mode dev in
  fs_insert_entry (dir ++ c_slash :: name) mode dev buf len s =
    (if S_ISREG mode && bool_decide (buf ≠ NULL ∧ len ≠ 0) then fs_stuff_inode ino buf len else mret tt) s' ∧
  tree_ok s' ∧ entry_of s' (dir ++ c_slash :: name) = Some d ∧
  (∀ p y, entry_of s p = Some y → entry_of s' p = Some y).
Proof.
  intros Ht Hg Hin Hadd Hfree s'; subst s'. pose proof Hin as [Hn Hd Hlen Hp Hr He Hx Hi Hdir Hm].
  destruct (in_dir_name_ok _ _ _ _ _ _ Hin) as [Hok Hpd].
  pose proof (resolve_ok _ _ _ _ Ht He) as Hdok.
  assert (child s (d_inode x) name = None) as Hc by by rewrite <- (entry_in_dir _ _ _ _ _ _ Hin).
  split_and!.
  - unfold fs_insert_entry. rewrite decide_False by by destruct dir.
    rewrite decide_False by (destruct dir as [|? [|]]; [done|done..]).
    destruct (lookup_path_run s (dir ++ c_slash :: name) Ht Hr) as [_ Hmiss];
      [by rewrite skip_slashes_app; [destruct (skip_slashes dir)|]|done|].
    rewrite (bind_run _ _ _ _ _ (Hmiss Hg Hfree)). rewrite decide_False by (intros H; by apply H).
    rewrite (bind_run _ _ s (d_inode x, name) s).
    2:{ unfold insert_at. rewrite bind_gets, rcut_slash_app by done. destruct dir as [|c dir']; [done|].
        rewrite decide_False by lia. destruct (lookup_path_run s (c :: dir') Ht Hr Hd Hpd) as [Hhit _].
        rewrite (bind_run _ _ _ _ _ (Hhit e He)).
        rewrite bool_decide_false by apply Hdok. mrun.
        by rewrite (bind_run _ _ _ _ _ (dent_at_run _ _ _ Hx)). }
    cbn beta iota. rewrite (bind_run _ _ _ _ _ (fs_add_entry_run _ _ _ _ _ _ _ _ _ _ Hadd (proj1 (proj1 (name_ok_spec _ _) Hok)))).
    done.
  - by apply added_tree_ok.
  - unfold entry_of in *. rewrite names_in_dir, resolve_app by (done || apply components_ne).
    rewrite added_root. rewrite (added_resolve s _ _ _ _ _ _ _ _ _ Ht Hadd Hok _ _ e Hc Hr He).
    cbn [mbind option_bind]. rewrite (added_target s _ _ _ _ _ _ _ _ _ Hadd _ Hdok).
    unfold target, mounted. rewrite Hx. cbn [mbind option_bind]. rewrite Hi. cbn [mbind option_bind].
    rewrite decide_True by done. by apply added_child_new.
  - intros p y Hy. unfold entry_of in *. rewrite added_root. by eapply added_resolve.
Qed.

(** ** The contents of files *)

(** The pages of a file, apart from each other and from a range of memory;
    the address of byte [t] of the file. *)
Fixpoint apart (l : list Z) : Prop :=
  match l with
  | [] => True
  | p :: l => Forall (λ q, p + PAGE_SIZE ≤ q ∨ q + PAGE_SIZE ≤ p) l ∧ apart l
  end.
Definition clear_of (pgs : list Z) (a n : Z) : Prop := Forall (λ p, p + PAGE_SIZE ≤ a ∨ a + n ≤ p) pgs.
Definition byte_of (pgs : list Z) (t : Z) : Z :=
  default 0 (pgs !! Z.to_nat (t / PAGE_SIZE)) + t `mod` PAGE_SIZE.
Definition outside (pgs : list Z) (a : Z) : Prop := Forall (λ p, ¬ p ≤ a < p + PAGE_SIZE) pgs.

Lemma byte_of_head p pgs t : 0 ≤ t < PAGE_SIZE → byte_of (p :: pgs) t = p + t.
Proof. intros. unfold byte_of. by rewrite Z.div_small, Z.mod_small. Qed.

Lemma byte_of_tail p pgs t : PAGE_SIZE ≤ t → byte_of (p :: pgs) t = byte_of pgs (t - PAGE_SIZE).
Proof.
  intros. unfold byte_of, PAGE_SIZE in *. replace t with (t - 4096 + 1 * 4096) at 1 2 by lia.
  rewrite Z.div_add, Z.mod_add by lia. f_equal. f_equal.
  replace (Z.to_nat ((t - 4096) / 4096 + 1)) with (S (Z.to_nat ((t - 4096) / 4096))); [done|].
  assert (0 ≤ (t - 4096) / 4096) by (apply Z.div_pos; lia). lia.
Qed.

(** A byte of the file lies in one of its pages. *)
Lemma byte_of_in pgs t :
  0 ≤ t < PAGE_SIZE * Z.of_nat (length pgs) →
  ∃ p, p ∈ pgs ∧ p ≤ byte_of pgs t < p + PAGE_SIZE.
Proof.
  intros Ht. unfold PAGE_SIZE in *. assert (0 ≤ t `mod` 4096 < 4096) by (apply Z.mod_pos_bound; done).
  assert (t / 4096 < Z.of_nat (length pgs)) by (apply Z.div_lt_upper_bound; lia).
  assert (0 ≤ t / 4096) by (apply Z.div_pos; lia).
  destruct (lookup_lt_is_Some_2 pgs (Z.to_nat (t / 4096))) as [p Hp]; [lia|].
  exists p. split; [by eapply list_elem_of_lookup_2|]. unfold byte_of, PAGE_SIZE. rewrite Hp. change (default 0 (Some p)) with p. lia.
Qed.

Definition stuffed (m : memory) (rest : list Z) (p : Z) (i : inode) (s : vfs) : vfs :=
  set_v_mem m (set_v_pages rest (set_v_inodes (<[p := i]> (v_inodes s)) s)).

Lemma stuff_loop_run pgs rest inode k from left s i :
  v_pages s = pgs ++ rest → v_inodes s !! inode = Some i → 0 ≤ k →
  k + Z.of_nat (length pgs) ≤ Z.of_nat (length (i_pages i)) → apart pgs → clear_of pgs from left →
  ∃ m, stuff_loop (length pgs) inode k from left s =
         Ok (k + Z.of_nat (length pgs),
             stuffed m rest inode (set_i_pages (list_inserts (Z.to_nat k) pgs (i_pages i)) i) s) ∧
       (∀ t, 0 ≤ t < left → t < PAGE_SIZE * Z.of_nat (length pgs) → m (byte_of pgs t) = v_mem s (from + t)) ∧
       (∀ a, outside pgs a → m a = v_mem s a).
Proof.
  revert k from left s i. induction pgs as [|p pgs IH]; intros k from left s i Hv Hi Hk Hlen Hap Hcl.
  { exists (v_mem s). split_and!; [|cbn; unfold PAGE_SIZE; lia|done]. cbn [length stuff_loop]. unfold mret, M_ret.
    f_equal. f_equal; [cbn; lia|]. apply vfs_ext; try reflexivity; [|exact Hv].
    cbn. symmetry. apply insert_id. rewrite Hi. f_equal. by destruct i. }
  assert (PAGE_SIZE = 4096) as HPS by done. destruct Hap as [Hp Hap]. apply Forall_cons in Hcl as [Hpc Hcl]. cbn [length stuff_loop].
  rewrite (bind_run _ _ s p (set_v_pages (pgs ++ rest) s)) by by unfold alloc_page; rewrite Hv.
  set (i1 := set_i_pages (<[Z.to_nat k := p]> (i_pages i)) i).
  set (s1 := set_v_inodes (<[inode := i1]> (v_inodes s)) (set_v_pages (pgs ++ rest) s)).
  rewrite (bind_run _ _ _ tt s1).
  2:{ unfold store_page. rewrite (bind_run _ _ _ i (set_v_pages (pgs ++ rest) s)) by by apply inode_at_run.
      rewrite decide_True; [done|]. cbn in Hlen. lia. }
  rewrite bind_modify. set (m1 := memory_copy p from _ (v_mem s1)).
  destruct (IH (k + 1) (from + PAGE_SIZE) (left - PAGE_SIZE) (set_v_mem m1 s1) i1) as (m & Hrun & Hby & Hfr).
  { done. } { apply lookup_insert_eq. } { lia. } { unfold i1. cbn [i_pages set_i_pages length] in *. rewrite length_insert. lia. } { done. }
  { eapply Forall_impl; [exact Hcl|]. cbn. intros. lia. }
  exists m. rewrite Hrun. assert (∀ a, v_mem (set_v_mem m1 s1) a =
    if decide (p ≤ a < p + Z.max 0 (Z.min PAGE_SIZE left)) then v_mem s (from + (a - p)) else v_mem s a) as Hm1.
  { intros a. cbn. unfold m1. rewrite memory_copy_at, ZifyInst.of_nat_to_nat_eq. by rewrite Z.max_comm. }
  split_and!.
  - f_equal. f_equal; [cbn [length]; lia|]. apply vfs_ext; try reflexivity. cbn. rewrite insert_insert_eq.
    f_equal. unfold i1. cbn. unfold set_i_pages. cbn. f_equal.
    replace (Z.to_nat (k + 1)) with (S (Z.to_nat k)) by lia. cbn [list_inserts].
    symmetry. apply list_insert_inserts_lt. lia.
  - intros t Ht Htp. destruct (decide (t < PAGE_SIZE)).
    + rewrite byte_of_head by lia. rewrite Hfr.
      2:{ eapply Forall_impl; [exact Hp|]. cbn. intros. lia. }
      rewrite Hm1, decide_True by lia. f_equal. lia.
    + rewrite byte_of_tail by lia. rewrite Hby by (cbn [length] in Htp; lia).
      rewrite Hm1, decide_False by lia. f_equal. lia.
  - intros a Ha. apply Forall_cons in Ha as [Hpa Ha]. rewrite Hfr by done. by rewrite Hm1, decide_False by lia.
Qed.

Lemma read_loop_run pgs fuel i r npages to left s :
  pgs ≠ [] → (∀ j p, pgs !! j = Some p → i_pages i !! (Z.to_nat r + j)%nat = Some p) → 0 ≤ r →
  npages = r + Z.of_nat (length pgs) → (length pgs ≤ fuel)%nat → clear_of pgs to left → is_u32 left →
  PAGE_SIZE * (Z.of_nat (length pgs) - 1) ≤ left →
  ∃ m, read_loop fuel i r npages to 0 left s = Ok (tt, set_v_mem m s) ∧
       (∀ t, 0 ≤ t < left → t < PAGE_SIZE * Z.of_nat (length pgs) → m (to + t) = v_mem s (byte_of pgs t)) ∧
       (∀ a, ¬ to ≤ a < to + left → m a = v_mem s a).
Proof.
  assert (PAGE_SIZE = 4096) as HPS by done.
  revert fuel r to left s. induction pgs as [|p pgs IH]; [done|].
  intros [|fuel] r to left s _ Hpg Hr Hn Hf Hcl Hu Hle; cbn [length] in *; [lia|]. cbn [read_loop].
  apply Forall_cons in Hcl as [Hpc Hcl].
  rewrite (bind_run _ _ s p s).
  2:{ unfold load_page. rewrite decide_True by done. specialize (Hpg O p eq_refl).
      rewrite Nat.add_0_r in Hpg. by rewrite Hpg. }
  rewrite bind_modify, Z.add_0_r. set (m1 := memory_copy to p _ (v_mem s)).
  assert (∀ a, m1 a = if decide (to ≤ a < to + Z.max 0 (Z.min PAGE_SIZE left)) then v_mem s (p + (a - to)) else v_mem s a) as Hm1.
  { intros a. unfold m1. rewrite memory_copy_at, ZifyInst.of_nat_to_nat_eq. by rewrite Z.max_comm. }
  destruct (decide (pgs = [])) as [->|Hne].
  - cbn [length] in *. rewrite decide_False by lia. exists m1. split_and!; [done| |].
    + intros t Ht Htp. rewrite byte_of_head by lia. rewrite Hm1, decide_True by lia. f_equal. lia.
    + intros a Ha. by rewrite Hm1, decide_False by lia.
  - assert (0 < length pgs)%nat by (destruct pgs; [done|cbn; lia]).
    assert (u32 (left - PAGE_SIZE) = left - PAGE_SIZE) as Hul by (apply u32_small; unfold is_u32 in *; lia).
    rewrite decide_True by lia. rewrite Hul.
    destruct (IH fuel (r + 1) (to + PAGE_SIZE) (left - PAGE_SIZE) (set_v_mem m1 s)) as (m & Hrun & Hby & Hfr).
    { done. }
    { intros j q Hj. replace (Z.to_nat (r + 1) + j)%nat with (Z.to_nat r + S j)%nat by lia. by apply Hpg. }
    { lia. } { lia. } { lia. } { eapply Forall_impl; [exact Hcl|]. cbn. intros. lia. }
    { unfold is_u32 in *. lia. } { lia. }
    exists m. rewrite Hrun. split_and!; [done| |].
    + intros t Ht Htp. destruct (decide (t < PAGE_SIZE)).
      * rewrite byte_of_head by lia. rewrite Hfr by lia. change (v_mem (set_v_mem m1 s)) with m1.
        rewrite Hm1, decide_True by lia. f_equal. lia.
      * rewrite byte_of_tail by lia. replace (to + t) with (to + PAGE_SIZE + (t - PAGE_SIZE)) by lia.
        rewrite Hby by lia. change (v_mem (set_v_mem m1 s)) with m1. rewrite Hm1, decide_False; [done|].
        destruct (byte_of_in pgs (t - PAGE_SIZE)) as (q & Hq & Hqb); [lia|].
        unfold clear_of in Hcl. rewrite Forall_forall in Hcl. specialize (Hcl q Hq). lia.
    + intros a Ha. rewrite Hfr by lia. change (v_mem (set_v_mem m1 s)) with m1. by rewrite Hm1, decide_False by lia.
Qed.

Lemma shiftr_page x : Z.shiftr x PAGE_SHIFT = x / PAGE_SIZE.
Proof. by rewrite Z.shiftr_div_pow2. Qed.

Lemma fs_stuff_inode_run pgs rest inode src len s i :
  v_pages s = pgs ++ rest → v_inodes s !! inode = Some i → 0 < len < 2 ^ 32 →
  Z.of_nat (length pgs) = len / PAGE_SIZE + 1 → (length pgs ≤ length (i_pages i))%nat → apart pgs →
  clear_of pgs src len →
  ∃ m, fs_stuff_inode inode src len s =
         Ok (tt, stuffed m rest inode (set_i_filled (Z.of_nat (length pgs)) (set_i_size len
                   (set_i_pages (list_inserts 0 pgs (i_pages i)) i))) s) ∧
       (∀ t, 0 ≤ t < len → m (byte_of pgs t) = v_mem s (src + t)) ∧
       (∀ a, outside pgs a → m a = v_mem s a).
Proof.
  intros Hv Hi Hlen Hl Hl64 Hap Hcl. unfold fs_stuff_inode. rewrite shiftr_page, <- Hl, Nat2Z.id.
  destruct (stuff_loop_run pgs rest inode 0 src len s i) as (m & Hrun & Hby & Hfr); [done..|lia|done|done|].
  exists m. rewrite (bind_run _ _ _ _ _ Hrun). unfold stuffed. split_and!; [| |done].
  - erewrite (bind_run _ _ _ tt); [|apply upd_inode_run, lookup_insert_eq].
    erewrite upd_inode_run by apply lookup_insert_eq. rewrite Z.add_0_l, u32_small by (unfold is_u32; lia).
    f_equal. f_equal. apply vfs_ext; try reflexivity. cbn. by rewrite !insert_insert_eq.
  - intros t Ht. apply Hby; [done|]. rewrite Hl. unfold PAGE_SIZE.
    pose proof (Z.mod_pos_bound len 4096). pose proof (Z.div_mod len 4096). lia.
Qed.

Lemma list_inserts_0 (pgs l : list Z) j p :
  pgs !! j = Some p → (length pgs ≤ length l)%nat → list_inserts 0 pgs l !! j = Some p.
Proof.
  intros Hj Hl. pose proof (lookup_lt_Some _ _ _ Hj). rewrite list_lookup_inserts by lia. by rewrite Nat.sub_0_r.
Qed.

(** [generic_read] of a whole file, from its start. *)
Lemma generic_read_whole pgs file f buf n s i :
  v_files s !! file = Some f → v_inodes s !! f_inode f = Some i → f_offset f = 0 →
  0 < i_size i ≤ n → i_size i < 2 ^ 31 → i_filled i = Z.of_nat (length pgs) →
  Z.of_nat (length pgs) = i_size i / PAGE_SIZE + 1 → (∀ j p, pgs !! j = Some p → i_pages i !! j = Some p) →
  clear_of pgs buf (i_size i) →
  ∃ m, generic_read file buf n s =
         Ok (i_size i, set_v_files (<[file := set_f_offset (i_size i) f]> (v_files s)) (set_v_mem m s)) ∧
       (∀ t, 0 ≤ t < i_size i → m (buf + t) = v_mem s (byte_of pgs t)) ∧
       (∀ a, ¬ buf ≤ a < buf + i_size i → m a = v_mem s a).
Proof.
  intros Hf Hi Hoff Hn H31 Hfill Hl Hpg Hcl. assert (PAGE_SIZE = 4096) as HPS by done. unfold generic_read.
  rewrite (bind_run _ _ s f s) by by unfold file_at, deref; rewrite Hf.
  rewrite (bind_run _ _ _ _ _ (inode_at_run _ _ _ Hi)). rewrite Hoff, Hfill, !shiftr_page.
  change (0 / PAGE_SIZE) with 0. change (Z.land 0 (PAGE_SIZE - 1)) with 0. rewrite !Z.add_0_l, Z.sub_0_r.
  replace (if decide (i_size i < n) then u32 (i_size i) else n) with (i_size i).
  2:{ case_decide; [by rewrite u32_small by (unfold is_u32; lia)|lia]. }
  assert (s32 (i_size i) = i_size i) as Hs by (unfold s32; rewrite Z.mod_small; lia).
  assert (0 ≤ i_size i / PAGE_SIZE) by (apply Z.div_pos; lia).
  rewrite decide_False by lia. destruct (decide (i_size i / PAGE_SIZE = 0)) as [Hz|Hz].
  - destruct pgs as [|p [|]]; cbn [length] in Hl; [lia| |lia].
    assert (i_size i < PAGE_SIZE).
    { pose proof (Z.mod_pos_bound (i_size i) 4096). pose proof (Z.div_mod (i_size i) 4096). rewrite HPS in Hz. lia. }
    rewrite (bind_run _ _ s p s) by (unfold load_page; rewrite (decide_True (P := 0 ≤ 0)) by lia; change (Z.to_nat 0) with O; by rewrite (Hpg O p)).
    rewrite bind_modify, Z.add_0_r. unfold put_file. rewrite bind_modify. rewrite Hs.
    exists (memory_copy buf p (Z.to_nat (i_size i)) (v_mem s)). split_and!; [done| |].
    + intros t Ht. rewrite memory_copy_at, decide_True by lia. rewrite byte_of_head by lia. f_equal. lia.
    + intros a Ha. by rewrite memory_copy_at, decide_False by lia.
  - destruct (read_loop_run pgs (S (Z.to_nat (Z.of_nat (length pgs) - 0))) i 0 (Z.of_nat (length pgs)) buf (i_size i) s)
      as (m & Hrun & Hby & Hfr); [intros ->; cbn [length] in Hl; lia|done|lia|lia|lia|done|unfold is_u32; lia| |].
    { rewrite Hl, HPS. pose proof (Z.mod_pos_bound (i_size i) 4096). pose proof (Z.div_mod (i_size i) 4096). lia. }
    rewrite (bind_run _ _ _ _ _ Hrun). unfold put_file. rewrite bind_modify. rewrite Hs. exists m. split_and!; [done| |done].
    intros t Ht. apply Hby; [done|]. rewrite Hl, HPS.
    pose proof (Z.mod_pos_bound (i_size i) 4096). pose proof (Z.div_mod (i_size i) 4096). lia.
Qed.

(** ** Descriptors and open files *)

(** No descriptor from [last_fd] on is taken. *)
Definition fds_ok (s : vfs) : Prop :=
  0 ≤ last_fd s < FS_MAX_FDS ∧ ∀ k, last_fd s ≤ k < FS_MAX_FDS → bit (fdset s) k = false.

(** The least descriptor that is free. *)
Definition least_free (s : vfs) (fd : Z) : Prop :=
  0 ≤ fd ≤ last_fd s ∧ bit (fdset s) fd = false ∧ ∀ j, 0 ≤ j < fd → bit (fdset s) j = true.

Definition took (fd : Z) (s : vfs) : vfs :=
  set_fdset (bitmap_bit_set (fdset s) fd) (set_last_fd (Z.max (last_fd s) (fd + 1)) s).

Lemma alloc_fd_run s : fds_ok s → ∃ fd, alloc_fd s = Ok (fd, took fd s) ∧ least_free s fd.
Proof.
  intros [Hl Hb]. unfold alloc_fd. rewrite !bind_gets. exists (bitmap_seek_unset (fdset s) (last_fd s + 1)).
  destruct (bitmap_seek_unset_spec (fdset s) (last_fd s + 1)) as [(Hr & Hf & Ht)|[_ Ht]].
  2:{ specialize (Ht (last_fd s)). rewrite Hb in Ht by lia. discriminate Ht. lia. }
  set (fd := bitmap_seek_unset (fdset s) (last_fd s + 1)) in *. clearbody fd. rewrite decide_False by lia.
  split; [|unfold least_free; split_and!; (done || lia)]. unfold took. case_decide as Hd.
  - mrun. destruct Hd as [-> _]. by rewrite Z.max_r by lia.
  - mrun. unfold mret, M_ret. do 2 f_equal. apply vfs_ext; try reflexivity. cbn. lia.
Qed.

Lemma took_fds_ok s fd : fds_ok s → least_free s fd → last_fd s + 1 < FS_MAX_FDS → fds_ok (took fd s).
Proof.
  intros [Hl Hb] (Hr & _ & _) H. split; cbn; [lia|]. intros k Hk. rewrite bit_bit_set by lia.
  rewrite bool_decide_false by lia. apply Hb. lia.
Qed.

(** The state after a file of the root file system has been opened. *)
Definition opened (s : vfs) (e : Z) (x : direntry) (i : inode) (file : Z) (rest : list Z) (fd : Z) : vfs :=
  set_v_files (<[file := File (i_sb i) (d_inode x) GenericFops 0 fd]>
                (<[file := File NULL NULL NullFops 0 0]> (v_files s)))
    (took fd (set_t_files (file :: t_files s)
      (set_v_inodes (<[d_inode x := set_i_refcnt (u32 (i_refcnt i + 1)) i]> (v_inodes s))
        (set_v_dents (<[e := set_d_refcnt (u32 (d_refcnt x + 1)) x]> (v_dents s))
          (set_v_files (<[file := File NULL NULL NullFops 0 0]> (v_files s)) (set_v_heap rest s)))))).

Lemma open_run drivers s path e x i file rest mode :
  lookup_path path s = Ok (e, s) → e ≠ NULL → v_dents s !! e = Some x → v_inodes s !! d_inode x = Some i →
  i_dev i = NODEV → i_fops i = NullFops → v_heap s = file :: rest → file ≠ NULL → fds_ok s →
  ∃ fd, open drivers path 0 mode s = Ok (fd, opened s e x i file rest fd) ∧ least_free s fd.
Proof.
  intros Hl He Hx Hi Hdev Hfo Hh Hfile Hfd. unfold open. rewrite decide_False by (intros E; by apply E). mrun.
  rewrite (bind_run _ _ _ _ _ Hl). rewrite decide_False by done.
  rewrite (bind_run _ _ _ _ _ (dent_at_run _ _ _ Hx)), (bind_run _ _ _ _ _ (inode_at_run _ _ _ Hi)).
  rewrite (bind_run _ _ s (Some NullFops) s).
  2:{ unfold device_fops. rewrite decide_False; [done|]. rewrite Hdev. by intros [? _]. }
  unfold new_file. rewrite bind_bind, (bind_run _ _ _ _ _ (gobj_alloc_run _ _ _ Hh)).
  rewrite (decide_False (P := file = NULL)) by done. unfold put_file. mrun. rewrite (decide_False (P := file = NULL)) by done.
  erewrite (bind_run _ _ _ tt); [|apply dent_inc_run; exact Hx].
  unfold inode_inc. erewrite (bind_run _ _ _ tt); [|apply upd_inode_run; exact Hi].
  mrun. set (s1 := set_t_files _ _). destruct (alloc_fd_run s1) as (fd & Hrun & Hleast); [done|].
  exists fd. split; [|exact Hleast]. rewrite (bind_run _ _ _ _ _ Hrun). mrun.
  rewrite Hfo. rewrite decide_False by (intros E; by apply E). rewrite decide_False by (intros E; by apply E).
  unfold call, fops_of, generic_fops, fo_open, generic_open. mrun. reflexivity.
Qed.

(** A descriptor just given leads to its file. *)
Lemma fd2file_opened s e x i file rest fd :
  least_free s fd → file ≠ NULL →
  fd2file fd (opened s e x i file rest fd) = Ok (file, opened s e x i file rest fd).
Proof.
  intros (Hr & _ & _) Hf. unfold fd2file. rewrite bind_gets. cbn [last_fd opened took set_last_fd set_v_files set_fdset].
  rewrite decide_False by (cbn; lia). rewrite bind_gets. cbn [t_files opened took set_last_fd set_v_files set_fdset].
  cbn [set_t_files first_of t_files].
  rewrite (bind_run _ _ _ (File (i_sb i) (d_inode x) GenericFops 0 fd) (opened s e x i file rest fd)).
  2:{ unfold file_at, deref. cbn. by rewrite lookup_insert_eq. }
  rewrite bind_mret. by rewrite bool_decide_true.
Qed.

(** ** A file made, opened and read *)

(** Storing contents and opening files leave the tree as it is. *)
Lemma stuffed_same_tree m rest p i i' s :
  v_inodes s !! p = Some i → shape i' = shape i → same_tree s (stuffed m rest p i' s).
Proof.
  intros Hi Hsh. split_and!; [done..|]. intros j. cbn. destruct (decide (j = p)) as [->|].
  - rewrite lookup_insert_eq, Hi. cbn. by rewrite Hsh.
  - by rewrite lookup_insert_ne.
Qed.

Lemma lookup_entry s path d :
  tree_ok s → is_Some (v_inodes s !! n_inode (root_ns s)) → skip_slashes path ≠ [] → path_ok (names path) →
  entry_of s path = Some d → lookup_path path s = Ok (d, s).
Proof. intros Ht Hr Hne Hp. by apply (lookup_path_run s path Ht Hr Hne Hp). Qed.

(** What the round trip needs: room for the entry and the file, and pages for
    the contents, away from the bytes read from and written to. *)
Record can_store (s : vfs) (src len buf : Z) (pgs prest : list Z) : Prop := {
  cs_len : 0 < len < PAGE_SIZE * INODE_PAGES;
  cs_src : src ≠ NULL;
  cs_stale : Z.of_nat (length (i_pages (v_stale s))) = INODE_PAGES;
  cs_pages : v_pages s = pgs ++ prest;
  cs_count : Z.of_nat (length pgs) = len / PAGE_SIZE + 1;
  cs_apart : apart pgs;
  cs_clear_src : clear_of pgs src len;
  cs_clear_buf : clear_of pgs buf len }.

Lemma added_entry_inode s parent P b ino d rest name mode dev :
  can_add s parent P b ino d rest →
  v_inodes (added s parent P b ino d rest name mode dev) !! ino = Some (entry_inode s (i_sb P) b d mode dev).
Proof. intros [Hp ? ? ? ? ? Hf ?]. cbn. rewrite lookup_insert_ne by congruence. apply lookup_insert_eq. Qed.

Lemma added_entry_dent s parent P b ino d rest name mode dev :
  name_ok FILENAME_MAX name = true →
  v_dents (added s parent P b ino d rest name mode dev) !! d = Some (Dent ino name 1).
Proof. intros Hn. cbn. by rewrite lookup_insert_eq, added_name. Qed.

Lemma s_isreg_mode mode : S_ISREG mode = true → S_ISCHR mode = false.
Proof. unfold S_ISREG, S_ISCHR. rewrite bool_decide_eq_true, bool_decide_eq_false. by intros ->. Qed.

(** The file after [fs_insert_entry], as its inode and its place in the tree. *)
Lemma insert_contents s dir name e x P b ino d rest mode src len buf pgs prest :
  tree_ok s → generic_dirs s → in_dir s dir name e x P → can_add s (d_inode x) P b ino d rest →
  entry_of s (dir ++ c_slash :: name) = None → S_ISREG mode = true → can_store s src len buf pgs prest →
  ∃ m i, let s' := stuffed m prest ino i (added s (d_inode x) P b ino d rest name mode NODEV) in
    fs_insert_entry (dir ++ c_slash :: name) mode NODEV src len s = Ok (tt, s') ∧
    lookup_path (dir ++ c_slash :: name) s' = Ok (d, s') ∧
    i_mode i = mode ∧ i_dev i = NODEV ∧ i_fops i = NullFops ∧ i_size i = len ∧
    i_filled i = Z.of_nat (length pgs) ∧ (∀ j p, pgs !! j = Some p → i_pages i !! j = Some p) ∧
    (∀ t, 0 ≤ t < len → m (byte_of pgs t) = v_mem s (src + t)).
Proof.
  intros Ht Hg Hin Hadd Hfree Hreg Hst. destruct (in_dir_name_ok _ _ _ _ _ _ Hin) as [Hok _].
  destruct (fs_insert_entry_run s dir name e x P b ino d rest mode NODEV src len Ht Hg Hin Hadd Hfree)
    as (Hrun & Ht1 & He1 & _).
  set (s1 := added s (d_inode x) P b ino d rest name mode NODEV) in *.
  assert (v_inodes s1 !! ino = Some (entry_inode s (i_sb P) b d mode NODEV)) as Hi1 by by apply added_entry_inode.
  destruct Hst as [Hlen Hsrc Hstale Hpages Hcount Hap Hcls _]. unfold INODE_PAGES in *.
  assert (PAGE_SIZE = 4096) as HPS by done.
  assert (len / PAGE_SIZE < 64) by (apply Z.div_lt_upper_bound; lia).
  destruct (fs_stuff_inode_run pgs prest ino src len s1 _ Hpages Hi1) as (m & Hs & Hby & _);
    [lia|done|cbn; lia|done|done|].
  exists m, (set_i_filled (Z.of_nat (length pgs)) (set_i_size len (set_i_pages
    (list_inserts 0 pgs (i_pages (entry_inode s (i_sb P) b d mode NODEV))) (entry_inode s (i_sb P) b d mode NODEV)))).
  cbv zeta. set (s2 := stuffed _ _ _ _ s1) in *. assert (same_tree s1 s2) as Hsame by by eapply stuffed_same_tree.
  pose proof Hin as [Hn Hd _ Hp Hr _ _ _ _ _]. split_and!; try done.
  - rewrite Hrun, Hreg, bool_decide_true by (split; [done|lia]). exact Hs.
  - apply lookup_entry; [by eapply same_tree_ok| | |done|].
    + eapply same_tree_some; [exact Hsame|]. by apply added_is_some.
    + by rewrite skip_slashes_app by done; destruct (skip_slashes dir).
    + unfold entry_of. change (root_ns s2) with (root_ns s1). rewrite <- Hsame. exact He1.
  - intros j p Hj. apply list_inserts_0; [done|]. cbn. lia.
Qed.

(** The directory entries of a state, checked. *)
Definition dent_okb (s : vfs) (p : Z) : bool :=
  match v_dents s !! p with
  | Some d => name_ok FILENAME_MAX (d_name d) &&
              bool_decide (p ≠ NULL ∧ d_inode d ≠ NULL ∧ is_Some (v_inodes s !! d_inode d))
  | None => false
  end.
Definition tree_okb (s : vfs) : bool :=
  forallb (λ '(j, i), forallb (dent_okb s) (i_children i) &&
    match mounted s j with Some k => bool_decide (is_Some (v_inodes s !! k)) | None => false end)
    (map_to_list (v_inodes s)).

Lemma tree_okb_ok s : tree_okb s = true → tree_ok s.
Proof.
  unfold tree_okb. rewrite forallb_forall. intros H j i Hi.
  specialize (H (j, i)). cbn in H. rewrite andb_true_iff in H.
  destruct H as [Hc Hm]; [apply list_elem_of_In; by apply elem_of_map_to_list|]. split.
  - apply Forall_forall. intros p Hp. rewrite forallb_forall in Hc. specialize (Hc p (proj1 (list_elem_of_In _ _) Hp)).
    unfold dent_okb in Hc. destruct (v_dents s !! p) as [d|] eqn:Hd; [|done].
    rewrite andb_true_iff, bool_decide_eq_true in Hc. destruct Hc as (Hn & H0 & H1 & H2).
    split; [done|]. exists d. done.
  - destruct (mounted s j) as [k|]; [|done]. exists k. split; [done|]. by rewrite bool_decide_eq_true in Hm.
Qed.

(** A freshly booted root file system with one directory: 40 structures and
    4 pages are free, byte [a] of memory is [a mod 251]. *)
Definition stale_inode : inode :=
  Inode [] 0 0 0 0 0 0 0 0 0 0 0 0 0 0 0 0 (replicate 64 0) 0 [] 0 NullIops NullFops.
Definition boot0 : vfs :=
  Vfs ∅ [] ∅ [] ∅ ∅ [] ∅ [] virtfs_static ∅ [] 0 (λ _, 0) (Ns 0 0) ROOT_INO false [1; 2]
    ((λ k, 0x10000 + 0x400 * k) <$> seqZ 0 40) ((λ k, 0x100000 + 0x1000 * k) <$> seqZ 0 4) stale_inode
    (λ a, a `mod` 251).
Definition run_or {A} (m : M vfs A) (s : vfs) : vfs := match m s with Ok (_, s') => s' | _ => s end.
Definition boot1 : vfs :=
  run_or (_ ← fs_init_super; _ ← fs_init_inodes; _ ← fs_init_namespace;
          ns ← gets root_ns; fs_add_entry (n_inode ns) (bytes "dev") S_IFDIR NODEV) boot0.

Definition dev_inode : Z := 0x10c00.
Definition dev_dent : Z := 0x11000.

(** [boot1] in the terms of the lemmas. *)
Definition boot1_P : inode := default stale_inode (v_inodes boot1 !! dev_inode).
Definition boot1_b : superblock := default (Super [] 0 0 0 0 0 GenericSops NullIops) (v_supers boot1 !! 0x10000).

Lemma boot1_tree_ok : tree_ok boot1.
Proof. apply tree_okb_ok. vm_compute. reflexivity. Qed.
Lemma boot1_generic : generic_dirs boot1.
Proof.
  assert (forallb (λ '(_, i), bool_decide (i_ops i = GenericIops)) (map_to_list (v_inodes boot1)) = true) as H
    by (vm_compute; reflexivity).
  rewrite forallb_forall in H. intros j i Hi. specialize (H (j, i)). cbn in H. rewrite bool_decide_eq_true in H.
  apply H, list_elem_of_In, elem_of_map_to_list, Hi.
Qed.
Lemma boot1_in_dir : in_dir boot1 (bytes "/dev") (bytes "tty0") dev_dent (Dent dev_inode (bytes "dev") 1) boot1_P.
Proof.
  split; try (vm_compute; reflexivity).
  - intros H. apply (bool_decide_pack _) in H. vm_compute in H. exact H.
  - vm_compute. discriminate.
  - repeat constructor; vm_compute; reflexivity.
  - apply (bool_decide_unpack _). vm_compute. exact I.
Qed.
Lemma boot1_can_add :
  can_add boot1 dev_inode boot1_P boot1_b 0x11400 0x11800 ((λ k, 0x10000 + 0x400 * k) <$> seqZ 7 33).
Proof. split; try (vm_compute; reflexivity); vm_compute; discriminate. Qed.

(** ** Properties *)

(** C15: [lookup_path] resolves a normalized path component by component,
    following mounts: when the entries of the directories on the way lead to a
    directory entry it returns that entry and changes nothing, whatever the
    file systems; when they do not and the directories belong to the root file
    system it returns NULL and changes nothing. *)
Theorem lookup_path_resolves s path :
  tree_ok s → is_Some (v_inodes s !! n_inode (root_ns s)) → skip_slashes path ≠ [] → path_ok (names path) →
  (∀ d, entry_of s path = Some d → lookup_path path s = Ok (d, s)) ∧
  (generic_dirs s → entry_of s path = None → lookup_path path s = Ok (NULL, s)).
Proof. apply lookup_path_run. Qed.

Lemma lookup_path_resolves_witness :
  lookup_path (bytes "//dev") boot1 = Ok (dev_dent, boot1) ∧ lookup_path (bytes "/dev/tty0") boot1 = Ok (NULL, boot1).
Proof.
  split.
  - apply (lookup_path_resolves boot1 (bytes "//dev")); [exact boot1_tree_ok|..].
    + apply (bool_decide_unpack _). vm_compute. exact I.
    + vm_compute. discriminate.
    + repeat constructor; vm_compute; reflexivity.
    + vm_compute. reflexivity.
  - apply (lookup_path_resolves boot1 (bytes "/dev/tty0")); [exact boot1_tree_ok|..|exact boot1_generic|].
    + apply (bool_decide_unpack _). vm_compute. exact I.
    + vm_compute. discriminate.
    + repeat constructor; vm_compute; reflexivity.
    + vm_compute. reflexivity.
Defined.

(** [fs_insert_entry] of a path [dir/name] that does not exist makes an
    entry that [lookup_path] finds under that path, with a new inode of the
    given mode and device, two references to it, and the next inode number;
    the tree stays well formed, and every path that led somewhere leads to the
    same entry. *)
Theorem fs_insert_entry_found s dir name e x P b ino d rest mode dev :
  tree_ok s → generic_dirs s → in_dir s dir name e x P → can_add s (d_inode x) P b ino d rest →
  entry_of s (dir ++ c_slash :: name) = None →
  ∃ s' i, fs_insert_entry (dir ++ c_slash :: name) mode dev NULL 0 s = Ok (tt, s') ∧ tree_ok s' ∧
    lookup_path (dir ++ c_slash :: name) s' = Ok (d, s') ∧ v_dents s' !! d = Some (Dent ino name 1) ∧
    v_inodes s' !! ino = Some i ∧ i_mode i = mode ∧ i_dev i = dev ∧ i_ino i = u32 (ino_count s + 1) ∧
    i_refcnt i = 1 ∧ (∀ p y, entry_of s p = Some y → entry_of s' p = Some y).
Proof.
  intros Ht Hg Hin Hadd Hfree. destruct (in_dir_name_ok _ _ _ _ _ _ Hin) as [Hok _].
  destruct (fs_insert_entry_run s dir name e x P b ino d rest mode dev NULL 0 Ht Hg Hin Hadd Hfree)
    as (Hrun & Ht' & He' & Hold). pose proof Hin as [Hn Hd _ Hp Hr _ _ _ _ _].
  exists (added s (d_inode x) P b ino d rest name mode dev), (entry_inode s (i_sb P) b d mode dev).
  split_and!; try done.
  - rewrite Hrun. rewrite (bool_decide_false (_ ∧ _)) by tauto. by rewrite andb_false_r.
  - apply lookup_entry; [done|by apply added_is_some| |done|done].
    by rewrite skip_slashes_app by done; destruct (skip_slashes dir).
  - by apply added_entry_dent.
  - by apply added_entry_inode.
Qed.

Lemma fs_insert_entry_found_witness :
  ∃ s' i, fs_insert_entry (bytes "/dev" ++ c_slash :: bytes "tty0") S_IFCHR (DEV_DEVICE 4 0) NULL 0 boot1 = Ok (tt, s') ∧
    tree_ok s' ∧ lookup_path (bytes "/dev" ++ c_slash :: bytes "tty0") s' = Ok (0x11800, s') ∧
    v_dents s' !! 0x11800 = Some (Dent 0x11400 (bytes "tty0") 1) ∧ v_inodes s' !! 0x11400 = Some i ∧
    i_mode i = S_IFCHR ∧ i_dev i = DEV_DEVICE 4 0 ∧ i_ino i = u32 (ino_count boot1 + 1) ∧ i_refcnt i = 1 ∧
    (∀ p y, entry_of boot1 p = Some y → entry_of s' p = Some y).
Proof.
  eapply (fs_insert_entry_found boot1 (bytes "/dev") (bytes "tty0") dev_dent (Dent dev_inode (bytes "dev") 1)).
  - exact boot1_tree_ok.
  - exact boot1_generic.
  - exact boot1_in_dir.
  - exact boot1_can_add.
  - vm_compute. reflexivity.
Defined.

(** C16: A file made with contents, opened and read gives the contents back:
    after [fs_insert_entry] of [len] bytes (up to the 64 pages of an inode),
    [open] answers the least free descriptor and [read] of [len] or more bytes
    answers [len] and puts the bytes into the buffer. *)
Theorem file_round_trip drivers s dir name e x P b ino d file rest mode src len buf n pgs prest :
  tree_ok s → generic_dirs s → in_dir s dir name e x P → can_add s (d_inode x) P b ino d (file :: rest) →
  entry_of s (dir ++ c_slash :: name) = None → S_ISREG mode = true → can_store s src len buf pgs prest →
  fds_ok s → file ≠ NULL → len ≤ n →
  ∃ fd s', (_ ← fs_insert_entry (dir ++ c_slash :: name) mode NODEV src len;
            fd ← open drivers (dir ++ c_slash :: name) 0 0;
            r ← read drivers fd buf n; mret (fd, r)) s = Ok ((fd, len), s') ∧
    least_free s fd ∧ ∀ t, 0 ≤ t < len → v_mem s' (buf + t) = v_mem s (src + t).
Proof.
  intros Ht Hg Hin Hadd Hfree Hreg Hst Hfds Hfile Hn. destruct (in_dir_name_ok _ _ _ _ _ _ Hin) as [Hok _].
  destruct (insert_contents _ _ _ _ _ _ _ _ _ _ _ _ _ _ _ _ Ht Hg Hin Hadd Hfree Hreg Hst)
    as (m & i & Hrun & Hlook & Hmode & Hdev & Hfo & Hsize & Hfill & Hpg & Hby). cbv zeta in *.
  set (s1 := stuffed _ _ _ _ _) in *. rewrite (bind_run _ _ _ _ _ Hrun).
  assert (v_inodes s1 !! ino = Some i) as Hi by apply lookup_insert_eq.
  destruct (open_run drivers s1 (dir ++ c_slash :: name) d (Dent ino name 1) i file rest 0 Hlook) as (fd & Hopen & Hfd);
    [by destruct Hadd|by apply added_entry_dent|done..|].
  rewrite (bind_run _ _ _ _ _ Hopen). set (s2 := opened s1 _ _ _ _ _ _) in *.
  set (f := File (i_sb i) ino GenericFops 0 fd).
  assert (fd2file fd s2 = Ok (file, s2)) as H2f by by apply fd2file_opened.
  assert (v_files s2 !! file = Some f) as Hf by apply lookup_insert_eq.
  assert (v_inodes s2 !! ino = Some (set_i_refcnt (u32 (i_refcnt i + 1)) i)) as Hi2 by apply lookup_insert_eq.
  assert (v_mem s2 = m) as Hm2 by reflexivity.
  assert (least_free s fd) as Hfd0 by exact Hfd. clearbody s2. clearbody s1.
  pose proof Hst as [Hlen _ _ _ Hcount _ _ Hclb]. unfold INODE_PAGES, PAGE_SIZE in Hlen.
  destruct (generic_read_whole pgs file f buf n s2 _ Hf Hi2) as (m2 & Hread & Hbuf & _);
    cbn [i_size i_filled i_pages set_i_refcnt]; rewrite ?Hsize; [done|lia|lia|done..|].
  cbn [i_size set_i_refcnt] in *. rewrite Hsize in *.
  exists fd. eexists. split_and!; [|exact Hfd0|].
  - unfold read. rewrite bind_bind, (bind_run _ _ _ _ _ H2f).
    rewrite decide_False by done. rewrite bind_bind, (bind_run _ _ s2 f s2) by (unfold file_at, deref; rewrite Hf; reflexivity).
    rewrite (bool_decide_false (f_inode f = NULL)) by by destruct Hadd. mrun.
    rewrite (bind_run _ _ _ _ _ (inode_at_run _ _ _ Hi2)). cbn [i_size set_i_refcnt f_offset f]. rewrite Hsize.
    rewrite decide_False by lia. cbn [f_ops call fops_of generic_fops fo_read].
    rewrite (bind_run _ _ _ _ _ Hread). reflexivity.
  - intros t Htt. cbn [v_mem set_v_files set_v_mem]. rewrite Hbuf, Hm2 by done. by apply Hby.
Qed.

Definition no_drivers : Z → file_operations := λ _, generic_fops.

Lemma boot1_can_store : can_store boot1 0x20000 5000 0x30000 [0x100000; 0x101000] [0x102000; 0x103000].
Proof.
  split.
  - unfold PAGE_SIZE, INODE_PAGES. lia.
  - discriminate.
  - vm_compute. reflexivity.
  - vm_compute. reflexivity.
  - vm_compute. reflexivity.
  - split; [|split; [apply Forall_nil_2|exact I]]. apply Forall_singleton. left. unfold PAGE_SIZE. lia.
  - unfold clear_of. rewrite !Forall_cons. unfold PAGE_SIZE. split_and!; [right; lia..|apply Forall_nil_2].
  - unfold clear_of. rewrite !Forall_cons. unfold PAGE_SIZE. split_and!; [right; lia..|apply Forall_nil_2].
Qed.

Lemma file_round_trip_witness :
  ∃ fd s', (_ ← fs_insert_entry (bytes "/dev" ++ c_slash :: bytes "tty0") S_IFREG NODEV 0x20000 5000;
            fd ← open no_drivers (bytes "/dev" ++ c_slash :: bytes "tty0") 0 0;
            r ← read no_drivers fd 0x30000 8192; mret (fd, r)) boot1 = Ok ((fd, 5000), s') ∧
    least_free boot1 fd ∧ ∀ t, 0 ≤ t < 5000 → v_mem s' (0x30000 + t) = v_mem boot1 (0x20000 + t).
Proof.
  eapply (file_round_trip no_drivers boot1 (bytes "/dev") (bytes "tty0") dev_dent (Dent dev_inode (bytes "dev") 1)
            boot1_P boot1_b 0x11400 0x11800 0x11c00 ((λ k, 0x10000 + 0x400 * k) <$> seqZ 8 32)).
  - exact boot1_tree_ok.
  - exact boot1_generic.
  - exact boot1_in_dir.
  - exact boot1_can_add.
  - vm_compute. reflexivity.
  - reflexivity.
  - exact boot1_can_store.
  - split; [vm_compute; split; [discriminate|reflexivity]|]. intros k Hk. apply Z.testbit_0_l.
  - discriminate.
  - discriminate.
Defined.



(** *** What the calls do beyond that *)

Definition result {A} (o : outcome (A * vfs)) : outcome A := fst <$> o.

(** A path with its only slash in front is inserted under a name that keeps
    the slash, so the entry is not found. *)
Example creat_in_root :
  result (open no_drivers (bytes "/foo") O_CREAT S_IFREG boot1) = Ok (- ENOENT) ∧
  result ((_ ← fs_insert_entry (bytes "foo") S_IFREG NODEV NULL 0; open no_drivers (bytes "/foo") 0 0) boot1) = Ok 0.
Proof. split; vm_compute; reflexivity. Qed.

(** [close] leaves the file on the thread's list: the descriptor can still be
    used, and another [close] drops the last reference to the inode, whose
    [free_inode] takes its list head for a directory entry. *)
Example use_after_close :
  result ((fd ← open no_drivers (bytes "/dev") 0 0; a ← close no_drivers fd; b ← readdir no_drivers fd 4;
           mret (a, b.1)) boot1) = Ok (0, 0) ∧
  result ((fd ← open no_drivers (bytes "/dev") 0 0; a ← close no_drivers fd; close no_drivers fd) boot1) = Fault.
Proof. split; vm_compute; reflexivity. Qed.

(** [generic_readdir] writes one entry more than there is room for. *)
Example readdir_writes_past :
  result ((ns ← gets root_ns; _ ← fs_add_entry (n_inode ns) (bytes "mnt") S_IFDIR NODEV;
           fd ← open no_drivers (bytes "/") 0 0; readdir no_drivers fd 1) boot1) =
    Ok (2, [bytes "mnt"; bytes "dev"]).
Proof. vm_compute. reflexivity. Qed.

(** A read of one page of a file of three goes on after the page: the third
    page is copied behind the buffer. *)
Lemma read_overruns file f i s buf p0 p1 p2 :
  v_files s !! file = Some f → v_inodes s !! f_inode f = Some i → f_offset f = 0 →
  i_size i = 3 * PAGE_SIZE - 1 → i_filled i = 3 → take 3 (i_pages i) = [p0; p1; p2] →
  clear_of [p0; p1; p2] buf (3 * PAGE_SIZE) →
  ∃ s', generic_read file buf PAGE_SIZE s = Ok (PAGE_SIZE, s') ∧
        ∀ t, 0 ≤ t < PAGE_SIZE → v_mem s' (buf + 2 * PAGE_SIZE + t) = v_mem s (p2 + t).
Proof.
  intros Hf Hi Ho Hs Hfill Hp Hcl. assert (PAGE_SIZE = 4096) as HPS by done.
  assert (∀ j p, [p0; p1; p2] !! j = Some p → i_pages i !! j = Some p) as Hpg.
  { intros j p Hj. rewrite <- Hp in Hj. apply lookup_take_Some in Hj. tauto. }
  unfold clear_of in Hcl. rewrite !Forall_cons in Hcl. destruct Hcl as (H0 & H1 & H2 & _).
  assert (∀ j p s0, [p0; p1; p2] !! j = Some p → load_page i (Z.of_nat j) s0 = Ok (p, s0)) as Hload.
  { intros j p s0 Hj. unfold load_page. rewrite decide_True, Nat2Z.id, (Hpg j p) by (done || lia). done. }
  unfold generic_read. rewrite (bind_run _ _ s f s) by by unfold file_at, deref; rewrite Hf.
  rewrite (bind_run _ _ _ _ _ (inode_at_run _ _ _ Hi)). rewrite Ho, Hs, Hfill.
  rewrite (decide_False (P := 3 * PAGE_SIZE - 1 < 0 + PAGE_SIZE)) by lia.
  change (Z.shiftr 0 PAGE_SHIFT) with 0. change (Z.shiftr PAGE_SIZE PAGE_SHIFT) with 1.
  cbv zeta. rewrite (decide_False (P := 3 < 0 + 1)), (decide_False (P := 1 = 0)) by lia.
  change (Z.to_nat (3 - 0)) with 3%nat. cbn [read_loop]. rewrite !bind_bind.
  rewrite (bind_run _ _ _ _ _ (Hload 0%nat p0 s eq_refl)), bind_bind, bind_modify.
  rewrite (decide_True (P := 0 + 1 < 3)) by lia. rewrite bind_bind.
  erewrite (bind_run _ _ _ _ _ (Hload 1%nat p1 _ eq_refl)). rewrite bind_bind, bind_modify.
  rewrite (decide_True (P := 0 + 1 + 1 < 3)) by lia. rewrite bind_bind.
  erewrite (bind_run _ _ _ _ _ (Hload 2%nat p2 _ eq_refl)). rewrite bind_bind, bind_modify.
  rewrite (decide_False (P := 0 + 1 + 1 + 1 < 3)) by lia. unfold put_file. mrun. eexists. split; [reflexivity|].
  intros t Ht. change (Z.land 0 (PAGE_SIZE - 1)) with 0. cbn [v_mem set_v_files set_v_mem].
  rewrite memory_copy_at, decide_True by (change (Z.to_nat _) with 4096%nat; lia).
  rewrite memory_copy_at, decide_False by (change (Z.to_nat _) with 0%nat; lia).
  rewrite memory_copy_at, decide_False by (change (Z.to_nat _) with 4096%nat; lia). f_equal. lia.
Qed.
