(* ===== verification/Cpio.v ===== *)
(** * The initial root file system (kernel/fs/cpio.c, fs_init of fs.c)

    [cpio_read] walks the archive the linker puts between [rootfs_start] and
    [rootfs_end] and makes an entry for each of its members.  The archive is
    in the memory the pages are taken from, so the bodies of the files are
    copied from it.

    [frames] says that an operation leaves memory and the free pages alone;
    the tactic [frame] proves it along the structure of an operation. *)

From Stdlib Require Import Ascii String.
From S2P Require Import Prelude Bitmap Klib Printf Buddy PageAlloc Vfs Fs.

(* kernel/fs/cpio.c:35-35 MAGIC *)
Definition MAGIC : Z := 29127.
(* kernel/fs/cpio.c:36-36 TRAILER *)
Definition TRAILER : list Z := bytes "TRAILER!!!".

(** Offsets of the members of HD_BCPIO and its size. *)
(* kernel/fs/cpio.c:38-52 HD_BCPIO *)
Definition h_magic : Z := 0.
Definition h_mode : Z := 6.
Definition h_rdev : Z := 14.
Definition h_namesize : Z := 20.
Definition h_filesize_1 : Z := 22.
Definition h_filesize_2 : Z := 24.
Definition HD_BCPIO_size : Z := 26.

(* kernel/fs/cpio.c:54-54 cpio2su16 *)
Definition cpio2su16 (m : memory) (s f : Z) : Z := Z.lor (Z.shiftl (u8 (m (s + f + 1))) 8) (u8 (m (s + f))).
(* kernel/fs/cpio.c:55-55 cpio2ru16 *)
Definition cpio2ru16 (m : memory) (s f : Z) : Z := Z.lor (Z.shiftl (u8 (m (s + f))) 8) (u8 (m (s + f + 1))).
(* kernel/fs/cpio.c:56-56 cpio2u16 *)
Definition cpio2u16 (reverse : bool) (m : memory) (s f : Z) : Z :=
  if reverse then cpio2ru16 m s f else cpio2su16 m s f.
(* kernel/fs/cpio.c:58-58 ALIGN2 *)
Definition ALIGN2 (x : Z) : Z := roundup_l2 x 2.

(** The string at an address. *)
Fixpoint str_at (fuel : nat) (m : memory) (p : Z) : outcome (list Z) :=
  match fuel with
  | O => Hang
  | S f => if decide (m p = 0) then Ok [] else l ← str_at f m (p + 1); Ok (m p :: l)
  end.

(** [while (t < &rootfs_end && the magic is not there) t++]. *)
Fixpoint seek_magic (fuel : nat) (reverse : bool) (m : memory) (t rootfs_end : Z) : outcome Z :=
  match fuel with
  | O => Hang
  | S f => if decide (t < rootfs_end ∧ cpio2u16 reverse m t h_magic ≠ MAGIC)
           then seek_magic f reverse m (t + 1) rootfs_end else Ok t
  end.

(** The loop of [cpio_read]. *)
Fixpoint cpio_loop (fuel : nat) (reverse : bool) (t rootfs_end : Z) : M vfs Z :=
  match fuel with
  | O => hang
  | S f =>
      if decide (t < rootfs_end) then
        m ← gets v_mem;
        t ← lift (seek_magic fuel reverse m t rootfs_end);
        if decide (cpio2u16 reverse m t h_magic ≠ MAGIC) then mret (- EIO) else
        let fsize := u32 (Z.lor (Z.shiftl (cpio2u16 reverse m t h_filesize_1) 16) (cpio2u16 reverse m t h_filesize_2)) in
        let mode := cpio2u16 reverse m t h_mode in
        let namep := t + HD_BCPIO_size in
        name ← lift (str_at fuel m namep);
        if decide (name = []) then fault else
        if decide (name = TRAILER) then mret 0 else
        let next := namep + ALIGN2 (cpio2u16 reverse m t h_namesize) in
        if negb (S_ISCHR mode) && negb (S_ISDIR mode) then
          _ ← fs_insert_entry name mode NODEV next fsize;
          cpio_loop f reverse (next + ALIGN2 fsize) rootfs_end
        else
          _ ← fs_insert_entry name mode (DEV_DEVICE (u8 (m (t + h_rdev + 1))) (u8 (m (t + h_rdev)))) NULL 0;
          cpio_loop f reverse next rootfs_end
      else mret 0
  end.

(* kernel/fs/cpio.c:62-128 cpio_read *)
Definition cpio_read (fuel : nat) (rootfs_start rootfs_end : Z) : M vfs Z :=
  m ← gets v_mem;
  cpio_loop fuel (bool_decide (cpio2ru16 m rootfs_start h_magic = MAGIC)) rootfs_start rootfs_end.

(** The messaging pool and its queue, which [messaging_init] sets up, are not
    part of this state; nor is the pool of [fs_init_mount]. *)
(* kernel/fs/fs.c:143-181 fs_init *)
Definition fs_init (fuel : nat) (rootfs_start rootfs_end : Z) : M vfs unit :=
  _ ← fs_init_super;
  _ ← fs_init_inodes;
  _ ← fs_init_namespace;
  sb ← get_super ROOTFSDEV;
  b ← super_at sb;
  _ ← modify (set_sb_read_inode true);
  let root := s_root b in
  p ← fs_add_entry root (bytes "dev") S_IFDIR NODEV;
  _ ← fs_add_entry p (bytes "tty0") S_IFCHR (DEV_DEVICE 4 0);
  _ ← fs_add_entry p (bytes "pckbd") S_IFCHR (DEV_DEVICE 13 128);
  _ ← fs_add_entry p (bytes "serial") S_IFCHR (DEV_DEVICE 12 34);
  _ ← fs_add_entry root (bytes "initfs") S_IFDIR NODEV;
  _ ← fs_add_entry root (bytes "mnt") S_IFDIR NODEV;
  _ ← fs_add_entry root (bytes "koowaldah") S_IFDIR NODEV;
  _ ← cpio_read fuel rootfs_start rootfs_end;
  _ ← devices_init;
  fs_init_virtfs.

(** ** Operations that leave memory alone *)

Definition frames {A} (o : M vfs A) : Prop :=
  ∀ s a s', o s = Ok (a, s') → v_mem s' = v_mem s ∧ v_pages s' = v_pages s.

Lemma frames_mret {A} (a : A) : frames (mret a).
Proof. intros s b s' [= <- <-]. done. Qed.
Lemma frames_gets {A} (f : vfs → A) : frames (gets f).
Proof. intros s b s' [= <- <-]. done. Qed.
Lemma frames_bug {A} : frames (A := A) bug.
Proof. by intros s b s'. Qed.
Lemma frames_fault {A} : frames (A := A) fault.
Proof. by intros s b s'. Qed.
Lemma frames_hang {A} : frames (A := A) hang.
Proof. by intros s b s'. Qed.
Lemma frames_bug_on c : frames (bug_on c).
Proof. intros s b s'. unfold bug_on. destruct c; [done|]. by intros [= <- <-]. Qed.
Lemma frames_modify f : (∀ s, v_mem (f s) = v_mem s ∧ v_pages (f s) = v_pages s) → frames (modify f).
Proof. intros H s b s' [= <- <-]. apply H. Qed.
Lemma frames_deref {A} (m : vfs → gmap Z A) p : frames (deref m p).
Proof. intros s a s'. unfold deref. destruct (m s !! p); [|done]. by intros [= <- <-]. Qed.
Lemma frames_bind {A B} (o : M vfs A) (k : A → M vfs B) : frames o → (∀ a, frames (k a)) → frames (mbind k o).
Proof.
  intros Ho Hk s b s' H. apply bind_ok in H as (a & s1 & H1 & H2).
  specialize (Hk _ _ _ _ H2). specialize (Ho _ _ _ H1). intuition congruence.
Qed.
Lemma frames_first_of {A} (at_ : Z → M vfs A) test l :
  (∀ p, frames (at_ p)) → (∀ a, frames (test a)) → frames (first_of at_ test l).
Proof.
  intros Ha Ht. induction l as [|p l IH]; cbn [first_of]; [apply frames_mret|].
  apply frames_bind; [apply Ha|]. intros a. apply frames_bind; [apply Ht|]. intros []; [apply frames_mret|apply IH].
Qed.
Lemma frames_gobj_alloc : frames gobj_alloc.
Proof. intros s a s'. unfold gobj_alloc. destruct (v_heap s); by intros [= <- <-]. Qed.
Lemma frames_names_eq max a b : frames (names_eq max a b).
Proof. intros s r s'. unfold names_eq. destruct (_ && _); [|done]. by intros [= <- <-]. Qed.
Lemma frames_name_copy max n : frames (name_copy max n).
Proof. intros s r s'. unfold name_copy. destruct (decide _); [done|]. by intros [= <- <-]. Qed.
Lemma frames_inode_at p : frames (inode_at p).
Proof. apply frames_deref. Qed.
Lemma frames_dent_at p : frames (dent_at p).
Proof. apply frames_deref. Qed.
Lemma frames_super_at p : frames (super_at p).
Proof. apply frames_deref. Qed.
Lemma frames_mount_at p : frames (mount_at p).
Proof. apply frames_deref. Qed.
Lemma frames_ve_at p : frames (ve_at p).
Proof. apply frames_deref. Qed.

Create HintDb frame.
#[export] Hint Resolve frames_mret frames_gets frames_bug frames_fault frames_hang frames_bug_on frames_gobj_alloc
  frames_names_eq frames_name_copy frames_inode_at frames_dent_at frames_super_at frames_mount_at frames_ve_at : frame.

(** One pass over an operation: its parts leave memory alone. *)
Ltac frame :=
  repeat match goal with
  | |- frames (mbind _ _) => apply frames_bind; [|intros ?]
  | |- frames (modify _) => apply frames_modify; intros ?; split; reflexivity
  | |- frames (first_of _ _ _) => apply frames_first_of; intros ?
  | |- frames _ => solve [eauto with frame]
  | |- frames (if ?b then _ else _) => destruct b
  | |- frames (match ?b with _ => _ end) => destruct b
  end.

Lemma frames_upd_inode f p : frames (upd_inode f p).
Proof. unfold upd_inode, put_inode. frame. Qed.
Lemma frames_new_inode sb : frames (new_inode sb).
Proof. unfold new_inode, sops_alloc_inode, alloc_inode, put_inode, put_super. frame. Qed.
#[export] Hint Resolve frames_upd_inode frames_new_inode : frame.
Lemma frames_new_direntry n p : frames (new_direntry n p).
Proof. unfold new_direntry, put_dent. frame. Qed.
Lemma frames_dent_inc p : frames (dent_inc p).
Proof. unfold dent_inc, put_dent. frame. Qed.
#[export] Hint Resolve frames_new_direntry frames_dent_inc : frame.
Lemma frames_virtfs_lookup p n : frames (virtfs_lookup p n).
Proof.
  unfold virtfs_lookup, virtfs_get_entry, virtfs_proc_lookup, virtfs_dev_lookup, add_child, inode_inc, put_ve. frame.
Qed.
#[export] Hint Resolve frames_virtfs_lookup : frame.
Lemma frames_lookup_direntry n p : frames (lookup_direntry n p).
Proof. unfold lookup_direntry, iops_lookup, generic_lookup. frame. Qed.
#[export] Hint Resolve frames_lookup_direntry : frame.
Lemma frames_walk fuel p i : frames (walk fuel p i).
Proof. revert p i. induction fuel; intros; cbn [walk]; unfold follow_mount; frame. Qed.
#[export] Hint Resolve frames_walk : frame.
Lemma frames_lookup_path p : frames (lookup_path p).
Proof. unfold lookup_path. frame. Qed.
#[export] Hint Resolve frames_lookup_path : frame.
Lemma frames_fs_add_entry p n mode dev : frames (fs_add_entry p n mode dev).
Proof. unfold fs_add_entry, inode_inc, add_child. frame. Qed.
Lemma frames_insert_at p : frames (insert_at p).
Proof. unfold insert_at. frame. Qed.
#[export] Hint Resolve frames_fs_add_entry frames_insert_at : frame.

(** Operations that write only to pages they take. *)
Definition writes_pages {A} (o : M vfs A) : Prop :=
  ∀ s a s', o s = Ok (a, s') →
    ∃ used, v_pages s = used ++ v_pages s' ∧ ∀ x, outside used x → v_mem s' x = v_mem s x.

Lemma frames_writes {A} (o : M vfs A) : frames o → writes_pages o.
Proof. intros H s a s' E. destruct (H _ _ _ E) as [-> ->]. by exists []. Qed.
Lemma writes_bind {A B} (o : M vfs A) (k : A → M vfs B) :
  writes_pages o → (∀ a, writes_pages (k a)) → writes_pages (mbind k o).
Proof.
  intros Ho Hk s b s' H. apply bind_ok in H as (a & s1 & H1 & H2).
  destruct (Ho _ _ _ H1) as (u1 & -> & M1), (Hk _ _ _ _ H2) as (u2 & -> & M2).
  exists (u1 ++ u2). split; [by rewrite app_assoc|]. intros x Hx. unfold outside in Hx. rewrite Forall_app in Hx.
  rewrite M2 by apply Hx. apply M1, Hx.
Qed.

Lemma stuff_loop_writes n inode k from left : writes_pages (stuff_loop n inode k from left).
Proof.
  revert k from left. induction n as [|n IH]; intros k from left; cbn [stuff_loop]; [apply frames_writes, frames_mret|].
  intros s r s' H. apply bind_ok in H as (a & s1 & H1 & H2). unfold alloc_page in H1.
  destruct (v_pages s) as [|p l] eqn:Hp; [done|]. injection H1 as <- <-.
  apply bind_ok in H2 as ([] & s2 & H2 & H3). assert (frames (store_page inode k p)) as Hf by (unfold store_page, put_inode; frame).
  destruct (Hf _ _ _ H2) as [Hm2 Hp2]. rewrite bind_modify in H3. destruct (IH _ _ _ _ _ _ H3) as (u & Hu & Hw).
  cbn in Hu, Hp2, Hm2. exists (p :: u). split; [cbn; congruence|]. intros x Hx. unfold outside in Hx.
  rewrite Forall_cons in Hx. destruct Hx as [Hpx Hx]. rewrite Hw by done. cbn. rewrite memory_copy_at.
  rewrite decide_False by (unfold PAGE_SIZE in *; lia). by rewrite Hm2.
Qed.

Lemma fs_insert_entry_writes path mode dev buf len : writes_pages (fs_insert_entry path mode dev buf len).
Proof.
  unfold fs_insert_entry. destruct (decide _); [apply frames_writes; auto with frame|].
  destruct (decide _); [apply frames_writes; auto with frame|].
  apply writes_bind; [apply frames_writes; auto with frame|]. intros d.
  destruct (decide _); [apply frames_writes; auto with frame|].
  apply writes_bind; [apply frames_writes; auto with frame|]. intros [dir p].
  apply writes_bind; [apply frames_writes; auto with frame|]. intros i.
  destruct (_ && _); [|apply frames_writes; auto with frame]. unfold fs_stuff_inode.
  apply writes_bind; [apply stuff_loop_writes|]. intros np. apply frames_writes. frame.
Qed.

(** A region no free page overlaps keeps its bytes, and stays such. *)
Lemma writes_keep {A} (o : M vfs A) s a s' p n :
  writes_pages o → o s = Ok (a, s') → clear_of (v_pages s) p n →
  clear_of (v_pages s') p n ∧ ∀ x, p ≤ x < p + n → v_mem s' x = v_mem s x.
Proof.
  intros Hw E Hc. destruct (Hw _ _ _ E) as (u & Hu & Hm). unfold clear_of in *. rewrite Hu, Forall_app in Hc.
  destruct Hc as [H1 H2]. split; [done|]. intros x Hx. apply Hm. eapply Forall_impl; [exact H1|]. cbn. intros. lia.
Qed.

(** ** Archives *)

(** A member of an archive; the header fields nobody reads are [c_misc1] to
    [c_misc3]. *)
Record member := Member {
  c_misc1 : list Z; c_mode : Z; c_misc2 : list Z; c_rdev0 : Z; c_rdev1 : Z; c_misc3 : list Z;
  c_name : list Z; c_body : list Z }.

Definition le16 (x : Z) : list Z := [x `mod` 256; x / 256].
Definition pad2 (l : list Z) : list Z := if decide (Z.of_nat (length l) `mod` 2 = 0) then l else l ++ [0].
Definition blen (l : list Z) : Z := Z.of_nat (length l).
Definition header (c : member) : list Z :=
  le16 MAGIC ++ c_misc1 c ++ le16 (c_mode c) ++ c_misc2 c ++ [c_rdev0 c; c_rdev1 c] ++ c_misc3 c ++
  le16 (blen (c_name c) + 1) ++ le16 (blen (c_body c) / 65536) ++ le16 (blen (c_body c) `mod` 65536).
Definition encode (c : member) : list Z := header c ++ pad2 (c_name c ++ [0]) ++ pad2 (c_body c).
Definition plain (c : member) : bool := negb (S_ISCHR (c_mode c)) && negb (S_ISDIR (c_mode c)).

Record member_ok (c : member) : Prop := {
  mo_misc1 : length (c_misc1 c) = 4%nat;
  mo_misc2 : length (c_misc2 c) = 6%nat;
  mo_misc3 : length (c_misc3 c) = 4%nat;
  mo_mode : 0 ≤ c_mode c < 65536;
  mo_rdev0 : 0 ≤ c_rdev0 c < 256;
  mo_rdev1 : 0 ≤ c_rdev1 c < 256;
  mo_name : c_name c ≠ [];
  mo_chars : Forall (λ b, b ≠ 0) (c_name c);
  mo_namesize : blen (c_name c) + 1 < 65536;
  mo_body : blen (c_body c) < 2 ^ 32 - 1;
  mo_dir : plain c = false → c_body c = [] }.

(** What the archive says: one entry made for each member, a file with the
    contents in the archive, a directory or a device. *)
Definition body_at (t : Z) (c : member) : Z := t + HD_BCPIO_size + blen (pad2 (c_name c ++ [0])).
Definition insert_member (t : Z) (c : member) : M vfs unit :=
  if plain c then fs_insert_entry (c_name c) (c_mode c) NODEV (body_at t c) (blen (c_body c))
  else fs_insert_entry (c_name c) (c_mode c) (DEV_DEVICE (c_rdev1 c) (c_rdev0 c)) NULL 0.
Fixpoint insert_all (t : Z) (cs : list member) : M vfs unit :=
  match cs with
  | [] => mret tt
  | c :: cs => _ ← insert_member t c; insert_all (t + blen (encode c)) cs
  end.
Definition archive (cs : list member) (last : member) : list Z := concat (encode <$> cs) ++ encode last.

Lemma cpio2su16_le m t f x : bytes_at m (t + f) (le16 x) → 0 ≤ x < 65536 → cpio2su16 m t f = x.
Proof.
  intros Hb Hx. pose proof (Z.mod_pos_bound x 256). assert (0 ≤ x / 256 < 256).
  { split; [apply Z.div_pos; lia|apply Z.div_lt_upper_bound; lia]. }
  unfold cpio2su16. rewrite <- (Z.add_0_r (t + f)) at 2.
  rewrite (Hb 0%nat (x `mod` 256) eq_refl : m (t + f + 0) = _), (Hb 1%nat (x / 256) eq_refl : m (t + f + 1) = _).
  unfold u8. rewrite !Z.mod_small by lia. apply (lor_shiftl_mod x 8). lia.
Qed.

Lemma lor_halves x : Z.lor (Z.shiftl (x / 65536) 16) (x `mod` 65536) = x.
Proof. apply (lor_shiftl_mod x 16). lia. Qed.

Lemma ALIGN2_pad l : blen l < 2 ^ 32 - 1 → ALIGN2 (blen l) = blen (pad2 l).
Proof.
  intros Hl. unfold ALIGN2. change 2 with (2 ^ 1) at 1. unfold blen in *. rewrite roundup_l2_spec by lia.
  change (2 ^ 1) with 2. unfold pad2. pose proof (Z.div_mod (Z.of_nat (length l)) 2).
  pose proof (Z.mod_pos_bound (Z.of_nat (length l)) 2). case_decide.
  - replace (Z.of_nat (length l) + 2 - 1) with (1 + Z.of_nat (length l) / 2 * 2) by lia.
    rewrite Z.div_add by lia. change (1 / 2) with 0. lia.
  - rewrite length_app. cbn [length]. replace (Z.of_nat (length l) + 2 - 1) with (0 + (Z.of_nat (length l) / 2 + 1) * 2) by lia.
    rewrite Z.div_add by lia. change (0 / 2) with 0. lia.
Qed.

Lemma str_at_run fuel m p s :
  Forall (λ b, b ≠ 0) s → bytes_at m p (s ++ [0]) → (length s < fuel)%nat → str_at fuel m p = Ok s.
Proof.
  revert p s. induction fuel as [|fuel IH]; intros p s Hs Hb Hf; [lia|]. cbn [str_at].
  pose proof (Hb 0%nat) as H0. rewrite Z.add_0_r in H0. destruct s as [|b s].
  - rewrite (H0 0 eq_refl). done.
  - rewrite (H0 b eq_refl). apply Forall_cons in Hs as [Hb0 Hs]. rewrite decide_False by done.
    cbn in Hf. rewrite IH with (s := s); [done|done| |lia].
    intros j c Hj. rewrite <- (Hb (S j) c Hj). f_equal. lia.
Qed.

Lemma header_length c : member_ok c → blen (header c) = HD_BCPIO_size.
Proof.
  intros [H1 H2 H3 _ _ _ _ _ _ _ _]. unfold blen, header. repeat (rewrite length_app || cbn [length le16]).
  rewrite H1, H2, H3. done.
Qed.

(** The fields [cpio_read] reads. *)
Lemma header_reads m t c :
  member_ok c → bytes_at m t (header c) →
  cpio2su16 m t h_magic = MAGIC ∧ cpio2ru16 m t h_magic ≠ MAGIC ∧ cpio2su16 m t h_mode = c_mode c ∧
  cpio2su16 m t h_namesize = blen (c_name c) + 1 ∧ cpio2su16 m t h_filesize_1 = blen (c_body c) / 65536 ∧
  cpio2su16 m t h_filesize_2 = blen (c_body c) `mod` 65536 ∧ u8 (m (t + h_rdev)) = c_rdev0 c ∧
  u8 (m (t + h_rdev + 1)) = c_rdev1 c.
Proof.
  intros Hc Hb. pose proof Hc as [H1 H2 H3 Hmode Hr0 Hr1 _ _ Hns Hbody _]. unfold header in Hb.
  rewrite !bytes_at_app in Hb. rewrite H1, H2, H3 in Hb. cbn [length le16] in Hb.
  destruct Hb as (B0 & _ & B6 & _ & B14 & _ & B20 & B22 & B24).
  assert (0 ≤ blen (c_name c) ∧ 0 ≤ blen (c_body c)) as [? ?] by (unfold blen; lia).
  pose proof (Z.mod_pos_bound (blen (c_body c)) 65536).
  assert (0 ≤ blen (c_body c) / 65536 < 65536).
  { split; [apply Z.div_pos; lia|apply Z.div_lt_upper_bound; lia]. }
  assert (cpio2su16 m t h_magic = MAGIC) as Hmagic.
  { apply cpio2su16_le; [by rewrite Z.add_0_r|unfold MAGIC; lia]. }
  split_and!; [exact Hmagic| | | | | | |].
  - unfold cpio2ru16, h_magic. pose proof (B0 0%nat _ eq_refl) as E0. pose proof (B0 1%nat _ eq_refl) as E1.
    rewrite Z.add_0_r in *. rewrite E0. change (Z.of_nat 1) with 1 in E1. rewrite E1. vm_compute. discriminate.
  - apply cpio2su16_le; [|lia]. unfold h_mode. replace (t + 6) with (t + Z.of_nat 2 + Z.of_nat 4) by lia. exact B6.
  - apply cpio2su16_le; [|lia]. unfold h_namesize.
    replace (t + 20) with (t + Z.of_nat 2 + Z.of_nat 4 + Z.of_nat 2 + Z.of_nat 6 + Z.of_nat 2 + Z.of_nat 4) by lia. exact B20.
  - apply cpio2su16_le; [|lia]. unfold h_filesize_1.
    replace (t + 22) with (t + Z.of_nat 2 + Z.of_nat 4 + Z.of_nat 2 + Z.of_nat 6 + Z.of_nat 2 + Z.of_nat 4 + Z.of_nat 2) by lia.
    exact B22.
  - apply cpio2su16_le; [|lia]. unfold h_filesize_2.
    replace (t + 24) with (t + Z.of_nat 2 + Z.of_nat 4 + Z.of_nat 2 + Z.of_nat 6 + Z.of_nat 2 + Z.of_nat 4 + Z.of_nat 2 + Z.of_nat 2)
      by lia. exact B24.
  - rewrite <- (B14 0%nat _ eq_refl) in *. unfold u8. unfold h_rdev.
    replace (t + Z.of_nat 2 + Z.of_nat 4 + Z.of_nat 2 + Z.of_nat 6 + Z.of_nat 0) with (t + 14) in * by lia.
    by rewrite Z.mod_small.
  - rewrite <- (B14 1%nat _ eq_refl) in *. unfold u8. unfold h_rdev.
    replace (t + Z.of_nat 2 + Z.of_nat 4 + Z.of_nat 2 + Z.of_nat 6 + Z.of_nat 1) with (t + 14 + 1) in * by lia.
    by rewrite Z.mod_small.
Qed.

Lemma seek_magic_here fuel reverse m t e :
  cpio2u16 reverse m t h_magic = MAGIC → seek_magic (S fuel) reverse m t e = Ok t.
Proof. intros E. cbn [seek_magic]. by rewrite decide_False by (intros [_ ?]; done). Qed.

Lemma lift_run {A} (o : outcome A) a (s : vfs) : o = Ok a → lift o s = Ok (a, s).
Proof. by intros ->. Qed.

(** One turn of the loop on a member, and on the trailer. *)
Lemma cpio_loop_member fuel t e c s :
  member_ok c → c_name c ≠ TRAILER → bytes_at (v_mem s) t (encode c) → t < e → (length (c_name c) < S fuel)%nat →
  cpio_loop (S fuel) false t e s = (_ ← insert_member t c; cpio_loop fuel false (t + blen (encode c)) e) s.
Proof.
  intros Hc Htr Hb Hte Hf. pose proof (header_length c Hc) as Hlen. unfold encode in Hb. rewrite !bytes_at_app in Hb.
  unfold blen in Hlen. rewrite Hlen in Hb. destruct Hb as (Hh & Hn & _).
  destruct (header_reads _ _ _ Hc Hh) as (Em & _ & Emode & Ens & E1 & E2 & Er0 & Er1).
  pose proof Hc as [_ _ _ _ _ _ Hne Hch Hns Hbody Hdir].
  assert (0 ≤ blen (c_body c)) by (unfold blen; lia).
  cbn [cpio_loop]. rewrite decide_True by done. rewrite bind_gets.
  rewrite (bind_run _ _ _ _ _ (lift_run _ _ _ (seek_magic_here fuel false _ t e Em))).
  rewrite decide_False by (intros E; by apply E). cbv zeta. cbn [cpio2u16].
  rewrite (bind_run _ _ s (c_name c) s).
  2:{ apply lift_run, str_at_run; [done| |done]. unfold pad2 in Hn. destruct (decide _); [done|].
      rewrite bytes_at_app in Hn. tauto. }
  rewrite (decide_False (P := c_name c = [])), (decide_False (P := c_name c = TRAILER)) by done.
  rewrite Emode, Ens, E1, E2, Er0, Er1, lor_halves, (u32_small (blen _)) by (unfold is_u32; lia).
  assert (blen (c_name c) + 1 = blen (c_name c ++ [0])) as Hnl by (unfold blen; rewrite length_app; cbn; lia).
  assert (blen (encode c) = HD_BCPIO_size + blen (pad2 (c_name c ++ [0])) + blen (pad2 (c_body c))) as He.
  { unfold encode, blen in *. rewrite !length_app. lia. }
  rewrite Hnl, ALIGN2_pad by (rewrite <- Hnl; lia). unfold insert_member, plain, body_at.
  change (negb (S_ISCHR (c_mode c)) && negb (S_ISDIR (c_mode c))) with (plain c).
  destruct (plain c) eqn:Hp.
  - rewrite ALIGN2_pad by done. unfold mbind, M_bind. destruct (fs_insert_entry _ _ _ _ _ s) as [[[] s1]| | |]; try done.
    f_equal. lia.
  - rewrite (Hdir eq_refl) in He. unfold mbind, M_bind. destruct (fs_insert_entry _ _ _ _ _ s) as [[[] s1]| | |]; try done.
    f_equal. change (blen (pad2 [])) with 0 in He. lia.
Qed.

Lemma cpio_loop_trailer fuel t e c s :
  member_ok c → c_name c = TRAILER → bytes_at (v_mem s) t (encode c) → t < e → (length TRAILER < S fuel)%nat →
  cpio_loop (S fuel) false t e s = Ok (0, s).
Proof.
  intros Hc Htr Hb Hte Hf. pose proof (header_length c Hc) as Hlen. unfold encode in Hb. rewrite !bytes_at_app in Hb.
  unfold blen in Hlen. rewrite Hlen in Hb. destruct Hb as (Hh & Hn & _).
  destruct (header_reads _ _ _ Hc Hh) as (Em & _). pose proof (mo_chars _ Hc) as Hch.
  cbn [cpio_loop]. rewrite decide_True by done. rewrite bind_gets.
  rewrite (bind_run _ _ _ _ _ (lift_run _ _ _ (seek_magic_here fuel false _ t e Em))).
  rewrite decide_False by (intros E; by apply E). cbv zeta. cbn [cpio2u16].
  rewrite (bind_run _ _ s (c_name c) s).
  2:{ apply lift_run, str_at_run; [done| |by rewrite Htr]. unfold pad2 in Hn. destruct (decide _); [done|].
      rewrite bytes_at_app in Hn. tauto. }
  rewrite Htr. reflexivity.
Qed.

(** Two continuations that agree where the first part ends. *)
Lemma bind_same {S A B} (o : M S A) (k k' : A → M S B) s :
  (∀ a s', o s = Ok (a, s') → k a s' = k' a s') → mbind k o s = mbind k' o s.
Proof. intros H. unfold mbind, M_bind. destruct (o s) as [[a s']| | |]; [by apply H|done..]. Qed.

Lemma insert_member_writes t c : writes_pages (insert_member t c).
Proof. unfold insert_member. destruct (plain c); apply fs_insert_entry_writes. Qed.

Lemma clear_of_sub pgs p n k : 0 ≤ k → clear_of pgs p n → clear_of pgs (p + k) (n - k).
Proof. intros Hk H. eapply Forall_impl; [exact H|]. cbn. intros. lia. Qed.

Lemma cpio_loop_all fuel t e cs last s :
  Forall (λ c, member_ok c ∧ c_name c ≠ TRAILER) cs → member_ok last → c_name last = TRAILER →
  bytes_at (v_mem s) t (archive cs last) → t + blen (archive cs last) ≤ e →
  clear_of (v_pages s) t (blen (archive cs last)) → (length (archive cs last) < fuel)%nat →
  cpio_loop fuel false t e s = (_ ← insert_all t cs; mret 0) s.
Proof.
  intros Hcs Hlast Htr. revert fuel t s. induction Hcs as [|c cs [Hc Hn] Hcs IH]; intros fuel t s Hb He Hcl Hf.
  - unfold archive in *. cbn [fmap list_fmap concat app] in *. destruct fuel as [|fuel]; [lia|].
    pose proof (header_length _ Hlast) as Hl. assert (blen (header last) ≤ blen (encode last)).
    { unfold blen, encode. rewrite length_app. lia. } unfold HD_BCPIO_size in Hl.
    assert (length TRAILER < S fuel)%nat by (change (length TRAILER) with 10%nat; unfold blen in *; lia).
    rewrite (cpio_loop_trailer _ _ _ last); [done..|lia|done].
  - assert (archive (c :: cs) last = encode c ++ archive cs last) as Ha.
    { unfold archive. cbn [fmap list_fmap concat]. by rewrite app_assoc. }
    rewrite Ha in *. rewrite bytes_at_app in Hb. destruct Hb as [Hb1 Hb2].
    unfold blen in He, Hcl. rewrite length_app in He, Hcl, Hf. fold (blen (encode c)) in *.
    destruct fuel as [|fuel]; [lia|]. pose proof (header_length _ Hc) as Hl.
    assert (length (c_name c) + length (header c) ≤ length (encode c))%nat.
    { unfold encode, pad2. rewrite !length_app. destruct (decide _); rewrite ?length_app; lia. }
    unfold HD_BCPIO_size, blen in Hl.
    rewrite (cpio_loop_member _ _ _ c) by (done || lia). cbn [insert_all]. rewrite bind_bind.
    apply bind_same. intros [] s1 E.
    destruct (writes_keep _ _ _ _ _ _ (insert_member_writes t c) E Hcl) as [Hcl1 Hm1].
    apply IH.
    + eapply bytes_at_ext; [exact Hb2|]. intros a Hax. apply Hm1. unfold blen in Hax. lia.
    + unfold blen in *. lia.
    + apply (clear_of_sub _ _ _ (blen (encode c))) in Hcl1; [|unfold blen; lia].
      replace (blen (archive cs last)) with (Z.of_nat (length (encode c) + length (archive cs last)) - blen (encode c))
        by (unfold blen; lia). done.
    + lia.
Qed.

(** C18: [cpio_read] of an archive makes the entries of its members in order
    and returns 0: a directory or device with its mode and number, any other
    member as a file whose contents are the bytes in the archive; what it does
    with the file system is what the sequence of insertions does.  The archive
    may hold any members and must end in a trailer; no free page may overlap
    it. *)
Theorem cpio_read_inserts fuel rootfs_start rootfs_end cs last s :
  Forall (λ c, member_ok c ∧ c_name c ≠ TRAILER) cs → member_ok last → c_name last = TRAILER →
  bytes_at (v_mem s) rootfs_start (archive cs last) → rootfs_start + blen (archive cs last) ≤ rootfs_end →
  clear_of (v_pages s) rootfs_start (blen (archive cs last)) → (length (archive cs last) < fuel)%nat →
  cpio_read fuel rootfs_start rootfs_end s = (_ ← insert_all rootfs_start cs; mret 0) s.
Proof.
  intros Hcs Hlast Htr Hb He Hcl Hf. unfold cpio_read. rewrite bind_gets.
  rewrite bool_decide_false; [by eapply cpio_loop_all|].
  assert (∃ c rest, member_ok c ∧ archive cs last = header c ++ rest) as (c & rest & Hc & Ha).
  { destruct cs as [|c cs]; unfold archive, encode; cbn [fmap list_fmap concat app].
    - exists last. eexists. split; [done|]. done.
    - apply Forall_cons in Hcs as [[Hc _] _]. exists c. eexists. split; [done|]. rewrite <- !app_assoc. done. }
  rewrite Ha, bytes_at_app in Hb. by destruct (header_reads _ _ _ Hc (proj1 Hb)) as (_ & ? & _).
Qed.

(** An archive with a directory and a file in it, in the memory of a booted
    system. *)
Definition etc_dir : member := Member [0; 0; 1; 0] 0x41ed [0; 0; 0; 0; 2; 0] 0 0 [0; 0; 0; 0] (bytes "etc") [].
Definition rc_file : member :=
  Member [0; 0; 2; 0] 0x81a4 [0; 0; 0; 0; 1; 0] 0 0 [0; 0; 0; 0] (bytes "etc/rc") (bytes "hello").
Definition the_end : member := Member [0; 0; 0; 0] 0 [0; 0; 0; 0; 1; 0] 0 0 [0; 0; 0; 0] TRAILER [].
Definition boot2 : vfs := set_v_mem (put_bytes (v_mem boot1) 0x40000 (archive [etc_dir; rc_file] the_end)) boot1.

Lemma member_examples : Forall member_ok [etc_dir; rc_file; the_end].
Proof.
  repeat constructor; try (vm_compute; done); vm_compute; repeat constructor; discriminate.
Qed.

Lemma put_bytes_there m p l : bytes_at (put_bytes m p l) p l.
Proof.
  intros j c Hj. pose proof (lookup_lt_Some _ _ _ Hj). rewrite put_bytes_at, decide_True by lia.
  replace (Z.to_nat (p + Z.of_nat j - p)) with j by lia. by rewrite Hj.
Qed.

Lemma cpio_read_inserts_witness :
  cpio_read 200 0x40000 0x41000 boot2 = (_ ← insert_all 0x40000 [etc_dir; rc_file]; mret 0) boot2.
Proof.
  pose proof member_examples as H. rewrite !Forall_cons in H. destruct H as (H1 & H2 & H3 & _).
  apply (cpio_read_inserts 200 0x40000 0x41000 [etc_dir; rc_file] the_end boot2).
  - repeat constructor; (done || vm_compute; discriminate).
  - exact H3.
  - reflexivity.
  - apply put_bytes_there.
  - vm_compute. discriminate.
  - unfold clear_of. change (v_pages boot2) with (v_pages boot1).
    replace (v_pages boot1) with [0x100000; 0x101000; 0x102000; 0x103000] by (vm_compute; reflexivity).
    change (blen (archive [etc_dir; rc_file] the_end)) with 108.
    rewrite !Forall_cons. split_and!; [right; lia..|apply Forall_nil_2].
  - apply Nat.ltb_lt. vm_compute. reflexivity.
Defined.

(** The system boots: the directories of the root file system, the members of
    the archive and the virtual file system are there, a second look into the
    virtual file system finds the entry of the first, and a name nobody has is
    not found. *)
Definition boot3 : vfs := run_or (fs_init 200 0x40000 0x41000)
  (set_v_mem (put_bytes (v_mem boot0) 0x40000 (archive [etc_dir; rc_file] the_end)) boot0).
Example boot_tree :
  result (stat (bytes "/etc/rc") boot3) = Ok (0, Some (11, NODEV, 0x81a4, 5)) ∧
  result (stat (bytes "/dev/tty0") boot3) = Ok (0, Some (4, DEV_DEVICE 4 0, S_IFCHR, 0)) ∧
  result ((a ← lookup_path (bytes "/koowaldah/srv/lol"); b ← lookup_path (bytes "/koowaldah/srv/lol");
           mret (bool_decide (a ≠ NULL ∧ a = b))) boot3) = Ok true ∧
  result ((fd ← open no_drivers (bytes "/koowaldah") 0 0; readdir no_drivers fd 8) boot3) =
    Ok (4, [bytes "devices"; bytes "proc"; bytes "wtf"; bytes "srv"]) ∧
  result (lookup_path (bytes "/koowaldah/none") boot3) = Ok NULL.
Proof. split_and!; vm_compute; reflexivity. Qed.

(** The directories of the virtual file system that know their own listing
    write all of it, whatever the room. *)
Example proc_ignores_count :
  result ((fd ← open no_drivers (bytes "/koowaldah/proc") 0 0; readdir no_drivers fd 1) boot3) =
    Ok (2, [bytes "[task:1]"; bytes "[task:2]"]).
Proof. vm_compute. reflexivity. Qed.
