(* ===== verification/Switch.v ===== *)
(** * Switching stacks (arch/i386/asm/context_switch.S, arch/i386/thread.c,
      include/i386/thread.h, include/i386/fork.h)

    The registers of the processor and the words of memory, with the
    instructions the assembly code is made of.  A thread structure is in
    memory, at the end of the page that holds its stack.

    [frame] is what a thread that does not run leaves on its stack. *)

From S2P Require Import Prelude KList Bitmap Klib Buddy PageAlloc Paging.

(** ** The processor *)

Record cpu := Cpu {
  eax : Z; ebx : Z; ecx : Z; edx : Z; esi : Z; edi : Z; ebp : Z; esp : Z; eip : Z; cs : Z; ss : Z; ds : Z; es : Z;
  eflags : Z }.
Record machine := Mach { regs : cpu; mem : wmem; mcr3 : Z; tss_esp0 : Z }.

Definition set_regs (c : cpu) (s : machine) : machine := Mach c (mem s) (mcr3 s) (tss_esp0 s).
Definition set_mem (m : wmem) (s : machine) : machine := Mach (regs s) m (mcr3 s) (tss_esp0 s).
Definition set_esp (v : Z) (c : cpu) : cpu :=
  Cpu (eax c) (ebx c) (ecx c) (edx c) (esi c) (edi c) (ebp c) v (eip c) (cs c) (ss c) (ds c) (es c) (eflags c).

Definition push (v : Z) (s : machine) : machine :=
  let sp := u32 (esp (regs s) - 4) in set_mem (wr sp v (mem s)) (set_regs (set_esp sp (regs s)) s).
Definition pop (s : machine) : Z * machine :=
  (mem s (esp (regs s)), set_regs (set_esp (u32 (esp (regs s) + 4)) (regs s)) s).

Definition pusha (s : machine) : machine :=
  let c := regs s in
  push (edi c) (push (esi c) (push (ebp c) (push (esp c) (push (ebx c) (push (edx c) (push (ecx c) (push (eax c) s))))))).

Definition popa (s : machine) : machine :=
  let '(di, s) := pop s in
  let '(si, s) := pop s in
  let '(bp, s) := pop s in
  let '(_, s) := pop s in
  let '(bx, s) := pop s in
  let '(dx, s) := pop s in
  let '(cx, s) := pop s in
  let '(ax, s) := pop s in
  let c := regs s in
  set_regs (Cpu ax bx cx dx si di bp (esp c) (eip c) (cs c) (ss c) (ds c) (es c) (eflags c)) s.

(** A return to a less privileged segment also takes the stack. *)
Definition iret (s : machine) : machine :=
  let cpl := Z.land (cs (regs s)) 3 in
  let '(ip, s) := pop s in
  let '(sel, s) := pop s in
  let '(fl, s) := pop s in
  let c := regs s in
  if decide (cpl < Z.land sel 3) then
    let '(sp, s) := pop s in
    let '(seg, s) := pop s in
    set_regs (Cpu (eax c) (ebx c) (ecx c) (edx c) (esi c) (edi c) (ebp c) sp ip sel seg (ds c) (es c) fl) s
  else set_regs (Cpu (eax c) (ebx c) (ecx c) (edx c) (esi c) (edi c) (ebp c) (esp c) ip sel (ss c) (ds c) (es c) fl) s.

(** ** The assembly code *)

(* arch/i386/asm/context_switch.S:55-69 do_thread_switch_context *)
Definition do_thread_switch_context (s : machine) : machine :=
  let '(ret, s) := pop s in
  let c := regs s in
  let s := set_regs (Cpu (eax c) ret (ecx c) (edx c) (esi c) (edi c) (ebp c) (esp c) (eip c) (cs c) (ss c) (ds c) (es c) (eflags c)) s in
  let s := push (eflags (regs s)) s in
  let s := push (cs (regs s)) s in
  let s := push (ebx (regs s)) s in
  let s := pusha s in
  let s := set_mem (wr (eax (regs s)) (esp (regs s)) (mem s)) s in
  let s := set_regs (set_esp (mem s (edx (regs s))) (regs s)) s in
  iret (popa s).

(* arch/i386/asm/context_switch.S:76-81 do_thread_switch_to *)
Definition do_thread_switch_to (s : machine) : machine :=
  iret (popa (set_regs (set_esp (eax (regs s)) (regs s)) s)).

(* include/i386/segments.h:26-29 KERN_CODE *)
Definition KERN_CODE : Z := 0x08.
Definition KERN_DATA : Z := 0x10.
Definition USER_CODE : Z := 0x18.
Definition USER_DATA : Z := 0x20.

(** The arguments are on the stack, above the return address. *)
(* arch/i386/asm/context_switch.S:86-115 start_user *)
Definition start_user (s : machine) : machine :=
  let s := push (ebp (regs s)) s in
  let bp := esp (regs s) in
  let s := push (USER_DATA + 3) s in
  let s := push (mem s (u32 (bp + 16))) s in
  let s := push (eflags (regs s)) s in
  let s := push (USER_CODE + 3) s in
  let s := push (mem s (u32 (bp + 8))) s in
  let val := mem s (u32 (bp + 20)) in
  let c := regs s in
  let seg := USER_DATA + 3 in
  iret (set_regs (Cpu val seg val (edx c) (esi c) (edi c) (mem s (u32 (bp + 12))) (esp c) (eip c) (cs c) (ss c) seg seg (eflags c)) s).

(** ** Thread structures *)

(** [sizeof(struct thread)], and the offsets of [context.stack_base],
    [context.esp], [map] and [state]. *)
Definition THREAD_SIZE : Z := 240.
Definition T_BASE : Z := 36.
Definition T_ESP : Z := 40.
Definition T_MAP : Z := 44.
Definition T_STATE : Z := 52.

(* include/i386/thread.h:37-41 THREAD *)
Definition THREAD (p : Z) : Z := u32 (Z.land p (u32 (Z.lnot (PAGE_SIZE - 1))) + PAGE_SIZE - THREAD_SIZE).
(* include/i386/thread.h:42-45 CURRENT *)
Definition CURRENT (s : machine) : Z := THREAD (esp (regs s)).
(* include/i386/thread.h:48-48 EFLAGS_IF *)
Definition EFLAGS_IF : Z := 0x200.

(* include/i386/thread.h:50-54 reset_stack *)
Definition reset_stack (s : machine) : machine :=
  let t := CURRENT s in
  Mach (regs s) (wr (u32 (t + T_ESP)) (u32 (t - 4)) (mem s)) (mcr3 s) (u32 (t - 4)).

(* arch/i386/thread.c:45-64 thread_init_stack *)
Definition thread_init_stack (t func data fl : Z) (m : wmem) : wmem :=
  let stack := u32 (t - 4) in
  let m := wr (u32 (t + T_BASE)) stack m in
  let m := wr (u32 (t + T_ESP)) stack m in
  let m := wr stack data m in
  let m := wr (u32 (stack - 4)) 0 m in
  let m := wr (u32 (stack - 8)) (Z.lor fl EFLAGS_IF) m in
  let m := wr (u32 (stack - 12)) KERN_CODE m in
  let m := wr (u32 (stack - 16)) func m in
  let m := foldl (λ m i, wr (u32 (stack - 16 - 4 * i)) 0 m) m (seqZ 1 8) in
  let m := wr (u32 (t + T_ESP)) (u32 (stack - 48)) m in
  wr (u32 (t + T_STATE)) (Z.land (m (u32 (t + T_STATE))) (u32 (Z.lnot 2))) m.

(** [from->map != to->map]: the directory is the first member of a mapping. *)
Definition switch_maps (from to : Z) (s : machine) : machine :=
  if decide (mem s (u32 (from + T_MAP)) ≠ mem s (u32 (to + T_MAP)))
  then Mach (regs s) (mem s) (mem s (mem s (u32 (to + T_MAP)))) (tss_esp0 s) else s.
Definition set_tss (v : Z) (s : machine) : machine := Mach (regs s) (mem s) (mcr3 s) v.

(** The call passes its arguments in registers and pushes [ret]. *)
(* arch/i386/thread.c:66-100 thread_switch_context *)
Definition thread_switch_context (from to ret : Z) (s : machine) : machine :=
  let s := set_tss (mem s (u32 (to + T_BASE))) s in
  let s := switch_maps from to s in
  let c := regs s in
  let s := set_regs (Cpu (u32 (from + T_ESP)) (ebx c) (ecx c) (u32 (to + T_ESP)) (esi c) (edi c) (ebp c) (esp c) (eip c) (cs c)
                         (ss c) (ds c) (es c) (eflags c)) s in
  do_thread_switch_context (push ret s).

(* arch/i386/thread.c:102-130 prepare_deffered_context_switch *)
Definition prepare_deffered_context_switch (curr_esp next_thread : Z) (s : machine) : Z * machine :=
  let from := CURRENT s in
  let s := switch_maps from next_thread s in
  let s := set_mem (wr (u32 (from + T_ESP)) curr_esp (mem s)) s in
  let s := set_tss (mem s (u32 (next_thread + T_BASE))) s in
  (mem s (u32 (next_thread + T_ESP)), s).

(* arch/i386/thread.c:132-142 thread_switch_to *)
Definition thread_switch_to (thread : Z) (s : machine) : machine :=
  let c := regs s in
  do_thread_switch_to
    (set_regs (Cpu (mem s (u32 (thread + T_ESP))) (ebx c) (ecx c) (edx c) (esi c) (edi c) (ebp c) (esp c) (eip c) (cs c)
                   (ss c) (ds c) (es c) (eflags c)) s).

(* include/i386/fork.h:26-41 prepare_fork *)
Definition prepare_fork (thread : Z) (s : machine) : machine :=
  let p := u32 (CURRENT s - 24) in
  let d := Z.land thread (u32 (Z.lnot (PAGE_SIZE - 1))) in
  let s := set_mem (wr d (mem s p) (mem s)) s in
  set_mem (wr (u32 (d + 4)) (mem s (u32 (p + 12))) (mem s)) s.

(** ** Frames *)

(** What is on the stack of a thread that does not run, from [sp] on. *)
Record frame (m : wmem) (sp : Z) (c : cpu) : Prop := {
  fr_edi : m sp = edi c;
  fr_esi : m (sp + 4) = esi c;
  fr_ebp : m (sp + 8) = ebp c;
  fr_ebx : m (sp + 16) = ebx c;
  fr_edx : m (sp + 20) = edx c;
  fr_ecx : m (sp + 24) = ecx c;
  fr_eax : m (sp + 28) = eax c;
  fr_eip : m (sp + 32) = eip c;
  fr_cs : m (sp + 36) = cs c;
  fr_eflags : m (sp + 40) = eflags c;
  fr_esp : esp c = sp + 44 }.

Lemma wr_same a v m : wr a v m a = v.
Proof. unfold wr. by rewrite decide_True. Qed.
Lemma wr_other a b v m : a ≠ b → wr a v m b = m b.
Proof. intros. unfold wr. by rewrite decide_False by congruence. Qed.

(** The machine with another stack pointer; pushes and pops move it. *)
Definition at_ (s : machine) (sp : Z) : machine := set_regs (set_esp sp (regs s)) s.

Lemma at_self s : at_ s (esp (regs s)) = s.
Proof. by destruct s as [[] ? ? ?]. Qed.
Lemma pop_at s sp sp' : 0 ≤ sp → sp' = sp + 4 → sp' < 2 ^ 32 → pop (at_ s sp) = (mem s sp, at_ s sp').
Proof. intros H -> H1. unfold pop, at_. cbn. by rewrite u32_small by (unfold is_u32; lia). Qed.
Lemma push_at s sp sp' v : 0 ≤ sp' → sp' = sp - 4 → sp < 2 ^ 32 → push v (at_ s sp) = at_ (set_mem (wr sp' v (mem s)) s) sp'.
Proof. intros H -> H1. unfold push, at_. cbn. by rewrite u32_small by (unfold is_u32; lia). Qed.

(** Popping a frame of the kernel gives the registers in it. *)
Lemma frame_loads s sp c :
  frame (mem s) sp c → 0 ≤ sp → sp + 44 < 2 ^ 32 → Z.land (cs c) 3 ≤ Z.land (cs (regs s)) 3 →
  iret (popa (at_ s sp)) =
    set_regs (Cpu (eax c) (ebx c) (ecx c) (edx c) (esi c) (edi c) (ebp c) (esp c) (eip c) (cs c) (ss (regs s)) (ds (regs s))
                (es (regs s)) (eflags c)) s.
Proof.
  intros [F1 F2 F3 F4 F5 F6 F7 F8 F9 F10 F11] H0 H1 Hcs. unfold popa.
  rewrite (pop_at s sp (sp + 4)), (pop_at s (sp + 4) (sp + 8)), (pop_at s (sp + 8) (sp + 12)),
    (pop_at s (sp + 12) (sp + 16)), (pop_at s (sp + 16) (sp + 20)), (pop_at s (sp + 20) (sp + 24)),
    (pop_at s (sp + 24) (sp + 28)), (pop_at s (sp + 28) (sp + 32)) by lia.
  set (s1 := set_regs _ (at_ s (sp + 32))). assert (mem s1 = mem s) as Hm by done.
  change s1 with (at_ s1 (sp + 32)). unfold iret.
  rewrite (pop_at s1 (sp + 32) (sp + 36)), (pop_at s1 (sp + 36) (sp + 40)), (pop_at s1 (sp + 40) (sp + 44)) by lia.
  rewrite Hm, F9, F8, F10. change (cs (regs (at_ s1 (sp + 32)))) with (cs (regs s)).
  rewrite decide_False by lia. cbn. unfold set_regs. cbn. congruence.
Qed.

(** The stack of the thread that calls, after [do_thread_switch_context] has
    saved it: a frame with the registers as they are, but for [ebx], which the
    code loads with the return address. *)
Definition saved (c : cpu) (ret : Z) : cpu :=
  Cpu (eax c) ret (ecx c) (edx c) (esi c) (edi c) (ebp c) (esp c + 4) ret (cs c) (ss c) (ds c) (es c) (eflags c).

Definition entered (c : cpu) (ret : Z) : cpu :=
  Cpu (eax c) ret (ecx c) (edx c) (esi c) (edi c) (ebp c) (esp c) (eip c) (cs c) (ss c) (ds c) (es c) (eflags c).
Definition spill (s : machine) (ret : Z) : wmem :=
  let c := regs s in let sp := esp c in
  wr (sp - 40) (edi c) (wr (sp - 36) (esi c) (wr (sp - 32) (ebp c) (wr (sp - 28) (sp - 8) (wr (sp - 24) ret
    (wr (sp - 20) (edx c) (wr (sp - 16) (ecx c) (wr (sp - 12) (eax c) (wr (sp - 8) ret (wr (sp - 4) (cs c)
    (wr sp (eflags c) (mem s))))))))))).

Lemma do_switch_run s ret :
  mem s (esp (regs s)) = ret → 40 ≤ esp (regs s) → esp (regs s) + 4 < 2 ^ 32 →
  do_thread_switch_context s =
    iret (popa (at_ (set_regs (entered (regs s) ret) (set_mem (wr (eax (regs s)) (esp (regs s) - 40) (spill s ret)) s))
                    (wr (eax (regs s)) (esp (regs s) - 40) (spill s ret) (edx (regs s))))).
Proof.
  intros Hret H0 H1. unfold do_thread_switch_context. rewrite <- (at_self s) at 1. set (sp := esp (regs s)) in *.
  rewrite (pop_at s sp (sp + 4)) by lia. rewrite Hret.
  set (s1 := set_regs (entered (regs s) ret) s). cbv zeta.
  change (set_regs _ (at_ s (sp + 4))) with (at_ s1 (sp + 4)).
  rewrite (push_at s1 (sp + 4) sp) by lia.
  set (s2 := set_mem _ s1). rewrite (push_at s2 sp (sp - 4)) by lia.
  set (s3 := set_mem _ s2). rewrite (push_at s3 (sp - 4) (sp - 8)) by lia.
  set (s4 := set_mem _ s3). unfold pusha. cbv zeta. rewrite (push_at s4 (sp - 8) (sp - 12)) by lia.
  set (s5 := set_mem _ s4). rewrite (push_at s5 (sp - 12) (sp - 16)) by lia.
  set (s6 := set_mem _ s5). rewrite (push_at s6 (sp - 16) (sp - 20)) by lia.
  set (s7 := set_mem _ s6). rewrite (push_at s7 (sp - 20) (sp - 24)) by lia.
  set (s8 := set_mem _ s7). rewrite (push_at s8 (sp - 24) (sp - 28)) by lia.
  set (s9 := set_mem _ s8). rewrite (push_at s9 (sp - 28) (sp - 32)) by lia.
  set (s10 := set_mem _ s9). rewrite (push_at s10 (sp - 32) (sp - 36)) by lia.
  set (s11 := set_mem _ s10). rewrite (push_at s11 (sp - 36) (sp - 40)) by lia.
  reflexivity.
Qed.

(** The words of the frame, from [esp - 40] to [esp], and the place of the
    saved stack pointer. *)
Definition in_frame (sp a : Z) : Prop := sp - 40 ≤ a ≤ sp.

Lemma spill_other s ret a : ¬ in_frame (esp (regs s)) a → spill s ret a = mem s a.
Proof. unfold in_frame, spill. intros H. cbv zeta. repeat (rewrite wr_other by lia). done. Qed.

Lemma spill_frame s ret : frame (spill s ret) (esp (regs s) - 40) (saved (regs s) ret).
Proof.
  set (sp := esp (regs s)). split; unfold spill; fold sp; cbv zeta; cbn [saved edi esi ebp ebx edx ecx eax eip cs eflags esp];
    try (replace (sp - 40 + 4) with (sp - 36) by lia); try (replace (sp - 40 + 8) with (sp - 32) by lia);
    try (replace (sp - 40 + 16) with (sp - 24) by lia); try (replace (sp - 40 + 20) with (sp - 20) by lia);
    try (replace (sp - 40 + 24) with (sp - 16) by lia); try (replace (sp - 40 + 28) with (sp - 12) by lia);
    try (replace (sp - 40 + 32) with (sp - 8) by lia); try (replace (sp - 40 + 36) with (sp - 4) by lia);
    try (replace (sp - 40 + 40) with sp by lia);
    repeat (rewrite wr_other by lia); rewrite ?wr_same; [done..|]. fold sp. lia.
Qed.

Lemma frame_ext m m' sp c :
  frame m sp c → (∀ a, sp ≤ a ≤ sp + 40 → m' a = m a) → frame m' sp c.
Proof. intros [] H. split; [rewrite H by lia; done..|done]. Qed.

Lemma pop_mem s v s' : pop s = (v, s') → mem s' = mem s.
Proof. by intros [= _ <-]. Qed.
Ltac pops :=
  repeat match goal with
  | |- context [pop ?s] => let E := fresh in destruct (pop s) eqn:E; apply pop_mem in E
  end.
Lemma popa_mem s : mem (popa s) = mem s.
Proof. unfold popa. pops. cbn. congruence. Qed.
Lemma iret_mem s : mem (iret s) = mem s.
Proof. unfold iret. pops. destruct (decide _); [pops|]; cbn; congruence. Qed.
Lemma iret_popa_mem s : mem (iret (popa s)) = mem s.
Proof. by rewrite iret_mem, popa_mem. Qed.

(** ** Properties *)

(** C19: A thread that called [do_thread_switch_context] is resumed where it
    was: when another thread switches back, and its stack and saved pointer
    have been left alone, it continues at its return address with its stack
    pointer, flags, segment and registers as they were, except for [ebx], which
    then holds the return address. *)
Theorem switch_resumes s ret s2 ret2 :
  mem s (esp (regs s)) = ret → 40 ≤ esp (regs s) → esp (regs s) + 4 < 2 ^ 32 →
  ¬ in_frame (esp (regs s)) (eax (regs s)) →
  edx (regs s2) = eax (regs s) → mem s2 (esp (regs s2)) = ret2 → 40 ≤ esp (regs s2) → esp (regs s2) + 4 < 2 ^ 32 →
  (∀ a, in_frame (esp (regs s)) a ∨ a = eax (regs s) → mem s2 a = mem (do_thread_switch_context s) a) →
  (∀ a, in_frame (esp (regs s)) a ∨ a = eax (regs s) → ¬ in_frame (esp (regs s2)) a ∧ a ≠ eax (regs s2)) →
  Z.land (cs (regs s)) 3 ≤ Z.land (cs (regs s2)) 3 →
  regs (do_thread_switch_context s2) =
    let c := regs s in
    Cpu (eax c) ret (ecx c) (edx c) (esi c) (edi c) (ebp c) (esp c + 4) ret (cs c) (ss (regs s2)) (ds (regs s2))
      (es (regs s2)) (eflags c).
Proof.
  intros Hret H0 H1 Heax Hedx Hret2 H2 H3 Hkeep Hdis Hcs.
  assert (∀ a, in_frame (esp (regs s)) a ∨ a = eax (regs s) →
    wr (eax (regs s2)) (esp (regs s2) - 40) (spill s2 ret2) a = wr (eax (regs s)) (esp (regs s) - 40) (spill s ret) a) as Hm.
  { intros a Ha. destruct (Hdis a Ha) as [Hd1 Hd2]. rewrite wr_other by done. rewrite spill_other by done.
    rewrite Hkeep by done. rewrite (do_switch_run s ret) by done. by rewrite iret_popa_mem. }
  rewrite (do_switch_run s2 ret2) by done. rewrite Hedx, Hm by by right. rewrite wr_same.
  rewrite (frame_loads _ _ (saved (regs s) ret)).
  - done.
  - eapply frame_ext; [apply (spill_frame s)|]. intros a Ha. cbn [mem set_regs set_mem].
    assert (in_frame (esp (regs s)) a) by (unfold in_frame; lia).
    rewrite Hm by by left. rewrite wr_other; [done|]. intros <-. done.
  - lia.
  - lia.
  - exact Hcs.
Qed.

(** Two threads that hand the processor to each other. *)
Definition two_stacks : machine :=
  Mach (Cpu 0x10040 1 2 0x20040 3 4 5 0x10f00 0 KERN_CODE 0 0 0 0x202) (wr 0x10f00 0xc0de (λ _, 0)) 0 0.
Definition other_side : machine :=
  Mach (Cpu 0x20040 9 9 0x10040 9 9 9 0x20f00 0 KERN_CODE 0 0 0 0x202)
    (wr 0x20f00 0xbeef (mem (do_thread_switch_context two_stacks))) 0 0.

Lemma switch_resumes_witness :
  regs (do_thread_switch_context other_side) =
    Cpu 0x10040 0xc0de 2 0x20040 3 4 5 0x10f04 0xc0de KERN_CODE 0 0 0 0x202.
Proof.
  apply (switch_resumes two_stacks 0xc0de other_side 0xbeef); try (vm_compute; done).
  - vm_compute. intros [? ?]. done.
  - intros a Ha. unfold other_side. cbn [mem]. apply wr_other. intros <-. unfold in_frame in Ha. cbn in Ha. lia.
  - intros a Ha. unfold in_frame in *. cbn in *. lia.
Defined.

(** The words [thread_init_stack] writes. *)
Lemma init_stack_words t func data fl m :
  52 ≤ t → t + THREAD_SIZE ≤ 2 ^ 32 →
  ∃ v, thread_init_stack t func data fl m =
    wr (t + T_STATE) v (wr (t + T_ESP) (t - 52) (wr (t - 52) 0 (wr (t - 48) 0 (wr (t - 44) 0 (wr (t - 40) 0 (wr (t - 36) 0
      (wr (t - 32) 0 (wr (t - 28) 0 (wr (t - 24) 0 (wr (t - 20) func (wr (t - 16) KERN_CODE (wr (t - 12) (Z.lor fl EFLAGS_IF)
      (wr (t - 8) 0 (wr (t - 4) data (wr (t + T_ESP) (t - 4) (wr (t + T_BASE) (t - 4) m)))))))))))))))).
Proof.
  intros H0 H1. unfold THREAD_SIZE in H1. unfold thread_init_stack. cbv zeta. rewrite (u32_small (t - 4)) by (unfold is_u32; lia).
  change (seqZ 1 8) with [1; 2; 3; 4; 5; 6; 7; 8]. cbn [foldl]. unfold T_ESP, T_BASE, T_STATE in *.
  rewrite (u32_small (t + 52)), (u32_small (t + 40)), (u32_small (t + 36)) by (unfold is_u32; lia). eexists. f_equal.
  rewrite !(u32_small (t - 4 - _)), !(u32_small (t - 4 - 16 - _)) by (unfold is_u32; lia).
  repeat first [(f_equal; [lia|..]) | f_equal]; lia.
Qed.

Lemma init_stack_at t func data fl m :
  52 ≤ t → t + THREAD_SIZE ≤ 2 ^ 32 → let m' := thread_init_stack t func data fl m in
  frame m' (t - 52) (Cpu 0 0 0 0 0 0 0 (t - 8) func KERN_CODE 0 0 0 (Z.lor fl EFLAGS_IF)) ∧
  m' (t + T_ESP) = t - 52 ∧ m' (t + T_BASE) = t - 4 ∧ m' (t - 8) = 0 ∧ m' (t - 4) = data ∧
  (∀ a, ¬ (t - 52 ≤ a ≤ t + T_STATE) → m' a = m a).
Proof.
  intros H0 H1 m'. destruct (init_stack_words t func data fl m H0 H1) as [v Hv]. subst m'. rewrite Hv. clear Hv.
  unfold T_ESP, T_BASE, T_STATE in *. split_and!.
  - split; cbn [edi esi ebp ebx edx ecx eax eip cs eflags esp];
      try (replace (t - 52 + 4) with (t - 48) by lia); try (replace (t - 52 + 8) with (t - 44) by lia);
      try (replace (t - 52 + 16) with (t - 36) by lia); try (replace (t - 52 + 20) with (t - 32) by lia);
      try (replace (t - 52 + 24) with (t - 28) by lia); try (replace (t - 52 + 28) with (t - 24) by lia);
      try (replace (t - 52 + 32) with (t - 20) by lia); try (replace (t - 52 + 36) with (t - 16) by lia);
      try (replace (t - 52 + 40) with (t - 12) by lia);
      repeat (rewrite wr_other by lia); rewrite ?wr_same; (done || lia).
  - repeat (rewrite wr_other by lia). apply wr_same.
  - repeat (rewrite wr_other by lia). apply wr_same.
  - repeat (rewrite wr_other by lia). apply wr_same.
  - repeat (rewrite wr_other by lia). apply wr_same.
  - intros a Ha. repeat (rewrite wr_other by lia). done.
Qed.

Lemma THREAD_page p : 0 ≤ p → p + PAGE_SIZE ≤ 2 ^ 32 → (PAGE_SIZE | p) → THREAD p = p + PAGE_SIZE - THREAD_SIZE.
Proof.
  intros H0 H1 [k ->]. unfold THREAD. change (u32 (Z.lnot (PAGE_SIZE - 1))) with NOPAGE_MASK.
  unfold PAGE_SIZE, THREAD_SIZE in *. rewrite land_NOPAGE by (unfold is_u32; lia). rewrite Z.div_mul by lia.
  apply u32_small. unfold is_u32. lia.
Qed.

(** A new thread starts in its function: after [thread_init_stack] the
    first switch to the thread runs [func] in the kernel's segment with
    interrupts on, all general registers zero, the argument above a return
    address of zero on the stack, and the words written lie in the page of the
    thread. *)
Theorem thread_starts p func data fl m s :
  0 ≤ p → p + PAGE_SIZE ≤ 2 ^ 32 → (PAGE_SIZE | p) → let t := THREAD p in
  mem s = thread_init_stack t func data fl m → Z.land (cs (regs s)) 3 = 0 →
  regs (thread_switch_to t s) =
    Cpu 0 0 0 0 0 0 0 (t - 8) func KERN_CODE (ss (regs s)) (ds (regs s)) (es (regs s)) (Z.lor fl EFLAGS_IF) ∧
  mem s (t - 8) = 0 ∧ mem s (t - 4) = data ∧ mem s (t + T_BASE) = t - 4 ∧
  (∀ a, ¬ (p ≤ a < p + PAGE_SIZE) → mem s a = m a).
Proof.
  intros Hp0 Hp1 Hp t Hm Hcs. assert (t = p + PAGE_SIZE - THREAD_SIZE) as Ht by by apply THREAD_page.
  unfold PAGE_SIZE, THREAD_SIZE in Ht. unfold PAGE_SIZE in *.
  destruct (init_stack_at t func data fl m) as (Hf & He & Hb & H8 & H4 & Ho); [lia|unfold THREAD_SIZE; lia|].
  rewrite <- Hm in *. split_and!; [|done..|].
  - unfold thread_switch_to, do_thread_switch_to. unfold T_ESP in *. rewrite (u32_small (t + 40)), He by (unfold is_u32; lia).
    set (s1 := set_regs _ s). change (set_regs (set_esp _ _) s1) with (at_ s1 (t - 52)).
    rewrite (frame_loads s1 (t - 52) _ Hf); [reflexivity|lia|lia|]. cbn [cs regs s1 set_regs]. rewrite Hcs. done.
  - intros a Ha. apply Ho. unfold T_STATE. lia.
Qed.

Definition booting : machine :=
  Mach (Cpu 0 0 0 0 0 0 0 0x9000 0 KERN_CODE KERN_DATA 0 0 2) (thread_init_stack (THREAD 0x200000) 0xf00d 42 2 (λ _, 7)) 0 0.
Lemma thread_starts_witness :
  regs (thread_switch_to (THREAD 0x200000) booting) =
    Cpu 0 0 0 0 0 0 0 (THREAD 0x200000 - 8) 0xf00d KERN_CODE KERN_DATA 0 0 (Z.lor 2 EFLAGS_IF).
Proof.
  destruct (thread_starts 0x200000 0xf00d 42 2 (λ _, 7) booting) as (H & _); [done|done|by exists 512|done|done|exact H].
Defined.

(** [start_user] leaves the kernel: it runs the address it was given in the
    user's code segment, on the given stack, with the given frame pointer and
    return value, and with the user's data segment loaded. *)
Theorem start_user_enters s ip bp sp val :
  24 ≤ esp (regs s) → esp (regs s) + 20 < 2 ^ 32 → Z.land (cs (regs s)) 3 = 0 →
  mem s (esp (regs s) + 4) = ip → mem s (esp (regs s) + 8) = bp → mem s (esp (regs s) + 12) = sp →
  mem s (esp (regs s) + 16) = val →
  let c := regs (start_user s) in
  eip c = ip ∧ cs c = USER_CODE + 3 ∧ esp c = sp ∧ ss c = USER_DATA + 3 ∧ ebp c = bp ∧ eax c = val ∧
  ds c = USER_DATA + 3 ∧ es c = USER_DATA + 3 ∧ eflags c = eflags (regs s).
Proof.
  intros H0 H1 Hcs Hip Hbp Hsp Hval. unfold start_user. rewrite <- (at_self s). set (e := esp (regs s)) in *. cbv zeta.
  rewrite (push_at s e (e - 4)) by lia. set (s1 := set_mem _ s).
  change (esp (regs (at_ s1 (e - 4)))) with (e - 4).
  rewrite (u32_small (e - 4 + 16)), (u32_small (e - 4 + 8)), (u32_small (e - 4 + 20)), (u32_small (e - 4 + 12)) by (unfold is_u32; lia).
  assert (∀ k, 0 ≤ k → mem s1 (e - 4 + 8 + k) = mem s (e + 4 + k)) as Hm1.
  { intros k Hk. cbn. rewrite wr_other by lia. f_equal. lia. }
  rewrite (push_at s1 (e - 4) (e - 8)) by lia. set (s2 := set_mem _ s1).
  assert (mem (at_ s2 (e - 8)) (e - 4 + 16) = sp) as ->.
  { cbn. rewrite !wr_other by lia. rewrite <- Hsp. f_equal. lia. }
  rewrite (push_at s2 (e - 8) (e - 12)) by lia. set (s3 := set_mem _ s2).
  rewrite (push_at s3 (e - 12) (e - 16)) by lia. set (s4 := set_mem _ s3).
  rewrite (push_at s4 (e - 16) (e - 20)) by lia. set (s5 := set_mem _ s4).
  assert (mem (at_ s5 (e - 20)) (e - 4 + 8) = ip) as ->.
  { cbn. rewrite !wr_other by lia. rewrite <- Hip. f_equal. lia. }
  rewrite (push_at s5 (e - 20) (e - 24)) by lia. set (s6 := set_mem _ s5).
  assert (mem (at_ s6 (e - 24)) (e - 4 + 20) = val) as ->.
  { cbn. rewrite !wr_other by lia. rewrite <- Hval. f_equal. lia. }
  assert (mem (at_ s6 (e - 24)) (e - 4 + 12) = bp) as ->.
  { cbn. rewrite !wr_other by lia. rewrite <- Hbp. f_equal. lia. }
  set (s7 := set_regs _ (at_ s6 (e - 24))). change s7 with (at_ s7 (e - 24)). unfold iret.
  rewrite (pop_at s7 (e - 24) (e - 20)), (pop_at s7 (e - 20) (e - 16)), (pop_at s7 (e - 16) (e - 12)) by lia.
  assert (mem s7 (e - 20) = USER_CODE + 3) as ->.
  { cbn. rewrite wr_other by lia. apply wr_same. }
  rewrite decide_True by (change (cs (regs (at_ s7 (e - 24)))) with (cs (regs s)); rewrite Hcs; done).
  rewrite (pop_at s7 (e - 12) (e - 8)), (pop_at s7 (e - 8) (e - 4)) by lia. cbv zeta.
  assert (mem s7 (e - 24) = ip ∧ mem s7 (e - 16) = eflags (regs s) ∧ mem s7 (e - 12) = sp ∧ mem s7 (e - 8) = USER_DATA + 3)
    as (-> & -> & -> & ->).
  { cbn. split_and!; repeat (rewrite wr_other by lia); by rewrite wr_same. }
  cbn. split_and!; done.
Qed.

Definition leaving : machine :=
  Mach (Cpu 0 0 0 0 0 0 0 0x8000 0 KERN_CODE KERN_DATA 0 0 0x202)
    (wr 0x8004 0x40000000 (wr 0x8008 0x7ffffffc (wr 0x800c 0x7ffffff0 (wr 0x8010 0 (λ _, 0))))) 0 0.
Lemma start_user_enters_witness :
  eip (regs (start_user leaving)) = 0x40000000 ∧ esp (regs (start_user leaving)) = 0x7ffffff0.
Proof.
  destruct (start_user_enters leaving 0x40000000 0x7ffffffc 0x7ffffff0 0) as (H1 & _ & H2 & _);
    [vm_compute; done..|]. split; [exact H1|exact H2].
Defined.
