(* ===== verification/Exec.v ===== *)
(** * Programs and processes (kernel/fs/aout.c, kernel/exec.c, kernel/fork.c, kernel/thread.c, kernel/exit.c)

    The loader of a.out binaries over the memory areas, and the calls that
    make threads and processes, over the memory areas, the scheduler and the
    file system.  A file is the inode of Vfs; its pages and the pages of the
    areas are bytes of the same memory. *)

From Stdlib Require Import Ascii String.
From S2P Require Import Switch Prelude KList Bitmap Klib Printf Buddy PageAlloc Slice Paging MemArea Vfs Fs Sched.

(** ** The a.out loader *)

(* include/aout.h:26-35 exec *)
Record exec := Exec {
  a_midmag : Z; a_text : Z; a_data : Z; a_bss : Z; a_syms : Z; a_entry : Z; a_trsize : Z; a_drsize : Z }.
Definition EXEC_SIZE : Z := 32.

(* include/aout.h:37-37 AOUTH *)
Definition AOUTH (m : memory) (x : Z) : exec :=
  Exec (ld32 m x) (ld32 m (x + 4)) (ld32 m (x + 8)) (ld32 m (x + 12)) (ld32 m (x + 16)) (ld32 m (x + 20)) (ld32 m (x + 24))
    (ld32 m (x + 28)).

(* include/aout.h:40-40 AOUT_OMAGIC *)
Definition AOUT_OMAGIC : Z := 263.
(* include/aout.h:45-46 AOUT_MAGIC *)
Definition AOUT_MAGIC (h : exec) : Z := Z.land (a_midmag h) 0xffff.
(* include/aout.h:48-50 AOUT_isOMAGIC *)
Definition AOUT_isOMAGIC (h : exec) : bool := bool_decide (AOUT_MAGIC h = AOUT_OMAGIC).
(* include/aout.h:64-66 AOUT_TEXTOFF *)
Definition AOUT_TEXTOFF (h : exec) : Z := EXEC_SIZE.
(* include/aout.h:68-70 AOUT_DATAOFF *)
Definition AOUT_DATAOFF (h : exec) : Z := u32 (AOUT_TEXTOFF h + a_text h).

(* kernel/fs/aout.c:30-31 PGALIGN *)
Definition PGALIGN (x : Z) : Z := Z.land (u32 (x + PAGE_SIZE - 1)) NOPAGE_MASK.
(* kernel/fs/aout.c:32-33 INPAGES *)
Definition AOUT_INPAGES (x : Z) : Z := PGALIGN x / PAGE_SIZE.

(** The addresses of the pages of an area, along its list. *)
Fixpoint page_addrs (l : list node) (p : pa) : outcome (list Z) :=
  match l with
  | [] => Ok []
  | Area z i :: l => r ← page_addrs l p; Ok (page_to_addr (z, i) p :: r)
  | _ => Fault
  end.

(** A page of a file; NULL has no address. *)
Definition file_page (pages : list Z) (n : Z) : outcome Z :=
  p ← of_option (pages !! Z.to_nat n); if decide (p = NULL) then Fault else Ok p.

(** The loop of [aout_copy_section]: [dst] are the pages from [tmp] on. *)
Fixpoint section_loop (fuel : nat) (pages dst : list Z) (to pgnum pgoff left : Z) (m : memory) : outcome memory :=
  match fuel with
  | O => Hang
  | S f =>
      if decide (left > 0) then
        page ← file_page pages pgnum;
        to ← (if decide (Z.land to PAGE_MASK = 0) then of_option (head dst) else Ok to);
        let tocopy := if decide (pgoff ≠ 0) then Z.min left (PAGE_SIZE - pgoff)
                      else Z.min left (PAGE_SIZE - Z.land to PAGE_MASK) in
        let m := memory_copy to (page + pgoff) (Z.to_nat tocopy) m in
        let '(pgnum, pgoff) := if decide (pgoff + tocopy = PAGE_SIZE) then (pgnum + 1, pgoff) else (pgnum, tocopy) in
        let left := left - tocopy in
        let to := to + tocopy in
        if decide (Z.land to PAGE_MASK = 0) then section_loop f pages (tail dst) to pgnum pgoff left m
        else section_loop f pages dst to pgnum 0 left m
      else Ok m
  end.

(* kernel/fs/aout.c:55-114 aout_copy_section *)
Definition aout_copy_section (fuel : nat) (mma : Z) (i : inode) (off len : Z) (s : ms) : outcome ms :=
  let pgnum := Z.shiftr (Z.land off NOPAGE_MASK) PAGE_SHIFT in
  let pgoff := Z.land off PAGE_MASK in
  l ← MemArea.walk fuel (Ext mma) s;
  dst ← page_addrs l (mpa s);
  m ← section_loop fuel (i_pages i) dst 0 pgnum pgoff len (mbytes s);
  Ok (with_mbytes m s).

(** [map->m_mma[n] = mma] and [map->m_nmma = n]. *)
Definition set_mma_of (map n mma : Z) (s : ms) : ms :=
  let f := maps s map in
  let g := Mapping (m_pgdir f) (m_pgtable f) (λ k, if decide (k = n) then mma else m_mma f k) (m_nmma f) in
  Ms (msl s) (mwords s) (mbytes s) (λ p, if decide (p = map) then g else maps s p) (mmas s) (mma_pool s).
Definition set_nmma (map n : Z) (s : ms) : ms :=
  let f := maps s map in
  let g := Mapping (m_pgdir f) (m_pgtable f) (m_mma f) n in
  Ms (msl s) (mwords s) (mbytes s) (λ p, if decide (p = map) then g else maps s p) (mmas s) (mma_pool s).

(* kernel/fs/aout.c:116-160 aout_load *)
Definition aout_load (fuel : nat) (i : inode) (map : Z) (s : ms) : outcome (Z * ms) :=
  page ← file_page (i_pages i) 0;
  let h := AOUTH (mbytes s) page in
  if negb (AOUT_isOMAGIC h) then Ok (- ENOEXEC, s) else
  let cpg := AOUT_INPAGES (a_text h) in
  let dpg := AOUT_INPAGES (u32 (a_data h + a_bss h)) in
  '(t, s) ← mem_area_alloc_new fuel map (a_entry h) cpg MMA_RO s;
  t ← of_option t;
  s ← aout_copy_section fuel t i (AOUT_TEXTOFF h) (a_text h) (set_mma_of map 0 t s);
  '(d, s) ← mem_area_alloc_new fuel map (m_end (mmas s t)) dpg MMA_RW s;
  d ← of_option d;
  s ← aout_copy_section fuel d i (AOUT_DATAOFF h) (a_data h) (set_mma_of map 1 d s);
  Ok (0, set_nmma map 2 s).

(** OPT_AOUT_SUPPORT is on. *)
(* kernel/exec.c:48-65 binary_load *)
Definition binary_load (fuel : nat) (i : inode) (map : Z) (s : ms) : outcome (Z * ms) := aout_load fuel i map s.

(* include/i386/memory.h:29-31 USERMEM_STACK *)
Definition USERMEM_STACK : Z := 0x80000000.
Definition USERMEM_STACKLIM : Z := 0xf000.
Definition USERMEM_HEAP : Z := 0x80000000.

Definition set_sizelim (v : Z) (a : mem_area) : mem_area :=
  Mma (m_start a) (m_end a) v (m_pages a) (m_users a) (m_prot a) (m_flags a) (m_original a) (m_map a).

(* kernel/exec.c:67-97 thread_exec_new *)
Definition thread_exec_new (fuel : nat) (map : Z) (i : inode) (s : ms) : outcome (Z * ms) :=
  '(ret, s) ← binary_load fuel i map s;
  if decide (ret ≠ 0) then Ok (ret, s) else
  '(st, s) ← mem_area_alloc_new fuel map USERMEM_STACK 1 (Z.lor MMA_RW MMA_STACK) s;
  st ← of_option st;
  let s := set_mma_of map (m_nmma (maps s map)) st s in
  let s := set_mma st (set_sizelim USERMEM_STACKLIM (mmas s st)) s in
  let s := set_nmma map (m_nmma (maps s map) + 1) s in
  '(h, s) ← mem_area_alloc_new fuel map USERMEM_HEAP 1 (Z.lor MMA_RW MMA_GROWS) s;
  let s := set_mma_of map (m_nmma (maps s map)) (default 0 h) s in
  Ok (0, set_nmma map (m_nmma (maps s map) + 1) s).

(** ** Threads and processes *)

(** Of a thread structure: the mapping, the name, and what the file calls and
    the messages keep. *)
Record tinfo := Tinfo { ti_map : Z; ti_name : list Z; ti_last_fd : Z; ti_files : list Z; ti_mbox : list Z }.

(** The scheduler, the memory, the file system, the threads, the next pid, the
    flags register, the number of physical pages and the free structures. *)
Record ks := Ks {
  ksch : sched; kms : ms; kvfs : vfs; kinfo : Z → tinfo; kpid : Z; kflags : Z; kphys : Z; kheap : list Z }.

Definition set_ksch (v : sched) (s : ks) : ks := Ks v (kms s) (kvfs s) (kinfo s) (kpid s) (kflags s) (kphys s) (kheap s).
Definition set_kms (v : ms) (s : ks) : ks := Ks (ksch s) v (kvfs s) (kinfo s) (kpid s) (kflags s) (kphys s) (kheap s).
Definition set_kvfs (v : vfs) (s : ks) : ks := Ks (ksch s) (kms s) v (kinfo s) (kpid s) (kflags s) (kphys s) (kheap s).
Definition set_kinfo (t : Z) (v : tinfo) (s : ks) : ks :=
  Ks (ksch s) (kms s) (kvfs s) (λ u, if decide (u = t) then v else kinfo s u) (kpid s) (kflags s) (kphys s) (kheap s).
Definition set_kpid (v : Z) (s : ks) : ks := Ks (ksch s) (kms s) (kvfs s) (kinfo s) v (kflags s) (kphys s) (kheap s).
Definition set_kheap (v : list Z) (s : ks) : ks := Ks (ksch s) (kms s) (kvfs s) (kinfo s) (kpid s) (kflags s) (kphys s) v.

Definition on_sched {A} (o : M sched A) : M ks A := λ s, '(a, c) ← o (ksch s); Ok (a, set_ksch c s).
Definition on_vfs {A} (o : M vfs A) : M ks A := λ s, '(a, c) ← o (kvfs s); Ok (a, set_kvfs c s).
Definition on_ms {A} (o : ms → outcome (A * ms)) : M ks A := λ s, '(a, c) ← o (kms s); Ok (a, set_kms c s).
Definition ms_modify (f : ms → ms) : M ks unit := modify (λ s, set_kms (f (kms s)) s).

Section process.
Context (debug : bool) (reg : option cpu_scheduler).

(* kernel/thread.c:39-44 get_free_pid *)
Definition get_free_pid : M ks Z :=
  p ← gets kpid; _ ← modify (set_kpid (u32 (p + 1))); mret p.

(** [get_pages] from the page allocator below the slices. *)
Definition new_page (flags : Z) : M ks Z := on_ms (λ s, '(a, p) ← get_pages flags 0 (mpa s); Ok (a, with_mpa p s)).

Definition init_thread (pid_ : Z) (t : thread) : thread := Thread None (quantum t) (last_tick t) pid_ THREAD_RUNNABLE.

(* kernel/thread.c:76-122 thread_create *)
Definition thread_create (func : Z) (name : list Z) (data : Z) : M ks Z :=
  page ← new_page 0;
  let t := THREAD page in
  fl ← gets kflags;
  _ ← ms_modify (λ s, with_mwords (thread_init_stack t func data fl (mwords s)) s);
  p ← get_free_pid;
  _ ← modify (set_kinfo t (Tinfo ROOT_MAP (take (Z.to_nat THREAD_NAME_LEN) name) 0 [] []));
  _ ← on_sched (modify (with_thread t (init_thread p)));
  _ ← on_sched (modify (with_hp (KLIST0_INIT (Kt t))));
  _ ← on_sched (modify (with_hp (KLIST0_INIT (Run t))));
  f ← on_sched (spin_lock_irqsave debug THREAD_LIST);
  _ ← on_sched (modify (with_hp (klist0_append (Kt t) ThreadList)));
  _ ← on_sched (spin_unlock_irqrestore debug THREAD_LIST f);
  mret t.

(** [gobj_alloc(struct mapping)] and [clone_map] of [root_map] into it. *)
Definition new_map : M ks Z := λ s,
  match kheap s with
  | [] => Fault
  | a :: l =>
      '(g, v) ← clone_map (maps (kms s) ROOT_MAP) (Vm (mpa (kms s)) (mwords (kms s)) 0 0 (kphys s) (maps (kms s) ROOT_MAP));
      let m := with_mwords (vmem v) (with_mpa (vpa v) (kms s)) in
      Ok (a, set_kheap l (set_kms (Ms (msl m) (mwords m) (mbytes m) (λ p, if decide (p = a) then g else maps m p)
                                     (mmas m) (mma_pool m)) s))
  end.

(* kernel/thread.c:124-137 thread_create_user *)
Definition thread_create_user (func : Z) (name : list Z) (data : Z) : M ks Z :=
  t ← thread_create func name data;
  g ← new_map;
  i ← gets (λ s, kinfo s t);
  _ ← modify (set_kinfo t (Tinfo g (ti_name i) (ti_last_fd i) (ti_files i) (ti_mbox i)));
  mret t.

(** The queue on the stack of the caller, and the thread handed over in it. *)
Definition TMP_Q : Z := -1.
Definition start_thread (t : Z) : M ks unit :=
  _ ← on_sched (tq_init debug TMP_Q);
  _ ← on_sched (tq_insert_head debug t TMP_Q);
  b ← on_sched (scheduler_enqueue reg TMP_Q);
  bug_on (negb b).

(** The addresses of [user_thread] and [forker]. *)
Context (user_thread forker : Z).

(* kernel/exec.c:99-136 spawn *)
Definition spawn (fuel : nat) (path : list Z) : M ks Z :=
  dent ← on_vfs (lookup_path path);
  if decide (dent = NULL) then mret (- ENOENT) else
  d ← on_vfs (dent_at dent);
  i ← on_vfs (inode_at (d_inode d));
  t ← thread_create_user user_thread path 0;
  map ← gets (λ s, ti_map (kinfo s t));
  ret ← on_ms (thread_exec_new fuel map i);
  if decide (ret ≠ 0) then mret ret else
  _ ← start_thread t;
  mret 0.

(** The loop that puts the areas of a mapping. *)
Fixpoint put_all (n : nat) (fuel : nat) (map i : Z) (s : ms) : outcome ms :=
  match n with
  | O => Ok s
  | S n => s ← mem_area_put fuel (m_mma (maps s map) i) s; put_all n fuel map (i + 1) (set_mma_of map i NULL s)
  end.

(** A call that returns, or leaves for the user program. *)
Inductive leave := Returns (r : Z) | Enters (ip bp sp val : Z).

(* kernel/exec.c:30-46 user_thread *)
Definition user_thread_body (map : Z) : M ks leave :=
  s ← gets kms;
  mret (Enters (m_start (mmas s (m_mma (maps s map) 0))) (USERMEM_STACK - 4) (USERMEM_STACK - 4) 0).

(** The path is the format of [snprintf]: without a percent sign it is the new
    name. *)
Definition rename (t : Z) (path : list Z) : M ks unit :=
  if bool_decide (c_percent ∈ path) then fault else
  i ← gets (λ s, kinfo s t);
  modify (set_kinfo t (Tinfo (ti_map i) path (ti_last_fd i) (ti_files i) (ti_mbox i))).

(* kernel/exec.c:138-180 thread_exec *)
Definition thread_exec (fuel : nat) (thread : Z) (path : list Z) : M ks leave :=
  dent ← on_vfs (lookup_path path);
  if decide (dent = NULL) then mret (Returns (- ENOENT)) else
  d ← on_vfs (dent_at dent);
  i ← on_vfs (inode_at (d_inode d));
  map ← gets (λ s, ti_map (kinfo s thread));
  n ← gets (λ s, m_nmma (maps (kms s) map));
  _ ← on_ms (λ s, s ← put_all (Z.to_nat n) fuel map 0 s; Ok (tt, s));
  _ ← ms_modify (set_nmma map 0);
  r ← on_ms (thread_exec_new fuel map i);
  if decide (r ≠ 0) then mret (Returns r) else
  _ ← rename thread path;
  c ← gets (λ s, current (ksch s));
  if decide (thread = c) then user_thread_body map
  else
    fl ← gets kflags;
    _ ← ms_modify (λ s, with_mwords (thread_init_stack thread user_thread 0 fl (mwords s)) s);
    mret (Returns 0).

(* kernel/exit.c:24-30 exit *)
Definition exit (code : Z) : M ks unit := mret tt.

Definition words_machine (me : Z) (m : wmem) : machine := Mach (Cpu 0 0 0 0 0 0 0 me 0 0 0 0 0 0) m 0 0.

(* kernel/fork.c:42-66 fork *)
Definition fork (fuel : nat) : M ks Z :=
  me ← gets (λ s, current (ksch s));
  i ← gets (λ s, kinfo s me);
  t ← thread_create_user forker (ti_name i) 0;
  map ← gets (λ s, ti_map (kinfo s t));
  old ← gets (λ s, maps (kms s) (ti_map i));
  a ← on_ms (mem_area_clone fuel map (m_mma old 0));
  _ ← ms_modify (set_mma_of map 0 (default NULL a));
  a ← on_ms (mem_area_copy fuel map (m_mma old 1));
  _ ← ms_modify (set_mma_of map 1 (default NULL a));
  a ← on_ms (mem_area_copy fuel map (m_mma old 2));
  _ ← ms_modify (set_mma_of map 2 (default NULL a));
  a ← on_ms (mem_area_copy fuel map (m_mma old 3));
  _ ← ms_modify (set_mma_of map 3 (default NULL a));
  _ ← ms_modify (set_nmma map 4);
  _ ← ms_modify (λ s, with_mwords (Switch.mem (prepare_fork t (words_machine me (mwords s)))) s);
  _ ← start_thread t;
  p ← gets (λ s, pid (threads (ksch s) t));
  mret p.

(** [panic] is [Bug]; [s] is not assigned again. *)
(* kernel/init.c:107-118 load_init *)
Definition load_init (fuel : nat) : M ks unit :=
  s ← spawn fuel (bytes "/sbin/init");
  if decide (s ≠ 0) then
    _ ← spawn fuel (bytes "/bin/init");
    _ ← spawn fuel (bytes "/kosrc");
    bug
  else mret tt.
End process.

(** ** Loading a section *)

Lemma byte_of_plus pgs x t : 0 ≤ t → x mod PAGE_SIZE + t < PAGE_SIZE → byte_of pgs (x + t) = byte_of pgs x + t.
Proof.
  intros Ht Hx. pose proof (Z_div_mod_eq_full x PAGE_SIZE) as He.
  pose proof (Z.mod_pos_bound x PAGE_SIZE ltac:(done)). unfold byte_of, PAGE_SIZE in *.
  replace ((x + t) / 4096) with (x / 4096) by (apply (Z.div_unique _ _ _ (x mod 4096 + t)); lia).
  replace ((x + t) mod 4096) with (x mod 4096 + t) by (apply (Z.mod_unique _ _ (x / 4096)); lia). lia.
Qed.

Lemma byte_of_page pgs x p :
  pgs !! Z.to_nat (x / PAGE_SIZE) = Some p → byte_of pgs x = p + x mod PAGE_SIZE.
Proof. intros Hp. unfold byte_of. by rewrite Hp. Qed.

Lemma page_of_byte (pgs : list Z) x :
  0 ≤ x < PAGE_SIZE * Z.of_nat (length pgs) → ∃ p, pgs !! Z.to_nat (x / PAGE_SIZE) = Some p.
Proof.
  intros Hx. apply lookup_lt_is_Some. apply Nat2Z.inj_lt. unfold PAGE_SIZE in *.
  rewrite Z2Nat.id by (apply Z.div_pos; lia). apply Z.div_lt_upper_bound; lia.
Qed.

Lemma apart_lookup pgs i j p q :
  apart pgs → pgs !! i = Some p → pgs !! j = Some q → i ≠ j → p + PAGE_SIZE ≤ q ∨ q + PAGE_SIZE ≤ p.
Proof.
  revert i j. induction pgs as [|r pgs IH]; intros i j Hap Hi Hj Hn; [done|]. destruct Hap as [Hr Hap].
  rewrite Forall_forall in Hr.
  destruct i as [|i], j as [|j]; simpl in *; simplify_eq.
  - apply Hr. by eapply list_elem_of_lookup_2.
  - assert (p + PAGE_SIZE ≤ q ∨ q + PAGE_SIZE ≤ p) by (specialize (Hr p (list_elem_of_lookup_2 _ _ _ Hi)); lia). done.
  - eapply (IH i j); try done. congruence.
Qed.

(** Bytes of different offsets are different. *)
Lemma byte_of_inj pgs x y :
  apart pgs → 0 ≤ x < PAGE_SIZE * Z.of_nat (length pgs) → 0 ≤ y < PAGE_SIZE * Z.of_nat (length pgs) →
  byte_of pgs x = byte_of pgs y → x = y.
Proof.
  intros Hap Hx Hy. destruct (page_of_byte _ _ Hx) as [p Hp], (page_of_byte _ _ Hy) as [q Hq].
  rewrite (byte_of_page _ _ _ Hp), (byte_of_page _ _ _ Hq).
  pose proof (Z.mod_pos_bound x PAGE_SIZE ltac:(done)). pose proof (Z.mod_pos_bound y PAGE_SIZE ltac:(done)).
  pose proof (Z_div_mod_eq_full x PAGE_SIZE). pose proof (Z_div_mod_eq_full y PAGE_SIZE).
  destruct (decide (Z.to_nat (x / PAGE_SIZE) = Z.to_nat (y / PAGE_SIZE))) as [He|He].
  - apply Z2Nat.inj in He; [|unfold PAGE_SIZE in *; apply Z.div_pos; lia..]. rewrite He in *. simplify_eq. lia.
  - destruct (apart_lookup _ _ _ _ _ Hap Hp Hq He); lia.
Qed.

(** The section is loaded from [k] on: the bytes of the destination are those
    of the file, and nothing else of the memory is written. *)
Definition loaded (src dst : list Z) (off k len : Z) (m m' : memory) : Prop :=
  (∀ j, k ≤ j < len → m' (byte_of dst j) = m (byte_of src (off + j))) ∧
  (∀ a, (∀ j, k ≤ j < len → a ≠ byte_of dst j) → m' a = m a).

(** The pages a section is loaded from and to: whole pages, apart from each
    other, enough of them. *)
Record loadable (src dst : list Z) (off len : Z) : Prop := Loadable {
  lo_off : 0 ≤ off;
  lo_len : 0 ≤ len ≤ PAGE_SIZE * Z.of_nat (length dst);
  lo_src : off + len ≤ PAGE_SIZE * Z.of_nat (length src);
  lo_present : Forall (λ p, p ≠ NULL) src;
  lo_apart : apart dst;
  lo_clear : Forall (λ p, clear_of dst p PAGE_SIZE) src;
  lo_aligned : Forall (λ d, Z.land d PAGE_MASK = 0) dst }.

Section loading.
Context (src dst : list Z) (off len : Z) (Hlo : loadable src dst off len).

Lemma source_kept x j :
  0 ≤ x < PAGE_SIZE * Z.of_nat (length src) → 0 ≤ j < len → byte_of src x ≠ byte_of dst j.
Proof using Hlo.
  destruct Hlo as [Hoff Hlen Hsrc _ _ Hcl _]. intros Hx Hj He.
  destruct (byte_of_in src x) as (p & Hp & Hpb); [done|]. destruct (byte_of_in dst j) as (d & Hd & Hdb); [lia|].
  rewrite Forall_forall in Hcl. specialize (Hcl _ Hp). unfold clear_of in Hcl. rewrite Forall_forall in Hcl.
  specialize (Hcl _ Hd). lia.
Qed.

(** One chunk, within a page of the file and a page of the area. *)
Lemma loaded_chunk k c m m' :
  0 ≤ k → 0 ≤ c → k + c ≤ len →
  k mod PAGE_SIZE + c ≤ PAGE_SIZE → (off + k) mod PAGE_SIZE + c ≤ PAGE_SIZE →
  loaded src dst off (k + c) len (memory_copy (byte_of dst k) (byte_of src (off + k)) (Z.to_nat c) m) m' →
  loaded src dst off k len m m'.
Proof using Hlo.
  intros Hk Hc Hkc Hd Hs [Hby Hfr]. pose proof Hlo as [Hoff Hlen Hsrc _ Hap _ _].
  assert (∀ t, 0 ≤ t < c → byte_of dst (k + t) = byte_of dst k + t) as Hdt by (intros; apply byte_of_plus; lia).
  assert (∀ t, 0 ≤ t < c → byte_of src (off + k + t) = byte_of src (off + k) + t) as Hst by (intros; apply byte_of_plus; lia).
  assert (∀ a, (∀ j, k ≤ j < k + c → a ≠ byte_of dst j) →
    memory_copy (byte_of dst k) (byte_of src (off + k)) (Z.to_nat c) m a = m a) as Hkeep.
  { intros a Ha. rewrite memory_copy_at, decide_False; [done|]. rewrite Z2Nat.id by lia. intros Hin.
    apply (Ha (k + (a - byte_of dst k))); [lia|]. rewrite Hdt by lia. lia. }
  split.
  - intros j Hj. destruct (decide (j < k + c)) as [Hlt|Hge].
    + rewrite Hfr by (intros i Hi He; apply byte_of_inj in He; [lia|done|lia..]).
      replace j with (k + (j - k)) at 1 by lia. replace (off + j) with (off + k + (j - k)) by lia.
      rewrite Hdt, Hst, memory_copy_at, decide_True by lia. f_equal. lia.
    + rewrite Hby by lia. apply Hkeep. intros i Hi. apply source_kept; lia.
  - intros a Ha. rewrite Hfr by (intros j Hj; apply Ha; lia). apply Hkeep. intros j Hj. apply Ha. lia.
Qed.

Lemma land_page x : Z.land x PAGE_MASK = x mod PAGE_SIZE.
Proof. change PAGE_MASK with (Z.ones 12). by rewrite Z.land_ones. Qed.

(** Where the next byte goes: a new page, or on in the page of the last. *)
Definition place (k to : Z) : Prop :=
  to mod PAGE_SIZE = 0 ∧ k mod PAGE_SIZE = 0 ∨
  to = byte_of dst k ∧ k mod PAGE_SIZE ≠ 0 ∧ (off + k) mod PAGE_SIZE = 0.

(** The number of bytes of the next chunk. *)
Definition chunk (k : Z) : Z :=
  if decide ((off + k) mod PAGE_SIZE ≠ 0) then Z.min (len - k) (PAGE_SIZE - (off + k) mod PAGE_SIZE)
  else Z.min (len - k) (PAGE_SIZE - k mod PAGE_SIZE).

Lemma dst_aligned k : 0 ≤ k < len → byte_of dst k mod PAGE_SIZE = k mod PAGE_SIZE.
Proof using Hlo.
  destruct Hlo as [_ Hlen _ _ _ _ Hal]. intros Hk. destruct (page_of_byte dst k) as [d Hd]; [lia|].
  rewrite (byte_of_page _ _ _ Hd). rewrite Forall_forall in Hal.
  specialize (Hal d (list_elem_of_lookup_2 _ _ _ Hd)). rewrite land_page in Hal.
  rewrite <- Zplus_mod_idemp_l, Hal. apply Zmod_mod.
Qed.

(** The address the loop copies to. *)
Lemma place_to k to :
  0 ≤ k < len → place k to →
  (if decide (Z.land to PAGE_MASK = 0) then of_option (head (drop (Z.to_nat (k / PAGE_SIZE)) dst)) else Ok to) =
  Ok (byte_of dst k).
Proof using Hlo.
  intros Hk Hpl. rewrite land_page. destruct (lo_len _ _ _ _ Hlo) as [_ Hlen].
  destruct (page_of_byte dst k) as [d Hd]; [lia|]. destruct Hpl as [[Hto Hkm]|(-> & Hkm & _)].
  - rewrite decide_True by done. rewrite head_lookup, lookup_drop, Nat.add_0_r, Hd. simpl.
    rewrite (byte_of_page _ _ _ Hd). f_equal. lia.
  - rewrite decide_False; [done|]. by rewrite dst_aligned.
Qed.

Lemma chunk_fits k :
  0 ≤ k < len →
  0 < chunk k ∧ k + chunk k ≤ len ∧ (off + k) mod PAGE_SIZE + chunk k ≤ PAGE_SIZE ∧
  ((off + k) mod PAGE_SIZE = 0 → k mod PAGE_SIZE + chunk k ≤ PAGE_SIZE).
Proof using.
  intros Hk. pose proof (Z.mod_pos_bound k PAGE_SIZE ltac:(done)). pose proof (Z.mod_pos_bound (off + k) PAGE_SIZE ltac:(done)).
  unfold chunk. case_decide; lia.
Qed.

(** The quotient and the remainder after a chunk. *)
Lemma after_chunk x c : 0 ≤ x → 0 ≤ c → x mod PAGE_SIZE + c < PAGE_SIZE → (x + c) / PAGE_SIZE = x / PAGE_SIZE ∧ (x + c) mod PAGE_SIZE = x mod PAGE_SIZE + c.
Proof using.
  intros Hx Hc Hxc. pose proof (Z_div_mod_eq_full x PAGE_SIZE). pose proof (Z.mod_pos_bound x PAGE_SIZE ltac:(done)).
  unfold PAGE_SIZE in *. split; symmetry; [apply (Z.div_unique _ _ _ (x mod 4096 + c))|apply (Z.mod_unique _ _ (x / 4096))]; lia.
Qed.
Lemma page_done x c : 0 ≤ x → x mod PAGE_SIZE + c = PAGE_SIZE → (x + c) / PAGE_SIZE = x / PAGE_SIZE + 1 ∧ (x + c) mod PAGE_SIZE = 0.
Proof using.
  intros Hx Hxc. pose proof (Z_div_mod_eq_full x PAGE_SIZE). unfold PAGE_SIZE in *.
  split; symmetry; [apply (Z.div_unique _ _ _ 0)|apply (Z.mod_unique _ _ (x / 4096 + 1))]; lia.
Qed.

(** What the loop holds before byte [k]. *)
Definition at_byte (k : Z) (d : list Z) (to pgnum pgoff : Z) : Prop :=
  d = drop (Z.to_nat (k / PAGE_SIZE)) dst ∧ pgnum = (off + k) / PAGE_SIZE ∧ pgoff = (off + k) mod PAGE_SIZE ∧ place k to.

Lemma tail_drop {A} (l : list A) n : tail (drop n l) = drop (S n) l.
Proof using. revert n. induction l as [|x l IH]; intros [|n]; [done..|]. apply IH. Qed.

(** The three shapes of a chunk that is not the last. *)
Lemma chunk_shape k to :
  0 ≤ k → k + chunk k < len → place k to →
  (off + k) mod PAGE_SIZE ≠ 0 ∧ k mod PAGE_SIZE = 0 ∧ chunk k = PAGE_SIZE - (off + k) mod PAGE_SIZE ∨
  (off + k) mod PAGE_SIZE = 0 ∧ chunk k = PAGE_SIZE - k mod PAGE_SIZE.
Proof using. unfold chunk, place. intros Hk Hc Hpl. case_decide; lia. Qed.

Lemma at_byte_next k to d n o :
  0 ≤ k → k + chunk k < len → place k to → byte_of dst k mod PAGE_SIZE = k mod PAGE_SIZE →
  (n, o) = (if decide ((off + k) mod PAGE_SIZE + chunk k = PAGE_SIZE)
            then ((off + k) / PAGE_SIZE + 1, (off + k) mod PAGE_SIZE) else ((off + k) / PAGE_SIZE, chunk k)) →
  d = drop (Z.to_nat (k / PAGE_SIZE)) dst →
  if decide ((k + chunk k) mod PAGE_SIZE = 0) then at_byte (k + chunk k) (tail d) (byte_of dst k + chunk k) n o
  else at_byte (k + chunk k) d (byte_of dst k + chunk k) n 0.
Proof using Hlo.
  intros Hk Hlt Hpl Hal Hno ->. pose proof (lo_off _ _ _ _ Hlo).
  pose proof (Z.mod_pos_bound k PAGE_SIZE ltac:(done)) as HK. pose proof (Z.mod_pos_bound (off + k) PAGE_SIZE ltac:(done)) as HO.
  assert (0 ≤ k / PAGE_SIZE) as Hq by (by apply Z.div_pos).
  unfold at_byte. rewrite Z.add_assoc. destruct (chunk_shape k to Hk Hlt Hpl) as [(HOn & HK0 & Hc)|[HO0 Hc]].
  - rewrite decide_True in Hno by lia. simplify_eq.
    destruct (page_done (off + k) (chunk k)) as [-> ->]; [lia..|].
    destruct (after_chunk k (chunk k)) as [-> ->]; [lia..|].
    rewrite decide_False by lia. split_and!; try done. right.
    destruct (after_chunk k (chunk k)) as [_ ->]; [lia..|]. rewrite Z.add_assoc.
    destruct (page_done (off + k) (chunk k)) as [_ ->]; [lia..|].
    rewrite byte_of_plus by lia. lia.
  - destruct (page_done k (chunk k)) as [Hd Hm]; [lia..|]. rewrite Hd, Hm, decide_True by done.
    rewrite tail_drop. replace (Z.to_nat (k / PAGE_SIZE + 1)) with (S (Z.to_nat (k / PAGE_SIZE))) by lia.
    assert (place (k + chunk k) (byte_of dst k + chunk k)) as Hpl'.
    { left. rewrite Hm. split; [|done]. rewrite <- Zplus_mod_idemp_l, Hal, Hc, Zplus_minus. done. }
    case_decide as Hd2; simplify_eq; [destruct (page_done (off + k) (chunk k)) as [-> ->]; [lia..|]; split_and!; done || lia|].
    destruct (after_chunk (off + k) (chunk k)) as [-> ->]; [lia..|]. split_and!; done || lia.
Qed.

Lemma section_step f k d to n o m :
  0 ≤ k < len → at_byte k d to n o →
  ∃ d' to' n' o',
    section_loop (S f) src d to n o (len - k) m =
      section_loop f src d' to' n' o' (len - (k + chunk k))
        (memory_copy (byte_of dst k) (byte_of src (off + k)) (Z.to_nat (chunk k)) m) ∧
    (k + chunk k < len → at_byte (k + chunk k) d' to' n' o').
Proof using Hlo.
  intros Hk (-> & -> & -> & Hpl). pose proof Hlo as [Hoff Hlen Hsrc Hpr _ _ _].
  destruct (page_of_byte src (off + k)) as [p Hp]; [lia|].
  pose proof (chunk_fits k Hk) as (Hc0 & Hcl & Hcs & Hcd).
  assert (p ≠ NULL) as Hnn by (rewrite Forall_forall in Hpr; by apply Hpr, (list_elem_of_lookup_2 _ _ _ Hp)).
  cbn [section_loop]. rewrite decide_True by lia. unfold file_page. rewrite Hp. cbn [of_option mbind outcome_bind].
  rewrite (decide_False (P := p = NULL)) by done. cbn [mbind outcome_bind].
  rewrite (place_to k to Hk Hpl). cbn [mbind outcome_bind]. rewrite !land_page, (dst_aligned k Hk), <- (byte_of_page _ _ _ Hp).
  fold (chunk k).
  rewrite <- (Zplus_mod_idemp_l (byte_of dst k)), (dst_aligned k Hk), Zplus_mod_idemp_l.
  replace (len - k - chunk k) with (len - (k + chunk k)) by lia.
  destruct (if decide ((off + k) mod PAGE_SIZE + chunk k = PAGE_SIZE) then _ else _) as [n' o'] eqn:Hno.
  pose proof (λ H, at_byte_next k to _ n' o' ltac:(lia) H Hpl (dst_aligned k Hk) (eq_sym Hno) eq_refl) as Hnx.
  revert Hnx. destruct (decide ((k + chunk k) mod PAGE_SIZE = 0)) as [Hd2|Hd2]; intros Hnx; do 4 eexists; (split; [reflexivity|exact Hnx]).
Qed.

Lemma section_loop_loads fuel k d to n o m :
  0 ≤ k ≤ len → len - k < Z.of_nat fuel → (k < len → at_byte k d to n o) →
  ∃ m', section_loop fuel src d to n o (len - k) m = Ok m' ∧ loaded src dst off k len m m'.
Proof using Hlo.
  revert k d to n o m. induction fuel as [|f IH]; intros k d to n o m Hk Hf Hat; [lia|].
  destruct (decide (k = len)) as [->|Hn].
  - exists m. cbn [section_loop]. rewrite decide_False by lia. split; [done|]. split; [lia|done].
  - pose proof (chunk_fits k ltac:(lia)) as (Hc0 & Hcl & Hcs & Hcd).
    destruct (section_step f k d to n o m ltac:(lia) (Hat ltac:(lia))) as (d' & to' & n' & o' & -> & Hnx).
    edestruct (IH (k + chunk k)) as (m' & -> & Hm); [lia|lia|done|].
    exists m'. split; [done|]. destruct (Hat ltac:(lia)) as (_ & _ & _ & Hpl).
    eapply (loaded_chunk k (chunk k)); [lia..| | |done].
    + destruct Hpl as [[_ Hz]|(_ & _ & Hz)]; [|by apply Hcd]. pose proof (Z.mod_pos_bound (off + k) PAGE_SIZE ltac:(done)). lia.
    + lia.
Qed.
End loading.

(** C20: Loading a section of a binary copies it whole: the bytes of the area,
    page after page, are those of the file from the offset of the section on,
    whatever that offset is in its page, and nothing else of the memory
    changes; the loop ends in at most a step a byte. *)
Theorem aout_copy_section_loads fuel mma i off len s l dst :
  MemArea.walk fuel (Ext mma) s = Ok l → page_addrs l (mpa s) = Ok dst →
  loadable (i_pages i) dst off len → is_u32 off → len < Z.of_nat fuel →
  ∃ m, aout_copy_section fuel mma i off len s = Ok (with_mbytes m s) ∧
       (∀ j, 0 ≤ j < len → m (byte_of dst j) = mbytes s (byte_of (i_pages i) (off + j))) ∧
       (∀ a, (∀ j, 0 ≤ j < len → a ≠ byte_of dst j) → m a = mbytes s a).
Proof.
  intros Hw Hd Hlo Hoff Hf. pose proof (lo_len _ _ _ _ Hlo).
  destruct (section_loop_loads (i_pages i) dst off len Hlo fuel 0 dst 0 (off / PAGE_SIZE) (off mod PAGE_SIZE) (mbytes s))
    as (m & Hm & Hby & Hfr); [lia|lia| |].
  { intros _. unfold at_byte, place. rewrite Z.add_0_r. split_and!; try done. by left. }
  exists m. split; [|done]. unfold aout_copy_section. rewrite Hw, land_page. cbn [mbind outcome_bind]. rewrite Hd.
  cbn [mbind outcome_bind]. rewrite Z.sub_0_r in Hm.
  replace (Z.shiftr (Z.land off NOPAGE_MASK) PAGE_SHIFT) with (off / PAGE_SIZE); [by rewrite Hm|].
  rewrite land_NOPAGE, shiftr_page by done. unfold PAGE_SIZE. by rewrite Z.div_mul.
Qed.

(** A file of two pages, loaded from its 100th byte into the area of MemArea's
    example. *)
Definition two_page_file : inode :=
  Inode [] 0 0 0 0 0 0 0 0 0 0 0 0 0 0 0 0 [0x200000; 0x400000] 2 [] 0 NullIops NullFops.
Lemma aout_copy_section_loads_witness :
  ∃ m, aout_copy_section (Z.to_nat 6001) 1 two_page_file 100 6000 area2 = Ok (with_mbytes m area2) ∧
       m 1064960 = mbytes area2 (0x400000 + 100).
Proof.
  destruct (aout_copy_section_loads (Z.to_nat 6001) 1 two_page_file 100 6000 area2 [Area 0 3; Area 0 4] [1060864; 1064960])
    as (m & Hm & Hby & _); [vm_compute; reflexivity|vm_compute; reflexivity| |done|lia|].
  - constructor; try done; unfold clear_of; repeat constructor; done || lia || idtac.
  - exists m. split; [exact Hm|]. specialize (Hby 4096 ltac:(lia)). exact Hby.
Defined.

(** ** New threads *)

(** The lists of the scheduler: the queues hold [Q], all threads are [T]. *)
Definition listed (s : sched) (Q : Z → list Z) (T : list Z) : Prop :=
  ∃ L, rep (hp s) L ∧ (∀ q, L (TQ q) = Run <$> Q q) ∧ (∀ q, is_head L (TQ q)) ∧
       (∀ t, L (Run t) = []) ∧ (∀ t y, Run t ∈ L y → ∃ q, y = TQ q) ∧
       L ThreadList = Kt <$> T ∧ is_head L ThreadList ∧ (∀ t, L (Kt t) = []) ∧ (∀ t y, Kt t ∈ L y → y = ThreadList).

(** What [thread_create] makes of the page of the new thread, which may hold
    anything before. *)
Definition cleaned (t p : Z) (s : sched) : sched :=
  with_hp (KLIST0_INIT (Run t)) (with_hp (KLIST0_INIT (Kt t)) (with_thread t (init_thread p) s)).

Definition created (t func data : Z) (name : list Z) (p : pa) (s : ks) : ks :=
  set_ksch (with_hp (klist0_append (Kt t) ThreadList) (cleaned t (kpid s) (ksch s)))
    (set_kinfo t (Tinfo ROOT_MAP (take (Z.to_nat THREAD_NAME_LEN) name) 0 [] [])
       (set_kpid (u32 (kpid s + 1))
          (set_kms (with_mwords (thread_init_stack t func data (kflags s) (mwords (kms s))) (with_mpa p (kms s))) s))).

Lemma bind_on_sched {A B} (o : M sched A) (f : A → M ks B) s a c :
  o (ksch s) = Ok (a, c) → mbind f (on_sched o) s = f a (set_ksch c s).
Proof. intros E. apply bind_run. unfold on_sched. by rewrite E. Qed.

Lemma spin_lock_irqsave_run q s :
  counter s q = 0 → spin_lock_irqsave true q s = Ok (irqs s, with_counter q 1 (with_irqs false s)).
Proof.
  intros E. unfold spin_lock_irqsave, local_irq_save. mrun.
  by rewrite (bind_run _ _ _ _ _ (spin_lock_run q (with_irqs false s) E)).
Qed.
Lemma spin_unlock_irqrestore_run q b s :
  counter s q = 1 → spin_unlock_irqrestore true q b s = Ok (tt, with_irqs b (with_counter q 0 s)).
Proof. intros E. unfold spin_unlock_irqrestore. by rewrite (bind_run _ _ _ _ _ (spin_unlock_run q s E)). Qed.

Lemma thread_create_run func name data s page p :
  get_pages 0 0 (mpa (kms s)) = Ok (page, p) → counter (ksch s) THREAD_LIST = 0 →
  ∃ c, thread_create true func name data s = Ok (THREAD page, set_ksch c (created (THREAD page) func data name p s)) ∧
       hp c = hp (ksch (created (THREAD page) func data name p s)) ∧
       threads c = threads (ksch (created (THREAD page) func data name p s)) ∧
       irqs c = irqs (ksch s) ∧ current c = current (ksch s) ∧ (∀ q, counter c q = counter (ksch s) q).
Proof.
  intros Hg Hc. unfold thread_create.
  assert (new_page 0 s = Ok (page, set_kms (with_mpa p (kms s)) s)) as Hn by (unfold new_page, on_ms; by rewrite Hg).
  rewrite (bind_run _ _ _ _ _ Hn). unfold ms_modify, get_free_pid. mrun. set (t := THREAD page).
  do 3 (rewrite (bind_on_sched (modify _) _ _ tt _ eq_refl)).
  erewrite bind_on_sched; [|apply spin_lock_irqsave_run; exact Hc].
  rewrite (bind_on_sched (modify _) _ _ tt _ eq_refl).
  erewrite bind_on_sched; [|apply spin_unlock_irqrestore_run; reflexivity].
  eexists. split; [reflexivity|]. split_and!; try reflexivity.
  intros q. cbn [counter with_irqs with_counter with_hp]. case_decide; [by subst|].
  cbn [ksch set_ksch counter with_irqs with_counter with_hp]. by rewrite decide_False.
Qed.

Lemma listed_tinv s Q T :
  listed s Q T → (∀ t q, krunq_head (threads s t) = Some q ↔ t ∈ Q q) → tinv s Q.
Proof. intros (L & HR & HL & Hh & Hr & Hm & _) Hk. split; [by exists L|done]. Qed.

Lemma listed_append s Q T t :
  listed s Q T → t ∉ T → listed (with_hp (klist0_append (Kt t) ThreadList) s) Q (t :: T).
Proof.
  intros (L & HR & HL & Hh & Hr & Hm & HT & HhT & Hk & HmT) Ht.
  assert (detached L (Kt t)) as Hd.
  { split; [|done]. intros y Hy. rewrite (HmT _ _ Hy), HT in Hy. apply Ht. by apply list_elem_of_fmap in Hy as (? & [= ->] & ?). }
  exists (upd L ThreadList (Kt t :: L ThreadList)). split; [by apply rep_append|]. unfold upd. split_and!; try done.
  - intros q y. case_decide; [subst|apply Hh]. rewrite HT. intros [?|(? & ? & ?)%list_elem_of_fmap]%elem_of_cons; done.
  - intros u y. case_decide; [subst|apply Hm]. rewrite HT. intros [?|(? & ? & ?)%list_elem_of_fmap]%elem_of_cons; done.
  - rewrite decide_True by done. by rewrite HT.
  - intros y. case_decide; [subst|apply HhT]. rewrite HT. intros [?|(? & ? & ?)%list_elem_of_fmap]%elem_of_cons; done.
  - intros u y. case_decide; [by subst|apply HmT].
Qed.

(** The newest thread is the first of the list. *)
Lemma listed_get fuel s Q t T :
  listed s Q (t :: T) → (S (length T) < fuel)%nat → thread_get fuel (pid (threads s t)) s = Ok (Some t).
Proof.
  intros (L & HR & _ & _ & _ & _ & HT & HhT & _) Hf. unfold thread_get.
  rewrite (klist0_for_each_ring fuel _ _ (L ThreadList)); [|by apply rep_ring|rewrite HT, length_fmap; simpl; lia].
  rewrite HT. simpl. by rewrite decide_True.
Qed.

(** Handing a thread over in [TMP_Q]. *)
Lemma hand_over_run t c1 Q :
  tinv c1 Q → quiet c1 → (∀ q, t ∉ Q q) → Q TMP_Q = [] →
  ∃ c3 c, tq_insert_head true t TMP_Q c1 = Ok (tt, c3) ∧ scheduler_enqueue (Some (sched0 true)) TMP_Q c3 = Ok (true, c) ∧
    tinv c (upd Q RQ (t :: Q RQ)) ∧ quiet c ∧ irqs c = irqs c1 ∧ current c = current c1 ∧ quantum (threads c t) = SCHED_MAX_QUANTUM.
Proof.
  intros H1 Hq1 Ht Htmp. set (c2 := with_counter TMP_Q 1 (with_irqs false c1)).
  assert (tinv c2 Q) as H2 by (by apply tinv_counter, tinv_irqs).
  set (c3 := with_irqs (irqs c1) (with_counter TMP_Q 0 (st_head t TMP_Q c2))). exists c3.
  assert (tinv c3 (upd Q TMP_Q [t])) as H3.
  { apply tinv_irqs, tinv_counter. rewrite <- Htmp. by apply tinv_head. }
  destruct (locked TMP_Q (with_irqs false c1) _ Hq1 (st_head_same t TMP_Q _)) as (_ & Hq3 & _).
  destruct (enqueue_run c3 (upd Q TMP_Q [t]) TMP_Q t [] H3 Hq3 (upd_eq _ _ _) ltac:(done)) as (c & Hen & Hqc & Hi & Hc & Hv & Hn).
  exists c. split_and!; try done.
  - unfold tq_insert_head. rewrite (bind_run _ _ _ _ _ (spin_lock_irqsave_run TMP_Q c1 (Hq1 _))). fold c2.
    rewrite (bind_run _ _ _ _ _ (insert_head_run c2 Q t TMP_Q H2 Ht eq_refl)).
    by apply spin_unlock_irqrestore_run.
  - eapply tinv_lists; [|exact Hv]. intros q. unfold upd. repeat case_decide; subst; congruence || done.
Qed.

(** A thread in no queue is handed to the scheduler. *)
Lemma start_thread_run t s Q :
  tinv (ksch s) Q → quiet (ksch s) → (∀ q, t ∉ Q q) → Q TMP_Q = [] →
  ∃ c, start_thread true (Some (sched0 true)) t s = Ok (tt, set_ksch c s) ∧
       tinv c (upd Q RQ (t :: Q RQ)) ∧ quiet c ∧ irqs c = irqs (ksch s) ∧ current c = current (ksch s) ∧
       quantum (threads c t) = SCHED_MAX_QUANTUM.
Proof.
  intros H Hq Ht Htmp. unfold start_thread. destruct (tq_init_run _ _ TMP_Q H Hq Htmp) as (E & H1 & Hq1).
  rewrite (bind_on_sched (tq_init true TMP_Q) _ s tt _ E). set (c1 := st_init TMP_Q (ksch s)) in *.
  destruct (hand_over_run t c1 Q H1 Hq1 Ht Htmp) as (c3 & c & Hins & Hen & Hc).
  rewrite (bind_on_sched _ _ (set_ksch c1 s) _ _ Hins).
  rewrite (bind_on_sched (scheduler_enqueue (Some (sched0 true)) TMP_Q) _ (set_ksch c3 (set_ksch c1 s)) true c Hen).
  by exists c.
Qed.

(** A thread that is created and handed to the scheduler runs next: it is
    in a page of its own, has the next pid, by which it is found, the stack
    that starts it in its function (with the flags of the caller), the root
    mapping and no open files; it is the first of the run queue with a whole
    quantum; the other threads, the running thread and the interrupt flag are
    as before.  The page of the thread may hold anything before. *)
Theorem created_thread_runs func name data s page p Q T fuel (t := THREAD page) :
  get_pages 0 0 (mpa (kms s)) = Ok (page, p) → quiet (ksch s) →
  listed (cleaned t (kpid s) (ksch s)) Q T → t ∉ T → Q TMP_Q = [] → (S (length T) < fuel)%nat →
  (∀ u q, krunq_head (threads (cleaned t (kpid s) (ksch s)) u) = Some q ↔ u ∈ Q q) →
  ∃ s1 s2,
    thread_create true func name data s = Ok (t, s1) ∧ start_thread true (Some (sched0 true)) t s1 = Ok (tt, s2) ∧
    thread_get fuel (kpid s) (ksch s1) = Ok (Some t) ∧ tstate (threads (ksch s1) t) = THREAD_RUNNABLE ∧
    kpid s1 = u32 (kpid s + 1) ∧ mwords (kms s1) = thread_init_stack t func data (kflags s) (mwords (kms s)) ∧
    kinfo s1 t = Tinfo ROOT_MAP (take 32 name) 0 [] [] ∧
    (∀ u, u ≠ t → threads (ksch s1) u = threads (ksch s) u ∧ kinfo s1 u = kinfo s u) ∧
    tinv (ksch s2) (upd Q RQ (t :: Q RQ)) ∧ quantum (threads (ksch s2) t) = SCHED_MAX_QUANTUM ∧
    current (ksch s2) = current (ksch s) ∧ irqs (ksch s2) = irqs (ksch s).
Proof.
  intros Hg Hq HL Ht Htmp Hf Hk.
  destruct (thread_create_run func name data s page p Hg (Hq _)) as (c & Hrun & Hhp & Hth & Hi & Hc & Hcnt). fold t in Hrun, Hhp, Hth.
  assert (listed c Q (t :: T)) as HLc.
  { destruct (listed_append _ _ _ _ HL Ht) as (L & HR & Hrest). exists L. rewrite Hhp. by split. }
  assert (∀ r, t ∉ Q r) as HtQ.
  { intros r Hr. apply Hk in Hr. cbn in Hr. by rewrite decide_True in Hr. }
  assert (tinv c Q) as Hv by (eapply listed_tinv; [done|]; intros u q; rewrite Hth; apply Hk).
  assert (pid (threads c t) = kpid s) as Hp by (rewrite Hth; cbn; by rewrite decide_True).
  destruct (start_thread_run t (set_ksch c (created t func data name p s)) Q Hv) as (c2 & Hst & Hv2 & _ & Hi2 & Hc2 & Hqu);
    [intros q; cbn; by rewrite Hcnt|done..|].
  do 2 eexists. split; [exact Hrun|]. split; [exact Hst|]. cbn [ksch set_ksch]. split_and!; try done.
  - rewrite <- Hp. by eapply listed_get.
  - rewrite Hth. cbn. by rewrite decide_True.
  - cbn. by rewrite decide_True.
  - intros u Hu. rewrite Hth. cbn. by rewrite !decide_False.
  - by rewrite Hc2.
  - by rewrite Hi2.
Qed.

(** A kernel with one zone of sixteen pages and no threads. *)
Definition no_threads : sched := Sched empty_heap (λ _, Thread None 0 0 0 0) (λ _, 0) true 0 false None 0.
Definition first_boot : ks := Ks no_threads area2 boot1 (λ _, Tinfo 0 [] 0 [] []) 1 2 1024 [].

Lemma listed_empty s : (∀ n, hp s n = Node n n) → listed s (λ _, []) [].
Proof.
  intros E. exists (λ _, []). split_and!; try done; [by apply (rep_ext empty_heap); [apply empty_heap_rep|]|..];
    repeat intros ?; set_solver.
Qed.

Lemma area2_page : ∃ p, get_pages 0 0 (mpa area2) = Ok (1052672, p).
Proof.
  assert (match get_pages 0 0 (mpa area2) with Ok (a, _) => a | _ => 0 end = 1052672) as H by (vm_compute; reflexivity).
  destruct (get_pages 0 0 (mpa area2)) as [[page p]| | |]; [|discriminate H..]. exists p. by rewrite H.
Defined.

Lemma created_thread_runs_witness :
  ∃ s1 s2, thread_create true 0xf00d (bytes "idle") 0 first_boot = Ok (THREAD 1052672, s1) ∧
    start_thread true (Some (sched0 true)) (THREAD 1052672) s1 = Ok (tt, s2) ∧
    thread_get 5 1 (ksch s1) = Ok (Some (THREAD 1052672)).
Proof.
  destruct area2_page as [p E].
  destruct (created_thread_runs 0xf00d (bytes "idle") 0 first_boot 1052672 p (λ _, []) [] 5)
    as (s1 & s2 & H1 & H2 & H3 & _); [exact E|intros q; reflexivity| |apply not_elem_of_nil|reflexivity|apply Nat.ltb_lt; reflexivity| |].
  - apply listed_empty. intros n. cbn. unfold KLIST0_INIT, set_next, set_prev. repeat case_decide; by subst.
  - intros u q. cbn. case_decide; (split; [discriminate|intros []%not_elem_of_nil]).
  - exists s1, s2. split; [exact H1|]. split; [exact H2|exact H3].
Defined.

(** ** Errors of exec *)

Lemma put_all_clears n fuel map i s s' k :
  put_all n fuel map i s = Ok s' →
  m_mma (maps s' map) k = if decide (i ≤ k < i + Z.of_nat n) then NULL else m_mma (maps s map) k.
Proof.
  revert i s. induction n as [|n IH]; intros i s H.
  { simpl in H. simplify_eq. by rewrite decide_False by lia. }
  cbn [put_all] in H. bind_inv H as s1 H1. rewrite (IH _ _ H). cbn. rewrite (decide_True (P := map = map)) by done. cbn.
  rewrite (mem_area_put_maps _ _ _ _ H1). repeat case_decide; lia || done.
Qed.

(** The inode of an entry that is found, and the header of its file. *)
Definition file_at (s : vfs) (path : list Z) (i : inode) (page : Z) : Prop :=
  ∃ d e, lookup_path path s = Ok (d, s) ∧ d ≠ NULL ∧ dent_at d s = Ok (e, s) ∧ inode_at (d_inode e) s = Ok (i, s) ∧
         file_page (i_pages i) 0 = Ok page.

Lemma bind_on_vfs {A B} (o : M vfs A) (f : A → M ks B) s a :
  o (kvfs s) = Ok (a, kvfs s) → mbind f (on_vfs o) s = f a s.
Proof. intros E. apply bind_run. unfold on_vfs. rewrite E. by destruct s. Qed.


(** [load_init] panics when /sbin/init is missing, also after another init has
    been started. *)
Lemma load_init_panics debug reg user_thread fuel s r1 s1 r2 s2 r3 s3 :
  spawn debug reg user_thread fuel (bytes "/sbin/init") s = Ok (r1, s1) → r1 ≠ 0 →
  spawn debug reg user_thread fuel (bytes "/bin/init") s1 = Ok (r2, s2) →
  spawn debug reg user_thread fuel (bytes "/kosrc") s2 = Ok (r3, s3) →
  load_init debug reg user_thread fuel s = Bug.
Proof.
  intros E1 Hr E2 E3. unfold load_init. rewrite (bind_run _ _ _ _ _ E1). rewrite decide_True by done.
  by rewrite (bind_run _ _ _ _ _ E2), (bind_run _ _ _ _ _ E3).
Qed.

(** The file /dev of [boot1] with a page that holds no header, and a process
    with an empty mapping. *)
Definition bad_binary : vfs :=
  set_v_inodes (set_i_pages [0x200000] <$> v_inodes boot1) boot1.
Definition empty_process : ks := set_kvfs bad_binary (set_kms (set_nmma 0 0 area2) first_boot).
Lemma bad_binary_at : file_at bad_binary (bytes "/dev") (set_i_pages [0x200000] boot1_P) 0x200000.
Proof.
  exists dev_dent, (Dent dev_inode (bytes "dev") 1). split_and!; [|vm_compute; discriminate| | |reflexivity].
  - apply (lookup_path_run bad_binary (bytes "/dev")).
    + apply tree_okb_ok. vm_compute. reflexivity.
    + apply (bool_decide_unpack _). vm_compute. exact I.
    + vm_compute. discriminate.
    + repeat constructor; vm_compute; reflexivity.
    + vm_compute. reflexivity.
  - unfold dent_at, deref. assert (v_dents bad_binary !! dev_dent = Some (Dent dev_inode (bytes "dev") 1)) as -> by (vm_compute; reflexivity).
    reflexivity.
  - unfold inode_at, deref. cbn [d_inode].
    assert (v_inodes bad_binary !! dev_inode = Some (set_i_pages [0x200000] boot1_P)) as -> by (vm_compute; reflexivity). reflexivity.
Qed.

