(* ===== verification/Console.v ===== *)
(** * The consoles (arch/i386/vga_console.c, arch/i386/serial_console.c,
      arch/i386/console.c, kernel/textio.c)

    The text screen at 0xB8000 with the two cursor registers of the display
    controller, the serial port, and [kprintf] on both.  The screen refines a
    terminal with an endless page of which it shows 25 lines. *)

From S2P Require Import Prelude Klib Printf.

(** ** The devices *)

(** Memory, the index and the registers of the display controller, the colour
    of new characters, and what was written to the other ports. *)
Record con := Con { cmem : memory; crtc_index : Z; crtc : Z → Z; vga_color : Z; ports : list (Z * Z) }.

Definition with_cmem (m : memory) (s : con) : con := Con m (crtc_index s) (crtc s) (vga_color s) (ports s).

(** Port 0x3D4 selects a register of the display controller, 0x3D5 is that
    register. *)
(* include/i386/asm.h:99-102 outb *)
Definition outb (port data : Z) (s : con) : con :=
  if decide (port = 0x3D4) then Con (cmem s) (u8 data) (crtc s) (vga_color s) (ports s)
  else if decide (port = 0x3D5)
  then Con (cmem s) (crtc_index s) (λ r, if decide (r = crtc_index s) then u8 data else crtc s r) (vga_color s) (ports s)
  else Con (cmem s) (crtc_index s) (crtc s) (vga_color s) (ports s ++ [(port, u8 data)]).

(* include/i386/asm.h:92-97 inb *)
Definition inb (port : Z) (s : con) : Z := if decide (port = 0x3D5) then crtc s (crtc_index s) else 0.

(** ** The text screen *)

(* arch/i386/vga_console.c:25-25 VGA_BASE *)
Definition VGA_BASE : Z := 0xB8000.
(* arch/i386/vga_console.c:27-27 VGA_LINES *)
Definition VGA_LINES : Z := 25.
(* arch/i386/vga_console.c:28-28 VGA_COLUMNS *)
Definition VGA_COLUMNS : Z := 80.

(** The second loop of [vga_scroll], [n] columns from [t] on. *)
Fixpoint clear_line (n : nat) (t : Z) (m : memory) : memory :=
  match n with
  | O => m
  | S n => clear_line n (t + 2) (mset m (VGA_BASE + VGA_COLUMNS * (VGA_LINES - 1) * 2 + t) 0)
  end.

(* arch/i386/vga_console.c:32-45 vga_scroll *)
Definition vga_scroll (m : memory) : memory :=
  let m := copy_up m VGA_BASE (VGA_BASE + VGA_COLUMNS * 2) 0 (Z.to_nat (VGA_COLUMNS * (VGA_LINES - 1) * 2)) in
  clear_line (Z.to_nat VGA_COLUMNS) 0 m.

(* arch/i386/vga_console.c:47-52 vga_set_cursor *)
Definition vga_set_cursor (cursor : Z) (s : con) : con :=
  outb 0x3D5 (Z.shiftr cursor 8) (outb 0x3D4 14 (outb 0x3D5 cursor s)).

(* arch/i386/vga_console.c:54-64 vga_get_cursor *)
Definition vga_get_cursor (s : con) : Z * con :=
  let s := outb 0x3D4 14 s in
  let cursor := u16 (Z.shiftl (inb 0x3D5 s) 8) in
  let s := outb 0x3D4 15 s in
  (Z.lor cursor (inb 0x3D5 s), s).

(* arch/i386/vga_console.c:72-75 vga_setcolor *)
Definition vga_setcolor (c : Z) (s : con) : con := Con (cmem s) (crtc_index s) (crtc s) c (ports s).

(* arch/i386/vga_console.c:66-70 early_vga_init *)
Definition early_vga_init (s : con) : con := vga_setcolor 0x0f s.

Definition c_newline : Z := 10.

(* arch/i386/vga_console.c:77-105 early_vga_put_char *)
Definition early_vga_put_char (c : Z) (s : con) : con :=
  let '(cursor, s) := vga_get_cursor s in
  if decide (c = c_newline) then
    if decide (cursor < VGA_COLUMNS * (VGA_LINES - 1))
    then vga_set_cursor (u16 (u16 (cursor - cursor mod VGA_COLUMNS) + VGA_COLUMNS)) s
    else vga_set_cursor (u16 (cursor - cursor mod VGA_COLUMNS)) (with_cmem (vga_scroll (cmem s)) s)
  else
    let '(cursor, s) :=
      if decide (cursor = VGA_LINES * VGA_COLUMNS)
      then (u16 (cursor - VGA_COLUMNS), with_cmem (vga_scroll (cmem s)) s) else (cursor, s) in
    let m := mset (mset (cmem s) (VGA_BASE + cursor * 2) (u8 c)) (VGA_BASE + cursor * 2 + 1) (vga_color s) in
    vga_set_cursor (u16 (cursor + 1)) (with_cmem m s).

(** ** The serial port *)

(* arch/i386/serial_console.c:25-25 SERIO_1_BASE *)
Definition SERIO_1_BASE : Z := 0x3F8.

(* arch/i386/serial_console.c:27-41 early_serial_init *)
Definition early_serial_init (s : con) : con :=
  outb (SERIO_1_BASE + 4) 0x00
    (outb (SERIO_1_BASE + 1) 0x00
       (outb (SERIO_1_BASE + 3) 0x03
          (outb (SERIO_1_BASE + 1) 0 (outb (SERIO_1_BASE + 0) 12 (outb (SERIO_1_BASE + 3) 0x80 s))))).

(* arch/i386/serial_console.c:43-46 early_serial_put_char *)
Definition early_serial_put_char (c : Z) (s : con) : con := outb SERIO_1_BASE c s.

(** ** Both *)

Section console.
(** OPT_EARLY_SERIAL_CONSOLE and OPT_EARLY_VGA_CONSOLE. *)
Context (serial vga : bool).

(* arch/i386/console.c:32-41 early_console_init *)
Definition early_console_init (s : con) : con :=
  let s := if serial then early_serial_init s else s in
  if vga then early_vga_init s else s.

(* arch/i386/console.c:45-54 console_put_char *)
Definition console_put_char (c : Z) (s : con) : con :=
  let s := if serial then early_serial_put_char c s else s in
  if vga then early_vga_put_char c s else s.

(* kernel/textio.c:28-32 print *)
Fixpoint print (fuel : nat) (message : Z) (s : con) : outcome con :=
  match fuel with
  | O => Hang
  | S f => if decide (cmem s message ≠ 0) then print f (message + 1) (console_put_char (cmem s message) s) else Ok s
  end.

(** [buf] and [sbuf] are the buffers on the stacks of [kprintf] and
    [vsnprintf], [size] is OPT_KPRINTF_BUFSIZE. *)
(* kernel/textio.c:60-72 kprintf *)
Definition kprintf (fuel : nat) (buf sbuf size fmt : Z) (args : list Z) (s : con) : outcome (Z * con) :=
  '(i, m) ← vsnprintf fuel sbuf buf size fmt args (cmem s);
  s ← print fuel buf (with_cmem m s);
  Ok (i, s).

(** The words [hex_dump] prints, [n] from number [i] on, four to a line;
    [line] and [word] are the addresses of its formats. *)
Fixpoint dump_words (n : nat) (i : Z) (fuel : nat) (buf sbuf size line word ptr : Z) (s : con) : outcome con :=
  match n with
  | O => Ok s
  | S n =>
      s ← (if decide (i mod 4 = 0)
           then '(_, s) ← kprintf fuel buf sbuf size line [u32 (ptr + i * 4)] s; Ok s else Ok s);
      '(_, s) ← kprintf fuel buf sbuf size word [ld32 (cmem s) (ptr + i * 4)] s;
      dump_words n (i + 1) fuel buf sbuf size line word ptr s
  end.

(* kernel/textio.c:34-58 hex_dump *)
Definition hex_dump (fuel : nat) (buf sbuf size line word newline ptr len : Z) (s : con) : outcome con :=
  let ptr := Z.land ptr 0xfffffff0 in
  let len := Z.land (u32 (len + 15)) 0xfffffff0 in
  s ← dump_words (Z.to_nat (len / 4)) 0 fuel buf sbuf size line word ptr s;
  '(_, s) ← kprintf fuel buf sbuf size newline [] s;
  Ok s.
End console.

(** ** The screen *)

Lemma clear_line_char n u m i :
  clear_line n (2 * u) m (VGA_BASE + 2 * i) =
    if decide (1920 + u ≤ i < 1920 + u + Z.of_nat n) then 0 else m (VGA_BASE + 2 * i).
Proof.
  revert u m. induction n as [|n IH]; intros u m; cbn [clear_line].
  - by rewrite decide_False by lia.
  - replace (2 * u + 2) with (2 * (u + 1)) by lia. rewrite IH. unfold mset.
    change (VGA_COLUMNS * (VGA_LINES - 1) * 2) with 3840. repeat case_decide; lia || done.
Qed.

(** Only characters of the last line are cleared. *)
Lemma clear_line_other n u m a :
  (∀ i, 1920 + u ≤ i < 1920 + u + Z.of_nat n → a ≠ VGA_BASE + 2 * i) → clear_line n (2 * u) m a = m a.
Proof.
  revert u m. induction n as [|n IH]; intros u m Ha; cbn [clear_line]; [done|].
  replace (2 * u + 2) with (2 * (u + 1)) by lia. rewrite IH by (intros i Hi; apply Ha; lia). unfold mset.
  rewrite decide_False; [done|]. intros ->. apply (Ha (1920 + u)); [lia|].
  change (VGA_COLUMNS * (VGA_LINES - 1) * 2) with 3840. lia.
Qed.

(** The lines move up; the last has no characters, but keeps its colours. *)
Lemma vga_scroll_char i m :
  0 ≤ i < 2000 → vga_scroll m (VGA_BASE + 2 * i) = if decide (i < 1920) then m (VGA_BASE + 2 * (i + 80)) else 0.
Proof.
  intros Hi. unfold vga_scroll. rewrite (clear_line_char _ 0).
  change (Z.of_nat (Z.to_nat VGA_COLUMNS)) with 80. case_decide; [by rewrite decide_False by lia|].
  rewrite decide_True by lia. rewrite copy_up_at by done.
  change (Z.of_nat (Z.to_nat (VGA_COLUMNS * (VGA_LINES - 1) * 2))) with 3840. rewrite decide_True by lia.
  f_equal. change (VGA_COLUMNS * 2) with 160. lia.
Qed.
Lemma vga_scroll_other m a : ¬ (VGA_BASE ≤ a < VGA_BASE + 4000) → vga_scroll m a = m a.
Proof.
  intros Ha. unfold vga_scroll. rewrite (clear_line_other _ 0).
  - rewrite copy_up_at, decide_False; [done| |done].
    change (Z.of_nat (Z.to_nat (VGA_COLUMNS * (VGA_LINES - 1) * 2))) with 3840. lia.
  - change (Z.of_nat (Z.to_nat VGA_COLUMNS)) with 80. intros i Hi. lia.
Qed.

(** ** A terminal with an endless page *)

(** The characters of the page and the place of the next. *)
Record term := Term { text : Z → Z; place : Z }.

Definition type_char (t : term) (c : Z) : term :=
  if decide (c = c_newline) then Term (text t) ((place t / VGA_COLUMNS + 1) * VGA_COLUMNS)
  else Term (λ q, if decide (q = place t) then u8 c else text t q) (place t + 1).

(** The screen shows the lines of the page from [top] on; the page is empty
    below it, and the registers hold the place of the cursor. *)
Record shows (s : con) (t : term) (top : Z) : Prop := Shows {
  sh_top : 0 ≤ top;
  sh_cursor : 0 ≤ place t - VGA_COLUMNS * top ≤ 2000;
  sh_high : crtc s 14 = (place t - VGA_COLUMNS * top) / 256;
  sh_low : crtc s 15 = (place t - VGA_COLUMNS * top) mod 256;
  sh_text i : 0 ≤ i < 2000 → cmem s (VGA_BASE + 2 * i) = text t (VGA_COLUMNS * top + i);
  sh_below q : VGA_COLUMNS * top + 2000 ≤ q → text t q = 0 }.

(** The cursor of a screen that shows [t]. *)
Definition cursor (t : term) (top : Z) : Z := place t - VGA_COLUMNS * top.

Lemma outb_index d s : outb 0x3D4 d s = Con (cmem s) (u8 d) (crtc s) (vga_color s) (ports s).
Proof. done. Qed.
Lemma outb_data d s :
  outb 0x3D5 d s =
  Con (cmem s) (crtc_index s) (λ r, if decide (r = crtc_index s) then u8 d else crtc s r) (vga_color s) (ports s).
Proof. done. Qed.

Lemma get_cursor_run s t top :
  shows s t top → vga_get_cursor s = (cursor t top, Con (cmem s) 15 (crtc s) (vga_color s) (ports s)).
Proof.
  intros [Ht Hc Hh Hl _ _]. unfold vga_get_cursor. rewrite !outb_index. cbn [cmem crtc crtc_index vga_color ports].
  change (inb 0x3D5 ?s) with (crtc s (crtc_index s)). cbn [crtc crtc_index]. change (u8 14) with 14. change (u8 15) with 15.
  rewrite Hh, Hl. fold (cursor t top) in *. f_equal. set (x := cursor t top) in *.
  assert (0 ≤ x / 256 < 256) by (split; [apply Z.div_pos; lia|apply Z.div_lt_upper_bound; lia]).
  unfold u16. rewrite Z.mod_small by (rewrite Z.shiftl_mul_pow2 by lia; lia). apply (lor_shiftl_mod x 8). lia.
Qed.

(** After [vga_get_cursor] the selected register is the low one, so that
    [vga_set_cursor] stores both parts. *)
Lemma set_cursor_run x m r col ps :
  0 ≤ x < 65536 →
  ∃ r', vga_set_cursor x (Con m 15 r col ps) = Con m 14 r' col ps ∧ r' 14 = x / 256 ∧ r' 15 = x mod 256.
Proof.
  intros Hx. unfold vga_set_cursor. rewrite outb_data, outb_index, outb_data. cbn [cmem crtc crtc_index vga_color ports].
  eexists. split; [reflexivity|]. change (u8 14) with 14. cbn beta. rewrite Z.shiftr_div_pow2 by lia. change (2 ^ 8) with 256.
  repeat (rewrite decide_True by done). rewrite decide_False, decide_True by done. split; [|done].
  unfold u8. apply Z.mod_small. split; [apply Z.div_pos; lia|apply Z.div_lt_upper_bound; lia].
Qed.

(** A screen that shows [t], moved to line [top'] and with the cursor set. *)
Lemma shows_scroll s t top :
  shows s t top → VGA_COLUMNS ≤ cursor t top → 
  ∀ i, 0 ≤ i < 2000 → vga_scroll (cmem s) (VGA_BASE + 2 * i) = text t (VGA_COLUMNS * (top + 1) + i).
Proof.
  intros [Ht Hc _ _ Htx Hb] Hp i Hi. rewrite vga_scroll_char by done. unfold VGA_COLUMNS in *. case_decide.
  - rewrite Htx by lia. f_equal. lia.
  - rewrite Hb by lia. done.
Qed.

(** What the bytes of the screen become for a character that is not a newline. *)
Lemma shows_put m t top c col ps r :
  0 ≤ top → 0 ≤ cursor t top < 2000 →
  (∀ i, 0 ≤ i < 2000 → m (VGA_BASE + 2 * i) = text t (VGA_COLUMNS * top + i)) →
  (∀ q, VGA_COLUMNS * top + 2000 ≤ q → text t q = 0) → c ≠ c_newline →
  let s := vga_set_cursor (u16 (cursor t top + 1))
             (Con (mset (mset m (VGA_BASE + cursor t top * 2) (u8 c)) (VGA_BASE + cursor t top * 2 + 1) col) 15 r col ps) in
  shows s (type_char t c) top ∧ cmem s (VGA_BASE + 2 * cursor t top + 1) = col ∧ vga_color s = col ∧ ports s = ps ∧
  (∀ a, ¬ (VGA_BASE ≤ a < VGA_BASE + 4000) → cmem s a = m a).
Proof.
  intros Ht Hc Htx Hb Hn s. assert (u16 (cursor t top + 1) = cursor t top + 1) as Hu by (unfold u16; apply Z.mod_small; lia).
  unfold s. rewrite Hu. set (x := cursor t top) in *.
  destruct (set_cursor_run (x + 1) (mset (mset m (VGA_BASE + x * 2) (u8 c)) (VGA_BASE + x * 2 + 1) col) r col ps)
    as (r' & -> & Hh & Hl); [lia|].
  assert (cursor (type_char t c) top = x + 1) as Hx.
  { unfold x, cursor, type_char. rewrite decide_False by done. simpl. lia. }
  split_and!; try done.
  - unfold cursor in Hx. split; rewrite ?Hx; cbn [cmem crtc]; try done; try lia.
    + intros i Hi. unfold mset, type_char. rewrite (decide_False (P := c = _)) by done. cbn [text].
      unfold x, cursor in *. repeat case_decide; try lia; try done. by apply Htx.
    + intros q Hq. unfold type_char. rewrite decide_False by done. cbn [text]. unfold x, cursor in *.
      rewrite decide_False by lia. by apply Hb.
  - cbn [cmem]. unfold mset. by rewrite decide_True by lia.
  - intros a Ha. cbn [cmem]. unfold mset. by rewrite !decide_False by lia.
Qed.

Lemma shows_newline m t top x col ps r :
  0 ≤ top → 0 ≤ x ≤ 2000 → x = (place t / VGA_COLUMNS + 1) * VGA_COLUMNS - VGA_COLUMNS * top →
  (∀ i, 0 ≤ i < 2000 → m (VGA_BASE + 2 * i) = text t (VGA_COLUMNS * top + i)) →
  (∀ q, VGA_COLUMNS * top + 2000 ≤ q → text t q = 0) →
  let s := vga_set_cursor (u16 x) (Con m 15 r col ps) in
  shows s (type_char t c_newline) top ∧ vga_color s = col ∧ ports s = ps ∧ cmem s = m.
Proof.
  intros Ht Hx Hp Htx Hb s. assert (u16 x = x) as Hu by (unfold u16; apply Z.mod_small; lia). unfold s. rewrite Hu.
  destruct (set_cursor_run x m r col ps) as (r' & -> & Hh & Hl); [lia|]. split; [|done].
  unfold type_char. rewrite decide_True by done. split; cbn [place text cmem crtc]; rewrite <- ?Hp; done.
Qed.

(** Where the cursor is in its line, as on the page. *)
Lemma cursor_mod t top : cursor t top mod VGA_COLUMNS = place t mod VGA_COLUMNS.
Proof. unfold cursor. replace (place t - VGA_COLUMNS * top) with (place t + (- top) * VGA_COLUMNS) by lia. apply Z_mod_plus_full. Qed.

Definition off_screen (a : Z) : Prop := ¬ (VGA_BASE ≤ a < VGA_BASE + 4000).

Lemma put_char_shows s t top c :
  shows s t top →
  ∃ top', top ≤ top' ≤ top + 1 ∧ shows (early_vga_put_char c s) (type_char t c) top' ∧
    vga_color (early_vga_put_char c s) = vga_color s ∧ ports (early_vga_put_char c s) = ports s ∧
    (∀ a, off_screen a → cmem (early_vga_put_char c s) a = cmem s a).
Proof.
  intros Hs. pose proof Hs as [Ht Hc _ _ Htx Hb]. fold (cursor t top) in Hc.
  unfold early_vga_put_char. rewrite (get_cursor_run _ _ _ Hs). set (x := cursor t top) in *.
  pose proof (Z.mod_pos_bound x VGA_COLUMNS ltac:(done)) as Hm. pose proof (Z_div_mod_eq_full x VGA_COLUMNS) as Hdm.
  assert (x - x mod VGA_COLUMNS = place t / VGA_COLUMNS * VGA_COLUMNS - VGA_COLUMNS * top) as Hx.
  { unfold x. rewrite cursor_mod. unfold cursor. pose proof (Z_div_mod_eq_full (place t) VGA_COLUMNS). lia. }
  assert (∀ n, 0 ≤ n < 2 ^ 16 → u16 n = n) as Hu by (intros; by apply Z.mod_small).
  unfold VGA_LINES. destruct (decide (c = c_newline)) as [->|Hn]; [destruct (decide (x < VGA_COLUMNS * (25 - 1))) as [Hlt|Hge]|].
  - exists top. split; [lia|]. rewrite (Hu (x - x mod VGA_COLUMNS)) by (unfold VGA_COLUMNS in *; lia).
    destruct (shows_newline (cmem s) t top (x - x mod VGA_COLUMNS + VGA_COLUMNS) (vga_color s) (ports s) (crtc s))
      as (H & -> & -> & ->); [done|unfold VGA_COLUMNS in *; lia..|exact Htx|exact Hb|]. done.
  - exists (top + 1). split; [lia|]. unfold with_cmem. cbn [cmem crtc crtc_index vga_color ports].
    destruct (shows_newline (vga_scroll (cmem s)) t (top + 1) (x - x mod VGA_COLUMNS) (vga_color s) (ports s) (crtc s))
      as (H & -> & -> & ->); [unfold VGA_COLUMNS in *; lia..| | |].
    + apply shows_scroll; [done|]. fold x. unfold VGA_COLUMNS in *. lia.
    + intros q Hq. apply Hb. unfold VGA_COLUMNS in *. lia.
    + split_and!; try done. intros a Ha. by apply vga_scroll_other.
  - change (25 * VGA_COLUMNS) with 2000. destruct (decide (x = 2000)) as [He|Hne].
    + exists (top + 1). split; [lia|]. rewrite (Hu (x - VGA_COLUMNS)) by (unfold VGA_COLUMNS; lia). unfold with_cmem. cbn [cmem crtc crtc_index vga_color ports].
      replace (x - VGA_COLUMNS) with (cursor t (top + 1)) by (unfold x, cursor in *; lia).
      destruct (shows_put (vga_scroll (cmem s)) t (top + 1) c (vga_color s) (ports s) (crtc s)) as (H & _ & H2 & H3 & H4); try done.
      * lia.
      * unfold x, cursor, VGA_COLUMNS in *. lia.
      * apply shows_scroll; [done|]. fold x. rewrite He. done.
      * intros q Hq. apply Hb. unfold VGA_COLUMNS in *. lia.
      * split_and!; try done. intros a Ha. rewrite H4 by done. by apply vga_scroll_other.
    + exists top. split; [lia|]. unfold with_cmem. cbn [cmem crtc crtc_index vga_color ports].
      destruct (shows_put (cmem s) t top c (vga_color s) (ports s) (crtc s)) as (H & _ & H2 & H3 & H4); try done.
      fold x. lia.
Qed.

(** ** Printing *)

(** The bytes that go to the serial port. *)
Definition sent (out : list Z) : list (Z * Z) := (λ c, (SERIO_1_BASE, c)) <$> out.

Lemma shows_ports s t top ps : shows s t top → shows (Con (cmem s) (crtc_index s) (crtc s) (vga_color s) ps) t top.
Proof. by intros [? ? ? ? ? ?]. Qed.

Lemma console_put_char_shows s t top c :
  shows s t top → 0 < c < 256 →
  ∃ top', top ≤ top' ∧ shows (console_put_char true true c s) (type_char t c) top' ∧
    ports (console_put_char true true c s) = ports s ++ sent [c] ∧
    (∀ a, off_screen a → cmem (console_put_char true true c s) a = cmem s a).
Proof.
  intros Hs Hc. unfold console_put_char, early_serial_put_char.
  change (outb SERIO_1_BASE c s) with (Con (cmem s) (crtc_index s) (crtc s) (vga_color s) (ports s ++ [(SERIO_1_BASE, u8 c)])).
  destruct (put_char_shows _ _ _ c (shows_ports _ _ _ (ports s ++ [(SERIO_1_BASE, u8 c)]) Hs)) as (top' & Ht & H1 & _ & H3 & H4).
  exists top'. split_and!; [lia|done| |done]. rewrite H3. cbn. unfold u8. by rewrite Z.mod_small by lia.
Qed.

Lemma print_shows fuel out message s t top :
  shows s t top → bytes_at (cmem s) message (out ++ [0]) → Forall (λ c, 0 < c < 256) out →
  (∀ j, 0 ≤ j ≤ Z.of_nat (length out) → off_screen (message + j)) → (length out < fuel)%nat →
  ∃ s' top', print true true fuel message s = Ok s' ∧ top ≤ top' ∧ shows s' (foldl type_char t out) top' ∧
    ports s' = ports s ++ sent out ∧ (∀ a, off_screen a → cmem s' a = cmem s a).
Proof.
  revert fuel message s t top. induction out as [|c out IH]; intros fuel message s t top Hs Hb Hn Hoff Hf;
    (destruct fuel as [|fuel]; [simpl in Hf; lia|]); cbn [print].
  - pose proof (Hb 0%nat 0 eq_refl) as H0. rewrite Z.add_0_r in H0. rewrite H0. rewrite decide_False by (intros H; by apply H).
    exists s, top. split_and!; try done. by rewrite app_nil_r.
  - apply Forall_cons in Hn as [Hc Hn]. pose proof (Hb 0%nat c eq_refl) as H0. rewrite Z.add_0_r in H0. rewrite H0.
    rewrite decide_True by lia. destruct (console_put_char_shows s t top c Hs Hc) as (top1 & Ht1 & Hs1 & Hp1 & Hm1).
    destruct (IH fuel (message + 1) _ _ top1 Hs1) as (s' & top' & Hpr & Ht' & Hs' & Hp' & Hm'); [|done| |simpl in Hf; lia|].
    + intros j d Hj. rewrite Hm1.
      * replace (message + 1 + Z.of_nat j) with (message + Z.of_nat (S j)) by lia. by apply Hb.
      * apply lookup_lt_Some in Hj. rewrite length_app in Hj. simpl in Hj. rewrite <- Z.add_assoc. apply Hoff. simpl. lia.
    + intros j Hj. rewrite <- Z.add_assoc. apply Hoff. simpl. lia.
    + exists s', top'. split_and!; [done|lia|done| |].
      * rewrite Hp', Hp1, <- app_assoc. done.
      * intros a Ha. by rewrite Hm', Hm1.
Qed.


(** "n=%08x s=%s" on an empty screen, the cursor in the last line. *)
Definition blank : con := Con example_mem 0 (λ r, if decide (r = 14) then 7 else if decide (r = 15) then 200 else 0) 15 [].
