(* ===== verification/Segments.v ===== *)
(** * Segment and gate descriptors (arch/i386/segments.c, include/i386/segments.h)

    The descriptor tables of the processor as the kernel fills them, and the
    meaning the processor gives to their entries: a descriptor that is written
    is read back as the base, the size, the type and the privilege it was made
    from, by the functions at run time and by the macros in the assembler. *)

From S2P Require Import Prelude Bitmap Switch.

(* include/i386/segments.h:30-31 TSS *)
Definition TSS : Z := 0x28.
Definition CALL_GATE : Z := 0x30.
(* include/i386/segments.h:32-32 GDT_ENTRIES *)
Definition GDT_ENTRIES : Z := 7.
(* include/i386/segments.h:34-34 IDT_ENTRIES *)
Definition IDT_ENTRIES : Z := 256.

(* include/i386/segments.h:40-46 segdesc *)
Record segdesc := Segdesc { size : Z; base_low : Z; base_mid : Z; attr : Z; base_high : Z }.

(* include/i386/segments.h:50-55 SD_BASELOW_BITS *)
Definition SD_BASELOW_BITS : Z := 16.
Definition SD_BASEMID_BITS : Z := 8.
Definition SD_BASEHIGH_BITS : Z := 8.
Definition SD_BASELOW_SHIFT : Z := 0.
Definition SD_BASEMID_SHIFT : Z := 16.
Definition SD_BASEHIGH_SHIFT : Z := 24.

(** The bits [shift] to [shift + bits - 1] of a word. *)
Definition field (bits shift x : Z) : Z := Z.shiftr (Z.land x (Z.shiftl (Z.shiftl 1 bits - 1) shift)) shift.

(* include/i386/segments.h:58-62 SEGDESC_BASELOW *)
Definition SEGDESC_BASELOW (base : Z) : Z := field SD_BASELOW_BITS SD_BASELOW_SHIFT base.
(* include/i386/segments.h:64-68 SEGDESC_BASEMID *)
Definition SEGDESC_BASEMID (base : Z) : Z := field SD_BASEMID_BITS SD_BASEMID_SHIFT base.
(* include/i386/segments.h:70-74 SEGDESC_BASEHIGH *)
Definition SEGDESC_BASEHIGH (base : Z) : Z := field SD_BASEHIGH_BITS SD_BASEHIGH_SHIFT base.

(* include/i386/segments.h:82-83 SD_ACCESS_MASK *)
Definition SD_ACCESS_MASK : Z := 0x0001.
(* include/i386/segments.h:85-86 SD_TYPE_SHIFT *)
Definition SD_TYPE_SHIFT : Z := 1.
(* include/i386/segments.h:88-88 SD_SYSTEM *)
Definition SD_SYSTEM : Z := 0x0010.
(* include/i386/segments.h:90-91 SD_PRESENT_MASK *)
Definition SD_PRESENT_MASK : Z := 0x0080.
(* include/i386/segments.h:93-94 SD_DPL_SHIFT *)
Definition SD_DPL_SHIFT : Z := 5.
(* include/i386/segments.h:98-99 SD_SIZE_MASK *)
Definition SD_SIZE_MASK : Z := 0x0f00.
(* include/i386/segments.h:104-105 SD_DFL32_MASK *)
Definition SD_DFL32_MASK : Z := 0x4000.
(* include/i386/segments.h:107-108 SD_GRAN_MASK *)
Definition SD_GRAN_MASK : Z := 0x8000.

(** The constants above and below are numerals in the macros. *)
Definition lor_all : list Z → Z := foldr Z.lor 0.

(* include/i386/segments.h:116-123 SD_ATTRS *)
Definition SD_ATTRS (type priv : Z) : Z :=
  lor_all [SD_SYSTEM; Z.shiftl type SD_TYPE_SHIFT; Z.shiftl priv SD_DPL_SHIFT; SD_PRESENT_MASK; SD_DFL32_MASK; SD_GRAN_MASK].
(* include/i386/segments.h:130-136 SD_SYSATTRS *)
Definition SD_SYSATTRS (type priv : Z) : Z :=
  lor_all [Z.shiftl type 0; Z.shiftl priv SD_DPL_SHIFT; SD_PRESENT_MASK; SD_DFL32_MASK].
(* include/i386/segments.h:139-143 SD_ATTRS_SZ *)
Definition SD_ATTRS_SZ (type priv size : Z) : Z := Z.lor (SD_ATTRS type priv) (Z.shiftr (Z.land size 0x0f0000) 8).
(* include/i386/segments.h:145-149 SD_SYSATTRS_SZ *)
Definition SD_SYSATTRS_SZ (type priv size : Z) : Z := Z.lor (SD_SYSATTRS type priv) (Z.shiftr (Z.land size 0x0f0000) 8).

(** The assembler's [.word] and [.byte]. *)
(* include/i386/segments.h:153-158 SEGDESC *)
Definition SEGDESC (base size type priv : Z) : segdesc :=
  Segdesc (Z.land size 0xffff) (u16 (SEGDESC_BASELOW base)) (u8 (SEGDESC_BASEMID base))
    (u16 (SD_ATTRS_SZ type priv size)) (u8 (SEGDESC_BASEHIGH base)).

(* include/i386/segments.h:172-179 ST_RONLY_DATA *)
Inductive seg_type :=
  ST_RONLY_DATA | ST_RW_DATA | ST_RONLY_STACK | ST_RW_STACK | ST_XONLY_CODE | ST_RX_CODE | ST_XONLY_CONFORMING | ST_RX_CONFORMING.
Definition st (t : seg_type) : Z :=
  match t with
  | ST_RONLY_DATA => 0 | ST_RW_DATA => 1 | ST_RONLY_STACK => 2 | ST_RW_STACK => 3
  | ST_XONLY_CODE => 4 | ST_RX_CODE => 5 | ST_XONLY_CONFORMING => 6 | ST_RX_CONFORMING => 7
  end.

(* include/i386/segments.h:184-185 DPL_KERN *)
Definition DPL_KERN : Z := 0.
Definition DPL_USER : Z := 3.

(* include/i386/segments.h:191-197 gatedesc *)
Record gatedesc := Gatedesc { off_low : Z; selector : Z; reserved : Z; gattr : Z; off_high : Z }.

(* include/i386/segments.h:230-231 GD_DPL_SHIFT *)
Definition GD_DPL_SHIFT : Z := 5.
(* include/i386/segments.h:233-234 GD_PRESENT_MASK *)
Definition GD_PRESENT_MASK : Z := 0x80.

(* include/i386/segments.h:237-243 GT_LDT *)
Inductive gate_type := GT_LDT | GT_TASK | GT_FREE_TSS | GT_BUSY_TSS | GT_CALL | GT_INT | GT_TRAP.
Definition gt (t : gate_type) : Z :=
  match t with
  | GT_LDT => 0x02 | GT_TASK => 0x05 | GT_FREE_TSS => 0x09 | GT_BUSY_TSS => 0x0b | GT_CALL => 0x0c | GT_INT => 0x0e | GT_TRAP => 0x0f
  end.

(* include/i386/segments.h:250-255 GD_ATTRS *)
Definition GD_ATTRS (type priv : Z) : Z := lor_all [Z.shiftl type 0; Z.shiftl priv GD_DPL_SHIFT; GD_PRESENT_MASK].

(** ** The tables *)

(** Writing an entry of a table; outside of it other memory is hit. *)
Definition store {A} (t : list A) (n : Z) (f : A → A) : outcome (list A) :=
  match t !! Z.to_nat n with Some d => Ok (<[Z.to_nat n := f d]> t) | None => Fault end.

(** The stores that the two functions share. *)
Definition size_and_base (base_ size_ : Z) : segdesc :=
  Segdesc (u16 size_) (u16 base_) (u8 (Z.shiftr base_ SD_BASEMID_SHIFT)) (u16 (Z.shiftr (Z.land size_ 0x0f0000) 8))
    (u8 (Z.shiftr base_ SD_BASEHIGH_SHIFT)).
Definition or_attr (a : Z) (d : segdesc) : segdesc :=
  Segdesc (size d) (base_low d) (base_mid d) (u16 (Z.lor (attr d) a)) (base_high d).

(* arch/i386/segments.c:30-53 segdesc_init *)
Definition segdesc_init (idx base size type priv : Z) (gdt : list segdesc) : outcome (list segdesc) :=
  store gdt (Z.shiftr idx 3) (λ _, or_attr (SD_ATTRS type priv) (size_and_base base size)).

(* arch/i386/segments.c:55-78 syssegdesc_init *)
Definition syssegdesc_init (idx base size type priv : Z) (gdt : list segdesc) : outcome (list segdesc) :=
  store gdt (Z.shiftr idx 3) (λ _, or_attr (SD_SYSATTRS type priv) (size_and_base base size)).

(* arch/i386/segments.c:80-100 gatedesc_init *)
Definition gatedesc_init (idx offset type priv : Z) (idt : list gatedesc) : outcome (list gatedesc) :=
  store idt (Z.shiftr idx 3)
    (λ d, Gatedesc (u16 offset) KERN_CODE (reserved d) (u8 (GD_ATTRS type priv)) (u16 (Z.shiftr offset 16))).

(* include/i386/segments.h:322-323 intgate_init *)
Definition intgate_init (num handler : Z) := gatedesc_init (Z.shiftl num 3) handler (gt GT_INT) DPL_USER.
(* include/i386/segments.h:325-326 sysgate_init *)
Definition sysgate_init (num handler : Z) := gatedesc_init (Z.shiftl num 3) handler (gt GT_TRAP) DPL_USER.
(* include/i386/segments.h:328-329 trapgate_init *)
Definition trapgate_init (num handler : Z) := gatedesc_init (Z.shiftl num 3) handler (gt GT_TRAP) DPL_KERN.

(** ** The task state segment *)

(* include/i386/segments.h:270-270 IOPERMSZ *)
Definition IOPERMSZ : Z := 2048.
(** Of the 25 words and two half words only those the kernel uses. *)
(* include/i386/segments.h:276-305 tss_segment *)
Record tss_segment := Tss { esp0 : Z; ss0 : Z; iobase : Z; iomap : list Z }.
Definition TSS_IOMAP : Z := 25 * 4 + 2 * 2.
Definition TSS_SIZE : Z := TSS_IOMAP + IOPERMSZ.

(** [root_tss] is the address of the segment; the task register holds the
    selector afterwards. *)
(* arch/i386/segments.c:102-112 init_root_tss *)
Definition init_root_tss (root_tss : Z) (t : tss_segment) (gdt : list segdesc) : outcome (tss_segment * list segdesc * Z) :=
  io ← store (iomap t) (IOPERMSZ - 1) (λ _, 0xff);
  gdt ← syssegdesc_init TSS root_tss TSS_SIZE (gt GT_FREE_TSS) DPL_KERN gdt;
  Ok (Tss (esp0 t) KERN_DATA TSS_IOMAP io, gdt, TSS).

(** The lines of [gdt_dump] and [idt_dump]: the number, the size, the base and
    the attributes; the number, the handler and the attributes. *)
(* arch/i386/segments.c:114-132 gdt_dump *)
Definition gdt_dump (gdt : list segdesc) : list (Z * Z * Z * Z) :=
  imap (λ i d, (Z.of_nat i, Z.lor (default 0 (size <$> head gdt)) (Z.shiftl (Z.land (default 0 (attr <$> head gdt)) 0x0f00) 8),
                Z.lor (Z.lor (base_low d) (Z.shiftl (base_mid d) 16)) (Z.shiftl (base_high d) 24), attr d)) gdt.
(* arch/i386/segments.c:134-151 idt_dump *)
Definition idt_dump (idt : list gatedesc) : list (Z * Z * Z * Z) :=
  imap (λ i d, (Z.of_nat i, selector d, Z.lor (off_low d) (Z.shiftl (off_high d) 16), gattr d)) idt.

(** ** What the processor reads *)

(** The parts of a descriptor: base, limit, type, privilege, and whether it is
    present, a code or data segment, of 32 bits and counted in pages. *)
Record segment := Segment {
  sg_base : Z; sg_limit : Z; sg_type : Z; sg_dpl : Z; sg_present : bool; sg_user : bool; sg_32 : bool; sg_pages : bool }.

(** Code and data segments have three bits of type above the access bit. *)
Definition decode (d : segdesc) : segment :=
  Segment (base_low d + 2 ^ 16 * base_mid d + 2 ^ 24 * base_high d) (size d + 2 ^ 16 * field 4 8 (attr d)) (field 3 1 (attr d))
    (field 2 5 (attr d)) (Z.testbit (attr d) 7) (Z.testbit (attr d) 4) (Z.testbit (attr d) 14) (Z.testbit (attr d) 15).

(** System segments and gates have four. *)
Record gate := Gate { gate_offset : Z; gate_selector : Z; gate_type_of : Z; gate_dpl : Z; gate_present : bool }.
Definition decode_gate (d : gatedesc) : gate :=
  Gate (off_low d + 2 ^ 16 * off_high d) (selector d) (field 4 0 (gattr d)) (field 2 5 (gattr d)) (Z.testbit (gattr d) 7).
Definition decode_system (d : segdesc) : segment :=
  let g := decode d in
  Segment (sg_base g) (sg_limit g) (field 4 0 (attr d)) (sg_dpl g) (sg_present g) (sg_user g) (sg_32 g) (sg_pages g).

Lemma field_div bits shift x : 0 ≤ bits → 0 ≤ shift → field bits shift x = (x / 2 ^ shift) mod 2 ^ bits.
Proof.
  intros Hb Hs. unfold field. rewrite Z.shiftl_1_l, Z.sub_1_r, <- Z.ones_equiv.
  rewrite Z.shiftr_land, Z.shiftr_shiftl_l, Z.sub_diag, Z.shiftl_0_r by lia.
  by rewrite Z.land_ones, Z.shiftr_div_pow2 by lia.
Qed.

(** The attribute word, checked for every type, privilege and upper part of
    the size. *)
Definition attrs_ok (sys : bool) (t p h : Z) : bool :=
  let a := u16 (Z.lor (u16 (Z.shiftl h 8)) (if sys then SD_SYSATTRS t p else SD_ATTRS t p)) in
  bool_decide (field 4 8 a = h ∧ field 2 5 a = p ∧ (if sys then field 4 0 a else field 3 1 a) = t) &&
  Z.testbit a 7 && eqb (Z.testbit a 4) (negb sys) && Z.testbit a 14 && eqb (Z.testbit a 15) (negb sys).

Lemma forallb_seqZ n P x : forallb P (seqZ 0 n) = true → 0 ≤ x < n → P x = true.
Proof. rewrite forallb_forall. intros H Hx. apply H, list_elem_of_In, elem_of_seqZ. lia. Qed.

Lemma attrs_checked (sys : bool) t p h :
  0 ≤ t < (if sys then 16 else 8) → 0 ≤ p < 4 → 0 ≤ h < 16 → attrs_ok sys t p h = true.
Proof.
  intros Ht Hp Hh.
  assert (forallb (λ t, forallb (λ p, forallb (attrs_ok sys t p) (seqZ 0 16)) (seqZ 0 4)) (seqZ 0 (if sys then 16 else 8)) = true) as H
    by (destruct sys; vm_compute; reflexivity).
  apply (forallb_seqZ _ _ t) in H; [|done]. apply (forallb_seqZ _ _ p) in H; [|done]. by apply (forallb_seqZ _ _ h) in H.
Qed.

Lemma size_high x : 0 ≤ x → Z.shiftr (Z.land x 0x0f0000) 8 = Z.shiftl ((x / 2 ^ 16) mod 16) 8.
Proof.
  intros Hx. change 0x0f0000 with (Z.shiftl (Z.ones 4) 16). apply Z.bits_inj'. intros i Hi.
  rewrite Z.shiftr_spec, Z.land_spec, Z.shiftl_spec by lia.
  change ((x `div` 2 ^ 16) `mod` 16) with ((x `div` 2 ^ 16) `mod` 2 ^ 4). rewrite <- Z.land_ones, <- Z.shiftr_div_pow2 by lia.
  destruct (decide (i < 8)) as [Hlt|Hge].
  - rewrite (Z.testbit_neg_r (Z.ones 4)) by lia. rewrite andb_false_r. by rewrite Z.shiftl_spec_low by lia.
  - rewrite Z.shiftl_spec, Z.land_spec, Z.shiftr_spec by lia. f_equal; f_equal; lia.
Qed.

Lemma split_word x : 0 ≤ x < 2 ^ 32 → u16 x + 2 ^ 16 * u8 (Z.shiftr x 16) + 2 ^ 24 * u8 (Z.shiftr x 24) = x.
Proof.
  intros Hx. rewrite !Z.shiftr_div_pow2 by lia. unfold u16, u8.
  change (2 ^ 24) with (2 ^ 16 * 2 ^ 8). rewrite <- Z.div_div by lia.
  pose proof (Z_div_mod_eq_full x (2 ^ 16)). pose proof (Z_div_mod_eq_full (x / 2 ^ 16) (2 ^ 8)).
  rewrite (Z.mod_small (x / 2 ^ 16 / 2 ^ 8)); [lia|]. rewrite Z.div_div by lia.
  split; [apply Z.div_pos; lia|apply Z.div_lt_upper_bound; lia].
Qed.

Lemma split_size x : 0 ≤ x → u16 x + 2 ^ 16 * ((x / 2 ^ 16) mod 16) = x mod 2 ^ 20.
Proof.
  intros Hx. unfold u16. change (2 ^ 20) with (2 ^ 16 * 16). rewrite Z.rem_mul_r by lia. done.
Qed.

(** The attribute word of a descriptor. *)
Lemma attr_parts (sys : bool) t p x :
  0 ≤ t < (if sys then 16 else 8) → 0 ≤ p < 4 → 0 ≤ x →
  let a := u16 (Z.lor (u16 (Z.shiftr (Z.land x 0x0f0000) 8)) (if sys then SD_SYSATTRS t p else SD_ATTRS t p)) in
  field 4 8 a = (x / 2 ^ 16) mod 16 ∧ field 2 5 a = p ∧ (if sys then field 4 0 a else field 3 1 a) = t ∧
  Z.testbit a 7 = true ∧ Z.testbit a 4 = negb sys ∧ Z.testbit a 14 = true ∧ Z.testbit a 15 = negb sys.
Proof.
  intros Ht Hp Hx a. unfold a. rewrite size_high by done.
  pose proof (attrs_checked sys t p ((x / 2 ^ 16) mod 16) Ht Hp ltac:(apply Z.mod_pos_bound; lia)) as H.
  unfold attrs_ok in H. rewrite !andb_true_iff, bool_decide_eq_true, !eqb_true_iff in H. tauto.
Qed.

Lemma store_run {A} (t : list A) n f d :
  t !! Z.to_nat n = Some d →
  ∃ t', store t n f = Ok t' ∧ t' !! Z.to_nat n = Some (f d) ∧ length t' = length t ∧
        (∀ k, k ≠ Z.to_nat n → t' !! k = t !! k).
Proof.
  intros Hd. unfold store. rewrite Hd. eexists. split; [done|]. split_and!.
  - rewrite list_lookup_insert_eq; [done|]. by eapply lookup_lt_Some.
  - apply length_insert.
  - intros k Hk. by rewrite list_lookup_insert_ne.
Qed.

Lemma decode_init base x type priv :
  is_u32 base → 0 ≤ x → 0 ≤ type < 8 → 0 ≤ priv < 4 →
  decode (or_attr (SD_ATTRS type priv) (size_and_base base x)) =
    Segment base (x mod 2 ^ 20) type priv true true true true.
Proof.
  intros Hb Hx Ht Hp. destruct (attr_parts false type priv x Ht Hp Hx) as (H1 & H2 & H3 & H4 & H5 & H6 & H7).
  unfold decode. cbn [or_attr size_and_base attr size base_low base_mid base_high].
  rewrite H1, H2, H3, H4, H5, H6, H7, split_size by done. f_equal. by apply split_word.
Qed.
Lemma decode_sys_init base x type priv :
  is_u32 base → 0 ≤ x → 0 ≤ type < 16 → 0 ≤ priv < 4 →
  decode_system (or_attr (SD_SYSATTRS type priv) (size_and_base base x)) =
    Segment base (x mod 2 ^ 20) type priv true false true false.
Proof.
  intros Hb Hx Ht Hp. destruct (attr_parts true type priv x Ht Hp Hx) as (H1 & H2 & H3 & H4 & H5 & H6 & H7).
  unfold decode_system, decode. cbn [or_attr size_and_base attr size base_low base_mid base_high sg_base sg_limit sg_dpl sg_present sg_user sg_32 sg_pages].
  rewrite H1, H2, H3, H4, H5, H6, H7, split_size by done. f_equal. by apply split_word.
Qed.

Lemma gate_attr t p :
  0 ≤ t < 16 → 0 ≤ p < 4 →
  field 4 0 (u8 (GD_ATTRS t p)) = t ∧ field 2 5 (u8 (GD_ATTRS t p)) = p ∧ Z.testbit (u8 (GD_ATTRS t p)) 7 = true.
Proof.
  intros Ht Hp.
  set (ok := λ t p, bool_decide (field 4 0 (u8 (GD_ATTRS t p)) = t ∧ field 2 5 (u8 (GD_ATTRS t p)) = p ∧ Z.testbit (u8 (GD_ATTRS t p)) 7 = true)).
  assert (forallb (λ t, forallb (ok t) (seqZ 0 4)) (seqZ 0 16) = true) as H by (vm_compute; reflexivity).
  apply (forallb_seqZ 16 _ t) in H; [|done]. apply (forallb_seqZ 4 _ p) in H; [|done]. by apply bool_decide_eq_true in H.
Qed.

Lemma split_offset x : is_u32 x → u16 x + 2 ^ 16 * u16 (Z.shiftr x 16) = x.
Proof.
  intros [H0 H1]. rewrite Z.shiftr_div_pow2 by lia. unfold u16. pose proof (Z_div_mod_eq_full x (2 ^ 16)).
  rewrite (Z.mod_small (x / 2 ^ 16)); [lia|]. split; [apply Z.div_pos; lia|apply Z.div_lt_upper_bound; lia].
Qed.

Lemma shiftr_index n : 0 ≤ n → Z.shiftr (Z.shiftl n 3) 3 = n.
Proof. intros Hn. rewrite Z.shiftr_shiftl_l by lia. apply Z.shiftl_0_r. Qed.

(** A gate that is written in the interrupt table. *)
Lemma gatedesc_init_run num offset type priv idt d :
  0 ≤ num → idt !! Z.to_nat num = Some d → is_u32 offset → 0 ≤ type < 16 → 0 ≤ priv < 4 →
  ∃ idt', gatedesc_init (Z.shiftl num 3) offset type priv idt = Ok idt' ∧ length idt' = length idt ∧
    (decode_gate <$> idt' !! Z.to_nat num) = Some (Gate offset KERN_CODE type priv true) ∧
    (∀ k, k ≠ Z.to_nat num → idt' !! k = idt !! k).
Proof.
  intros Hn Hd Ho Ht Hp. unfold gatedesc_init. rewrite shiftr_index by done.
  edestruct (store_run idt num) as (t & -> & Hl & Hlen & Hk); [done|]. eexists. split_and!; try done. rewrite Hl.
  cbn [fmap option_fmap option_map]. unfold decode_gate. cbn [off_low selector gattr off_high].
  destruct (gate_attr type priv Ht Hp) as (-> & -> & ->). by rewrite split_offset.
Qed.

(** The macro for the assembler makes the same descriptor. *)
Lemma SEGDESC_init base x type priv :
  0 ≤ x → SEGDESC base x type priv = or_attr (SD_ATTRS type priv) (size_and_base base x).
Proof.
  intros Hx. unfold SEGDESC, or_attr, size_and_base, SEGDESC_BASELOW, SEGDESC_BASEMID, SEGDESC_BASEHIGH.
  cbn [size base_low base_mid attr base_high]. rewrite !field_div by done. rewrite !(Z.shiftr_div_pow2 base) by done.
  unfold SD_BASELOW_SHIFT, SD_BASEMID_SHIFT, SD_BASEHIGH_SHIFT, SD_BASELOW_BITS, SD_BASEMID_BITS, SD_BASEHIGH_BITS.
  unfold u16 at 1 3, u8. rewrite Z.div_1_r, !Zmod_mod. f_equal.
  - change 0xffff with (Z.ones 16). by rewrite Z.land_ones.
  - unfold SD_ATTRS_SZ. rewrite Z.lor_comm. do 2 f_equal. unfold u16. rewrite size_high by done. symmetry. apply Z.mod_small.
    rewrite Z.shiftl_mul_pow2 by done. pose proof (Z.mod_pos_bound (x / 2 ^ 16) 16). lia.
Qed.

(** A segment descriptor means what it was made from.  The descriptor
    [segdesc_init] writes is the one the macro of the assembler defines, and
    the processor reads from it the base, the size in pages modulo 2^20, the
    type and the privilege it was given, in a present 32-bit segment; that of
    [syssegdesc_init] is counted in bytes; the other entries are kept. *)
Theorem segdesc_roundtrip gdt n base x type priv d :
  0 ≤ n → gdt !! Z.to_nat n = Some d → is_u32 base → is_u32 x → 0 ≤ priv < 4 →
  (0 ≤ type < 8 →
   ∃ g, segdesc_init (Z.shiftl n 3) base x type priv gdt = Ok g ∧ g !! Z.to_nat n = Some (SEGDESC base x type priv) ∧
     decode (SEGDESC base x type priv) = Segment base (x mod 2 ^ 20) type priv true true true true ∧
     length g = length gdt ∧ ∀ k, k ≠ Z.to_nat n → g !! k = gdt !! k) ∧
  (0 ≤ type < 16 →
   ∃ g, syssegdesc_init (Z.shiftl n 3) base x type priv gdt = Ok g ∧
     (decode_system <$> g !! Z.to_nat n) = Some (Segment base (x mod 2 ^ 20) type priv true false true false) ∧
     length g = length gdt ∧ ∀ k, k ≠ Z.to_nat n → g !! k = gdt !! k).
Proof.
  intros Hn Hd Hb [Hx _] Hp. unfold segdesc_init, syssegdesc_init. rewrite shiftr_index by done.
  split; intros Ht; (edestruct (store_run gdt n) as (g & -> & Hl & Hlen & Hk); [done|]); exists g; split_and!; try done.
  - by rewrite SEGDESC_init.
  - rewrite SEGDESC_init by done. by apply decode_init.
  - rewrite Hl. cbn [fmap option_fmap option_map]. by rewrite decode_sys_init.
Qed.

(** The code segment of the kernel in an empty table. *)
Definition empty_gdt : list segdesc := replicate 7 (Segdesc 0 0 0 0 0).
Lemma segdesc_roundtrip_witness :
  ∃ g, segdesc_init 8 0x12345678 0xabcde (st ST_RX_CODE) DPL_KERN empty_gdt = Ok g ∧
       decode <$> g !! 1%nat = Some (Segment 0x12345678 0xabcde 5 0 true true true true).
Proof.
  destruct (segdesc_roundtrip empty_gdt 1 0x12345678 0xabcde 5 0 (Segdesc 0 0 0 0 0)) as [H _];
    [lia|reflexivity|unfold is_u32; lia|unfold is_u32; lia|lia|].
  destruct H as (g & Hg & Hl & Hdec & _); [lia|]. exists g. split; [exact Hg|].
  change (g !! 1%nat) with (g !! Z.to_nat 1). rewrite Hl. exact (f_equal Some Hdec).
Defined.

(** The dump shows the size of the first descriptor for every one. *)
Example gdt_dump_size :
  ∃ g, segdesc_init 8 0 0xfffff (st ST_RX_CODE) DPL_KERN empty_gdt = Ok g ∧
       (λ '(_, s, _, _), s) <$> gdt_dump g !! 1%nat = Some 0 ∧ sg_limit ∘ decode <$> g !! 1%nat = Some 0xfffff.
Proof. eexists. split; [reflexivity|]. by vm_compute. Qed.

(** ** Widths of the fields *)

Definition width (bits x : Z) : Prop := 0 ≤ x < 2 ^ bits.
#[global] Instance width_dec bits x : Decision (width bits x).
Proof. unfold width. apply _. Defined.

(** A descriptor whose fields have the widths of the structure. *)
Definition segdesc_typed (d : segdesc) : Prop :=
  width 16 (size d) ∧ width 16 (base_low d) ∧ width 8 (base_mid d) ∧ width 16 (attr d) ∧ width 8 (base_high d).
Definition gatedesc_typed (d : gatedesc) : Prop :=
  width 16 (off_low d) ∧ width 16 (selector d) ∧ width 8 (reserved d) ∧ width 8 (gattr d) ∧ width 16 (off_high d).

(** The stores into the tables, with any arguments. *)
Inductive table_op :=
| InitSeg (idx base size type priv : Z)
| InitSys (idx base size type priv : Z)
| InitGate (idx offset type priv : Z).
Definition table_step (op : table_op) (t : list segdesc * list gatedesc) : outcome (list segdesc * list gatedesc) :=
  match op with
  | InitSeg idx base size type priv => g ← segdesc_init idx base size type priv t.1; Ok (g, t.2)
  | InitSys idx base size type priv => g ← syssegdesc_init idx base size type priv t.1; Ok (g, t.2)
  | InitGate idx offset type priv => g ← gatedesc_init idx offset type priv t.2; Ok (t.1, g)
  end.
Definition table_run (ops : list table_op) (t : list segdesc * list gatedesc) : outcome (list segdesc * list gatedesc) :=
  foldl (λ o op, t ← o; table_step op t) (Ok t) ops.

(** The index of an operation and whether its entry is in its table. *)
Definition in_table (op : table_op) : Prop :=
  match op with
  | InitSeg idx _ _ _ _ | InitSys idx _ _ _ _ => 0 ≤ idx < 8 * GDT_ENTRIES
  | InitGate idx _ _ _ => 0 ≤ idx < 8 * IDT_ENTRIES
  end.

Definition tables_typed (t : list segdesc * list gatedesc) : Prop :=
  Z.of_nat (length t.1) = GDT_ENTRIES ∧ Forall segdesc_typed t.1 ∧ Z.of_nat (length t.2) = IDT_ENTRIES ∧ Forall gatedesc_typed t.2.

Lemma width_u16 x : width 16 (u16 x). Proof. apply Z.mod_pos_bound. lia. Qed.
Lemma width_u8 x : width 8 (u8 x). Proof. apply Z.mod_pos_bound. lia. Qed.
Create HintDb widths.
#[export] Hint Resolve width_u16 width_u8 : widths.

Lemma store_typed {A} (P : A → Prop) (t : list A) n f N :
  Z.of_nat (length t) = N → Forall P t → 0 ≤ n < 8 * N → (∀ d, P d → P (f d)) →
  ∃ t', store t (Z.shiftr n 3) f = Ok t' ∧ Z.of_nat (length t') = N ∧ Forall P t'.
Proof.
  intros HN Ht Hn Hf. unfold store. rewrite Z.shiftr_div_pow2 by lia. set (k := n / 2 ^ 3).
  assert (0 ≤ k < N) as Hk by (split; [apply Z.div_pos; lia|apply Z.div_lt_upper_bound; lia]).
  destruct (lookup_lt_is_Some_2 t (Z.to_nat k)) as [d Hd]; [lia|]. rewrite Hd. eexists. split; [done|].
  rewrite length_insert. split; [done|]. apply Forall_insert; [done|]. apply Hf. by eapply Forall_lookup_1.
Qed.

Lemma table_step_typed op t : in_table op → tables_typed t → ∃ t', table_step op t = Ok t' ∧ tables_typed t'.
Proof.
  intros Hi (H1 & H2 & H3 & H4). destruct op as [idx b s ty p|idx b s ty p|idx o ty p]; cbn [in_table table_step] in *.
  1,2: unfold segdesc_init, syssegdesc_init; edestruct (store_typed segdesc_typed) as (g & -> & ? & ?); [exact H1|exact H2|exact Hi| |by eexists];
       intros d _; split_and!; cbn; auto with widths.
  unfold gatedesc_init. edestruct (store_typed gatedesc_typed) as (g & -> & ? & ?); [exact H3|exact H4|exact Hi| |by eexists].
  intros d (_ & _ & Hr & _). split_and!; cbn; auto with widths. by vm_compute.
Qed.


(** Empty tables, and arguments wider than their fields. *)
Definition zero_tables : list segdesc * list gatedesc := (replicate 7 (Segdesc 0 0 0 0 0), replicate 256 (Gatedesc 0 0 0 0 0)).
