(* ===== verification/Irq.v ===== *)
(** * Interrupts (arch/i386/pic.c, arch/i386/irq.c, arch/i386/timer.c,
      arch/i386/trap.c, arch/i386/asm.c, arch/i386/asm/irq.S,
      arch/i386/asm/interrupt.S)

    The two interrupt controllers, the table of handlers, the gates of the
    processor and the assembly code around the handlers.  The kernel below is
    a parameter: the state [S], what the handlers do, and the tick of the
    scheduler. *)

From S2P Require Import Prelude Bitmap Klib Buddy PageAlloc Paging Switch Segments.

(* arch/i386/pic.c:27-28 PIC1_BASE_PORT *)
Definition PIC1_BASE_PORT : Z := 0x20.
Definition PIC2_BASE_PORT : Z := 0x2A.
(* arch/i386/pic.c:30-30 PIC_EOI *)
Definition PIC_EOI : Z := 0x20.

(** The masks as the driver remembers them, what was written to the ports, the
    handlers by number, [jiffies], whether [mach_state] is MACH_RUNNING, and
    the rest of the kernel. *)
Record irq_state (S : Type) := Irqs {
  pic1_mask : Z; pic2_mask : Z; written : list (Z * Z); irq_handler_table : list (option Z); ijiffies : Z; running : bool;
  kern : S }.
Arguments Irqs {S}.
Arguments pic1_mask {S}.
Arguments pic2_mask {S}.
Arguments written {S}.
Arguments irq_handler_table {S}.
Arguments ijiffies {S}.
Arguments running {S}.
Arguments kern {S}.

Section irq.
Context {S : Type} (run_handler : Z → Z → M (irq_state S) unit) (scheduler_tick update_timers : M S unit).
Implicit Types s : irq_state S.

Definition set_mask1 (m : Z) s : irq_state S := Irqs m (pic2_mask s) (written s) (irq_handler_table s) (ijiffies s) (running s) (kern s).
Definition set_mask2 (m : Z) s : irq_state S := Irqs (pic1_mask s) m (written s) (irq_handler_table s) (ijiffies s) (running s) (kern s).
Definition set_table (t : list (option Z)) s : irq_state S :=
  Irqs (pic1_mask s) (pic2_mask s) (written s) t (ijiffies s) (running s) (kern s).
Definition set_jiffies (j : Z) s : irq_state S :=
  Irqs (pic1_mask s) (pic2_mask s) (written s) (irq_handler_table s) j (running s) (kern s).
Definition set_kern (k : S) s : irq_state S :=
  Irqs (pic1_mask s) (pic2_mask s) (written s) (irq_handler_table s) (ijiffies s) (running s) k.
Definition outb (port data : Z) s : irq_state S :=
  Irqs (pic1_mask s) (pic2_mask s) (written s ++ [(port, u8 data)]) (irq_handler_table s) (ijiffies s) (running s) (kern s).
Definition on_kern (o : M S unit) : M (irq_state S) unit := λ s, '(_, k) ← o (kern s); Ok (tt, set_kern k s).

(** ** The controllers *)

(* arch/i386/pic.c:35-54 pic_clear *)
Definition pic_clear s : irq_state S :=
  let s := outb PIC2_BASE_PORT 0x11 (outb PIC1_BASE_PORT 0x11 s) in
  let s := outb (PIC2_BASE_PORT + 1) 0x28 (outb (PIC1_BASE_PORT + 1) 0x20 s) in
  let s := outb (PIC2_BASE_PORT + 1) 0x02 (outb (PIC1_BASE_PORT + 1) 0x04 s) in
  let s := outb (PIC2_BASE_PORT + 1) 0x01 (outb (PIC1_BASE_PORT + 1) 0x01 s) in
  let s := outb (PIC2_BASE_PORT + 1) 0xFF (outb (PIC1_BASE_PORT + 1) 0xFF s) in
  set_mask2 0xFF (set_mask1 0xFF s).

(* arch/i386/pic.c:56-77 pic_mask_interrupt *)
Definition pic_mask_interrupt (number : Z) s : irq_state S :=
  if decide (number > 15) then s
  else if decide (number > 7) then
    let s := set_mask2 (Z.lor (pic2_mask s) (u8 (Z.shiftl 1 (number - 8)))) s in
    outb (PIC2_BASE_PORT + 1) (pic2_mask s) s
  else
    let s := set_mask1 (Z.lor (pic1_mask s) (u8 (Z.shiftl 1 number))) s in
    outb (PIC1_BASE_PORT + 1) (pic1_mask s) s.

(* arch/i386/pic.c:79-100 pic_unmask_interrupt *)
Definition pic_unmask_interrupt (number : Z) s : irq_state S :=
  if decide (number > 15) then s
  else if decide (number > 7) then
    let s := set_mask2 (Z.land (pic2_mask s) (u8 (Z.lnot (u8 (Z.shiftl 1 (number - 8)))))) s in
    outb (PIC2_BASE_PORT + 1) (pic2_mask s) s
  else
    let s := set_mask1 (Z.land (pic1_mask s) (u8 (Z.lnot (u8 (Z.shiftl 1 number))))) s in
    outb (PIC1_BASE_PORT + 1) (pic1_mask s) s.

(* arch/i386/pic.c:102-111 pic_do_eoi *)
Definition pic_do_eoi (number : Z) s : irq_state S :=
  if decide (number > 15) then s
  else
    let s := outb PIC1_BASE_PORT PIC_EOI s in
    if decide (8 ≤ number) then outb PIC2_BASE_PORT PIC_EOI s else s.

(** ** The handlers *)

(** An entry of [irq_handler_table], which has 16. *)
Definition handler (number : Z) : M (irq_state S) (option Z) := λ s,
  match irq_handler_table s !! Z.to_nat number with Some h => Ok (h, s) | None => Fault end.
Definition set_handler (number : Z) (h : option Z) (s : irq_state S) : irq_state S :=
  set_table (<[Z.to_nat number := h]> (irq_handler_table s)) s.

(* arch/i386/irq.c:75-83 main_irq_handler *)
Definition main_irq_handler (number : Z) : M (irq_state S) unit :=
  h ← handler number;
  _ ← (match h with Some f => run_handler f number | None => mret tt end);
  _ ← modify (pic_do_eoi number);
  r ← gets running;
  if (r : bool) then on_kern scheduler_tick else mret tt.

(* arch/i386/irq.c:85-94 register_irq_handler *)
Definition register_irq_handler (number f : Z) : M (irq_state S) Z :=
  h ← handler number;
  match h with
  | Some _ => mret 1
  | None =>
      _ ← modify (set_handler number (Some f));
      _ ← modify (pic_unmask_interrupt number);
      mret 0
  end.

(* arch/i386/irq.c:96-100 unregister_irq_handler *)
Definition unregister_irq_handler (number : Z) : M (irq_state S) unit :=
  _ ← modify (pic_mask_interrupt number);
  _ ← handler number;
  modify (set_handler number None).

(** ** The timer *)

(* arch/i386/timer.c:31-34 TIMER_COMMAND_PORT *)
Definition TIMER_COMMAND_PORT : Z := 0x43.
Definition TIMER_COUNTER_0_PORT : Z := 0x40.

(* arch/i386/timer.c:46-61 timer_set_divisor *)
Definition timer_set_divisor (divisor : Z) s : irq_state S :=
  let s := outb TIMER_COMMAND_PORT 0x36 s in
  let s := outb TIMER_COUNTER_0_PORT (Z.land divisor 0xFF) s in
  let s := outb TIMER_COUNTER_0_PORT (Z.shiftr divisor 8) s in
  set_jiffies 0 s.

(* arch/i386/timer.c:67-72 timer_interrupt_handler *)
Definition timer_interrupt_handler : M (irq_state S) unit :=
  _ ← modify (λ s, set_jiffies ((ijiffies s + 1) mod 2 ^ 64) s);
  r ← gets running;
  if (r : bool) then on_kern update_timers else mret tt.

(** [timer] stands for the address of the handler. *)
(* arch/i386/timer.c:74-79 timer_init *)
Definition timer_init (timer : Z) : M (irq_state S) Z :=
  _ ← modify (timer_set_divisor 4096);
  _ ← register_irq_handler 0 timer;
  mret 0.
End irq.

(** ** The gates *)

(** [irq_pre_handler] are the addresses of the 16 entries of irq.S. *)
Fixpoint irq_gates (num : Z) (irq_pre_handler : list Z) (idt : list gatedesc) : outcome (list gatedesc) :=
  match irq_pre_handler with
  | [] => Ok idt
  | h :: l => idt ← intgate_init num h idt; irq_gates (num + 1) l idt
  end.

(* arch/i386/irq.c:53-73 interrupts_init *)
Definition interrupts_init {S} (irq_pre_handler : list Z) (s : irq_state S) (idt : list gatedesc)
    : outcome (irq_state S * list gatedesc) :=
  let s := pic_clear s in
  idt ← irq_gates 32 irq_pre_handler idt;
  Ok (s, idt).

(* arch/i386/trap.c:166-172 trap_init *)
Definition trap_init (ud2_entry general_protection pf_entry sys_call_entry : Z) (idt : list gatedesc) : outcome (list gatedesc) :=
  idt ← trapgate_init 6 ud2_entry idt;
  idt ← trapgate_init 13 general_protection idt;
  idt ← trapgate_init 14 pf_entry idt;
  intgate_init 0x40 sys_call_entry idt.

(** ** The masks and the handlers agree *)

(** Bit [n] of the masks the controllers hold. *)
Definition masked {S} (s : irq_state S) (n : Z) : bool :=
  if decide (n < 8) then Z.testbit (pic1_mask s) n else Z.testbit (pic2_mask s) (n - 8).

(** The last byte written to a port. *)
Definition last_written {S} (s : irq_state S) (port : Z) : option Z :=
  snd <$> last (filter (λ w, w.1 = port) (written s)).

(** An interrupt is let through exactly if it has a handler, and the
    controllers were told so. *)
Record irq_inv {S} (s : irq_state S) : Prop := IrqInv {
  ii_len : length (irq_handler_table s) = 16%nat;
  ii_mask1 : 0 ≤ pic1_mask s < 256;
  ii_mask2 : 0 ≤ pic2_mask s < 256;
  ii_masked n h : 0 ≤ n < 16 → irq_handler_table s !! Z.to_nat n = Some h → masked s n = bool_decide (h = None);
  ii_told1 : last_written s (PIC1_BASE_PORT + 1) = Some (pic1_mask s);
  ii_told2 : last_written s (PIC2_BASE_PORT + 1) = Some (pic2_mask s) }.

Lemma mask_bit k i m : 0 ≤ k < 8 → 0 ≤ i < 8 → Z.testbit (Z.lor m (u8 (Z.shiftl 1 k))) i = bool_decide (i = k) || Z.testbit m i.
Proof.
  intros Hk Hi. rewrite Z.lor_spec. unfold u8. rewrite Z.mod_pow2_bits_low by lia.
  rewrite Z.shiftl_1_l, Z.pow2_bits_eqb by lia. rewrite orb_comm. f_equal. rewrite Z.eqb_sym.
  case_bool_decide; [by apply Z.eqb_eq|by apply Z.eqb_neq].
Qed.
Lemma unmask_bit k i m :
  0 ≤ k < 8 → 0 ≤ i < 8 →
  Z.testbit (Z.land m (u8 (Z.lnot (u8 (Z.shiftl 1 k))))) i = negb (bool_decide (i = k)) && Z.testbit m i.
Proof.
  intros Hk Hi. rewrite Z.land_spec. unfold u8. rewrite Z.mod_pow2_bits_low, Z.lnot_spec, Z.mod_pow2_bits_low by lia.
  rewrite Z.shiftl_1_l, Z.pow2_bits_eqb by lia. rewrite andb_comm, Z.eqb_sym. do 2 f_equal.
  case_bool_decide; [by apply Z.eqb_eq|by apply Z.eqb_neq].
Qed.

Lemma byte_lor a b : 0 ≤ a < 256 → 0 ≤ b < 256 → 0 ≤ Z.lor a b < 256.
Proof. change 256 with (2 ^ 8). intros. apply (lor_small _ _ 8); lia. Qed.
Lemma byte_land a b : 0 ≤ a < 256 → 0 ≤ Z.land a b < 256.
Proof.
  intros Ha. replace (Z.land a b) with (Z.land a b mod 2 ^ 8); [by apply Z.mod_pos_bound|].
  rewrite <- Z.land_ones, <- Z.land_assoc, (Z.land_comm b), Z.land_assoc, Z.land_ones by lia.
  by rewrite Z.mod_small.
Qed.

Section masks.
Context {S : Type}.
Implicit Types s : irq_state S.

Lemma last_written_outb p d s q :
  last_written (outb p d s) q = if decide (p = q) then Some (u8 d) else last_written s q.
Proof.
  unfold last_written. cbn [written outb]. rewrite filter_app, filter_cons, filter_nil. cbn [fst].
  case_decide; [|by rewrite app_nil_r]. by rewrite last_snoc.
Qed.

(** The two ways a mask changes: bit [n] becomes [b], and the controller of
    [n] is told. *)
Record remasked s s' (n : Z) (b : bool) : Prop := Remasked {
  re_mask1 : 0 ≤ pic1_mask s' < 256;
  re_mask2 : 0 ≤ pic2_mask s' < 256;
  re_bit i : 0 ≤ i < 16 → masked s' i = if decide (i = n) then b else masked s i;
  re_told1 : last_written s' (PIC1_BASE_PORT + 1) = Some (pic1_mask s');
  re_told2 : last_written s' (PIC2_BASE_PORT + 1) = Some (pic2_mask s');
  re_table : irq_handler_table s' = irq_handler_table s;
  re_kern : kern s' = kern s ∧ running s' = running s ∧ ijiffies s' = ijiffies s }.

Lemma u8_byte x : 0 ≤ x < 256 → u8 x = x.
Proof. intros. by apply Z.mod_small. Qed.
Lemma u8_range x : 0 ≤ u8 x < 256.
Proof. by apply Z.mod_pos_bound. Qed.

Lemma mod_8 n : 0 ≤ n < 16 → n mod 8 = if decide (n < 8) then n else n - 8.
Proof. intros Hn. case_decide; [apply Z.mod_small; lia|]. symmetry. apply (Z.mod_unique n 8 1); lia. Qed.

(** A new mask for one of the controllers. *)
Lemma remasked_by s n b m :
  irq_inv s → 0 ≤ n < 16 → 0 ≤ m < 256 →
  (∀ i, 0 ≤ i < 8 → Z.testbit m i = if decide (i = n mod 8) then b else Z.testbit (if decide (n < 8) then pic1_mask s else pic2_mask s) i) →
  remasked s (if decide (n < 8) then outb (PIC1_BASE_PORT + 1) m (set_mask1 m s) else outb (PIC2_BASE_PORT + 1) m (set_mask2 m s)) n b.
Proof.
  intros [Hl H1 H2 Hm T1 T2] Hn Hmr Hb. pose proof (Z_div_mod_eq_full n 8) as Hdm.
  pose proof (mod_8 n Hn) as Hmod.
  destruct (decide (n < 8)) as [Hlt|Hge]; (split; cbn [pic1_mask pic2_mask outb set_mask1 set_mask2 irq_handler_table kern running ijiffies]; try done).
  - intros i Hi. unfold masked. cbn [pic1_mask pic2_mask outb set_mask1]. case_decide; [|by rewrite decide_False by lia].
    rewrite Hb, Hmod by lia. done.
  - rewrite last_written_outb, decide_True by done. by rewrite u8_byte.
  - rewrite last_written_outb, decide_False by done. exact T2.
  - intros i Hi. unfold masked. cbn [pic1_mask pic2_mask outb set_mask2]. case_decide; [by rewrite decide_False by lia|].
    rewrite Hb, Hmod by lia. repeat case_decide; lia || done.
  - rewrite last_written_outb, decide_False by done. exact T1.
  - rewrite last_written_outb, decide_True by done. by rewrite u8_byte.
Qed.

Lemma pic_mask_remasks s n : irq_inv s → 0 ≤ n < 16 → remasked s (pic_mask_interrupt n s) n true.
Proof.
  intros Hi Hn. pose proof Hi as [_ H1 H2 _ _ _]. pose proof (Z.mod_pos_bound n 8 ltac:(lia)) as Hm8.
  pose proof (λ m, remasked_by s n true (Z.lor m (u8 (Z.shiftl 1 (n mod 8)))) Hi Hn) as H.
  unfold pic_mask_interrupt. rewrite (decide_False (P := n > 15)) by lia. rewrite mod_8 in H, Hm8 by done.
  destruct (decide (n < 8)); [rewrite decide_False by lia; apply (H (pic1_mask s))|rewrite decide_True by lia; apply (H (pic2_mask s))].
  all: try (apply byte_lor; [done|apply u8_range]).
  all: intros i Hb; rewrite mask_bit by done; by case_bool_decide; case_decide.
Qed.
Lemma pic_unmask_remasks s n : irq_inv s → 0 ≤ n < 16 → remasked s (pic_unmask_interrupt n s) n false.
Proof.
  intros Hi Hn. pose proof Hi as [_ H1 H2 _ _ _]. pose proof (Z.mod_pos_bound n 8 ltac:(lia)) as Hm8.
  pose proof (λ m, remasked_by s n false (Z.land m (u8 (Z.lnot (u8 (Z.shiftl 1 (n mod 8)))))) Hi Hn) as H.
  unfold pic_unmask_interrupt. rewrite (decide_False (P := n > 15)) by lia. rewrite mod_8 in H, Hm8 by done.
  destruct (decide (n < 8)); [rewrite decide_False by lia; apply (H (pic1_mask s))|rewrite decide_True by lia; apply (H (pic2_mask s))].
  all: try (by apply byte_land).
  all: intros i Hb; rewrite unmask_bit by done; by case_bool_decide; case_decide.
Qed.

(** A handler and its mask change together. *)
Lemma inv_handler s s' n h :
  irq_inv s → 0 ≤ n < 16 → remasked s s' n (bool_decide (h = None)) → irq_inv (set_handler n h s').
Proof.
  intros [Hl H1 H2 Hm T1 T2] Hn [R1 R2 Rb Rt1 Rt2 Rt _].
  split; cbn [set_handler set_table irq_handler_table pic1_mask pic2_mask]; try done.
  - by rewrite length_insert, Rt.
  - intros i g Hi Hg. change (masked _ i) with (masked s' i). rewrite Rb by done. rewrite Rt in Hg.
    destruct (decide (i = n)) as [->|Hne].
    + rewrite list_lookup_insert_eq in Hg by (rewrite Hl; lia). by simplify_eq.
    + rewrite list_lookup_insert_ne in Hg by lia. by apply Hm.
Qed.

(** Unmasking after the store of the handler is unmasking before it. *)
Lemma unmask_set_handler n k h s :
  pic_unmask_interrupt k (set_handler n h s) = set_handler n h (pic_unmask_interrupt k s).
Proof. unfold pic_unmask_interrupt. by repeat case_decide. Qed.

(** ** Reachable states *)

(** What the kernel does to the controllers and the handlers. *)
Inductive irq_step : irq_state S → irq_state S → Prop :=
| step_register n f r s s' : is_u32 n → register_irq_handler n f s = Ok (r, s') → irq_step s s'
| step_unregister n s s' : is_u32 n → unregister_irq_handler n s = Ok (tt, s') → irq_step s s'
| step_eoi n s : irq_step s (pic_do_eoi n s)
| step_kern k j b s :
    irq_step s (Irqs (pic1_mask s) (pic2_mask s) (written s) (irq_handler_table s) j b k).

Lemma handler_range n s h s' : irq_inv s → 0 ≤ n → handler n s = Ok (h, s') → n < 16 ∧ s' = s ∧ irq_handler_table s !! Z.to_nat n = Some h.
Proof.
  intros [Hl _ _ _ _ _] Hn. unfold handler. destruct (irq_handler_table s !! Z.to_nat n) as [g|] eqn:E; [|done].
  intros [= -> ->]. apply lookup_lt_Some in E as Hlt. split_and!; try done. lia.
Qed.

(** The end of an interrupt goes to the command ports. *)
Lemma eoi_inv n s : irq_inv s → irq_inv (pic_do_eoi n s).
Proof.
  intros [Hl H1 H2 Hm T1 T2]. unfold pic_do_eoi. repeat case_decide; split; try done.
  all: by rewrite ?last_written_outb; repeat rewrite decide_False by done.
Qed.

Lemma irq_step_inv s s' : irq_inv s → irq_step s s' → irq_inv s'.
Proof.
  intros Hi Hs. destruct Hs as [n f r s s' [Hn _] E|n s s' [Hn _] E|n s|k j b s].
  - unfold register_irq_handler in E. apply bind_ok in E as (h & s1 & Hh & E).
    apply handler_range in Hh as (Hlt & -> & Hh); [|done..]. destruct h as [g|]; [by injection E as _ <-|].
    autorewrite with mrun in E. injection E as _ <-. rewrite unmask_set_handler.
    eapply inv_handler; [done|done|]. by apply pic_unmask_remasks.
  - unfold unregister_irq_handler in E. autorewrite with mrun in E. apply bind_ok in E as (h & s1 & Hh & E).
    assert (n < 16) as Hlt.
    { unfold handler in Hh. destruct (irq_handler_table (pic_mask_interrupt n s) !! Z.to_nat n) as [g|] eqn:El; [|done].
      apply lookup_lt_Some in El. destruct Hi as [Hl _ _ _ _ _]. unfold pic_mask_interrupt in El.
      repeat case_decide; cbn in El; rewrite Hl in El; lia. }
    pose proof (pic_mask_remasks s n Hi ltac:(lia)) as Hr. unfold handler in Hh.
    destruct (irq_handler_table (pic_mask_interrupt n s) !! Z.to_nat n); [|done]. injection Hh as _ <-. injection E as <-.
    eapply inv_handler; [done|lia|done].
  - by apply eoi_inv.
  - by destruct Hi as [Hl H1 H2 Hm T1 T2].
Qed.

Lemma pic_clear_inv s : irq_handler_table s = replicate 16 None → irq_inv (pic_clear s).
Proof.
  intros Ht. split; cbn [pic_clear set_mask1 set_mask2 outb pic1_mask pic2_mask irq_handler_table]; try lia.
  - by rewrite Ht.
  - intros n h Hn Hh. change (irq_handler_table (pic_clear s)) with (irq_handler_table s) in Hh. rewrite Ht in Hh.
    apply lookup_replicate in Hh as [-> _]. rewrite bool_decide_true by done. unfold masked.
    change (pic1_mask (pic_clear s)) with (Z.ones 8). change (pic2_mask (pic_clear s)) with (Z.ones 8).
    case_decide; apply Z.ones_spec_low; lia.
  - unfold pic_clear. cbn zeta.
    change (last_written (set_mask2 ?a (set_mask1 ?b ?s)) ?q) with (last_written s q). rewrite last_written_outb, decide_False by done.
    rewrite last_written_outb. done.
  - unfold pic_clear. cbn zeta.
    change (last_written (set_mask2 ?a (set_mask1 ?b ?s)) ?q) with (last_written s q). by rewrite last_written_outb.
Qed.
End masks.


Definition no_interrupts : irq_state unit := Irqs 0 0 [] (replicate 16 None) 0 false tt.

(** ** Entering and leaving an interrupt *)

(** The C function on the processor: what it leaves, and the next thread if
    [need_reschedule] is set. *)
Section entry.
Context (main : machine → machine * option Z).

(* arch/i386/asm/irq.S:48-61 do_handle_irq *)
Definition do_handle_irq (s : machine) : machine :=
  let '(s, need_reschedule) := main s in
  let '(_, s) := pop s in
  match need_reschedule with
  | None => iret (popa s)
  | Some next =>
      let curr := esp (regs s) in
      let '(sp, s) := prepare_deffered_context_switch curr next (push curr s) in
      iret (popa (at_ s sp))
  end.

(* arch/i386/asm/irq.S:24-29 irqhandle *)
Definition irqhandle (n : Z) (s : machine) : machine := do_handle_irq (push n (pusha s)).
End entry.

(** The registers of the thread that is interrupted: the processor has pushed
    the flags, the segment and the address. *)
Definition interrupted (s : machine) : cpu :=
  let c := regs s in let sp := esp c in
  Cpu (eax c) (ebx c) (ecx c) (edx c) (esi c) (edi c) (ebp c) (sp + 12) (mem s sp) (mem s (sp + 4)) (ss c) (ds c) (es c) (mem s (sp + 8)).

(** A call of a C function: it may use the stack below and the word of its
    argument, and keeps the segments; what it does elsewhere is free. *)
Definition c_call (s s' : machine) : Prop :=
  esp (regs s') = esp (regs s) ∧ cs (regs s') = cs (regs s) ∧
  ∀ a, esp (regs s) + 4 ≤ a ≤ esp (regs s) + 44 → mem s' a = mem s a.

Definition spill_all (s : machine) : wmem :=
  let c := regs s in let sp := esp c in
  wr (sp - 32) (edi c) (wr (sp - 28) (esi c) (wr (sp - 24) (ebp c) (wr (sp - 20) sp (wr (sp - 16) (ebx c)
    (wr (sp - 12) (edx c) (wr (sp - 8) (ecx c) (wr (sp - 4) (eax c) (mem s)))))))).

Lemma pusha_run s : 32 ≤ esp (regs s) < 2 ^ 32 → pusha s = at_ (set_mem (spill_all s) s) (esp (regs s) - 32).
Proof.
  intros H. set (sp := esp (regs s)) in *. unfold pusha. cbv zeta.
  replace (push (eax (regs s)) s) with (push (eax (regs s)) (at_ s sp)) by (by unfold sp; rewrite at_self).
  rewrite (push_at s sp (sp - 4)) by lia. set (s1 := set_mem _ s). rewrite (push_at s1 (sp - 4) (sp - 8)) by lia.
  set (s2 := set_mem _ s1). rewrite (push_at s2 (sp - 8) (sp - 12)) by lia.
  set (s3 := set_mem _ s2). rewrite (push_at s3 (sp - 12) (sp - 16)) by lia.
  set (s4 := set_mem _ s3). rewrite (push_at s4 (sp - 16) (sp - 20)) by lia.
  set (s5 := set_mem _ s4). rewrite (push_at s5 (sp - 20) (sp - 24)) by lia.
  set (s6 := set_mem _ s5). rewrite (push_at s6 (sp - 24) (sp - 28)) by lia.
  set (s7 := set_mem _ s6). rewrite (push_at s7 (sp - 28) (sp - 32)) by lia. reflexivity.
Qed.

Lemma spill_all_frame s v : frame (wr (esp (regs s) - 36) v (spill_all s)) (esp (regs s) - 32) (interrupted s).
Proof.
  set (sp := esp (regs s)). split; unfold spill_all, interrupted; fold sp; cbv zeta;
    cbn [edi esi ebp ebx edx ecx eax eip cs eflags esp];
    try (replace (sp - 32 + 4) with (sp - 28) by lia); try (replace (sp - 32 + 8) with (sp - 24) by lia);
    try (replace (sp - 32 + 16) with (sp - 16) by lia); try (replace (sp - 32 + 20) with (sp - 12) by lia);
    try (replace (sp - 32 + 24) with (sp - 8) by lia); try (replace (sp - 32 + 28) with (sp - 4) by lia);
    try (replace (sp - 32 + 32) with sp by lia); try (replace (sp - 32 + 36) with (sp + 4) by lia);
    try (replace (sp - 32 + 40) with (sp + 8) by lia);
    repeat (rewrite wr_other by lia); rewrite ?wr_same; [done..|]. lia.
Qed.

(** The machine with which the C function is called. *)
Definition in_handler (n : Z) (s : machine) : machine :=
  at_ (set_mem (wr (esp (regs s) - 36) n (spill_all s)) s) (esp (regs s) - 36).

Lemma irqhandle_enters main n s :
  36 ≤ esp (regs s) < 2 ^ 32 → irqhandle main n s = do_handle_irq main (in_handler n s).
Proof.
  intros H. unfold irqhandle. rewrite pusha_run by lia. unfold in_handler.
  by rewrite (push_at _ (esp (regs s) - 32) (esp (regs s) - 36)) by lia.
Qed.

(** The registers a frame holds, with the segments of the machine. *)
Definition loads (c : cpu) (s : machine) : cpu :=
  Cpu (eax c) (ebx c) (ecx c) (edx c) (esi c) (edi c) (ebp c) (esp c) (eip c) (cs c) (ss (regs s)) (ds (regs s)) (es (regs s)) (eflags c).

(** What the deferred switch writes: the stack pointer, as an argument and in
    the thread structure. *)
Lemma deferred_run s sp t (from := THREAD (sp - 4)) :
  4 ≤ sp → sp < 2 ^ 32 →
  ∃ s2, prepare_deffered_context_switch sp t (push sp (at_ s sp)) = (mem s2 (u32 (t + T_ESP)), s2) ∧
    regs s2 = set_esp (sp - 4) (regs s) ∧ mem s2 = wr (u32 (from + T_ESP)) sp (wr (sp - 4) sp (mem s)).
Proof.
  intros H0 H1. rewrite (push_at s sp (sp - 4)) by lia. unfold prepare_deffered_context_switch, switch_maps.
  change (CURRENT (at_ (set_mem (wr (sp - 4) sp (mem s)) s) (sp - 4))) with from. eexists. split; [reflexivity|].
  by destruct (decide _).
Qed.

(** C25: An interrupt of the kernel leaves no trace in the thread it interrupts.
    If the handler asks for no other thread, the thread goes on where it was,
    with all its registers, flags and stack.  If the handler asks for a thread
    [t] with a frame on its stack, the processor goes on with [t], the stack of
    the interrupted thread holds a frame with all its registers, and the thread
    structure points to it: a later switch to it resumes it. *)
Theorem irq_preempts main n s s1 next (sp := esp (regs s)) (from := THREAD (sp - 36)) :
  main (in_handler n s) = (s1, next) → c_call (in_handler n s) s1 →
  36 ≤ sp → sp + 12 < 2 ^ 32 → Z.land (mem s (sp + 4)) 3 ≤ Z.land (cs (regs s)) 3 →
  ¬ sp - 36 ≤ u32 (from + T_ESP) ≤ sp + 8 →
  match next with
  | None => regs (irqhandle main n s) = loads (interrupted s) s1
  | Some t => ∀ c spt,
      mem s1 (u32 (t + T_ESP)) = spt → frame (mem s1) spt c → 0 ≤ spt → spt + 44 < 2 ^ 32 →
      Z.land (cs c) 3 ≤ Z.land (cs (regs s)) 3 →
      (∀ a, spt ≤ a ≤ spt + 40 ∨ a = u32 (t + T_ESP) → a ≠ sp - 36 ∧ a ≠ u32 (from + T_ESP)) →
      regs (irqhandle main n s) = loads c s1 ∧
      frame (mem (irqhandle main n s)) (sp - 32) (interrupted s) ∧
      mem (irqhandle main n s) (u32 (from + T_ESP)) = sp - 32
  end.
Proof.
  intros Hm (He & Hcs & Hk) H0 H1 Hsel Hfrom. rewrite irqhandle_enters by (fold sp; lia). unfold do_handle_irq. rewrite Hm.
  change (esp (regs (in_handler n s))) with (sp - 36) in *. change (cs (regs (in_handler n s))) with (cs (regs s)) in Hcs.
  change (mem (in_handler n s)) with (wr (sp - 36) n (spill_all s)) in Hk.
  assert (frame (mem s1) (sp - 32) (interrupted s)) as Hf.
  { eapply frame_ext; [apply (spill_all_frame s n)|]. intros a Ha. fold sp in Ha. apply Hk. lia. }
  assert (pop s1 = (mem s1 (sp - 36), at_ s1 (sp - 32))) as ->.
  { rewrite <- (pop_at s1 (sp - 36) (sp - 32)) by lia. by rewrite <- He, at_self. }
  destruct next as [t|]; [|by rewrite (frame_loads s1 _ _ Hf) by (rewrite ?Hcs; done || lia)].
  intros c spt Hspt Hft Hp0 Hp1 Hct Ha. change (esp (regs (at_ s1 (sp - 32)))) with (sp - 32).
  destruct (deferred_run s1 (sp - 32) t) as (s2 & -> & Hr2 & Hm2); [lia..|].
  replace (sp - 32 - 4) with (sp - 36) in * by lia. fold from in Hm2.
  assert (∀ a, a ≠ sp - 36 → a ≠ u32 (from + T_ESP) → mem s2 a = mem s1 a) as Hkeep
    by (intros a Ha1 Ha2; rewrite Hm2; by repeat rewrite wr_other by done).
  rewrite iret_popa_mem. change (mem (at_ s2 _)) with (mem s2).
  rewrite (Hkeep (u32 (t + T_ESP))), Hspt by (apply Ha; by right).
  rewrite (frame_loads s2 spt c); [|eapply frame_ext; [exact Hft|]; intros a Hin; apply Hkeep; apply Ha; by left|done|done|].
  2: { rewrite Hr2. cbn. by rewrite Hcs. }
  split_and!.
  - cbn [regs set_regs]. rewrite Hr2. done.
  - eapply frame_ext; [exact Hf|]. intros a Hin. apply Hkeep; [lia|]. intros ->. lia.
  - rewrite Hm2. apply wr_same.
Qed.

(** Thread 0x10f10 runs and is interrupted; thread 0x20f10 waits. *)
Definition ticking : machine :=
  Mach (Cpu 1 2 3 4 5 6 7 0x10e00 0xc0de KERN_CODE KERN_DATA KERN_DATA KERN_DATA 2)
    (wr 0x10e00 0xc0de (wr 0x10e04 KERN_CODE (wr 0x10e08 2
      (wr 0x20f38 0x20e00 (wr 0x20e20 0xf00d (wr 0x20e24 KERN_CODE (wr 0x20e28 0x202 (λ _, 0)))))))) 0 0.
Definition waiting : cpu := Cpu 0 0 0 0 0 0 0 0x20e2c 0xf00d KERN_CODE 0 0 0 0x202.
Definition tick_main (s : machine) : machine * option Z := (s, Some (THREAD 0x20000)).

Lemma irq_preempts_witness :
  regs (irqhandle tick_main 0 ticking) = loads waiting (in_handler 0 ticking) ∧
  frame (mem (irqhandle tick_main 0 ticking)) (0x10e00 - 32) (interrupted ticking).
Proof.
  destruct (irq_preempts tick_main 0 ticking (in_handler 0 ticking) (Some (THREAD 0x20000)) eq_refl) with (c := waiting) (spt := 0x20e00)
    as (H1 & H2 & _).
  - split; [reflexivity|]. split; reflexivity.
  - change (36 ≤ 0x10e00). lia.
  - change (0x10e00 + 12 < 2 ^ 32). lia.
  - vm_compute. discriminate.
  - vm_compute. intros [_ H]. by apply H.
  - vm_compute. reflexivity.
  - split; vm_compute; reflexivity.
  - lia.
  - lia.
  - vm_compute. discriminate.
  - intros a Ha. change (THREAD (esp (regs ticking) - 36)) with 0x10f10. change (esp (regs ticking)) with 0x10e00.
    change (u32 (0x10f10 + T_ESP)) with 0x10f38. change (u32 (THREAD 0x20000 + T_ESP)) with 0x20f38 in Ha. lia.
  - split; [exact H1|exact H2].
Defined.

(** ** The gates *)

Lemma irq_gates_run hs num idt :
  0 ≤ num → num + Z.of_nat (length hs) ≤ Z.of_nat (length idt) → Forall is_u32 hs →
  ∃ idt', irq_gates num hs idt = Ok idt' ∧ length idt' = length idt ∧
    (∀ k h, hs !! k = Some h → (decode_gate <$> idt' !! Z.to_nat (num + Z.of_nat k)) = Some (Gate h KERN_CODE (gt GT_INT) DPL_USER true)) ∧
    (∀ k, Z.of_nat k < num ∨ num + Z.of_nat (length hs) ≤ Z.of_nat k → idt' !! k = idt !! k).
Proof.
  revert num idt. induction hs as [|h hs IH]; intros num idt Hn Hl Hu; cbn [irq_gates].
  { exists idt. split_and!; try done. }
  apply Forall_cons in Hu as [Hh Hu]. simpl in Hl.
  destruct (lookup_lt_is_Some_2 idt (Z.to_nat num)) as [d Hd]; [lia|]. unfold intgate_init.
  destruct (gatedesc_init_run num h (gt GT_INT) DPL_USER idt d) as (i1 & -> & Hl1 & Hg & Hk1); [done..|].
  destruct (IH (num + 1) i1) as (i2 & E2 & Hl2 & Hgs & Hk2); [lia|lia|done|]. exists i2. split; [exact E2|].
  split_and!; [lia| |].
  - intros [|k] g Hgk; simpl in Hgk.
    + simplify_eq. rewrite Z.add_0_r, Hk2 by lia. exact Hg.
    + rewrite <- (Hgs k g Hgk). do 2 f_equal. lia.
  - intros k Hk. simpl in Hk. rewrite Hk2 by lia. apply Hk1. lia.
Qed.

(** After [interrupts_init] and [trap_init] the processor finds, for each of
    the 16 interrupts, at 32 and its number an interrupt gate to its entry, and
    for the invalid opcode, the protection fault, the page fault and the system
    call the gates to theirs, all of them in the code segment of the kernel;
    user code can call the gates of the interrupts and of the system call, but
    not those of the faults; the rest of the table is as before. *)
Theorem gates_installed {S} (s : irq_state S) hs ud2 gp pf sc idt :
  length idt = 256%nat → length hs = 16%nat → Forall is_u32 hs → Forall is_u32 [ud2; gp; pf; sc] →
  ∃ s' i1 i2, interrupts_init hs s idt = Ok (s', i1) ∧ trap_init ud2 gp pf sc i1 = Ok i2 ∧ length i2 = 256%nat ∧
    (∀ k h, hs !! k = Some h → (decode_gate <$> i2 !! (32 + k)%nat) = Some (Gate h KERN_CODE (gt GT_INT) DPL_USER true)) ∧
    (decode_gate <$> i2 !! 6%nat) = Some (Gate ud2 KERN_CODE (gt GT_TRAP) DPL_KERN true) ∧
    (decode_gate <$> i2 !! 13%nat) = Some (Gate gp KERN_CODE (gt GT_TRAP) DPL_KERN true) ∧
    (decode_gate <$> i2 !! 14%nat) = Some (Gate pf KERN_CODE (gt GT_TRAP) DPL_KERN true) ∧
    (decode_gate <$> i2 !! 64%nat) = Some (Gate sc KERN_CODE (gt GT_INT) DPL_USER true) ∧
    (∀ k, ¬ (32 ≤ k < 48)%nat → k ∉ [6; 13; 14; 64]%nat → i2 !! k = idt !! k).
Proof.
  intros Hl Hh Hu Hu4. rewrite !Forall_cons in Hu4. destruct Hu4 as (U1 & U2 & U3 & U4 & _).
  destruct (irq_gates_run hs 32 idt) as (i1 & E1 & L1 & G1 & K1); [lia|lia|done|].
  assert (∀ (i : list gatedesc) k, length i = 256%nat → (k < 256)%nat → ∃ d, i !! k = Some d) as Hat
    by (intros i k Hi Hk; apply lookup_lt_is_Some_2; lia).
  destruct (Hat i1 6%nat) as [d1 D1]; [lia..|].
  destruct (gatedesc_init_run 6 ud2 (gt GT_TRAP) DPL_KERN i1 d1) as (i2 & E2 & L2 & G2 & K2); [done..|].
  destruct (Hat i2 13%nat) as [d2 D2]; [lia..|].
  destruct (gatedesc_init_run 13 gp (gt GT_TRAP) DPL_KERN i2 d2) as (i3 & E3 & L3 & G3 & K3); [done..|].
  destruct (Hat i3 14%nat) as [d3 D3]; [lia..|].
  destruct (gatedesc_init_run 14 pf (gt GT_TRAP) DPL_KERN i3 d3) as (i4 & E4 & L4 & G4 & K4); [done..|].
  destruct (Hat i4 64%nat) as [d4 D4]; [lia..|].
  destruct (gatedesc_init_run 64 sc (gt GT_INT) DPL_USER i4 d4) as (i5 & E5 & L5 & G5 & K5); [done..|].
  change (Z.to_nat 6) with 6%nat in *. change (Z.to_nat 13) with 13%nat in *. change (Z.to_nat 14) with 14%nat in *.
  change (Z.to_nat 64) with 64%nat in *.
  exists (pic_clear s), i1, i5. split_and!; [| |lia| | | | |done|].
  - unfold interrupts_init. by rewrite E1.
  - unfold trap_init, trapgate_init, intgate_init. rewrite E2. cbn [mbind outcome_bind]. rewrite E3. cbn [mbind outcome_bind].
    by rewrite E4.
  - intros k h Hkh. apply lookup_lt_Some in Hkh as Hlt. rewrite K5, K4, K3, K2 by lia.
    rewrite <- (G1 k h Hkh). do 2 f_equal. lia.
  - by rewrite K5, K4, K3.
  - by rewrite K5, K4.
  - by rewrite K5.
  - intros k Hk Hn. rewrite !not_elem_of_cons in Hn. destruct Hn as (N1 & N2 & N3 & N4 & _).
    rewrite K5, K4, K3, K2 by done. apply K1. lia.
Qed.

Definition no_gates : list gatedesc := replicate 256 (Gatedesc 0 0 0 0 0).
Lemma gates_installed_witness :
  ∃ s' i1 i2, interrupts_init ((λ k, 0xc0000 + k) <$> seqZ 0 16) no_interrupts no_gates = Ok (s', i1) ∧
    trap_init 1 2 3 0xf00d i1 = Ok i2 ∧ (decode_gate <$> i2 !! 64%nat) = Some (Gate 0xf00d KERN_CODE 14 3 true).
Proof.
  destruct (gates_installed no_interrupts ((λ k, 0xc0000 + k) <$> seqZ 0 16) 1 2 3 0xf00d no_gates)
    as (s' & i1 & i2 & H1 & H2 & _ & _ & _ & _ & _ & H3 & _);
    [reflexivity|reflexivity|repeat constructor; vm_compute; congruence|repeat constructor; vm_compute; congruence|].
  exists s', i1, i2. split; [exact H1|]. split; [exact H2|exact H3].
Defined.

(** ** System calls and page faults *)

(** The eight registers pushed for the C functions. *)
Definition push_regs (s : machine) : machine :=
  let c := regs s in
  push (eax c) (push (ebx c) (push (ecx c) (push (edx c) (push (esi c) (push (edi c) (push (ebp c) (push (esp c) s))))))).

(** The eight pops; the last one takes the stack pointer that was pushed. *)
Definition pop_regs (s : machine) : machine :=
  let '(ax, s) := pop s in
  let '(bx, s) := pop s in
  let '(cx, s) := pop s in
  let '(dx, s) := pop s in
  let '(si, s) := pop s in
  let '(di, s) := pop s in
  let '(bp, s) := pop s in
  let '(sp, s) := pop s in
  let c := regs s in
  set_regs (Cpu ax bx cx dx si di bp sp (eip c) (cs c) (ss c) (ds c) (es c) (eflags c)) s.

Definition set_eax (v : Z) (s : machine) : machine :=
  let c := regs s in
  set_regs (Cpu v (ebx c) (ecx c) (edx c) (esi c) (edi c) (ebp c) (esp c) (eip c) (cs c) (ss c) (ds c) (es c) (eflags c)) s.

Section traps.
(** The C functions on the processor; [gate] leaves its result in [eax]. *)
Context (gate pf_handler : machine → machine).

(** The pop of the pushed [eax] goes to [ebx], which the next one loads. *)
(* arch/i386/asm/interrupt.S:31-53 sys_call_entry *)
Definition sys_call_entry (s : machine) : machine :=
  let s := gate (push_regs s) in
  iret (set_eax (eax (regs s)) (pop_regs s)).

(** [fault_code] is the word at [code]. *)
(* arch/i386/asm/interrupt.S:73-94 pf_entry *)
Definition pf_entry (code : Z) (s : machine) : machine :=
  let '(f, s) := pop s in
  let s := pf_handler (push_regs (set_mem (wr code f (mem s)) s)) in
  iret (pop_regs s).
End traps.

(** The words [push_regs] leaves below [sp]. *)
Definition saved_regs (c : cpu) (m : wmem) : wmem :=
  let sp := esp c in
  wr (sp - 32) (eax c) (wr (sp - 28) (ebx c) (wr (sp - 24) (ecx c) (wr (sp - 20) (edx c) (wr (sp - 16) (esi c)
    (wr (sp - 12) (edi c) (wr (sp - 8) (ebp c) (wr (sp - 4) sp m))))))).

Lemma push_regs_run s :
  32 ≤ esp (regs s) < 2 ^ 32 → push_regs s = at_ (set_mem (saved_regs (regs s) (mem s)) s) (esp (regs s) - 32).
Proof.
  intros H. set (sp := esp (regs s)) in *. unfold push_regs. cbv zeta.
  replace (push (esp (regs s)) s) with (push sp (at_ s sp)) by (by unfold sp; rewrite at_self).
  rewrite (push_at s sp (sp - 4)) by lia. set (s1 := set_mem _ s). rewrite (push_at s1 (sp - 4) (sp - 8)) by lia.
  set (s2 := set_mem _ s1). rewrite (push_at s2 (sp - 8) (sp - 12)) by lia.
  set (s3 := set_mem _ s2). rewrite (push_at s3 (sp - 12) (sp - 16)) by lia.
  set (s4 := set_mem _ s3). rewrite (push_at s4 (sp - 16) (sp - 20)) by lia.
  set (s5 := set_mem _ s4). rewrite (push_at s5 (sp - 20) (sp - 24)) by lia.
  set (s6 := set_mem _ s5). rewrite (push_at s6 (sp - 24) (sp - 28)) by lia.
  set (s7 := set_mem _ s6). rewrite (push_at s7 (sp - 28) (sp - 32)) by lia. reflexivity.
Qed.

Lemma pop_regs_run s sp :
  esp (regs s) = sp - 32 → 32 ≤ sp < 2 ^ 32 →
  let m := mem s in let c := regs s in
  pop_regs s = set_regs (Cpu (m (sp - 32)) (m (sp - 28)) (m (sp - 24)) (m (sp - 20)) (m (sp - 16)) (m (sp - 12)) (m (sp - 8)) (m (sp - 4))
                           (eip c) (cs c) (ss c) (ds c) (es c) (eflags c)) s.
Proof.
  intros He Hsp m c. unfold pop_regs.
  replace (pop s) with (pop (at_ s (sp - 32))) by (by rewrite <- He, at_self).
  rewrite (pop_at s (sp - 32) (sp - 28)), (pop_at s (sp - 28) (sp - 24)), (pop_at s (sp - 24) (sp - 20)),
    (pop_at s (sp - 20) (sp - 16)), (pop_at s (sp - 16) (sp - 12)), (pop_at s (sp - 12) (sp - 8)),
    (pop_at s (sp - 8) (sp - 4)) by lia.
  unfold pop. reflexivity.
Qed.

(** A return to the user takes five words, one to the kernel three. *)
Lemma iret_user s sp :
  esp (regs s) = sp → 0 ≤ sp → sp + 20 < 2 ^ 32 → Z.land (cs (regs s)) 3 < Z.land (mem s (sp + 4)) 3 →
  let c := regs s in
  iret s = set_regs (Cpu (eax c) (ebx c) (ecx c) (edx c) (esi c) (edi c) (ebp c) (mem s (sp + 12)) (mem s sp) (mem s (sp + 4))
                       (mem s (sp + 16)) (ds c) (es c) (mem s (sp + 8))) s.
Proof.
  intros He H0 H1 Hcs c. unfold iret. replace (pop s) with (pop (at_ s sp)) by (by rewrite <- He, at_self).
  rewrite (pop_at s sp (sp + 4)), (pop_at s (sp + 4) (sp + 8)), (pop_at s (sp + 8) (sp + 12)) by lia.
  rewrite decide_True by done. rewrite (pop_at s (sp + 12) (sp + 16)) by lia. unfold pop. reflexivity.
Qed.

(** A call that keeps the words it was given and those above. *)
Definition keeps_args (s s' : machine) : Prop :=
  esp (regs s') = esp (regs s) ∧ cs (regs s') = cs (regs s) ∧ ∀ a, esp (regs s) ≤ a ≤ esp (regs s) + 48 → mem s' a = mem s a.

(** The words at and above the stack pointer are not those of the registers. *)
Lemma saved_regs_above c m a : esp c ≤ a → saved_regs c m a = m a.
Proof. intros Ha. unfold saved_regs. cbv zeta. by repeat rewrite wr_other by lia. Qed.

Lemma saved_regs_at c m sp :
  sp = esp c → let k := saved_regs c m in
  k (sp - 32) = eax c ∧ k (sp - 28) = ebx c ∧ k (sp - 24) = ecx c ∧ k (sp - 20) = edx c ∧ k (sp - 16) = esi c ∧
  k (sp - 12) = edi c ∧ k (sp - 8) = ebp c ∧ k (sp - 4) = sp.
Proof.
  intros -> k. unfold k, saved_regs. cbv zeta.
  split_and!; repeat (rewrite wr_other by lia); by rewrite wr_same.
Qed.

(** The registers of the user after a return from the kernel. *)
Definition back_to_user (ax : Z) (s : machine) (ds_ es_ : Z) : cpu :=
  let c := regs s in let sp := esp c in
  Cpu ax (ebx c) (ecx c) (edx c) (esi c) (edi c) (ebp c) (mem s (sp + 12)) (mem s sp) (mem s (sp + 4)) (mem s (sp + 16)) ds_ es_
    (mem s (sp + 8)).

Lemma entry_returns s s1 ax (sp := esp (regs s)) :
  keeps_args (push_regs s) s1 → 32 ≤ sp → sp + 20 < 2 ^ 32 → Z.land (cs (regs s)) 3 < Z.land (mem s (sp + 4)) 3 →
  regs (iret (set_eax ax (pop_regs s1))) = back_to_user ax s (ds (regs s1)) (es (regs s1)) ∧
  regs (iret (pop_regs s1)) = back_to_user (eax (regs s)) s (ds (regs s1)) (es (regs s1)).
Proof.
  intros (He & Hcs & Hk) H0 H1 Hc. rewrite push_regs_run in He, Hcs, Hk by (fold sp; lia). fold sp in He, Hcs, Hk.
  change (esp (regs (at_ ?s ?x))) with x in He, Hk. change (mem (at_ (set_mem ?m ?s) ?x)) with m in Hk.
  change (cs (regs (at_ (set_mem ?m ?s) ?x))) with (cs (regs s)) in Hcs.
  destruct (saved_regs_at (regs s) (mem s) sp eq_refl) as (K1 & K2 & K3 & K4 & K5 & K6 & K7 & K8).
  rewrite (pop_regs_run s1 sp He) by lia. cbv zeta.
  rewrite !Hk, K1, K2, K3, K4, K5, K6, K7, K8 by lia.
  assert (∀ a, sp ≤ a ≤ sp + 16 → mem s1 a = mem s a) as Hab by (intros a Ha; rewrite Hk by lia; apply saved_regs_above; fold sp; lia).
  split.
  all: erewrite (iret_user _ sp); [|reflexivity|lia|lia|cbn; rewrite Hcs, Hab by lia; done].
  all: cbn; rewrite !Hab by lia; reflexivity.
Qed.


(** A user program calls at 0x8000; the C function answers 42. *)
Definition calling : machine :=
  Mach (Cpu 3 2 1 4 5 6 7 0x10e00 0 KERN_CODE KERN_DATA 0 0 2)
    (wr 0x10e00 0x8000 (wr 0x10e04 0x1b (wr 0x10e08 0x202 (wr 0x10e0c 0x7ffffffc (wr 0x10e10 0x23 (λ _, 0)))))) 0 0.
Lemma set_eax_keeps v s : keeps_args s (set_eax v s).
Proof. by split_and!. Qed.
