(* ===== verification/Trap.v ===== *)
(** * Page faults (arch/i386/trap.c, include/i386/pages.h)

    The handler that lets stacks and heaps grow on demand, over the memory
    areas: what it does to the area the address belongs to, and that the
    address is inside the area afterwards. *)

From S2P Require Import Prelude KList Bitmap Klib Buddy PageAlloc Slice Paging MemArea.

(* include/i386/pages.h:67-70 PFLT_PROT *)
Definition PFLT_PROT : Z := 0x01.
Definition PFLT_WRITE : Z := 0x02.
Definition PFLT_USER : Z := 0x04.
Definition PFLT_RESB : Z := 0x08.

(** The memory, and [dfault]. *)
Record faults := Faults { fms : ms; dfault : Z }.

(** The pages to add for a distance; the distance is not -1. *)
Definition pages_for (dist : Z) : Z :=
  let dist := if decide (dist = 0) then PAGE_SIZE else dist in Z.shiftr (u32 (dist + PAGE_MASK)) PAGE_SHIFT.

(** The loop over the areas of the mapping, [n] from number [i] on: the area
    that grows, or none. *)
Fixpoint repair (n : nat) (map i addr : Z) (s : ms) : outcome (option ms) :=
  match n with
  | O => Ok None
  | S n =>
      let mma := m_mma (maps s map) i in
      if mem_area_is_hit (mmas s mma) addr then repair n map (i + 1) addr s
      else
        let dist := mem_area_hit_offset (mmas s mma) addr in
        if decide (dist = NOPAGE_ADDR) then repair n map (i + 1) addr s
        else s ← mem_area_grow mma (pages_for dist) s; Ok (Some s)
  end.

(** [panic] and the loop that prints for ever are [Bug]. *)
(* arch/i386/trap.c:85-161 pf_handler *)
Definition pf_handler (fault_code addr map : Z) (s : faults) : outcome faults :=
  if decide (dfault s ≠ 0) then Bug else
  if decide (Z.land fault_code PFLT_USER ≠ 0) then
    r ← repair (Z.to_nat (m_nmma (maps (fms s) map))) map 0 addr (fms s);
    match r with
    | Some m => Ok (Faults m (dfault s + 1 - 1))
    | None => Bug
    end
  else Bug.

(** ** Growing *)

(** What growing by [n] pages does to an area; the others are kept. *)
Definition grown (n : Z) (a : mem_area) : mem_area :=
  if has MMA_STACK (m_flags a)
  then Mma (u32 (m_start a - PAGE_SIZE * n)) (m_end a) (m_sizelim a) (u32 (m_pages a + n)) (m_users a) (m_prot a) (m_flags a) (m_original a) (m_map a)
  else Mma (m_start a) (u32 (m_end a + PAGE_SIZE * n)) (m_sizelim a) (u32 (m_pages a + n)) (m_users a) (m_prot a) (m_flags a) (m_original a) (m_map a).

Lemma grown_0 a : is_u32 (m_start a) → is_u32 (m_end a) → is_u32 (m_pages a) → grown 0 a = a.
Proof.
  intros H1 H2 H3. unfold grown. rewrite Z.mul_0_r, Z.sub_0_r, !Z.add_0_r, !u32_small by done. by destruct a, (has _ _).
Qed.
Lemma grown_S n a : grown n (grown 1 a) = grown (n + 1) a.
Proof.
  unfold grown. rewrite !Z.mul_1_r. destruct (has MMA_STACK (m_flags a)) eqn:E; cbn; rewrite E; f_equal;
    rewrite ?u32_sub_l, ?u32_add_l; f_equal; lia.
Qed.

Lemma add_page_grows mma pg s s' :
  mem_area_add_page mma pg s = Ok s' →
  mmas s' mma = grown 1 (mmas s mma) ∧ (∀ b, b ≠ mma → mmas s' b = mmas s b) ∧ maps s' = maps s.
Proof.
  unfold mem_area_add_page. destruct (klist0_empty _ _); [|done]. intros [= <-]. unfold __mem_area_add_page, grown.
  rewrite Z.mul_1_r. cbn. destruct (has MMA_STACK (m_flags (mmas s mma))); cbn; rewrite decide_True by done;
    (split_and!; [done| |done]); intros b Hb; by rewrite decide_False.
Qed.

Lemma grow_loop_grows n mma s s' :
  is_u32 (m_start (mmas s mma)) → is_u32 (m_end (mmas s mma)) → is_u32 (m_pages (mmas s mma)) →
  grow_loop n mma s = Ok s' →
  mmas s' mma = grown (Z.of_nat n) (mmas s mma) ∧ (∀ b, b ≠ mma → mmas s' b = mmas s b) ∧ maps s' = maps s.
Proof.
  revert s. induction n as [|n IH]; intros s H1 H2 H3 E; cbn [grow_loop] in E.
  { injection E as <-. by rewrite grown_0. }
  bind_inv E as [pg p] Ha. destruct pg as [pg|]; [|done]. bind_inv E as s1 Hs1.
  apply add_page_grows in Hs1 as (G1 & K1 & M1). change (mmas (with_mpa p s)) with (mmas s) in G1, K1.
  apply IH in E as (G & K & M); cbn [mmas mmap_page with_mwords maps] in *.
  - split_and!; [|intros b Hb; by rewrite K, K1|by rewrite M, M1].
    rewrite G, G1, grown_S. f_equal. lia.
  - rewrite G1. unfold grown. destruct (has _ _); cbn; [apply u32_range|done].
  - rewrite G1. unfold grown. destruct (has _ _); cbn; [done|apply u32_range].
  - rewrite G1. unfold grown. destruct (has _ _); cbn; apply u32_range.
Qed.

(** A distance below the 32-bit limit is covered by its pages; a whole number
    of pages, but not none, only just. *)
Lemma pages_for_covers d :
  0 ≤ d → d + PAGE_SIZE < 2 ^ 32 → d ≤ PAGE_SIZE * pages_for d ∧ 0 < PAGE_SIZE * pages_for d ≤ d + PAGE_SIZE ∧ (0 < d → PAGE_SIZE * pages_for d < d + PAGE_SIZE) ∧
  (d mod PAGE_SIZE ≠ 0 ∨ d = 0 → d < PAGE_SIZE * pages_for d).
Proof.
  intros H0 H1. unfold pages_for. assert (PAGE_SIZE = 4096) as HP by done. unfold PAGE_MASK.
  set (e := if decide (d = 0) then PAGE_SIZE else d). assert (0 < e ∧ d ≤ e ∧ e + PAGE_SIZE ≤ 2 ^ 32 - 1 + 1) as He.
  { unfold e. case_decide; lia. }
  rewrite u32_small by (unfold is_u32; lia). rewrite Z.shiftr_div_pow2 by done. change (2 ^ PAGE_SHIFT) with PAGE_SIZE.
  pose proof (Z_div_mod_eq_full (e + (PAGE_SIZE - 1)) PAGE_SIZE) as Hd.
  pose proof (Z.mod_pos_bound (e + (PAGE_SIZE - 1)) PAGE_SIZE ltac:(lia)) as Hm.
  split_and!; [lia|lia|unfold e in *; case_decide; lia|intros Hpos; unfold e in *; case_decide; lia|].
  intros Hn. destruct (decide (d = 0)) as [->|Hd0]; [unfold e in *; lia|].
  destruct Hn as [Hn|]; [|done]. unfold e in *.
  destruct (decide (d = PAGE_SIZE * ((d + (PAGE_SIZE - 1)) / PAGE_SIZE))) as [Heq|]; [|lia].
  exfalso. apply Hn. rewrite Heq, Z.mul_comm. by apply Z_mod_mult.
Qed.

(** The areas before number [i] do not grow for [addr]. *)
Definition passed (map i addr : Z) (s : ms) : Prop :=
  ∀ j, 0 ≤ j < i → let a := mmas s (m_mma (maps s map) j) in mem_area_is_hit a addr = true ∨ mem_area_hit_offset a addr = NOPAGE_ADDR.

Lemma repair_at n map k i addr s s' (mma := m_mma (maps s map) i) :
  0 ≤ k ≤ i → i < k + Z.of_nat n → passed map i addr s → mem_area_is_hit (mmas s mma) addr = false →
  mem_area_hit_offset (mmas s mma) addr ≠ NOPAGE_ADDR →
  mem_area_grow mma (pages_for (mem_area_hit_offset (mmas s mma) addr)) s = Ok s' →
  repair n map k addr s = Ok (Some s').
Proof.
  intros Hk Hn Hp Hh Hd Hg. revert k Hk Hn. induction n as [|n IH]; intros k Hk Hn; [lia|]. cbn [repair].
  destruct (decide (k = i)) as [->|Hne].
  - fold mma. rewrite Hh, decide_False by done. by rewrite Hg.
  - destruct (Hp k ltac:(lia)) as [->|Hp']; [apply IH; lia|].
    destruct (mem_area_is_hit (mmas s (m_mma (maps s map) k)) addr); [apply IH; lia|]. rewrite decide_True by done. apply IH; lia.
Qed.

(** An area within the address space, with page-aligned ends. *)
Definition area_ok (a : mem_area) : Prop :=
  0 ≤ m_start a ≤ m_end a ∧ m_end a < 2 ^ 32 - PAGE_SIZE ∧ is_u32 (m_pages a) ∧ (PAGE_SIZE | m_start a) ∧ (PAGE_SIZE | m_end a).

Lemma stack_covers a addr :
  area_ok a → has MMA_STACK (m_flags a) = true → 0 ≤ m_sizelim a ≤ m_end a → is_u32 addr → mem_area_is_hit a addr = false →
  mem_area_hit_offset a addr ≠ NOPAGE_ADDR → mem_area_is_hit (grown (pages_for (mem_area_hit_offset a addr)) a) addr = true.
Proof.
  intros (Hs & He & _ & Hd & _) Hf Hl [Ha0 Ha1] Hh Ho. unfold mem_area_hit_offset in *. rewrite Hf in *. assert (PAGE_SIZE = 4096) as HP by done.
  unfold mem_area_is_hit in Hh. rewrite bool_decide_eq_false in Hh.
  rewrite (u32_small (m_end a - m_sizelim a)) in * by (unfold is_u32; lia).
  revert Ho. case_decide as Hin; [|done]. intros _. assert (addr < m_start a) as Hlt by lia.
  rewrite (u32_small (m_start a - addr)) by (unfold is_u32; lia).
  destruct (pages_for_covers (m_start a - addr)) as (Hc & _ & Hc2 & _); [lia..|]. specialize (Hc2 ltac:(lia)).
  set (n := pages_for (m_start a - addr)) in *. unfold mem_area_is_hit, grown. rewrite Hf. cbn. apply bool_decide_eq_true.
  destruct Hd as [k Hk].
  assert (0 ≤ m_start a - PAGE_SIZE * n) by nia. rewrite u32_small by (unfold is_u32; lia). lia.
Qed.

Lemma heap_covers a addr :
  area_ok a → has MMA_STACK (m_flags a) = false → has MMA_GROWS (m_flags a) = true → 0 ≤ m_sizelim a → 
  m_start a + m_sizelim a < 2 ^ 32 - PAGE_SIZE → is_u32 addr → mem_area_is_hit a addr = false →
  mem_area_hit_offset a addr ≠ NOPAGE_ADDR →
  let a' := grown (pages_for (mem_area_hit_offset a addr)) a in
  if decide (addr = m_end a ∨ addr mod PAGE_SIZE ≠ 0) then mem_area_is_hit a' addr = true else m_end a' = addr.
Proof.
  intros (Hs & He & _ & _ & Hd) Hf Hg Hl Hl2 [Ha0 Ha1] Hh Ho. unfold mem_area_hit_offset in *. rewrite Hf, Hg in *.
  assert (PAGE_SIZE = 4096) as HP by done.
  unfold mem_area_is_hit in Hh. rewrite bool_decide_eq_false in Hh. rewrite (u32_small (m_start a + m_sizelim a)) in * by (unfold is_u32; lia).
  revert Ho. case_decide as Hin; [|done]. intros _. assert (m_end a ≤ addr) as Hge by lia. rewrite (u32_small (addr - m_end a)) by (unfold is_u32; lia).
  destruct (pages_for_covers (addr - m_end a)) as (Hc & Hc2 & Hc4 & Hc3); [lia..|].
  set (n := pages_for (addr - m_end a)) in *. cbv zeta. unfold mem_area_is_hit, grown. rewrite Hf. cbn.
  destruct Hd as [k Hk].
  assert ((addr - m_end a) mod PAGE_SIZE = addr mod PAGE_SIZE) as Hmod.
  { rewrite Hk. replace (addr - k * PAGE_SIZE) with (addr + (- k) * PAGE_SIZE) by lia. apply Z_mod_plus_full. }
  rewrite u32_small by (unfold is_u32; lia). case_decide as Hd.
  - apply bool_decide_eq_true. rewrite Hmod in Hc3. assert (addr - m_end a < PAGE_SIZE * n); [apply Hc3|lia].
    destruct Hd as [->|Hd]; [right; lia|by left].
  - assert (addr mod PAGE_SIZE = 0) as Hz by (destruct (decide (addr mod PAGE_SIZE = 0)); [done|exfalso; apply Hd; by right]).
    pose proof (Z_div_mod_eq_full addr PAGE_SIZE). rewrite Hz in *. assert (m_end a ≠ addr) by (intros <-; apply Hd; by left). nia.
Qed.


(** A stack of one page below 0x80000000 that may grow to 15, and user pages. *)
Definition small_stack : faults :=
  Faults (Ms (Sl (mem_zone_init 1 zone16) empty_heap (λ _ _, 0) (λ _, SlicePool 40 0)) flat_words (λ _, 0)
            (λ _, Mapping (2 ^ 22) (2 ^ 23) (λ _, 1) 1)
            (λ _, Mma 0x7ffff000 0x80000000 0xf000 1 1 2 (Z.lor MMA_RW MMA_STACK) 0 1) 0) 0.
Lemma small_stack_grows : ∃ s', mem_area_grow 1 2 (fms small_stack) = Ok s'.
Proof.
  assert (match mem_area_grow 1 2 (fms small_stack) with Ok _ => true | _ => false end = true) as H by (vm_compute; reflexivity).
  destruct (mem_area_grow 1 2 (fms small_stack)) as [s'| | |]; [|discriminate H..]. by exists s'.
Defined.


(** The fault one page above the end of a heap adds that one page and ends the
    heap at the address. *)
Example heap_grows_short :
  pages_for PAGE_SIZE = 1 ∧ pages_for 0 = 1 ∧ pages_for (PAGE_SIZE + 1) = 2.
Proof. by vm_compute. Qed.
