(* ===== verification/Profile.v ===== *)
(** * The profiler and the system request keys (kernel/debug/profile.c,
      include/profiler.h, kernel/debug/sysrq.c, kernel/symtab.c, include/symtab.h)

    The state machine that logs the entry and the exit of functions between
    triggers, with its event log; the keys that list threads; the table of
    symbols.  The triggers and the symbols come with the configuration of the
    kernel and are parameters. *)

From S2P Require Import Prelude Klib Sched.

(** ** The profiler *)

(* include/profiler.h:28-31 PROF_ENTRY *)
Definition PROF_ENTRY : Z := 0.
Definition PROF_EXIT : Z := 1.
(* include/profiler.h:36-38 PROF_DUMP *)
Definition PROF_DUMP : Z := 0x1.
Definition PROF_START : Z := 0x2.
Definition PROF_STOP : Z := 0x4.
(* include/profiler.h:43-47 prof_trigger *)
Record prof_trigger := Trigger { tfunction : Z; tflags : Z; ttype : Z }.
(* kernel/debug/profile.c:34-39 prof_event *)
Record prof_event := Event { efunction : Z; call_site : Z; time : Z; etype : Z }.
(* kernel/debug/profile.c:47-53 PROFILER_BOOTUP *)
Inductive prof_mode := PROFILER_BOOTUP | PROFILER_STOPPED | PROFILER_RUNNING | PROFILER_NEEDFLUSH | PROFILER_BUSY.
#[global] Instance prof_mode_eq_dec : EqDecision prof_mode.
Proof. solve_decision. Defined.

(** What is printed: an event with its time, its call site, whether the line
    says "enters", and its function; or the calls counted during boot. *)
Inductive line := EventLine (time call_site : Z) (enters : bool) (function : Z) | BootupLine (calls : Z).

(** The log with its top, the mode, the count of calls during boot, the lines
    printed, [jiffies] and whether the machine runs. *)
Record prof := Prof {
  events : Z → prof_event; top : Z; mode : prof_mode; bootup_fn : Z; printed : list line; pjiffies : Z; mach_running : bool }.

Definition set_mode (m : prof_mode) (s : prof) : prof := Prof (events s) (top s) m (bootup_fn s) (printed s) (pjiffies s) (mach_running s).

Section profile.
Context (triggers : list prof_trigger) (PROFBUF_MAX : Z).

(* kernel/debug/profile.c:66-67 overflow *)
Definition overflow (s : prof) : bool := negb (bool_decide (top s < PROFBUF_MAX)).

Definition line_of (e : prof_event) : line := EventLine (time e) (call_site e) (bool_decide (etype e = 1)) (efunction e).

(* kernel/debug/profile.c:81-94 dump_events *)
Definition dump_events (t : Z) (s : prof) : prof :=
  Prof (events s) (top s) (mode s) (bootup_fn s) (printed s ++ (line_of ∘ events s <$> seqZ 0 t)) (pjiffies s) (mach_running s).

(* kernel/debug/profile.c:96-103 flush_events *)
Definition flush_events (s : prof) : prof :=
  let s := dump_events (top s) s in
  Prof (events s) 0 (mode s) (bootup_fn s) (printed s) (pjiffies s) (mach_running s).

(* kernel/debug/profile.c:109-113 NOW *)
Definition NOW (s : prof) : Z := u32 (pjiffies s).

(** The first trigger of the event with the flag, if any. *)
Definition matching (flag func type : Z) (t : prof_trigger) : bool :=
  bool_decide (ttype t = type) && bool_decide (tfunction t = func) && bool_decide (Z.land (tflags t) flag ≠ 0).
Definition trigger (flag func type : Z) (s : prof) : bool * prof :=
  match list_find (λ t, matching flag func type t = true) triggers with
  | Some (_, t) => (true, if decide (Z.land (tflags t) PROF_DUMP ≠ 0) then flush_events s else s)
  | None => (false, s)
  end.

(* kernel/debug/profile.c:115-137 start_trigger *)
Definition start_trigger (func type : Z) (s : prof) : bool * prof := trigger PROF_START func type s.
(* kernel/debug/profile.c:139-161 stop_trigger *)
Definition stop_trigger (func type : Z) (s : prof) : bool * prof := trigger PROF_STOP func type s.

(* kernel/debug/profile.c:163-180 log_event *)
Definition log_event (this_fn site type : Z) (s : prof) : prof :=
  if overflow s then set_mode PROFILER_NEEDFLUSH s
  else
    let e := Event this_fn site (NOW s) type in
    let t := u32 (top s + 1) in
    Prof (λ i, if decide (i = top s) then e else events s i) t (if decide (t = PROFBUF_MAX) then PROFILER_NEEDFLUSH else mode s)
      (bootup_fn s) (printed s) (pjiffies s) (mach_running s).

(** The cases of the switch, the later ones first. *)
Definition profile_running (this_fn site type : Z) (s : prof) : prof :=
  let s := log_event this_fn site type s in
  let s := if decide (mode s = PROFILER_NEEDFLUSH) then flush_events s else s in
  let '(b, s) := stop_trigger this_fn type s in
  if b then set_mode PROFILER_STOPPED s else s.
Definition profile_stopped (this_fn site type : Z) (s : prof) : prof :=
  let '(b, s) := start_trigger this_fn type s in
  if b then profile_running this_fn site type (set_mode PROFILER_RUNNING s) else s.

(* kernel/debug/profile.c:182-234 do_profile *)
Definition do_profile (this_fn site type : Z) (s : prof) : prof :=
  match mode s with
  | PROFILER_BUSY => s
  | PROFILER_BOOTUP =>
      if mach_running s then profile_stopped this_fn site type
        (Prof (events s) (top s) PROFILER_STOPPED (bootup_fn s) (printed s ++ [BootupLine (bootup_fn s)]) (pjiffies s) (mach_running s))
      else Prof (events s) (top s) (mode s) (u32 (bootup_fn s + (if decide (type = PROF_ENTRY) then 1 else 0))) (printed s) (pjiffies s)
             (mach_running s)
  | PROFILER_STOPPED => profile_stopped this_fn site type s
  | PROFILER_NEEDFLUSH => profile_running this_fn site type (flush_events s)
  | PROFILER_RUNNING => profile_running this_fn site type s
  end.

(* kernel/debug/profile.c:239-242 __cyg_profile_func_enter *)
Definition __cyg_profile_func_enter (this_fn site : Z) : prof → prof := do_profile this_fn site PROF_ENTRY.
(* kernel/debug/profile.c:244-247 __cyg_profile_func_exit *)
Definition __cyg_profile_func_exit (this_fn site : Z) : prof → prof := do_profile this_fn site PROF_EXIT.

(** ** A log without a buffer *)

(** Whether a trigger with the flag matches. *)
Definition hit (flag func type : Z) : bool := existsb (matching flag func type) triggers.

(** The specification: logging is on or off, and what was logged so far. *)
Record spec := Spec { logging : bool; logged : list prof_event }.
Definition spec_step (e : prof_event) (p : spec) : spec :=
  if logging p || hit PROF_START (efunction e) (etype e)
  then Spec (negb (hit PROF_STOP (efunction e) (etype e))) (logged p ++ [e]) else p.

(** The lines printed and the log together are what was logged; the log has
    room for an event. *)
Record prof_rel (s : prof) (p : spec) : Prop := ProfRel {
  pr_top : 0 ≤ top s < PROFBUF_MAX;
  pr_mode : if logging p then mode s = PROFILER_RUNNING ∨ mode s = PROFILER_NEEDFLUSH else mode s = PROFILER_STOPPED;
  pr_log : printed s ++ (line_of ∘ events s <$> seqZ 0 (top s)) = line_of <$> logged p }.

Context (Hmax : 1 ≤ PROFBUF_MAX < 2 ^ 32).

Lemma flush_rel s p : prof_rel s p → prof_rel (flush_events s) p.
Proof using Hmax.
  intros [Ht Hm Hl]. split; cbn; [lia|done|]. by rewrite app_nil_r.
Qed.
Lemma trigger_rel flag func type s p :
  prof_rel s p → ∃ s', trigger flag func type s = (hit flag func type, s') ∧ prof_rel s' p ∧ mode s' = mode s ∧ pjiffies s' = pjiffies s.
Proof using Hmax.
  intros Hr. unfold trigger, hit. destruct (list_find _ triggers) as [[i t]|] eqn:E.
  - apply list_find_Some in E as (Hi & Hmt & _).
    assert (existsb (matching flag func type) triggers = true) as ->.
    { apply existsb_exists. exists t. split; [|done]. apply list_elem_of_In. by eapply list_elem_of_lookup_2. }
    case_decide; eexists; (split; [done|]); [split; [by apply flush_rel|done]|done].
  - apply list_find_None in E. assert (existsb (matching flag func type) triggers = false) as ->.
    { apply not_true_is_false. intros (t & Hin & Ht)%existsb_exists. rewrite Forall_forall in E.
      apply (E t); [by apply list_elem_of_In|done]. }
    by eexists.
Qed.

Lemma seqZ_snoc n : 0 ≤ n → seqZ 0 (n + 1) = seqZ 0 n ++ [n].
Proof using.
  intros Hn. by rewrite seqZ_app by lia.
Qed.

(** Logging an event when there is room for it. *)
Lemma running_rel fn site type s p (e := Event fn site (NOW s) type) :
  prof_rel s (Spec true (logged p)) →
  prof_rel (profile_running fn site type s) (Spec (negb (hit PROF_STOP fn type)) (logged p ++ [e])).
Proof using Hmax.
  intros [Ht Hm Hl]. unfold profile_running. set (s1 := log_event fn site type s).
  assert (prof_rel (if decide (mode s1 = PROFILER_NEEDFLUSH) then flush_events s1 else s1) (Spec true (logged p ++ [e]))) as Hr.
  { assert (s1 = Prof (λ i, if decide (i = top s) then e else events s i) (top s + 1)
                   (if decide (top s + 1 = PROFBUF_MAX) then PROFILER_NEEDFLUSH else mode s) (bootup_fn s) (printed s) (pjiffies s) (mach_running s)) as Hs1.
    { unfold s1, log_event, overflow. rewrite bool_decide_true by lia. cbn. by rewrite !u32_small by (unfold is_u32; lia). }
    assert (printed s1 ++ (line_of ∘ events s1 <$> seqZ 0 (top s1)) = line_of <$> logged p ++ [e]) as Hl1.
    { rewrite Hs1. cbn [printed events top]. rewrite seqZ_snoc by lia. rewrite !fmap_app, app_assoc.
      cbn [logged] in Hl. rewrite <- Hl. f_equal; [f_equal|].
      - apply list_fmap_ext. intros i x Hx. apply lookup_seqZ in Hx as [-> Hx]. unfold compose. by rewrite decide_False by lia.
      - cbn [fmap list_fmap]. unfold compose. by rewrite decide_True. }
    destruct (decide (mode s1 = PROFILER_NEEDFLUSH)) as [Hd|Hd].
    - split; [change (0 ≤ 0 < PROFBUF_MAX); lia|by right|].
      change (printed (flush_events s1)) with (printed s1 ++ (line_of ∘ events s1 <$> seqZ 0 (top s1))).
      change (top (flush_events s1)) with 0. by rewrite app_nil_r.
    - rewrite Hs1 in Hd |- *. split; cbn [top mode printed events logging logged] in *; [|by case_decide|by rewrite Hs1 in Hl1].
      case_decide; [done|]. lia. }
  set (s2 := if decide _ then _ else _) in *. unfold stop_trigger.
  destruct (trigger_rel PROF_STOP fn type s2 _ Hr) as (s3 & -> & [Ht3 Hm3 Hl3] & _).
  destruct (hit PROF_STOP fn type); by split.
Qed.
End profile.

(** ** Whole runs *)

(** A call of an instrumented function or its return, at a time. *)
Record call := Call { c_fn : Z; c_site : Z; c_type : Z; c_jiffies : Z }.
Definition at_time (j : Z) (s : prof) : prof := Prof (events s) (top s) (mode s) (bootup_fn s) (printed s) j (mach_running s).
Definition profile_call (triggers : list prof_trigger) (MAX : Z) (s : prof) (c : call) : prof :=
  do_profile triggers MAX (c_fn c) (c_site c) (c_type c) (at_time (c_jiffies c) s).
Definition event_of (c : call) : prof_event := Event (c_fn c) (c_site c) (u32 (c_jiffies c)) (c_type c).

Lemma profile_call_rel triggers MAX s p c :
  1 ≤ MAX < 2 ^ 32 → prof_rel MAX s p → prof_rel MAX (profile_call triggers MAX s c) (spec_step triggers (event_of c) p).
Proof.
  intros HM Hr. assert (prof_rel MAX (at_time (c_jiffies c) s) p) as H0 by (by destruct Hr; split).
  unfold profile_call. set (s0 := at_time (c_jiffies c) s) in *. pose proof (pr_mode _ _ _ H0) as Hm.
  unfold spec_step. cbn [efunction etype event_of].
  change (event_of c) with (Event (c_fn c) (c_site c) (NOW s0) (c_type c)).
  destruct p as [on log]. cbn [logging logged] in *. destruct on; cbn [orb].
  - assert (∀ s1, prof_rel MAX s1 (Spec true log) → NOW s1 = NOW s0 →
      prof_rel MAX (profile_running triggers MAX (c_fn c) (c_site c) (c_type c) s1)
        (Spec (negb (hit triggers PROF_STOP (c_fn c) (c_type c))) (log ++ [Event (c_fn c) (c_site c) (NOW s0) (c_type c)]))) as H.
    { intros s1 H1 <-. by apply (running_rel triggers MAX HM _ _ _ s1 (Spec true log)). }
    unfold do_profile. destruct Hm as [-> | ->]; apply H; try done. by apply flush_rel.
  - unfold do_profile. rewrite Hm. unfold profile_stopped, start_trigger.
    destruct (trigger_rel triggers MAX HM PROF_START (c_fn c) (c_type c) s0 _ H0) as (s1 & -> & H1 & _ & Hj).
    destruct (hit triggers PROF_START (c_fn c) (c_type c)); [|done].
    assert (prof_rel MAX (set_mode PROFILER_RUNNING s1) (Spec true log)) as H2 by (destruct H1; split; try done; by left).
    replace (NOW s0) with (NOW (set_mode PROFILER_RUNNING s1)) by (unfold NOW; cbn; by rewrite Hj).
    by apply (running_rel triggers MAX HM _ _ _ _ (Spec true log)).
Qed.

(** C28: The profiler loses no event: after any run of calls and returns, the
    lines printed followed by those still in the buffer are exactly the events
    between a start trigger and a stop trigger, both included, in order; the
    buffer never overflows. *)
Theorem profiler_refines triggers MAX s calls :
  1 ≤ MAX < 2 ^ 32 → mode s = PROFILER_STOPPED → top s = 0 → printed s = [] →
  let s' := foldl (profile_call triggers MAX) s calls in
  0 ≤ top s' < MAX ∧
  printed s' ++ (line_of ∘ events s' <$> seqZ 0 (top s')) =
    line_of <$> logged (foldl (λ p e, spec_step triggers e p) (Spec false []) (event_of <$> calls)).
Proof.
  intros HM Hm Ht Hp s'. assert (prof_rel MAX s (Spec false [])) as H.
  { split; cbn; [rewrite Ht; lia|done|]. by rewrite Ht, Hp. }
  assert (prof_rel MAX s' (foldl (λ p e, spec_step triggers e p) (Spec false []) (event_of <$> calls))) as [H1 _ H3]; [|done].
  unfold s'. clear -HM H. revert s H. generalize (Spec false []). induction calls as [|c calls IH]; intros p s H; [done|].
  cbn [foldl fmap list_fmap]. by apply IH, profile_call_rel.
Qed.

(** A buffer of two events; function 7 is logged from its entry to its exit. *)
Definition quiet_prof : prof := Prof (λ _, Event 0 0 0 0) 0 PROFILER_STOPPED 0 [] 0 true.
Definition around_7 : list prof_trigger := [Trigger 7 PROF_START PROF_ENTRY; Trigger 7 PROF_STOP PROF_EXIT].
Definition run_7 : list call := [Call 5 1 0 1; Call 7 1 0 2; Call 8 7 0 3; Call 8 7 1 4; Call 7 1 1 5; Call 5 1 1 6].
Lemma profiler_refines_witness :
  let s' := foldl (profile_call around_7 2) quiet_prof run_7 in
  printed s' ++ (line_of ∘ events s' <$> seqZ 0 (top s')) =
    [EventLine 2 1 false 7; EventLine 3 7 false 8; EventLine 4 7 true 8; EventLine 5 1 true 7].
Proof.
  destruct (profiler_refines around_7 2 quiet_prof run_7) as [_ H]; [lia|reflexivity..|]. cbv zeta. rewrite H. vm_compute. reflexivity.
Defined.

(** The lines name entries and exits the wrong way round: PROF_ENTRY is 0. *)
Lemma dump_reversed f site t : line_of (Event f site t PROF_ENTRY) = EventLine t site false f ∧ line_of (Event f site t PROF_EXIT) = EventLine t site true f.
Proof. done. Qed.

(** Once the log has been full, every event is printed at once, whatever room
    the log has, until a stop trigger. *)
Lemma needflush_stays triggers MAX f site type s :
  mode s = PROFILER_NEEDFLUSH → 1 ≤ MAX < 2 ^ 32 → hit triggers PROF_STOP f type = false →
  mode (do_profile triggers MAX f site type s) = PROFILER_NEEDFLUSH ∧ top (do_profile triggers MAX f site type s) = 0.
Proof.
  intros Hm HM Hh. unfold do_profile. rewrite Hm. unfold profile_running.
  assert (mode (log_event MAX f site type (flush_events s)) = PROFILER_NEEDFLUSH) as Hl.
  { unfold log_event. destruct (overflow MAX (flush_events s)); [done|]. cbn [mode flush_events dump_events]. by case_decide. }
  rewrite decide_True by done. unfold stop_trigger, trigger.
  destruct (list_find _ triggers) as [[i t]|] eqn:E; [exfalso|done].
  apply list_find_Some in E as (Hi & Ht & _). apply not_true_iff_false in Hh. apply Hh, existsb_exists.
  exists t. split; [|done]. apply list_elem_of_In. by eapply list_elem_of_lookup_2.
Qed.

(** Calls made while the profiler prints are ignored. *)
Lemma busy_ignored triggers MAX f site type s : mode s = PROFILER_BUSY → do_profile triggers MAX f site type s = s.
Proof. intros H. unfold do_profile. by rewrite H. Qed.

(** ** System request keys *)

(** What a key does. *)
Inductive request := Inodes | Threads (flags : Z) | Flush | Usage.

(** [n] is an unsigned char, the kernel being built with -funsigned-char;
    [sysrq_acq] in and out; [profiler] is OPT_INSTRUMENT_PROFILER. *)
(* kernel/debug/sysrq.c:44-95 sysrq_hit *)
Definition sysrq_hit (profiler : bool) (n acq : Z) : Z * Z * option request :=
  if decide (n = 0xff) then (1, acq + 1, None)
  else if decide (acq ≠ 0) then
    let r :=
      if decide (n = 102) then Inodes                                                                    (* f *)
      else if decide (n = 109) then Threads (Z.lor (Z.lor LIST_MAPPING LIST_BACKTRACE) LIST_CURRENT)     (* m *)
      else if decide (n = 80) then Threads (Z.lor LIST_BACKTRACE LIST_CURRENT)                           (* P *)
      else if decide (n = 112) then Threads LIST_CURRENT                                                 (* p *)
      else if decide (n = 77) then Threads (Z.lor LIST_MAPPING LIST_BACKTRACE)                           (* M *)
      else if decide (n = 84) then Threads LIST_BACKTRACE                                                (* T *)
      else if decide (n = 116) then Threads 0                                                            (* t *)
      else if profiler then (if decide (n = 121 ∨ n = 89) then Flush else Usage)                         (* y, Y *)
      else Usage in
    (1, 0, Some r)
  else (0, acq, None).

(** A key is taken from the input exactly after a system request, and then one
    only. *)
Lemma sysrq_hit_takes profiler n acq :
  0 ≤ acq → let '(taken, acq', r) := sysrq_hit profiler n acq in
  (taken = 1 ↔ n = 0xff ∨ acq ≠ 0) ∧ (is_Some r ↔ n ≠ 0xff ∧ acq ≠ 0) ∧ (is_Some r → acq' = 0).
Proof.
  intros Ha. unfold sysrq_hit. destruct (decide (n = 0xff)) as [->|Hn]; [|destruct (decide (acq ≠ 0)) as [Hz|Hz]].
  - split_and!; [naive_solver|split; [by intros []|by intros []]|by intros []].
  - split_and!; [naive_solver|split; [done|by eexists]|done].
  - split_and!; [naive_solver|split; [by intros []|by intros []]|by intros []].
Qed.

(** ** The table of symbols *)

(* include/symtab.h:23-28 symbol *)
Record symbol := Symbol { sy_addr : Z; sy_size : Z; sy_section : Z; sy_name : Z }.

Section symtab.
Context (symbol_table : list symbol) (start_addr end_addr : Z).

(* include/symtab.h:35-40 SYMTAB_IS_HIT *)
Definition SYMTAB_IS_HIT (s : symbol) (addr : Z) : bool :=
  bool_decide (sy_addr s ≤ addr) && bool_decide (addr ≤ u32 (sy_addr s + sy_size s)).

(** The loops start at index [i]; the table holds [total_symbols] entries. *)
Fixpoint lookup_addr_loop (table : list symbol) (addr i : Z) : Z :=
  match table with
  | [] => 0
  | s :: table => if SYMTAB_IS_HIT s addr then i else lookup_addr_loop table addr (i + 1)
  end.

(* kernel/symtab.c:26-38 symtab_lookup_addr *)
Definition symtab_lookup_addr (addr : Z) : Z :=
  if decide (addr < start_addr ∨ end_addr < addr) then 0 else lookup_addr_loop symbol_table addr 0.

Fixpoint lookup_name_loop (fuel : nat) (m : memory) (table : list symbol) (name i : Z) : outcome Z :=
  match table with
  | [] => Ok 0
  | s :: table => d ← kstrcmp fuel m (sy_name s) name; if decide (d = 0) then Ok i else lookup_name_loop fuel m table name (i + 1)
  end.

(** [fuel] bounds the length of the strings. *)
(* kernel/symtab.c:40-49 symtab_lookup_name *)
Definition symtab_lookup_name (fuel : nat) (m : memory) (name : Z) : outcome Z := lookup_name_loop fuel m symbol_table name 0.

Lemma lookup_addr_loop_first table addr i k :
  0 ≤ k → (∃ s, table !! Z.to_nat k = Some s ∧ SYMTAB_IS_HIT s addr = true) →
  (∀ j s, 0 ≤ j < k → table !! Z.to_nat j = Some s → SYMTAB_IS_HIT s addr = false) →
  lookup_addr_loop table addr i = i + k.
Proof using.
  revert i k. induction table as [|x table IH]; intros i k Hk (s & Hs & Hh) Hn; [done|]. cbn [lookup_addr_loop].
  destruct (decide (k = 0)) as [->|Hk0].
  - injection Hs as ->. rewrite Hh. lia.
  - rewrite (Hn 0 x) by (done || lia). rewrite (IH _ (k - 1)); [lia|lia| |].
    + exists s. split; [|done]. by replace (Z.to_nat k) with (S (Z.to_nat (k - 1))) in Hs by lia.
    + intros j s' Hj Hs'. apply (Hn (j + 1)); [lia|]. by replace (Z.to_nat (j + 1)) with (S (Z.to_nat j)) by lia.
Qed.

(** In the range of the table the first symbol that holds the address is
    found. *)
Lemma symtab_lookup_addr_first addr k :
  start_addr ≤ addr ≤ end_addr → 0 ≤ k →
  (∃ s, symbol_table !! Z.to_nat k = Some s ∧ SYMTAB_IS_HIT s addr = true) →
  (∀ j s, 0 ≤ j < k → symbol_table !! Z.to_nat j = Some s → SYMTAB_IS_HIT s addr = false) →
  symtab_lookup_addr addr = k.
Proof using.
  intros Ha Hk H1 H2. unfold symtab_lookup_addr. rewrite decide_False by lia. by rewrite (lookup_addr_loop_first _ _ _ k).
Qed.
End symtab.

(** The address right behind a function belongs to the next one, but is found
    in the first. *)
Example symtab_off_by_one :
  symtab_lookup_addr [Symbol 0 0 0 0; Symbol 100 50 0 0; Symbol 150 10 0 0] 100 160 150 = 1 ∧
  symtab_lookup_addr [Symbol 0 0 0 0; Symbol 100 50 0 0; Symbol 150 10 0 0] 100 160 151 = 2.
Proof. by vm_compute. Qed.
