(* ===== verification/Keyboard.v ===== *)
(** * The keyboard (drivers/keyboard/pc-kbd.c, drivers/keyboard/table.h)

    The ring buffer between the interrupt and the reader, on top of the
    scheduler.  [pending] is the queue the two indices mean; the theorem says
    when the driver implements it, the examples where it does not. *)

From S2P Require Import Prelude KList Sched.

(* drivers/keyboard/pc-kbd.c:35-37 KEYBOARD_IRQ *)
Definition KEYBOARD_IRQ : Z := 1.
Definition KEYBOARD_IO : Z := 0x60.
Definition KEYBOARD_BUFSIZE : Z := 10.

(** The key symbols by their values. *)
(* drivers/keyboard/table.h:26-133 pckbd_sctrans *)
Definition pckbd_sctrans : list Z :=
  [0x0; 0x1b; 0x21; 0x40; 0x23; 0x24; 0x25; 0x5e; 0x26; 0x2a; 0x28; 0x29; 0x5f; 0x2b; 0x7f; 0x9; 0x71; 0x77; 0x65;
   0x72; 0x74; 0x79; 0x75; 0x69; 0x6f; 0x70; 0x7b; 0x7d; 0xd; 0xf103; 0x61; 0x73; 0x64; 0x66; 0x67; 0x68; 0x6a; 0x6b;
   0x6c; 0x3a; 0x22; 0x7e; 0xf101; 0x7c; 0x7a; 0x78; 0x63; 0x76; 0x62; 0x6e; 0x6d; 0x3c; 0x3e; 0x3f; 0xf102; 0xf22a;
   0xf107; 0x20; 0xf105; 0xf300; 0xf301; 0xf302; 0xf303; 0xf304; 0xf305; 0xf306; 0xf307; 0xf308; 0xf309; 0xf10b;
   0xf10c; 0xf237; 0xf238; 0xf239; 0xf22d; 0xf234; 0xf235; 0xf236; 0xf22b; 0xf231; 0xf232; 0xf233; 0xf230; 0xf22e;
   0xf30a; 0xf30b; 0xf3c1; 0xf20d; 0xf104; 0xf3c2; 0xf22f; 0xf3c2; 0xf109; 0xf381; 0xf384; 0xf382; 0xf386; 0xf387;
   0xf388; 0xf385; 0xf383; 0xf389; 0x7f; 0xf110; 0xf111; 0xf3c0].

(* drivers/keyboard/pc-kbd.c:41-48 key_buf *)
Record kbd := Kbd { ksch : sched; key_buf : list Z; read_idx : Z; write_idx : Z; users : Z }.
Definition with_ksch (c : sched) (s : kbd) : kbd := Kbd c (key_buf s) (read_idx s) (write_idx s) (users s).
Definition on_ksch {A} (m : M sched A) : M kbd A := λ s, '(a, c) ← m (ksch s); Ok (a, with_ksch c s).

Section keyboard.
Context (debug : bool) (reg : option cpu_scheduler) (tq : Z).

(** Storing in the buffer; outside of it other memory is hit. *)
Definition put_key (scancode : Z) : M kbd unit := λ s,
  if decide (0 ≤ write_idx s < KEYBOARD_BUFSIZE)
  then Ok (tt, Kbd (ksch s) (<[Z.to_nat (write_idx s) := scancode]> (key_buf s)) (read_idx s) (u32 (write_idx s + 1)) (users s))
  else Fault.

(** [scancode] is the byte the port KEYBOARD_IO answers. *)
(* drivers/keyboard/pc-kbd.c:51-71 pckbd_intr *)
Definition pckbd_intr (scancode : Z) : M kbd unit :=
  u ← gets users;
  if decide (u = 0) then mret tt
  else if decide (Z.land scancode 0x80 ≠ 0) then mret tt
  else
    _ ← modify (λ s, if decide (write_idx s = KEYBOARD_BUFSIZE) then Kbd (ksch s) (key_buf s) (read_idx s) 0 (users s) else s);
    full ← gets (λ s, bool_decide (u32 (write_idx s + 1) = read_idx s));
    _ ← (if (full : bool) then mret tt else put_key scancode);
    _ ← on_ksch (scheduler_enqueue reg tq);
    mret tt.

(** Reading the buffer and the table inside their bounds. *)
Definition take_key : M kbd Z := λ s,
  match key_buf s !! Z.to_nat (read_idx s) with
  | Some k =>
      match pckbd_sctrans !! Z.to_nat k with
      | Some v => Ok (v, Kbd (ksch s) (key_buf s) (u32 (read_idx s + 1)) (write_idx s) (users s))
      | None => Fault
      end
  | None => Fault
  end.

(* drivers/keyboard/pc-kbd.c:73-90 pckbd_read *)
Definition pckbd_read : M kbd Z :=
  empty ← gets (λ s, bool_decide (read_idx s = write_idx s));
  if (empty : bool) then
    _ ← on_ksch (scheduler_dequeue reg tq);
    _ ← on_ksch (scheduler_yield reg);
    mret 0
  else
    _ ← modify (λ s, if decide (read_idx s = KEYBOARD_BUFSIZE) then Kbd (ksch s) (key_buf s) 0 (write_idx s) (users s) else s);
    take_key.

(* drivers/keyboard/pc-kbd.c:92-104 pckbd_open *)
Definition pckbd_open : M kbd Z :=
  u ← gets users;
  if decide (u ≠ 0) then mret (- EBUSY)
  else
    _ ← modify (λ s, Kbd (ksch s) (key_buf s) 0 0 (u32 (users s + 1)));
    _ ← on_ksch (tq_init debug tq);
    mret 0.

(* drivers/keyboard/pc-kbd.c:106-115 pckbd_close *)
Definition pckbd_close : M kbd Z :=
  u ← gets users;
  if decide (u = 0) then mret (- EINVAL)
  else
    _ ← modify (λ s, Kbd (ksch s) (key_buf s) (read_idx s) (write_idx s) (u32 (users s - 1)));
    b ← on_ksch (scheduler_enqueue reg tq);
    _ ← bug_on b;
    mret 0.

(* drivers/keyboard/pc-kbd.c:117-120 pckbd_dev_open *)
Definition pckbd_dev_open : M kbd Z := pckbd_open.

(** The two bytes stored at the start of the buffer, whatever its length, and
    the answer. *)
(* drivers/keyboard/pc-kbd.c:122-130 pckbd_dev_read *)
Definition pckbd_dev_read : M kbd (list Z * Z) :=
  data ← pckbd_read; mret ([u8 (Z.shiftr data 8); u8 (Z.land data 0xff)], 2).

(* drivers/keyboard/pc-kbd.c:132-136 pckbd_dev_close *)
Definition pckbd_dev_close : M kbd Z := _ ← pckbd_close; mret 0.
End keyboard.

(** ** The ring as a queue *)

Definition pending (r w : Z) (b : list Z) : list Z :=
  if decide (r ≤ w) then take (Z.to_nat (w - r)) (drop (Z.to_nat r) b) else drop (Z.to_nat r) b ++ take (Z.to_nat w) b.

(** The indices mean the queue [q]; an index at the start that was not reached
    by storing is excluded. *)
Record ring (s : kbd) (q : list Z) : Prop := {
  rg_len : length (key_buf s) = 10%nat;
  rg_read : 0 ≤ read_idx s ≤ KEYBOARD_BUFSIZE;
  rg_write : 0 ≤ write_idx s ≤ KEYBOARD_BUFSIZE;
  rg_zero : write_idx s = 0 → read_idx s = 0;
  rg_queue : q = pending (read_idx s) (write_idx s) (key_buf s) }.

(** The writer is at the end of the buffer and the reader at most one key into
    it. *)
Definition laps (s : kbd) : Prop := write_idx s = KEYBOARD_BUFSIZE ∧ read_idx s ≤ 1.
(** There is no room in front of the reader. *)
Definition no_room (s : kbd) : bool := bool_decide (write_idx s + 1 = read_idx s).

Lemma take_insert_snoc (b : list Z) (n : nat) x : (n < length b)%nat → take (S n) (<[n := x]> b) = take n b ++ [x].
Proof.
  intros Hn. rewrite (take_S_r _ _ x) by (by rewrite list_lookup_insert_eq). f_equal. apply take_insert_ge. lia.
Qed.

(** Storing a key at the index [w], the next to write. *)
Lemma pending_put r w (b : list Z) x :
  length b = 10%nat → 0 ≤ r ≤ 10 → 0 ≤ w < 10 → w + 1 ≠ r →
  pending r (w + 1) (<[Z.to_nat w := x]> b) = pending r w b ++ [x].
Proof.
  intros Hl Hr Hw Hne. unfold pending. destruct (decide (r ≤ w)) as [H|H].
  - rewrite !decide_True by lia. rewrite drop_insert_ge by lia.
    replace (Z.to_nat (w + 1 - r)) with (S (Z.to_nat w - Z.to_nat r)) by lia.
    rewrite take_insert_snoc by (rewrite length_drop; lia). do 2 f_equal. lia.
  - rewrite !decide_False by lia. rewrite drop_insert_lt by lia.
    replace (Z.to_nat (w + 1)) with (S (Z.to_nat w)) by lia. by rewrite take_insert_snoc, app_assoc by lia.
Qed.
(** Going back to the start. *)
Lemma pending_rewind r b : length b = 10%nat → 0 < r ≤ 10 → pending r 0 b = pending r 10 b.
Proof.
  intros Hl Hr. unfold pending. rewrite decide_False by lia. rewrite decide_True by lia. rewrite app_nil_r.
  symmetry. apply take_ge. rewrite length_drop. lia.
Qed.
Lemma pending_read_rewind w b : length b = 10%nat → 0 ≤ w < 10 → pending 10 w b = pending 0 w b.
Proof.
  intros Hl Hw. unfold pending. rewrite decide_False by lia. rewrite decide_True by lia. rewrite drop_ge by lia.
  by rewrite Z.sub_0_r.
Qed.
(** Taking the next key. *)
Lemma pending_take r w b x :
  length b = 10%nat → 0 ≤ r < 10 → 0 ≤ w ≤ 10 → r ≠ w → b !! Z.to_nat r = Some x → pending r w b = x :: pending (r + 1) w b.
Proof.
  intros Hl Hr Hw Hne Hx. unfold pending. rewrite (drop_S b x (Z.to_nat r)) by done.
  replace (Z.to_nat (r + 1)) with (S (Z.to_nat r)) by lia. destruct (decide (r ≤ w)) as [H|H].
  - rewrite decide_True by lia. by replace (Z.to_nat (w - r)) with (S (Z.to_nat (w - (r + 1)))) by lia.
  - by rewrite decide_False by lia.
Qed.

Section ring.
Context (tq : Z) (Htq : tq ≠ RQ).
Let reg := Some (sched0 true).

Lemma on_ksch_run {A} (m : M sched A) s a c : m (ksch s) = Ok (a, c) → on_ksch m s = Ok (a, with_ksch c s).
Proof using. intros H. unfold on_ksch. by rewrite H. Qed.
Lemma ring_ksch c s q : ring s q → ring (with_ksch c s) q.
Proof using. by intros []. Qed.

(** The interrupt up to the wake-up. *)
Lemma put_key_ring s q sc (s1 := if decide (write_idx s = KEYBOARD_BUFSIZE) then Kbd (ksch s) (key_buf s) (read_idx s) 0 (users s) else s) :
  ring s q → ¬ laps s →
  if bool_decide (u32 (write_idx s1 + 1) = read_idx s1) then no_room s = true ∧ ring s1 q
  else no_room s = false ∧ ∃ s2, put_key sc s1 = Ok (tt, s2) ∧ ring s2 (q ++ [sc]) ∧ ksch s2 = ksch s.
Proof using.
  intros [Hl Hr Hw Hz Hq] Hn. unfold laps, KEYBOARD_BUFSIZE in *. unfold no_room.
  assert (ksch s1 = ksch s ∧ key_buf s1 = key_buf s ∧ read_idx s1 = read_idx s ∧
          write_idx s1 = if decide (write_idx s = 10) then 0 else write_idx s) as (E1 & E2 & E3 & E4) by (unfold s1, KEYBOARD_BUFSIZE; by case_decide).
  assert (q = pending (read_idx s) (write_idx s1) (key_buf s)) as Hq1.
  { rewrite E4. case_decide as E; [|done]. rewrite pending_rewind by lia. by rewrite <- E. }
  assert (0 ≤ write_idx s1 < 10) as Hw1 by (rewrite E4; case_decide; lia).
  rewrite u32_small by (unfold is_u32; lia). rewrite E3. case_bool_decide as Hf.
  - destruct (decide (write_idx s = 10)); [lia|]. split; [rewrite bool_decide_true; lia|].
    split; rewrite ?E2, ?E3; unfold KEYBOARD_BUFSIZE; (done || lia).
  - split; [apply bool_decide_false; destruct (decide (write_idx s = 10)); lia|].
    unfold put_key. rewrite decide_True by (unfold KEYBOARD_BUFSIZE; lia). eexists. split; [done|]. split; [|done].
    split; cbn [key_buf read_idx write_idx]; rewrite ?u32_small by (unfold is_u32; lia); rewrite ?E2, ?E3; unfold KEYBOARD_BUFSIZE.
    + by rewrite length_insert.
    + lia.
    + lia.
    + lia.
    + by rewrite pending_put, <- Hq1 by lia.
Qed.

Lemma pckbd_intr_run s q Q sc :
  ring s q → users s ≠ 0 → tinv (ksch s) Q → quiet (ksch s) → 0 ≤ sc < 128 → ¬ laps s →
  ∃ s', pckbd_intr reg tq sc s = Ok (tt, s') ∧ ring s' (if no_room s then q else q ++ [sc]) ∧ tinv (ksch s') (woken tq Q) ∧ quiet (ksch s').
Proof using Htq.
  intros Hr Hu Hi Hq Hsc Hl. unfold pckbd_intr. mrun. rewrite decide_False by done.
  rewrite decide_False.
  2: { intros H. apply H. rewrite <- (Z.mod_small sc (2 ^ 7)), <- Z.land_ones, <- Z.land_assoc by lia. apply Z.land_0_r. }
  mrun. pose proof (put_key_ring s q sc Hr Hl) as H. cbv zeta in H.
  set (s1 := if decide (write_idx s = KEYBOARD_BUFSIZE) then _ else s) in *.
  assert (ksch s1 = ksch s) as E1 by (unfold s1; by destruct (decide (write_idx s = KEYBOARD_BUFSIZE))).
  destruct (bool_decide _).
  - destruct H as [-> H1]. destruct (wake_run (ksch s1) Q tq) as (b & c & Hw & Hc & Hqc & _); [by rewrite ?E1..|]. mrun.
    mbind_with (on_ksch_run _ _ _ _ Hw). eexists. split; [done|]. split; [by apply ring_ksch|done].
  - destruct H as (-> & s2 & Hp & H2 & E2). mbind_with Hp. destruct (wake_run (ksch s2) Q tq) as (b & c & Hw & Hc & Hqc & _); [by rewrite ?E2..|].
    mbind_with (on_ksch_run _ _ _ _ Hw). eexists. split; [done|]. split; [by apply ring_ksch|done].
Qed.

Lemma pending_nil s q : ring s q → q = [] ↔ read_idx s = write_idx s.
Proof using.
  intros [Hl Hr Hw Hz ->]. unfold pending, KEYBOARD_BUFSIZE in *. split.
  - intros E. apply (f_equal length) in E. case_decide.
    + rewrite length_take, length_drop in E. cbn in E. lia.
    + rewrite length_app, length_take, length_drop in E. cbn in E. lia.
  - intros ->. rewrite decide_True by lia. by rewrite Z.sub_diag.
Qed.

Lemma pckbd_read_run s k q v :
  ring s (k :: q) → pckbd_sctrans !! Z.to_nat k = Some v →
  ∃ s', pckbd_read reg tq s = Ok (v, s') ∧ ring s' q ∧ ksch s' = ksch s.
Proof using.
  intros Hr Hv. assert (read_idx s ≠ write_idx s) as Hne by (by rewrite <- (pending_nil s _ Hr)).
  destruct Hr as [Hl Hr Hw Hz Hq]. unfold pckbd_read. mrun. rewrite bool_decide_false by done. mrun.
  unfold KEYBOARD_BUFSIZE in *. set (r := if decide (read_idx s = 10) then 0 else read_idx s).
  assert ((if decide (read_idx s = 10) then Kbd (ksch s) (key_buf s) 0 (write_idx s) (users s) else s) =
          Kbd (ksch s) (key_buf s) r (write_idx s) (users s)) as -> by (unfold r; destruct s; by case_decide).
  assert (0 ≤ r < 10 ∧ r ≠ write_idx s ∧ pending (read_idx s) (write_idx s) (key_buf s) = pending r (write_idx s) (key_buf s))
    as (Hr1 & Hne1 & Hp).
  { unfold r. case_decide as E; [|split_and!; (done || lia)]. rewrite E in *. split; [lia|]. split; [lia|]. apply pending_read_rewind; lia. }
  destruct (lookup_lt_is_Some_2 (key_buf s) (Z.to_nat r)) as [x Hx]; [lia|].
  rewrite Hp, (pending_take r _ _ x) in Hq by (done || lia). injection Hq as -> ->.
  unfold take_key. cbn [key_buf read_idx]. rewrite Hx, Hv. eexists. split; [done|]. split; [|done].
  rewrite u32_small by (unfold is_u32; lia). split; cbn [key_buf read_idx write_idx]; unfold KEYBOARD_BUFSIZE; try (done || lia).
Qed.

(** C40: The keyboard delivers keys in order.  While the writer does not lap the
    reader, a key press is put behind the keys not yet read, or dropped when
    there is no room, and wakes a sleeping reader; a read takes the oldest key;
    without a key it puts the running thread to sleep on the queue of the
    keyboard, lets the next thread run and answers 0. *)
Theorem keyboard_in_order s q Q :
  ring s q → users s ≠ 0 → tinv (ksch s) Q → quiet (ksch s) →
  (∀ sc, 0 ≤ sc < 128 → ¬ laps s →
     ∃ s', pckbd_intr reg tq sc s = Ok (tt, s') ∧ ring s' (if no_room s then q else q ++ [sc]) ∧ tinv (ksch s') (woken tq Q)) ∧
  (∀ k q' v, q = k :: q' → pckbd_sctrans !! Z.to_nat k = Some v →
     ∃ s', pckbd_read reg tq s = Ok (v, s') ∧ ring s' q' ∧ ksch s' = ksch s) ∧
  (∀ c l1 l2 h l, q = [] → current (ksch s) = c → Q RQ = l1 ++ c :: l2 → l1 ++ l2 = h :: l →
     ∃ s', pckbd_read reg tq s = Ok (0, s') ∧ ring s' [] ∧ current (ksch s') = hd h l ∧
       ∃ Q', tinv (ksch s') Q' ∧ Q' tq = Q tq ++ [c] ∧ c ∉ Q' RQ).
Proof using Htq.
  intros Hr Hu Hi Hq. split_and!.
  - intros sc Hsc Hl. destruct (pckbd_intr_run s q Q sc) as (s' & H1 & H2 & H3 & _); [done..|]. by exists s'.
  - intros k q' v -> Hv. by apply (pckbd_read_run s k q' v).
  - intros c l1 l2 h l -> Hc HQ Hh. apply (pending_nil s []) in Hr as Heq. apply proj1 in Heq. specialize (Heq eq_refl).
    destruct (sleep_run (ksch s) Q tq c l1 l2 h l) as (c1 & c2 & Q' & E1 & E2 & Hi2 & _ & Hc2 & HQ' & Hn & _); [done..|].
    exists (with_ksch c2 s). unfold pckbd_read. mrun. rewrite bool_decide_true by done.
    mbind_with (on_ksch_run (scheduler_dequeue reg tq) s tt c1 E1).
    mbind_with (on_ksch_run (scheduler_yield reg) (with_ksch c1 s) tt c2 E2).
    split; [done|]. split; [by apply ring_ksch|]. split; [done|]. by exists Q'.
Qed.
End ring.

(** An open keyboard without keys, and two threads that run. *)
Definition fresh_kbd : kbd := Kbd two_threads (replicate 10 0) 0 0 1.
Lemma keyboard_in_order_witness : ∃ s', pckbd_intr (Some (sched0 true)) 7 30 fresh_kbd = Ok (tt, s') ∧ ring s' [30].
Proof.
  destruct (keyboard_in_order 7 ltac:(discriminate) fresh_kbd [] (upd (upd (λ _, []) RQ [1]) RQ [1; 2])) as (H & _ & _).
  - split; try reflexivity; split; discriminate.
  - discriminate.
  - exact two_threads_inv.
  - intros q. reflexivity.
  - destruct (H 30) as (s' & H1 & H2 & _); [lia|intros [H1 _]; discriminate H1|]. exists s'. split; [exact H1|exact H2].
Defined.

(** Key presses and reads from an open keyboard, and the last key read. *)
Inductive kbd_op := Press (scancode : Z) | Read.
Fixpoint kbd_run (ops : list kbd_op) (last : Z) : M kbd Z :=
  match ops with
  | [] => mret last
  | Press c :: ops => _ ← pckbd_intr (Some (sched0 true)) 7 c; kbd_run ops last
  | Read :: ops => k ← pckbd_read (Some (sched0 true)) 7; kbd_run ops k
  end.
Definition kbd_last (ops : list kbd_op) : option Z :=
  match kbd_run ops 0 fresh_kbd with Ok (k, _) => Some k | _ => None end.

(** The eleventh key in a row overwrites the first and hides the other nine:
    the next key read is the last one pressed. *)
Example keyboard_loses_keys :
  kbd_last ((Press <$> seqZ 16 10) ++ [Press 30; Read]) = pckbd_sctrans !! 30%nat ∧
  kbd_last ((Press <$> seqZ 16 10) ++ [Press 30; Read; Read]) = Some 0.
Proof. by vm_compute. Qed.

(** A key that is dropped when one of ten has been read makes the driver
    deliver old keys again when the others have been read. *)
Example keyboard_repeats_keys :
  kbd_last ((Press <$> seqZ 16 10) ++ [Read; Press 30] ++ replicate 10 Read) = pckbd_sctrans !! 16%nat.
Proof. by vm_compute. Qed.

(** Scan codes from 106 on are outside of the table. *)
Example keyboard_past_table : kbd_last [Press 105; Read] = Some 0xf3c0 ∧ kbd_run [Press 106; Read] 0 fresh_kbd = Fault.
Proof. by vm_compute. Qed.

(** Opening twice is refused; closing lets it be opened again. *)
Lemma pckbd_exclusive debug reg tq s :
  users s ≠ 0 → pckbd_open debug tq s = Ok (- EBUSY, s) ∧
  (pckbd_close reg tq (Kbd (ksch s) (key_buf s) (read_idx s) (write_idx s) 0) = Ok (- EINVAL, Kbd (ksch s) (key_buf s) (read_idx s) (write_idx s) 0)).
Proof. intros Hu. unfold pckbd_open, pckbd_close. mrun. by rewrite decide_True. Qed.
