(* ===== verification/Serial.v ===== *)
(** * The serial port (drivers/serial/8250_serial.c)

    The driver between its two byte queues, the scheduler and the registers of
    the chip.  A read or write is a sequence of turns: a turn runs until the
    call returns or puts its thread to sleep; the next one starts when the
    thread runs again. *)

From S2P Require Import Prelude KList Bitmap Klib Buddy PageAlloc Slice Kqueue Sched Profile.

(* drivers/serial/8250_serial.c:43-48 SERIO_1_BASE *)
Definition SERIO_1_BASE : Z := 0x3F8.
Definition SERIO_1_IRQ : Z := 4.
Definition SERIO_REG_IER : Z := SERIO_1_BASE + 1.
Definition SERIO_REG_MCR : Z := SERIO_1_BASE + 4.
Definition SERIO_REG_LSR : Z := SERIO_1_BASE + 5.
(* drivers/serial/8250_serial.c:51-54 IER_RX *)
Definition IER_RX : Z := Z.shiftl 1 0.
Definition IER_TX : Z := Z.shiftl 1 1.
Definition IER_LINE : Z := Z.shiftl 1 2.
Definition IER_MODEM : Z := Z.shiftl 1 3.
(* drivers/serial/8250_serial.c:56-63 LSR_READY *)
Definition LSR_READY : Z := Z.shiftl 1 0.
Definition LSR_EOVERRUN : Z := Z.shiftl 1 1.
Definition LSR_EPARITY : Z := Z.shiftl 1 2.
Definition LSR_EFRAMING : Z := Z.shiftl 1 3.
Definition LSR_BREAK : Z := Z.shiftl 1 4.
Definition LSR_EMPT_THR : Z := Z.shiftl 1 5.
Definition LSR_EMPT_DHR : Z := Z.shiftl 1 6.
Definition LSR_EFIFO : Z := Z.shiftl 1 7.

(** The queues and their memory, the scheduler, the pointers to the queues (0
    is NULL), the interrupt enable register, the bytes written to the ports,
    and [sysrq_acq]. *)
Record ser (S : Type) := Ser {
  sq : kst S; ssch : sched; read_queue : Z; write_queue : Z; ier : Z; sports : list (Z * Z); acq : Z }.
Arguments Ser {S}.
Arguments sq {S}.
Arguments ssch {S}.
Arguments read_queue {S}.
Arguments write_queue {S}.
Arguments ier {S}.
Arguments sports {S}.
Arguments acq {S}.

Section serial.
Context {S : Type} `{PS : PageSource S} (debug profiler : bool) (reg : option cpu_scheduler) (tq : Z).
Implicit Types s : ser S.

Definition with_sq (k : kst S) s : ser S := Ser k (ssch s) (read_queue s) (write_queue s) (ier s) (sports s) (acq s).
Definition with_ssch (c : sched) s : ser S := Ser (sq s) c (read_queue s) (write_queue s) (ier s) (sports s) (acq s).
Definition with_read_queue (q : Z) s : ser S := Ser (sq s) (ssch s) q (write_queue s) (ier s) (sports s) (acq s).
Definition with_write_queue (q : Z) s : ser S := Ser (sq s) (ssch s) (read_queue s) q (ier s) (sports s) (acq s).
Definition with_acq (n : Z) s : ser S := Ser (sq s) (ssch s) (read_queue s) (write_queue s) (ier s) (sports s) n.
Definition on_ssch {A} (m : M sched A) : M (ser S) A := λ s, '(a, c) ← m (ssch s); Ok (a, with_ssch c s).
Definition on_sq {A} (f : kst S → outcome (A * kst S)) : M (ser S) A := λ s, '(a, k) ← f (sq s); Ok (a, with_sq k s).
Definition destroy (fuel : nat) (q : Z) : M (ser S) unit := λ s, k ← kqueue_destroy fuel q (sq s); Ok (tt, with_sq k s).

(** The enable register keeps what is written to it. *)
Definition outb_ (port v : Z) : M (ser S) unit := modify (λ s,
  Ser (sq s) (ssch s) (read_queue s) (write_queue s) (if decide (port = SERIO_REG_IER) then u8 v else ier s)
    (sports s ++ [(port, u8 v)]) (acq s)).

(* drivers/serial/8250_serial.c:71-90 serial_8250_open *)
Definition serial_8250_open (fuel : nat) : M (ser S) Z :=
  rq ← gets read_queue;
  if decide (rq ≠ 0) then mret (- EBUSY)
  else
    r ← on_sq kqueue_create;
    _ ← modify (with_read_queue (default 0 r));
    match r with
    | None => mret (- ENOMEM)
    | Some r =>
        w ← on_sq kqueue_create;
        _ ← modify (with_write_queue (default 0 w));
        match w with
        | None => _ ← destroy fuel r; mret (- ENOMEM)
        | Some _ => _ ← on_ssch (tq_init debug tq); mret 1
        end
    end.

(* drivers/serial/8250_serial.c:92-102 serial_8250_close *)
Definition serial_8250_close (fuel : nat) : M (ser S) Z :=
  rq ← gets read_queue;
  _ ← destroy fuel rq;
  wq ← gets write_queue;
  _ ← destroy fuel wq;
  b ← on_ssch (scheduler_enqueue reg tq);
  _ ← bug_on b;
  mret 0.

(** [inl n]: asleep with [n] bytes read; [inr n]: the call returns [n]. *)
(* drivers/serial/8250_serial.c:104-129 serial_8250_read *)
Fixpoint serial_8250_read (fuel : nat) (buf size num_read : Z) : M (ser S) (Z + Z) :=
  match fuel with
  | O => hang
  | Datatypes.S f =>
      if decide (num_read < size) then
        rq ← gets read_queue;
        t ← on_sq (kqueue_pull_tail rq (buf + num_read) size);
        if decide (t = 0) then
          _ ← on_ssch (scheduler_dequeue reg tq);
          _ ← on_ssch (scheduler_yield reg);
          mret (inl num_read)
        else serial_8250_read f buf size (num_read + t)
      else mret (inr num_read)
  end.

(* drivers/serial/8250_serial.c:131-137 enable_tx_irq *)
Definition enable_tx_irq : M (ser S) unit := t ← gets ier; outb_ SERIO_REG_IER (Z.lor t IER_TX).
(* drivers/serial/8250_serial.c:139-145 disable_tx_irq *)
Definition disable_tx_irq : M (ser S) unit := t ← gets ier; outb_ SERIO_REG_IER (Z.land t (Z.lnot IER_TX)).

(** A turn of the loop that waits; the call itself starts with the push. *)
Definition write_wait (size : Z) : M (ser S) (option Z) :=
  n ← gets (λ s, kqueue_size (write_queue s) (sq s));
  if decide (n ≠ 0) then
    _ ← on_ssch (scheduler_dequeue reg tq);
    _ ← on_ssch (scheduler_yield reg);
    mret None
  else mret (Some size).
(* drivers/serial/8250_serial.c:150-167 serial_8250_write *)
Definition serial_8250_write (buf size : Z) : M (ser S) (option Z) :=
  wq ← gets write_queue;
  _ ← on_sq (kqueue_push wq buf size);
  _ ← enable_tx_irq;
  write_wait size.

(** [c] lies on the stack of the handler, at [at_c]. *)
Definition store_c (at_c c : Z) : M (ser S) unit := modify (λ s, with_sq (with_kmem (mset (kmem (sq s)) at_c c) (sq s)) s).

(** [line_status] and [rx] are the answers of the status and data registers;
    the text printed on the console is left out. *)
(* drivers/serial/8250_serial.c:169-223 serial_8250_intr *)
Definition serial_8250_intr (at_c line_status rx : Z) : M (ser S) unit :=
  if decide (Z.land line_status LSR_READY ≠ 0) then
    _ ← store_c at_c rx;
    a ← gets acq;
    let '(hit, a, _) := sysrq_hit profiler (if decide (rx ≠ 0) then rx else 0xff) a in
    _ ← modify (with_acq a);
    if decide (hit ≠ 0) then mret tt
    else
      rq ← gets read_queue;
      if decide (rq ≠ 0) then
        _ ← on_sq (kqueue_push rq at_c 1);
        _ ← on_ssch (scheduler_enqueue reg tq);
        mret tt
      else mret tt
  else if decide (Z.land line_status (Z.lor LSR_EMPT_THR LSR_EMPT_DHR) ≠ 0) then
    wq ← gets write_queue;
    if decide (wq ≠ 0) then
      t ← on_sq (kqueue_pull_tail wq at_c 1);
      if decide (t ≠ 0) then
        c ← gets (λ s, kmem (sq s) at_c);
        outb_ SERIO_1_BASE c
      else
        _ ← disable_tx_irq;
        _ ← on_ssch (scheduler_enqueue reg tq);
        mret tt
    else disable_tx_irq
  else mret tt.

(** The registrations are those of the interrupt and of the device. *)
(* drivers/serial/8250_serial.c:239-265 serial_8250_load *)
Definition serial_8250_load (register : M (ser S) unit) : M (ser S) Z :=
  _ ← outb_ (SERIO_1_BASE + 3) 0x80;
  _ ← outb_ (SERIO_1_BASE + 0) 1;
  _ ← outb_ (SERIO_1_BASE + 1) 0;
  _ ← outb_ (SERIO_1_BASE + 3) 0x03;
  _ ← outb_ SERIO_REG_IER IER_RX;
  _ ← outb_ SERIO_REG_MCR 0x00;
  _ ← register;
  mret 0.
End serial.

(** ** The queues and the byte on the stack *)

Section bytes.
Context {S : Type} `{PS : PageSource S}.

Lemma away_mset c a live ps (m : memory) v :
  ps_inv c live → away a 1 live ps → Forall (page_ok live) ps → contents (mset m a v) ps = contents m ps.
Proof using.
  intros Hc Ha Hps. apply contents_ext. intros r Hr. rewrite Forall_forall in Hps.
  destruct (Hps r Hr) as (Hl & Hb & Hn & He). destruct (ps_frames _ _ _ Hc Hl) as (Hd & _).
  apply bytes_ext. intros i Hi. unfold mset. rewrite decide_False; [done|]. intros Hx.
  destruct (Ha (kbase r + i) (kp r)) as [_ Hnin]; [lia|done|unfold KQUEUE_PAGE_SIZE in *; lia|].
  by apply Hnin, list_elem_of_fmap_2.
Qed.
Lemma qinv_mset (k : kst S) q live a v :
  qinv k q live → away a 1 live (kpages (queues k q)) →
  qinv (with_kmem (mset (kmem k) a v) k) q live ∧ qcontents (with_kmem (mset (kmem k) a v) k) q = qcontents k q.
Proof using.
  intros [H1 H2 H3 H4] Ha. assert (qcontents (with_kmem (mset (kmem k) a v) k) q = qcontents k q) as E by (by eapply away_mset).
  split; [|done]. split; try done. by rewrite E.
Qed.

Lemma bytes_1 (m : memory) a : bytes m a 1 = [m a].
Proof using. change (bytes m a 1) with [m (a + 0)]. by rewrite Z.add_0_r. Qed.

(** Pushing the byte at [a]. *)
Lemma push_byte (k : kst S) q live a :
  qinv k q live → away a 1 live (kpages (queues k q)) → unmoved (kpages (queues k q)) → 0 < room (kpages (queues k q)) →
  ∃ k' live', kqueue_push q a 1 k = Ok (0, k') ∧ qinv k' q live' ∧ qcontents k' q = qcontents k q ++ [kmem k a].
Proof using.
  intros H Ha Hu Hr. pose proof (kqueue_push_spec q a 1 k live H Ha Hu ltac:(lia)) as Hp.
  pose proof (kqueue_push_fits q a 1 k live H Hu Hr ltac:(lia)) as Hf. unfold push_post in Hp.
  destruct (kqueue_push q a 1 k) as [[r k']| | |]; try discriminate Hf. injection Hf as Hf. cbn in Hf. subst r.
  destruct Hp as [Hp|(_ & live' & _ & Hq & Hc)]; [discriminate Hp|]. exists k', live'. split; [done|]. split; [done|].
  rewrite Hc. f_equal. unfold pushed. rewrite bytes_length by lia. rewrite !decide_True by lia.
  apply bytes_1.
Qed.

(** Pulling a byte of a queue of at most one page. *)
Lemma pull_byte (k : kst S) q live a :
  qinv k q live → away a 1 live (kpages (queues k q)) → (length (kpages (queues k q)) ≤ 1)%nat →
  ∃ r k' live', kqueue_pull_tail q a 1 k = Ok (r, k') ∧ qinv k' q live' ∧
    match qcontents k q with
    | c :: l => r = 1 ∧ kmem k' a = c ∧ qcontents k' q = l
    | [] => r = 0 ∧ qcontents k' q = []
    end.
Proof using.
  intros H Ha Hlen. destruct (kqueue_pull_spec q a 1 k live H Ha ltac:(lia)) as (r & k' & live' & E & Hq & _ & Hb & Hc & _ & Ht & Hl).
  exists r, k', live'. split; [done|]. split; [done|]. destruct (qcontents k q) as [|c l] eqn:Eq; cbn [length] in *.
  - split; [|done]. rewrite Ht; [done|lia].
  - split_and!; [|rewrite Z.min_l, bytes_1 in Hb by lia; by injection Hb|done].
    destruct l as [|d l]; [apply Ht; cbn; lia|].
    destruct (kpages (queues k q)) as [|p [|p2 ps]] eqn:Ep; [|apply (Hl p); [done|]|cbn in Hlen; lia].
    + unfold qcontents in Eq. by rewrite Ep in Eq.
    + assert (Z.of_nat (length (qcontents k q)) = kcount p) as Hn; [|rewrite Eq in Hn; cbn [length] in Hn; lia].
      unfold qcontents. rewrite Ep. change [p] with ([] ++ [p]). rewrite contents_snoc, length_app.
      pose proof (qi_page _ _ _ H) as Hf. rewrite Ep in Hf. apply Forall_cons in Hf as [(_ & _ & Hk & _) _].
      cbn [length contents]. rewrite Nat2Z.inj_add, bytes_length by done. cbn. lia.
Qed.
End bytes.

Section interrupt.
Context {S : Type} `{PS : PageSource S} (tq : Z) (Htq : tq ≠ RQ).
Let reg := Some (sched0 true).
Implicit Types s : ser S.

Lemma on_ssch_run {A} (m : M sched A) s a c : m (ssch s) = Ok (a, c) → on_ssch m s = Ok (a, with_ssch c s).
Proof using. intros H. unfold on_ssch. by rewrite H. Qed.
Lemma on_sq_run {A} (f : kst S → outcome (A * kst S)) s a k : f (sq s) = Ok (a, k) → on_sq f s = Ok (a, with_sq k s).
Proof using. intros H. unfold on_sq. by rewrite H. Qed.

(** The state without the interrupt of the transmitter. *)
Definition tx_off s : ser S :=
  Ser (sq s) (ssch s) (read_queue s) (write_queue s) (u8 (Z.land (ier s) (Z.lnot IER_TX)))
    (sports s ++ [(SERIO_REG_IER, u8 (Z.land (ier s) (Z.lnot IER_TX)))]) (acq s).
Lemma disable_tx_run s : disable_tx_irq s = Ok (tt, tx_off s).
Proof using. done. Qed.
Lemma tx_off_bit s : Z.testbit (ier (tx_off s)) 1 = false.
Proof using.
  cbn [ier tx_off]. unfold u8. rewrite <- Z.land_ones, !Z.land_spec by lia.
  change (Z.testbit (Z.lnot IER_TX) 1) with false. by rewrite andb_false_r.
Qed.

(** The interrupt of the serial port moves bytes between the port and the
    queues.  A byte that has arrived is put behind those not yet read, if the
    newest page has room and it is no system request, and a sleeper is woken.
    When the port can send, the oldest byte of the queue is sent; when there is
    none, the interrupt is switched off and a sleeper is woken.  The queue to
    send must lie in one page. *)
Theorem serial_moves_bytes s Q live at_c status rx :
  tinv (ssch s) Q → quiet (ssch s) →
  (Z.land status LSR_READY ≠ 0 → acq s = 0 → 0 < rx < 0xff → read_queue s ≠ 0 →
   qinv (sq s) (read_queue s) live → away at_c 1 live (kpages (queues (sq s) (read_queue s))) →
   unmoved (kpages (queues (sq s) (read_queue s))) → 0 < room (kpages (queues (sq s) (read_queue s))) →
   ∃ s' live', serial_8250_intr false reg tq at_c status rx s = Ok (tt, s') ∧ qinv (sq s') (read_queue s) live' ∧
     qcontents (sq s') (read_queue s) = qcontents (sq s) (read_queue s) ++ [rx] ∧ tinv (ssch s') (woken tq Q)) ∧
  (Z.land status LSR_READY = 0 → Z.land status (Z.lor LSR_EMPT_THR LSR_EMPT_DHR) ≠ 0 → write_queue s ≠ 0 →
   qinv (sq s) (write_queue s) live → away at_c 1 live (kpages (queues (sq s) (write_queue s))) →
   (length (kpages (queues (sq s) (write_queue s))) ≤ 1)%nat →
   ∃ s' live', serial_8250_intr false reg tq at_c status rx s = Ok (tt, s') ∧ qinv (sq s') (write_queue s) live' ∧
     match qcontents (sq s) (write_queue s) with
     | c :: l => sports s' = sports s ++ [(SERIO_1_BASE, u8 c)] ∧ qcontents (sq s') (write_queue s) = l ∧ ssch s' = ssch s
     | [] => Z.testbit (ier s') 1 = false ∧ qcontents (sq s') (write_queue s) = [] ∧ tinv (ssch s') (woken tq Q)
     end).
Proof using Htq.
  intros Hi Hq. split.
  - intros Hst Ha Hrx Hrq Hinv Haw Hun Hroom. unfold serial_8250_intr, store_c. rewrite decide_True by done. mrun.
    set (k := with_kmem _ (sq s)). destruct (qinv_mset (sq s) (read_queue s) live at_c rx Hinv Haw) as [Hk Hck]. fold k in Hk, Hck.
    cbn [acq with_sq]. rewrite Ha, (decide_True (P := rx ≠ 0)) by lia. unfold sysrq_hit.
    rewrite decide_False by lia. rewrite decide_False by lia. cbn beta iota. mrun. rewrite decide_False by lia. mrun.
    cbn [read_queue with_acq with_sq]. rewrite decide_True by done.
    destruct (push_byte k (read_queue s) live at_c Hk Haw Hun Hroom) as (k' & live' & Ep & Hk' & Hc').
    mbind_with (on_sq_run (kqueue_push (read_queue s) at_c 1) (with_acq 0 (with_sq k s)) 0 k' Ep).
    destruct (wake_run (ssch s) Q tq Hi Hq Htq) as (b & c & Ew & Hc & _).
    mbind_with (on_ssch_run (scheduler_enqueue reg tq) (with_sq k' (with_acq 0 (with_sq k s))) b c Ew).
    eexists _, live'. split; [done|]. split; [exact Hk'|]. split; [|exact Hc]. cbn [sq with_ssch with_sq].
    rewrite Hc', Hck. unfold k, mset. cbn [kmem with_kmem]. by rewrite decide_True.
  - intros Hst Hth Hwq Hinv Haw Hlen. unfold serial_8250_intr. rewrite decide_False by (intros H; by apply H).
    rewrite decide_True by done. mrun. rewrite decide_True by done.
    destruct (pull_byte (sq s) (write_queue s) live at_c Hinv Haw Hlen) as (r & k' & live' & Ep & Hk' & Hm).
    mbind_with (on_sq_run (kqueue_pull_tail (write_queue s) at_c 1) s r k' Ep).
    destruct (qcontents (sq s) (write_queue s)) as [|c l]; [destruct Hm as [-> Hc]|destruct Hm as (-> & Hm & Hc)].
    + rewrite decide_False by (intros H; by apply H). mbind_with (disable_tx_run (with_sq k' s)).
      destruct (wake_run (ssch s) Q tq Hi Hq Htq) as (b & c & Ew & Hcc & _).
      mbind_with (on_ssch_run (scheduler_enqueue reg tq) (tx_off (with_sq k' s)) b c Ew).
      eexists _, live'. split; [done|]. split; [exact Hk'|]. split; [exact (tx_off_bit (with_sq k' s))|by split].
    + rewrite decide_True by done. mrun. eexists _, live'. split; [done|]. split; [exact Hk'|].
      cbn [sports sq ssch with_sq]. by rewrite Hm.
Qed.
End interrupt.

(** The bytes 7 and 8 to be sent. *)
Definition sending : ser (list Z) := Ser two_queued two_threads 1 1 3 [] 0.
Lemma serial_moves_bytes_witness :
  ∃ s', serial_8250_intr false (Some (sched0 true)) 7 4096 LSR_EMPT_THR 0 sending = Ok (tt, s') ∧
    sports s' = [(SERIO_1_BASE, 7)] ∧ qcontents (sq s') 1 = [8].
Proof.
  destruct (serial_moves_bytes 7 ltac:(discriminate) sending (upd (upd (λ _, []) RQ [1]) RQ [1; 2]) {[4096; 8192]} 4096 LSR_EMPT_THR 0)
    as [_ H].
  - exact two_threads_inv.
  - intros q. reflexivity.
  - destruct H as (s' & live' & H1 & _ & H2 & H3 & _).
    + reflexivity.
    + discriminate.
    + discriminate.
    + destruct two_queued_inv as [I1 I2 I3 I4]. split; [exact I1|exact I2|exact I3|exact I4].
    + intros x a Hx. apply two_bytes_away. lia.
    + apply le_n.
    + exists s'. split; [exact H1|]. split; [exact H2|exact H3].
Defined.

(** Where the oldest page of the queue holds its last byte and another page
    follows, the pull answers 0: the byte is taken but not sent, and the
    interrupt is switched off with bytes left to send. *)
Definition boundary : ser (list Z) :=
  Ser (Kst (ksl two_bytes) (mem_at 8208 [7; 8]) (λ _, Kqueue [KPage 12288 12304 2; KPage 8192 8208 1] 3) 0) two_threads 1 1 3 [] 0.
Example serial_loses_byte :
  match serial_8250_intr false (Some (sched0 true)) 7 4096 LSR_EMPT_THR 0 boundary with
  | Ok (_, s) => (sports s, kqueue_size 1 (sq s)) = ([(SERIO_REG_IER, 1)], 2)
  | _ => False
  end.
Proof. by vm_compute. Qed.

(** A read that was put to sleep asks for the whole size again: with 3 of 4
    bytes read it takes 2 more, behind the end of the buffer, and answers 5. *)
Example serial_read_overruns :
  match serial_8250_read (Some (sched0 true)) 7 3 4096 4 3 sending with
  | Ok (r, s) => (r, kmem (sq s) 4099, kmem (sq s) 4100) = (inr 5, 7, 8)
  | _ => False
  end.
Proof. by vm_compute. Qed.

Section closing.
Context {S : Type} `{PS : PageSource S} (debug : bool) (reg : option cpu_scheduler) (tq : Z).
Implicit Types s : ser S.

Lemma destroy_keeps fuel q s s' : destroy fuel q s = Ok (tt, s') → read_queue s' = read_queue s ∧ write_queue s' = write_queue s.
Proof using. unfold destroy. intros H. bind_inv H as k Hk. by injection H as <-. Qed.

(** [read_queue] still points to the queue that [serial_8250_close] has freed:
    the port cannot be opened again. *)
Lemma serial_reopen_refused fuel s r s' :
  serial_8250_close reg tq fuel s = Ok (r, s') → read_queue s ≠ 0 → serial_8250_open debug tq fuel s' = Ok (- EBUSY, s').
Proof using.
  unfold serial_8250_close. mrun. intros H Hr.
  apply bind_ok in H as ([] & s1 & [H1 _]%destroy_keeps & H). rewrite bind_gets in H.
  apply bind_ok in H as ([] & s2 & [H2 _]%destroy_keeps & H). apply bind_ok in H as (b & s3 & H3 & H).
  unfold on_ssch in H3. bind_inv H3 as [b' c] Hc. injection H3 as <- <-.
  apply bind_ok in H as ([] & s4 & H4 & H). unfold bug_on in H4. destruct b'; [done|]. injection H4 as <-. injection H as _ <-.
  unfold serial_8250_open. mrun. cbn [read_queue with_ssch]. rewrite H2, H1. by rewrite decide_True.
Qed.
End closing.
