(* ===== verification/Message.v ===== *)
(** * Messages between processes (kernel/fs/message.c, include/message.h, include/khui/message.h)

    Sending and retrieving over the threads, the mappings and the scheduler.
    The mailbox of a thread is the list view of its klist0 list; the queue of
    the threads that wait for a message to be retrieved is the thread queue
    with the address of the message.  Buffers are virtual addresses of the
    running process and go through its page tables byte by byte.

    A call is a sequence of turns: a turn runs until the call returns or its
    thread goes to sleep. *)

From S2P Require Import Prelude KList Bitmap Klib Buddy PageAlloc Slice Paging MemArea Sched Exec.

(* include/khui/message.h:26-31 MF_COPY *)
Definition MF_COPY : Z := Z.shiftl 1 0.
Definition MF_REMAP : Z := Z.shiftl 1 1.
Definition MF_BLOCK : Z := Z.shiftl 1 2.
Definition MF_NOTIFY : Z := Z.shiftl 1 3.
Definition MF_GRANU : Z := Z.shiftl 1 4.
Definition MF_REPLY : Z := Z.shiftl 1 5.
(* include/khui/message.h:34-34 MF_SENDRECV *)
Definition MF_SENDRECV : Z := Z.lor MF_COPY MF_BLOCK.
(* include/khui/message.h:36-36 MF_SRR *)
Definition MF_SRR : Z := Z.lor MF_SENDRECV MF_REPLY.

(* include/i386/memory.h:33-33 USERMEM_MBOX *)
Definition USERMEM_MBOX : Z := 0xa0000000.

(* include/message.h:31-38 message *)
Record message := Message { msender : Z; mflags : Z; mbuf : Z; mlen : Z }.

(** The processes, the messages by address and their pool. *)
Record mst := Mst { mks : ks; msgs : Z → message; msg_pool : Z }.
Definition with_mks (k : ks) (s : mst) : mst := Mst k (msgs s) (msg_pool s).
Definition set_msg (a : Z) (v : message) (s : mst) : mst :=
  Mst (mks s) (λ b, if decide (b = a) then v else msgs s b) (msg_pool s).
Definition on_ks {A} (m : M ks A) : M mst A := λ s, '(a, k) ← m (mks s); Ok (a, with_mks k s).

(** [memory_copy] through the page tables; [tr] is the translation. *)
Fixpoint vcopy_up (tr : Z → Z) (m : memory) (dest src i : Z) (n : nat) : memory :=
  match n with
  | O => m
  | S n => vcopy_up tr (mset m (tr (dest + i)) (m (tr (src + i)))) dest src (i + 1) n
  end.
Fixpoint vcopy_down (tr : Z → Z) (m : memory) (dest src : Z) (i : nat) : memory :=
  match i with
  | O => m
  | S i => vcopy_down tr (mset m (tr (dest + Z.of_nat i)) (m (tr (src + Z.of_nat i)))) dest src i
  end.
Definition vcopy (tr : Z → Z) (dest src : Z) (n : nat) (m : memory) : memory :=
  if decide (dest = src) then m
  else if decide (dest < src) then vcopy_up tr m dest src 0 n
  else vcopy_down tr m dest src n.

(** The running thread, its mapping and the translation it runs with. *)
Definition CURRENT (s : ks) : Z := current (ksch s).
Definition cur_map (s : ks) : Z := ti_map (kinfo s (CURRENT s)).
Definition tr_of (s : ks) : Z → Z := __virt2phys (m_pgdir (maps (kms s) (cur_map s))) (mwords (kms s)).
Definition user_copy (dest src len : Z) : M ks unit := modify (λ s,
  set_kms (with_mbytes (vcopy (tr_of s) dest src (Z.to_nat len) (mbytes (kms s))) (kms s)) s).

Definition set_mbox (t : Z) (l : list Z) (s : ks) : ks :=
  let i := kinfo s t in set_kinfo t (Tinfo (ti_map i) (ti_name i) (ti_last_fd i) (ti_files i) l) s.
Definition mbox (t : Z) (s : ks) : list Z := ti_mbox (kinfo s t).

(** What became of a call: it has returned, or its thread sleeps. *)
Inductive turn := Done (r : Z) | Asleep.

Section messages.
Context (debug : bool) (reg : option cpu_scheduler) (sleepers : Z).

(** The size of [struct message]; the lock of its queue is empty without
    debugging. *)
(* kernel/fs/message.c:37-42 messaging_init *)
Definition messaging_init : M mst unit := λ s,
  '(p, c) ← slice_pool_create 0 (if debug then 36 else 32) (msl (kms (mks s)));
  match p with
  | Some p =>
      '(_, k) ← on_sched (tq_init debug sleepers) (set_kms (with_msl c (kms (mks s))) (mks s));
      Ok (tt, Mst k (msgs s) p)
  | None => Bug
  end.

Definition msg_alloc : M mst (option Z) := λ s,
  '(a, c) ← slice_alloc (msg_pool s) (msl (kms (mks s)));
  Ok (a, with_mks (set_kms (with_msl c (kms (mks s))) (mks s)) s).
Definition msg_free (fuel : nat) (a : Z) : M mst unit := λ s,
  c ← slice_free fuel a (msg_pool s) (msl (kms (mks s)));
  Ok (tt, with_mks (set_kms (with_msl c (kms (mks s))) (mks s)) s).

(** The page for a message that does not block: [inl] is the error, [inr] the
    address in the recipient. *)
Definition send_page (fuel : nat) (msg thread buf len : Z) : M mst (Z + Z) :=
  ppg ← on_ks (new_page ZONE_USER);
  if decide (ppg = 0) then _ ← msg_free fuel msg; mret (inl (- ENOMEM))
  else
    _ ← on_ks (user_copy ppg buf len);
    pg ← on_ks (λ k, p ← addr_to_page fuel ppg (mpa (kms k)); p ← of_option p; Ok (p, k));
    map ← gets (λ s, ti_map (kinfo (mks s) thread));
    n ← gets (λ s, m_nmma (maps (kms (mks s)) map));
    ok ← (if decide (n = 4) then
            a ← on_ks (on_ms (mem_area_alloc_new fuel map USERMEM_MBOX 0 MMA_GROWS));
            _ ← on_ks (ms_modify (set_mma_of map 4 (default 0 a)));
            _ ← on_ks (ms_modify (set_nmma map 5));
            mret (bool_decide (is_Some a))
          else mret true);
    if negb ok then mret (inl (- ENOMEM))
    else
      mma ← gets (λ s, m_mma (maps (kms (mks s)) map) 4);
      if decide (mma = 0) then fault else
      _ ← on_ks (ms_modify (λ s,
            with_mwords (map_page (m_pgdir (maps s map)) (m_end (mmas s mma)) ppg (m_prot (mmas s mma)) (mwords s)) s));
      _ ← on_ks (on_ms (λ s, s ← mem_area_add_page mma pg s; Ok (tt, s)));
      v ← gets (λ s, virt (page_at (mpa (kms (mks s))) pg));
      mret (inr v).

(** Waking the recipient if it sleeps in [msg_retrieve]. *)
Definition wake_recipient (fuel : nat) (thread : Z) : M ks unit :=
  l ← (λ k, match klist0_for_each fuel (hp (ksch k)) (TQ sleepers) with Some l => Ok (l, k) | None => Hang end : outcome (list tnode * ks));
  if bool_decide (Run thread ∈ l) then
    _ ← on_sched (tq_init debug TMP_Q);
    _ ← on_sched (spin_lock debug sleepers);
    _ ← on_sched (__tq_remove_thread thread);
    _ ← on_sched (spin_unlock debug sleepers);
    _ ← on_sched (tq_insert_head debug thread TMP_Q);
    _ ← on_sched (scheduler_enqueue reg TMP_Q);
    mret tt
  else mret tt.

(** The thread yields at the end in any case; the call returns [len]. *)
(* kernel/fs/message.c:44-142 msg_send *)
Definition msg_send (fuel : nat) (recp buf len flags : Z) : M mst Z :=
  me ← gets (λ s, CURRENT (mks s));
  if has (Z.lor MF_REMAP (Z.lor MF_NOTIFY MF_GRANU)) flags then mret (- ENOSYS)
  else if decide (PAGE_SIZE < len) then mret (- ENOSYS)
  else
    thread ← on_ks (λ k, t ← thread_get fuel recp (ksch k); Ok (t, k));
    match thread with
    | None => mret (- EINVAL)
    | Some thread =>
        msg ← msg_alloc;
        match msg with
        | None => mret (- ENOMEM)
        | Some msg =>
            r ← (if negb (has MF_BLOCK flags) then send_page fuel msg thread buf len
                 else b ← gets (λ s, tr_of (mks s) buf); mret (inr b));
            match r with
            | inl e => mret e
            | inr b =>
                p ← gets (λ s, pid (threads (ksch (mks s)) me));
                _ ← modify (set_msg msg (Message p flags b len));
                _ ← on_ks (modify (λ k, set_mbox thread (mbox thread k ++ [msg]) k));
                _ ← on_ks (on_sched (tq_init debug msg));
                _ ← on_ks (wake_recipient fuel thread);
                _ ← (if has MF_BLOCK flags then on_ks (on_sched (scheduler_dequeue reg msg)) else mret tt);
                _ ← on_ks (on_sched (scheduler_yield reg));
                mret len
            end
        end
    end.

(** The label [sleep]. *)
Definition retrieve_sleep (flags : Z) : M mst turn :=
  if has MF_BLOCK flags then
    _ ← on_ks (on_sched (scheduler_dequeue reg sleepers));
    _ ← on_ks (on_sched (scheduler_yield reg));
    mret Asleep
  else mret (Done (- EAGAIN)).

(** The page of a message is given back. *)
Definition drop_page (fuel : nat) (b : Z) : M mst unit :=
  phys ← gets (λ s, __virt2physpg (m_pgdir (maps (kms (mks s)) (cur_map (mks s)))) (mwords (kms (mks s))) b);
  map ← gets (λ s, cur_map (mks s));
  _ ← on_ks (ms_modify (λ s, with_mwords (unmap_page (m_pgdir (maps s map)) b (mwords s)) s));
  pg ← on_ks (λ k, p ← addr_to_page fuel phys (mpa (kms k)); p ← of_option p; Ok (p, k));
  mma ← gets (λ s, m_mma (maps (kms (mks s)) map) 4);
  _ ← on_ks (on_ms (λ s, s ← mem_area_remove_page mma pg s; Ok (tt, s)));
  on_ks (on_ms (λ s, p ← put_pages fuel phys (mpa s); Ok (tt, with_mpa p s))).

(** From the search for the message on, where a thread that has slept goes on;
    an empty mailbox leaves [msg] NULL. *)
Definition retrieve_found (fuel : nat) (me msg bufp : Z) : M mst Z :=
  m ← gets (λ s, msgs s msg);
  _ ← on_ks (user_copy bufp (mbuf m) (mlen m));
  _ ← (if negb (has MF_BLOCK (mflags m)) then drop_page fuel (mbuf m) else mret tt);
  _ ← (if has MF_BLOCK (mflags m) then
         e ← on_ks (on_sched (tq_is_empty msg));
         if negb e then _ ← on_ks (on_sched (scheduler_enqueue reg msg)); mret tt else mret tt
       else mret tt);
  _ ← on_ks (modify (λ k, set_mbox me (filter (λ a, a ≠ msg) (mbox me k)) k));
  _ ← msg_free fuel msg;
  mret (mlen m).
Definition retrieve_scan (fuel : nat) (sender bufp flags : Z) : M mst turn :=
  me ← gets (λ s, CURRENT (mks s));
  l ← gets (λ s, mbox me (mks s));
  m ← gets (λ s, list_find (λ a, msender (msgs s a) = sender) l);
  if decide (l = []) then fault
  else match m with
  | None => retrieve_sleep flags
  | Some (_, msg) => r ← retrieve_found fuel me msg bufp; mret (Done r)
  end.

(** [bufp] is the value of [*buf]. *)
(* kernel/fs/message.c:144-207 msg_retrieve *)
Definition msg_retrieve (fuel : nat) (sender bufp len flags : Z) : M mst turn :=
  me ← gets (λ s, CURRENT (mks s));
  if decide (sender = 0 ∨ len = 0 ∨ bufp = 0) then mret (Done (- ENOSYS))
  else
    l ← gets (λ s, mbox me (mks s));
    if decide (l = []) then retrieve_sleep flags
    else retrieve_scan fuel sender bufp flags.
End messages.

(** ** Copies through the page tables *)

Section vcopy.
Context (tr : Z → Z) (dest src : Z) (n : nat).
Context (Hinj : ∀ i j, 0 ≤ i < Z.of_nat n → 0 ≤ j < Z.of_nat n → tr (dest + i) = tr (dest + j) → i = j).
Context (Hdis : ∀ i j, 0 ≤ i < Z.of_nat n → 0 ≤ j < Z.of_nat n → tr (dest + i) ≠ tr (src + j)).

(** What a copy of the bytes for which [P] holds leaves. *)
Definition copied (P : Z → Prop) (m m' : memory) : Prop :=
  (∀ i, 0 ≤ i < Z.of_nat n → P i → m' (tr (dest + i)) = m (tr (src + i))) ∧
  (∀ a, (∀ i, 0 ≤ i < Z.of_nat n → P i → a ≠ tr (dest + i)) → m' a = m a).

Lemma copied_mset (P P' : Z → Prop) m m' k :
  0 ≤ k < Z.of_nat n → (∀ i, P' i ↔ P i ∨ i = k) → ¬ P k →
  copied P (mset m (tr (dest + k)) (m (tr (src + k)))) m' → copied P' m m'.
Proof using Hinj Hdis.
  intros Hk HP Hn [H1 H2]. split.
  - intros i Hi Hp. destruct (decide (i = k)) as [->|Hne].
    + rewrite H2; [unfold mset; by rewrite decide_True|]. intros j Hj Hpj E. apply Hinj in E; [by subst|done..].
    + rewrite H1; [|done|apply HP in Hp as [|]; done]. unfold mset. rewrite decide_False; [done|]. by apply not_eq_sym, Hdis.
  - intros a Ha. rewrite H2; [|intros i Hi Hp; apply Ha; [done|apply HP; by left]].
    unfold mset. rewrite decide_False; [done|]. apply Ha; [done|]. apply HP. by right.
Qed.

Lemma vcopy_up_copied k m c : Z.of_nat k + c = Z.of_nat n → 0 ≤ c → copied (λ i, c ≤ i) m (vcopy_up tr m dest src c k).
Proof using Hinj Hdis.
  revert m c. induction k as [|k IH]; intros m c Hk Hc; cbn [vcopy_up].
  - split; [intros i ? ?; lia|done].
  - apply (copied_mset (λ i, c + 1 ≤ i) _ _ _ c); [lia|intros; lia|lia|]. apply IH; lia.
Qed.
Lemma vcopy_down_copied k m : (k ≤ n)%nat → copied (λ i, i < Z.of_nat k) m (vcopy_down tr m dest src k).
Proof using Hinj Hdis.
  revert m. induction k as [|k IH]; intros m Hk; cbn [vcopy_down].
  - split; [intros i ? ?; lia|done].
  - apply (copied_mset (λ i, i < Z.of_nat k) _ _ _ (Z.of_nat k)); [lia|intros; lia|lia|]. apply IH; lia.
Qed.

(** The bytes arrive, and no other byte changes. *)
Lemma vcopy_copied m :
  (∀ i, 0 ≤ i < Z.of_nat n → vcopy tr dest src n m (tr (dest + i)) = m (tr (src + i))) ∧
  (∀ a, (∀ i, 0 ≤ i < Z.of_nat n → a ≠ tr (dest + i)) → vcopy tr dest src n m a = m a).
Proof using Hinj Hdis.
  unfold vcopy. case_decide as E; [split; [intros i Hi; by rewrite E|done]|].
  case_decide; [destruct (vcopy_up_copied n m 0 ltac:(lia) ltac:(lia)) as [H1 H2]|destruct (vcopy_down_copied n m ltac:(lia)) as [H1 H2]].
  - split; [intros i Hi; apply H1; [done|lia]|intros a Ha; apply H2; intros; by apply Ha].
  - split; [intros i Hi; apply H1; [done|lia]|intros a Ha; apply H2; intros; by apply Ha].
Qed.
End vcopy.

(** ** Running the parts *)

Lemma filter_absent (x : Z) (l : list Z) : x ∉ l → filter (λ a, a ≠ x) l = l.
Proof.
  induction l as [|y l IH]; intros Hx; [done|]. rewrite filter_cons_True by set_solver. f_equal. apply IH. set_solver.
Qed.
Lemma bind_ks {A B} (o : M ks A) (f : A → M mst B) s a k : o (mks s) = Ok (a, k) → mbind f (on_ks o) s = f a (with_mks k s).
Proof. intros E. apply bind_run. unfold on_ks. by rewrite E. Qed.
Lemma bind_ks_sched {A B} (o : M sched A) (f : A → M mst B) s a c :
  o (ksch (mks s)) = Ok (a, c) → mbind f (on_ks (on_sched o)) s = f a (with_mks (set_ksch c (mks s)) s).
Proof. intros E. apply bind_ks. unfold on_sched. by rewrite E. Qed.

Section run.
Context (sleepers : Z) (Hsl : sleepers ≠ RQ).
Let reg := Some (sched0 true).

Lemma wake_recipient_run fuel thread k Q l1 l2 :
  tinv (ksch k) Q → quiet (ksch k) → Q sleepers = l1 ++ thread :: l2 → Q TMP_Q = [] → sleepers ≠ TMP_Q →
  (length (Q sleepers) < fuel)%nat →
  ∃ c, wake_recipient true reg sleepers fuel thread k = Ok (tt, set_ksch c k) ∧
       tinv c (upd (upd Q sleepers (l1 ++ l2)) RQ (thread :: Q RQ)) ∧ quiet c ∧ current c = current (ksch k).
Proof using Hsl.
  intros H Hq Hs Htmp Hne Hf. unfold wake_recipient.
  assert (klist0_for_each fuel (hp (ksch k)) (TQ sleepers) = Some (Run <$> Q sleepers)) as Hl.
  { pose proof (ti_rep _ _ H) as (L & HR & HL & Hh & _). rewrite <- HL. apply klist0_for_each_ring; [by apply rep_ring|].
    by rewrite HL, length_fmap. }
  erewrite bind_run; [|cbn beta; rewrite Hl; reflexivity]. cbn beta.
  assert (thread ∈ Q sleepers) as Hin by (rewrite Hs; set_solver).
  rewrite bool_decide_true by (by apply run_mem).
  destruct (tq_init_run _ _ TMP_Q H Hq Htmp) as (E1 & H1 & Hq1). rewrite (bind_on_sched (tq_init true TMP_Q) _ k tt _ E1).
  set (c1 := st_init TMP_Q (ksch k)) in *.
  rewrite (bind_on_sched (spin_lock true sleepers) _ (set_ksch c1 k) tt _ (spin_lock_run sleepers c1 (Hq1 sleepers))).
  set (c2 := with_counter sleepers 1 c1). assert (tinv c2 Q) as H2 by (by apply tinv_counter).
  rewrite (bind_on_sched (__tq_remove_thread thread) _ (set_ksch c2 (set_ksch c1 k)) tt _ (remove_run c2 Q thread sleepers H2 Hin)).
  destruct (locked sleepers c1 (st_remove thread c2) Hq1 (st_remove_same thread _)) as (Hc3 & Hq3 & Hs3).
  rewrite (bind_on_sched (spin_unlock true sleepers) _ (set_ksch (st_remove thread c2) (set_ksch c2 (set_ksch c1 k))) tt _
    (spin_unlock_run sleepers _ Hc3)).
  set (c4 := with_counter sleepers 0 (st_remove thread c2)) in *.
  destruct (tinv_remove c2 Q thread sleepers l1 l2 H2 Hs) as [H4 Hno].
  destruct (hand_over_run thread c4 (upd Q sleepers (l1 ++ l2))) as (c5 & c & Hins & Hen & Hi & Hqc & _ & Hcur & _);
    [by apply tinv_counter|done|done|by rewrite upd_ne|].
  rewrite (bind_on_sched (tq_insert_head true thread TMP_Q) _ (set_ksch c4 (set_ksch (st_remove thread c2) (set_ksch c2 (set_ksch c1 k)))) tt c5 Hins).
  rewrite (bind_on_sched (scheduler_enqueue reg TMP_Q) _ (set_ksch c5 _) true c Hen).
  exists c. split; [done|]. rewrite upd_ne in Hi by done. split; [done|]. split; [done|]. rewrite Hcur. apply (sm_current _ _ Hs3).
Qed.
End run.

Section rendezvous.
Context (sleepers : Z) (Hsl : sleepers ≠ RQ) (Htmp : sleepers ≠ TMP_Q).
Let reg := Some (sched0 true).

(** The state in which the sender is left: the message is in the mailbox. *)
Definition posted (thread msg : Z) (m : message) (c : slst pa) (s : mst) : mst :=
  let s := set_msg msg m (with_mks (set_kms (with_msl c (kms (mks s))) (mks s)) s) in
  with_mks (set_mbox thread (mbox thread (mks s) ++ [msg]) (mks s)) s.

(** Sending with MF_BLOCK to a thread that waits for it. *)
Lemma msg_send_run fuel recp buf len s Q me thread msg c l1 l2 r1 r2 h l :
  tinv (ksch (mks s)) Q → quiet (ksch (mks s)) → CURRENT (mks s) = me →
  thread_get fuel recp (ksch (mks s)) = Ok (Some thread) →
  slice_alloc (msg_pool s) (msl (kms (mks s))) = Ok (Some msg, c) → len ≤ PAGE_SIZE →
  Q sleepers = l1 ++ thread :: l2 → (length (Q sleepers) < fuel)%nat → Q TMP_Q = [] → Q msg = [] →
  msg ≠ RQ → msg ≠ sleepers →
  thread :: Q RQ = r1 ++ me :: r2 → r1 ++ r2 = h :: l →
  ∃ c', let m := Message (pid (threads (ksch (mks s)) me)) MF_BLOCK (tr_of (mks s) buf) len in
    let s1 := posted thread msg m c s in
    msg_send true reg sleepers fuel recp buf len MF_BLOCK s = Ok (len, with_mks (set_ksch c' (mks s1)) s1) ∧
    current c' = hd h l ∧ quiet c' ∧
    ∃ Q', tinv c' Q' ∧ Q' msg = [me] ∧ Q' RQ = tail (l ++ [h]) ++ [hd h l].
Proof using Hsl Htmp.
  intros H Hq Hme Hth Hal Hlen Hs Hf Ht Hm Hm1 Hm2 HR Hh. unfold msg_send. mrun. rewrite Hme.
  change (has (Z.lor MF_REMAP (Z.lor MF_NOTIFY MF_GRANU)) MF_BLOCK) with false. cbn [negb]. rewrite decide_False by lia.
  erewrite bind_ks; [|cbn beta; rewrite Hth; reflexivity]. cbn beta iota.
  erewrite bind_run; [|unfold msg_alloc; cbn [mks with_mks msg_pool]; rewrite Hal; reflexivity]. cbn beta iota.
  change (has MF_BLOCK MF_BLOCK) with true. cbn [negb]. mrun.
  erewrite bind_ks; [|reflexivity]. set (m := Message _ _ _ _). set (s1 := with_mks (set_mbox _ _ _) _).
  change s1 with (posted thread msg m c s). clear s1. set (s1 := posted thread msg m c s).
  destruct (tq_init_run (ksch (mks s1)) Q msg H Hq Hm) as (E1 & H1 & Hq1). rewrite (bind_ks_sched (tq_init true msg) _ s1 tt _ E1).
  set (s2 := with_mks (set_ksch (st_init msg (ksch (mks s1))) (mks s1)) s1).
  destruct (wake_recipient_run sleepers Hsl fuel thread (mks s2) Q l1 l2) as (c3 & E3 & H3 & Hq3 & Hc3); [done..|].
  rewrite (bind_ks (wake_recipient true reg sleepers fuel thread) _ s2 tt _ E3).
  destruct (sleep_run c3 _ msg me r1 r2 h l H3 Hq3) as (c4 & c5 & Q' & E4 & E5 & H5 & Hq5 & Hc5 & HQm & HQr & HQe);
    [rewrite Hc3; exact Hme|by rewrite upd_eq|done|done|].
  set (s3 := with_mks (set_ksch c3 (mks s2)) s2).
  rewrite (bind_ks_sched (scheduler_dequeue reg msg) _ s3 tt c4 E4).
  rewrite (bind_ks_sched (scheduler_yield reg) _ (with_mks (set_ksch c4 (mks s3)) s3) tt c5 E5).
  exists c5. split; [reflexivity|]. split; [done|]. split; [done|]. exists Q'. split; [done|]. split; [|done].
  rewrite HQm, !upd_ne by done. by rewrite Hm.
Qed.

(** Retrieving a message of a sender that waits for it. *)
Lemma retrieve_scan_run fuel s Q me msg l1 l2 bufp flags c :
  tinv (ksch (mks s)) Q → quiet (ksch (mks s)) → CURRENT (mks s) = me → mbox me (mks s) = l1 ++ msg :: l2 →
  msg ∉ l1 ++ l2 → (∀ a, a ∈ l1 → msender (msgs s a) ≠ msender (msgs s msg)) →
  has MF_BLOCK (mflags (msgs s msg)) = true → msg ≠ RQ → Q msg ≠ [] →
  slice_free fuel msg (msg_pool s) (msl (kms (mks s))) = Ok c →
  let m := msgs s msg in
  ∃ s', retrieve_scan reg sleepers fuel (msender m) bufp flags s = Ok (Done (mlen m), s') ∧
    mbytes (kms (mks s')) = vcopy (tr_of (mks s)) bufp (mbuf m) (Z.to_nat (mlen m)) (mbytes (kms (mks s))) ∧
    mbox me (mks s') = l1 ++ l2 ∧ tinv (ksch (mks s')) (woken msg Q) ∧ CURRENT (mks s') = me.
Proof using.
  intros H Hq Hme Hb Hn Hno Hfl Hm1 HQ Hfr m. unfold retrieve_scan. mrun. rewrite Hme, Hb.
  rewrite decide_False by (by destruct l1).
  assert (list_find (λ a, msender (msgs s a) = msender m) (l1 ++ msg :: l2) = Some (length l1, msg)) as ->.
  { apply list_find_Some. split; [by rewrite lookup_app_r, Nat.sub_diag by lia|]. split; [done|].
    intros j y Hy Hj. rewrite lookup_app_l in Hy by done. apply Hno. by eapply list_elem_of_lookup_2. }
  unfold retrieve_found. mrun. fold m. rewrite (bind_ks (user_copy bufp (mbuf m) (mlen m)) _ s tt _ eq_refl).
  set (s1 := with_mks _ s). change (msgs s msg) with m in Hfl. rewrite Hfl. cbn [negb]. mrun.
  rewrite (bind_ks_sched (tq_is_empty msg) _ s1 false (ksch (mks s1))).
  2: { unfold tq_is_empty, gets. change (ksch (mks s1)) with (ksch (mks s)). rewrite (tinv_empty _ _ _ H), bool_decide_false by done. done. }
  cbn [negb]. destruct (wake_run (ksch (mks s)) Q msg H Hq Hm1) as (b & c2 & E2 & H2 & Hq2 & Hc2 & _).
  mrun. set (s2 := with_mks (set_ksch _ _) s1). rewrite (bind_ks_sched (scheduler_enqueue reg msg) _ s2 b c2 E2).
  mrun. erewrite bind_ks; [|reflexivity]. mrun. erewrite bind_run.
  2: { unfold msg_free. change (slice_free fuel msg _ _) with (slice_free fuel msg (msg_pool s) (msl (kms (mks s)))). rewrite Hfr. reflexivity. }
  eexists. split; [reflexivity|]. split; [reflexivity|]. split; [|split; [exact H2|]].
  - unfold mbox. cbn. rewrite decide_True by done. change (ti_mbox (kinfo (mks s) me)) with (mbox me (mks s)). rewrite Hb.
    rewrite filter_app, filter_cons_False by (intros Hx; by apply Hx). rewrite <- filter_app. by apply filter_absent.
  - unfold CURRENT. cbn. by rewrite Hc2.
Qed.

End rendezvous.

(** Thread 1 runs and thread 2 waits for a message; the byte 42 at address 5
    goes to address 6. *)
Definition SLEEPERS : Z := 9.
Definition waiting_base : sched := Sched empty_heap (λ t, Thread None 0 0 t 0) (λ _, 0) true 1 false None 0.
Definition waiting_sched : sched := st_head 1 RQ (st_head 2 SLEEPERS (with_hp (klist0_append (Kt 2) ThreadList) waiting_base)).
Definition waiting : mst :=
  Mst (Ks waiting_sched (with_mbytes (λ a, if decide (a = 5) then 42 else 0) (with_mwords (λ _, 0) area2)) (kvfs first_boot)
         (λ _, Tinfo 0 [] 0 [] []) 3 2 1024 []) (λ _, Message 0 0 0 0) 0.

Lemma waiting_tinv : tinv waiting_sched (upd (upd (λ _, []) SLEEPERS [2]) RQ [1]).
Proof.
  assert (tinv (with_hp (klist0_append (Kt 2) ThreadList) waiting_base) (λ _, [])) as H0.
  { eapply listed_tinv; [apply listed_append; [by apply listed_empty|set_solver]|]. intros t q. split; [done|set_solver]. }
  assert (tinv (st_head 2 SLEEPERS (with_hp (klist0_append (Kt 2) ThreadList) waiting_base)) (upd (λ _, []) SLEEPERS [2])) as H1
    by (apply (tinv_head _ _ 2 SLEEPERS H0); set_solver).
  apply (tinv_head _ _ 1 RQ H1). intros r. unfold upd. case_decide; set_solver.
Qed.

Lemma waiting_slice :
  ∃ msg c c2, slice_alloc 0 (msl (kms (mks waiting))) = Ok (Some msg, c) ∧ slice_free 9 msg 0 c = Ok c2 ∧ msg ≠ RQ ∧ msg ≠ SLEEPERS.
Proof.
  assert (match slice_alloc 0 (msl (kms (mks waiting))) with
          | Ok (Some msg, c) => match slice_free 9 msg 0 c with Ok _ => bool_decide (msg ≠ RQ ∧ msg ≠ SLEEPERS) | _ => false end
          | _ => false
          end = true) as H by (vm_compute; reflexivity).
  destruct (slice_alloc 0 (msl (kms (mks waiting)))) as [[[msg|] c]| | |] eqn:E1; [|discriminate H..].
  destruct (slice_free 9 msg 0 c) as [c2| | |] eqn:E2; [|discriminate H..].
  exists msg, c, c2. apply bool_decide_eq_true in H. tauto.
Qed.


(** The length the recipient gives is only compared with zero: a longer message
    is copied past the end of its buffer. *)
Lemma retrieve_ignores_len reg sleepers fuel sender bufp len len' flags s :
  len ≠ 0 → len' ≠ 0 → msg_retrieve reg sleepers fuel sender bufp len flags s = msg_retrieve reg sleepers fuel sender bufp len' flags s.
Proof. intros H H'. unfold msg_retrieve. mrun. repeat case_decide; tauto || done. Qed.

(** The calls that are refused change nothing. *)
Lemma msg_errors debug reg sleepers fuel recp buf len flags s :
  (has (Z.lor MF_REMAP (Z.lor MF_NOTIFY MF_GRANU)) flags = true ∨ PAGE_SIZE < len →
   msg_send debug reg sleepers fuel recp buf len flags s = Ok (- ENOSYS, s)) ∧
  (has (Z.lor MF_REMAP (Z.lor MF_NOTIFY MF_GRANU)) flags = false → len ≤ PAGE_SIZE →
   thread_get fuel recp (ksch (mks s)) = Ok None →
   ∃ s', msg_send debug reg sleepers fuel recp buf len flags s = Ok (- EINVAL, s') ∧ msgs s' = msgs s ∧ mks s' = mks s) ∧
  (recp = 0 ∨ len = 0 ∨ buf = 0 → msg_retrieve reg sleepers fuel recp buf len flags s = Ok (Done (- ENOSYS), s)) ∧
  (recp ≠ 0 → len ≠ 0 → buf ≠ 0 → mbox (CURRENT (mks s)) (mks s) = [] → has MF_BLOCK flags = false →
   msg_retrieve reg sleepers fuel recp buf len flags s = Ok (Done (- EAGAIN), s)).
Proof.
  unfold msg_send, msg_retrieve, retrieve_sleep. split_and!.
  - intros Hf. mrun. destruct (has _ flags) eqn:E; [done|]. destruct Hf as [|Hf]; [done|]. by rewrite decide_True.
  - intros -> Hl Ht. mrun. rewrite decide_False by lia. erewrite bind_ks; [|cbn beta; rewrite Ht; reflexivity]. by eexists.
  - intros H. mrun. by rewrite decide_True.
  - intros H1 H2 H3 H4 H5. mrun. rewrite decide_False by tauto. mrun. rewrite decide_True by done. by rewrite H5.
Qed.
