(* ===== verification/Mpipe.v ===== *)
(** * Pipes between processes (kernel/fs/mpipe.c)

    The control structure of a pipe, its reader and its writer, over the
    scheduler, the mutex and the memory of the processes.  Reading and writing
    are sequences of turns: a turn runs until the call gives up the processor.
    The thread queue of the pipe at [mc] is the queue at the offset it has in
    the structure, and so is its mutex. *)

From S2P Require Import Prelude KList Bitmap Klib Buddy PageAlloc Slice Paging MemArea Sched Mutex Exec Message.

(* kernel/fs/mpipe.c:45-50 MC_CLOSED *)
Inductive mc_state := MC_CLOSED | MC_OPENED | MC_READ_FROM | MC_WRITTEN_TO.
#[global] Instance mc_state_eq_dec : EqDecision mc_state.
Proof. solve_decision. Defined.

(* kernel/fs/mpipe.c:37-43 mpipe_ctl *)
Record mpipe_ctl := Ctl { mc_buf : Z; mc_len : Z; mc_st : mc_state }.

(** The processes, the words of the mutexes, the pipes and their pool. *)
Record pst := Pst { pks : ks; pwords : Z → Z; ctls : Z → mpipe_ctl; mpipe_pool : Z }.
Definition with_pks (k : ks) (s : pst) : pst := Pst k (pwords s) (ctls s) (mpipe_pool s).
Definition set_ctl (mc : Z) (v : mpipe_ctl) (s : pst) : pst :=
  Pst (pks s) (pwords s) (λ a, if decide (a = mc) then v else ctls s a) (mpipe_pool s).
Definition set_state (mc : Z) (st : mc_state) (s : pst) : pst := set_ctl mc (Ctl (mc_buf (ctls s mc)) (mc_len (ctls s mc)) st) s.
Definition on_pks {A} (m : M ks A) : M pst A := λ s, '(a, k) ← m (pks s); Ok (a, with_pks k s).
Definition on_mutex {A} (m : M Mutex.mst A) : M pst A := λ s,
  '(a, c) ← m (Mutex.Mst (ksch (pks s)) (pwords s));
  Ok (a, Pst (set_ksch (Mutex.msch c) (pks s)) (Mutex.mword c) (ctls s) (mpipe_pool s)).

Section mpipe.
Context (debug : bool) (reg : option cpu_scheduler).

(** The offsets of [tq] and [mutex], and the size of the structure. *)
Definition mc_tq (mc : Z) : Z := mc + 12.
Definition mc_mutex (mc : Z) : Z := mc + (if debug then 24 else 20).
Definition MC_SIZE : Z := if debug then 40 else 32.

(** Up to the sleep, and after it. *)
(* kernel/fs/mpipe.c:52-66 mpipe_read *)
Definition mpipe_read (mc buf len : Z) : M pst unit :=
  phys ← gets (λ s, tr_of (pks s) buf);
  _ ← modify (λ s, set_ctl mc (Ctl phys len (mc_st (ctls s mc))) s);
  _ ← on_pks (on_sched (scheduler_dequeue reg (mc_tq mc)));
  on_pks (on_sched (scheduler_yield reg)).
Definition mpipe_read_woken (mc : Z) : M pst Z :=
  _ ← modify (set_state mc MC_READ_FROM);
  gets (λ s, mc_len (ctls s mc)).

(** Where the writer is: before the mutex, at the copy, in the loop that waits
    for the reader, or back. *)
Inductive writer := WLock | WCopy (buf done rest : Z) | WWait (buf done rest : Z) | WDone (r : Z).

(* kernel/fs/mpipe.c:68-92 mpipe_write *)
Definition mpipe_write (mc buf len : Z) (w : writer) : M pst writer :=
  match w with
  | WLock =>
      b ← on_mutex (mutex_lock reg (mc_mutex mc));
      mret (if (b : bool) then WCopy buf 0 len else WLock)
  | WCopy buf done rest =>
      c ← gets (λ s, ctls s mc);
      _ ← on_pks (user_copy (mc_buf c) buf (Z.min (mc_len c) rest));
      _ ← modify (set_state mc MC_WRITTEN_TO);
      _ ← on_pks (on_sched (scheduler_enqueue reg (mc_tq mc)));
      mret (WWait (u32 (buf + mc_len c)) (u32 (done + mc_len c)) (u32 (rest - mc_len c)))
  | WWait buf done rest =>
      c ← gets (λ s, ctls s mc);
      if decide (mc_st c ≠ MC_READ_FROM) then
        _ ← on_pks (on_sched (scheduler_yield reg));
        mret (WWait buf done rest)
      else if decide (done < len) then mret (WCopy buf done rest)
      else _ ← on_mutex (mutex_unlock reg (mc_mutex mc)); mret (WDone len)
  | WDone r => mret (WDone r)
  end.

(** The initialisation that [mpipe_open] and [mpipe_open2] share. *)
(* kernel/fs/mpipe.c:200-205 mutex_init *)
Definition mpipe_setup (mc : Z) : M pst unit :=
  _ ← on_pks (on_sched (tq_init debug (mc_tq mc)));
  _ ← modify (set_ctl mc (Ctl 0 0 MC_OPENED));
  on_mutex (mutex_init debug (mc_mutex mc)).

(* kernel/fs/mpipe.c:210-214 fs_mpipe_init *)
Definition fs_mpipe_init : M pst unit := λ s,
  '(p, c) ← slice_pool_create 0 MC_SIZE (msl (kms (pks s)));
  match p with
  | Some p => Ok (tt, Pst (set_kms (with_msl c (kms (pks s))) (pks s)) (pwords s) (ctls s) p)
  | None => Bug
  end.
End mpipe.

(** ** The exchange *)

Lemma bind_pks {A B} (o : M ks A) (f : A → M pst B) s a k : o (pks s) = Ok (a, k) → mbind f (on_pks o) s = f a (with_pks k s).
Proof. intros E. apply bind_run. unfold on_pks. by rewrite E. Qed.
Lemma bind_pks_sched {A B} (o : M sched A) (f : A → M pst B) s a c :
  o (ksch (pks s)) = Ok (a, c) → mbind f (on_pks (on_sched o)) s = f a (with_pks (set_ksch c (pks s)) s).
Proof. intros E. apply bind_pks. unfold on_sched. by rewrite E. Qed.

Section exchange.
Context (mc : Z) (Hmc : mc_tq mc ≠ RQ).
Let reg := Some (sched0 true).

(** A writer that finds a waiting reader copies what the reader asked for, but
    no more than it has, wakes the reader and waits. *)
Lemma mpipe_write_copies s Q buf0 len buf done rest :
  tinv (ksch (pks s)) Q → quiet (ksch (pks s)) →
  let c := ctls s mc in
  ∃ s', mpipe_write true reg mc buf0 len (WCopy buf done rest) s =
          Ok (WWait (u32 (buf + mc_len c)) (u32 (done + mc_len c)) (u32 (rest - mc_len c)), s') ∧
    mbytes (kms (pks s')) = vcopy (tr_of (pks s)) (mc_buf c) buf (Z.to_nat (Z.min (mc_len c) rest)) (mbytes (kms (pks s))) ∧
    ctls s' mc = Ctl (mc_buf c) (mc_len c) MC_WRITTEN_TO ∧ tinv (ksch (pks s')) (woken (mc_tq mc) Q) ∧ quiet (ksch (pks s')).
Proof using Hmc.
  intros H Hq c. unfold mpipe_write. mrun. erewrite bind_pks; [|reflexivity]. mrun. set (s1 := set_state mc _ _).
  destruct (wake_run (ksch (pks s)) Q (mc_tq mc) H Hq Hmc) as (b & k & E & Hk & Hqk & _).
  rewrite (bind_pks_sched (scheduler_enqueue reg (mc_tq mc)) _ s1 b k E). eexists. split; [reflexivity|].
  split; [reflexivity|]. split; [|done]. cbn. by rewrite decide_True.
Qed.

(** A writer that waits while the pipe has not been read from gives up the
    processor and changes neither the pipe nor its queue. *)
Lemma mpipe_write_waits s Q buf0 len buf done rest h l :
  tinv (ksch (pks s)) Q → quiet (ksch (pks s)) → Q RQ = h :: l → mc_st (ctls s mc) ≠ MC_READ_FROM →
  ∃ s', mpipe_write true reg mc buf0 len (WWait buf done rest) s = Ok (WWait buf done rest, s') ∧
    ctls s' = ctls s ∧ tinv (ksch (pks s')) (upd Q RQ (l ++ [h])) ∧ quiet (ksch (pks s')).
Proof using.
  intros H Hq HR Hst. unfold mpipe_write. mrun. rewrite decide_True by done.
  destruct (yield_run (ksch (pks s)) Q h l H Hq HR) as (c & E & Hc & Hqc & _).
  rewrite (bind_pks_sched (scheduler_yield reg) _ s tt c E). eexists. by split_and!.
Qed.

(** Turns of the writer alone. *)
Fixpoint writer_turns (n : nat) (buf0 len : Z) (w : writer) : M pst writer :=
  match n with
  | O => mret w
  | S n => w ← mpipe_write true reg mc buf0 len w; writer_turns n buf0 len w
  end.

(** A reader that comes after the writer is never woken: once the writer waits
    and the reader sleeps, no number of turns of the writer ends the wait. *)
Lemma mpipe_writer_first_stuck n s Q buf0 len buf done rest r l :
  tinv (ksch (pks s)) Q → quiet (ksch (pks s)) → Q RQ ≠ [] → Q (mc_tq mc) = r :: l → mc_st (ctls s mc) = MC_WRITTEN_TO →
  ∃ s' Q', writer_turns n buf0 len (WWait buf done rest) s = Ok (WWait buf done rest, s') ∧
    tinv (ksch (pks s')) Q' ∧ Q' (mc_tq mc) = r :: l ∧ mc_st (ctls s' mc) = MC_WRITTEN_TO.
Proof using Hmc.
  revert s Q. induction n as [|n IH]; intros s Q H Hq HR Hr Hst; [by exists s, Q|].
  destruct (Q RQ) as [|h t] eqn:E; [done|].
  destruct (mpipe_write_waits s Q buf0 len buf done rest h t) as (s1 & E1 & Hc & H1 & Hq1); [done..|by rewrite Hst|].
  cbn [writer_turns]. rewrite (bind_run _ _ _ _ _ E1).
  apply (IH s1 (upd Q RQ (t ++ [h]))); [done|done|rewrite upd_eq; by destruct t|by rewrite upd_ne|by rewrite Hc].
Qed.
End exchange.
