(* ===== verification/Syscall.v ===== *)
(** * System calls (arch/i386/syscalls.c, include/khui/i386/syscalls.h, usr/klibc/arch/i386/syscalls.c)

    The two ends of a system call: the stubs of the user library that put a
    call into registers, and the dispatcher of the kernel that takes it out.
    The calls themselves are those of Fs, Timers, Exec, Sched, Message, Mpipe
    and MemArea. *)

From S2P Require Import Prelude.

(* include/khui/i386/syscalls.h:30-48 __SYS_debug *)
Definition __SYS_debug : Z := 0.
Definition __SYS_open : Z := 1.
Definition __SYS_close : Z := 2.
Definition __SYS_read : Z := 3.
Definition __SYS_write : Z := 4.
Definition __SYS_tsleep : Z := 5.
Definition __SYS_fork : Z := 6.
Definition __SYS_yield : Z := 7.
Definition __SYS_getpid : Z := 8.
Definition __SYS_exec : Z := 9.
Definition __SYS_msg_send : Z := 10.
Definition __SYS_msg_retrieve : Z := 11.
Definition __SYS_readdir : Z := 12.
Definition __SYS_mpipe_open : Z := 13.
Definition __SYS_exit : Z := 14.
Definition __SYS_sbrk : Z := 15.
Definition __SYS_brk : Z := 16.
Definition __SYS_stat : Z := 17.
Definition __SYS_mpipe_open2 : Z := 18.

(** The calls with their arguments, as 32-bit values. *)
Inductive call :=
| Debug (str : Z)
| Open (name flags mode : Z)
| Close (fd : Z)
| Read (fd buf len : Z)
| Write (fd buf len : Z)
| Tsleep (delay : Z)
| Fork
| Yield
| Getpid
| Exec (path : Z)
| MsgSend (recp buf len flags : Z)
| MsgRetrieve (sender buf len flags : Z)
| Readdir (fd dents count : Z)
| MpipeOpen (name : Z)
| Exit (code : Z)
| Sbrk (inc : Z)
| Brk (addr : Z)
| Stat (path buf : Z)
| MpipeOpen2 (fd : Z)
| Unimplemented (number : Z).

(** What the dispatcher calls, in order; the last one gives the result.  The
    case of exit has no return. *)
(* arch/i386/syscalls.c:37-108 sys_call_gate *)
Definition sys_call_gate (eax ebx ecx edx esi edi : Z) : list call :=
  if decide (eax = __SYS_debug) then [Debug ebx]
  else if decide (eax = __SYS_open) then [Open ebx ecx edx]
  else if decide (eax = __SYS_close) then [Close ebx]
  else if decide (eax = __SYS_read) then [Read ebx ecx edx]
  else if decide (eax = __SYS_write) then [Write ebx ecx edx]
  else if decide (eax = __SYS_readdir) then [Readdir ebx ecx edx]
  else if decide (eax = __SYS_tsleep) then [Tsleep ebx]
  else if decide (eax = __SYS_fork) then [Fork]
  else if decide (eax = __SYS_yield) then [Yield]
  else if decide (eax = __SYS_getpid) then [Getpid]
  else if decide (eax = __SYS_exec) then [Exec ebx]
  else if decide (eax = __SYS_msg_send) then [MsgSend ebx ecx edx esi]
  else if decide (eax = __SYS_msg_retrieve) then [MsgRetrieve ebx ecx edx esi]
  else if decide (eax = __SYS_mpipe_open) then [MpipeOpen ebx]
  else if decide (eax = __SYS_exit) then [Exit ebx; Sbrk ebx]
  else if decide (eax = __SYS_sbrk) then [Sbrk ebx]
  else if decide (eax = __SYS_brk) then [Brk ebx]
  else if decide (eax = __SYS_stat) then [Stat ebx ecx]
  else if decide (eax = __SYS_mpipe_open2) then [MpipeOpen2 ebx]
  else [Unimplemented eax].

(** The registers of a call: eax, ebx, ecx, edx, esi, edi. *)
Definition registers : Type := Z * Z * Z * Z * Z * Z.
(* usr/klibc/arch/i386/syscalls.c:48-51 SYSCALL0 *)
Definition SYSCALL0 (n : Z) : registers := (n, 0, 0, 0, 0, 0).
(* usr/klibc/arch/i386/syscalls.c:53-56 SYSCALL1 *)
Definition SYSCALL1 (n a1 : Z) : registers := (n, a1, 0, 0, 0, 0).
(* usr/klibc/arch/i386/syscalls.c:64-67 SYSCALL2 *)
Definition SYSCALL2 (n a1 a2 : Z) : registers := (n, a1, a2, 0, 0, 0).
(* usr/klibc/arch/i386/syscalls.c:69-73 SYSCALL3 *)
Definition SYSCALL3 (n a1 a2 a3 : Z) : registers := (n, a1, a2, a3, 0, 0).
(* usr/klibc/arch/i386/syscalls.c:75-79 SYSCALL4 *)
Definition SYSCALL4 (n a1 a2 a3 a4 : Z) : registers := (n, a1, a2, a3, a4, 0).

(** The stubs; there is none for readdir. *)
(* usr/klibc/arch/i386/syscalls.c:93-111 SYSCALL1 *)
Definition stub (c : call) : option registers :=
  match c with
  | Debug str => Some (SYSCALL1 __SYS_debug str)
  | Open name flags mode => Some (SYSCALL3 __SYS_open name flags mode)
  | Close fd => Some (SYSCALL1 __SYS_close fd)
  | Read fd buf len => Some (SYSCALL3 __SYS_read fd buf len)
  | Write fd buf len => Some (SYSCALL3 __SYS_write fd buf len)
  | Tsleep delay => Some (SYSCALL1 __SYS_tsleep delay)
  | Fork => Some (SYSCALL0 __SYS_fork)
  | Yield => Some (SYSCALL0 __SYS_yield)
  | Getpid => Some (SYSCALL0 __SYS_getpid)
  | Exec path => Some (SYSCALL1 __SYS_exec path)
  | MsgSend recp buf len flags => Some (SYSCALL4 __SYS_msg_send recp buf len flags)
  | MsgRetrieve sender buf len flags => Some (SYSCALL4 __SYS_msg_retrieve sender buf len flags)
  | MpipeOpen name => Some (SYSCALL1 __SYS_mpipe_open name)
  | Exit code => Some (SYSCALL1 __SYS_exit code)
  | Sbrk inc => Some (SYSCALL1 __SYS_sbrk inc)
  | Brk addr => Some (SYSCALL1 __SYS_brk addr)
  | Stat path buf => Some (SYSCALL2 __SYS_stat path buf)
  | MpipeOpen2 fd => Some (SYSCALL1 __SYS_mpipe_open2 fd)
  | _ => None
  end.

Definition dispatch (r : registers) : list call := let '(eax, ebx, ecx, edx, esi, edi) := r in sys_call_gate eax ebx ecx edx esi edi.

(** Every call a stub makes reaches the kernel as that call, with exit followed
    by sbrk of its code. *)
Lemma stub_dispatch c r :
  stub c = Some r → dispatch r = match c with Exit code => [Exit code; Sbrk code] | c => [c] end.
Proof. destruct c; intros [= <-]; reflexivity. Qed.

(** A number from 19 on is refused. *)
Lemma dispatch_unknown n ebx ecx edx esi edi : 18 < n → sys_call_gate n ebx ecx edx esi edi = [Unimplemented n].
Proof.
  intros Hn. unfold sys_call_gate. repeat (rewrite decide_False; [|intros ->; by vm_compute in Hn]). done.
Qed.
