(* ===== verification/Ustring.v ===== *)
(** * Memory and strings in user programs (usr/klibc: mem*.c, str*.c)

    The functions of the library over the byte memory of Klib.v.  The loops
    over a count recurse on it; those that stop at a byte take fuel.  Plain
    [char] is unsigned here too (usr/klibc/Makefile). *)

From S2P Require Import Prelude Klib.

(** ** Blocks of bytes *)

(** [while (n--) *q++ = c] *)
Fixpoint fill_up (q c : Z) (n : nat) (m : memory) : memory :=
  match n with
  | O => m
  | S n => fill_up (q + 1) c n (mset m q (u8 c))
  end.

(* usr/klibc/memset.c:8-30 memset *)
Definition memset (dst c : Z) (n : nat) (m : memory) : memory := fill_up dst c n m.

(** The string instructions: bytes upwards, bytes downwards, words upwards. *)
Fixpoint movsb_up (q p : Z) (n : nat) (m : memory) : memory :=
  match n with
  | O => m
  | S n => movsb_up (q + 1) (p + 1) n (mset m q (m p))
  end.
Fixpoint movsb_down (q p : Z) (n : nat) (m : memory) : memory :=
  match n with
  | O => m
  | S n => movsb_down (q - 1) (p - 1) n (mset m q (m p))
  end.
Definition movsl (q p : Z) (m : memory) : memory :=
  mset (mset (mset (mset m q (m p)) (q + 1) (m (p + 1))) (q + 2) (m (p + 2))) (q + 3) (m (p + 3)).
Fixpoint movsl_up (q p : Z) (n : nat) (m : memory) : memory :=
  match n with
  | O => m
  | S n => movsl_up (q + 4) (p + 4) n (movsl q p m)
  end.

(* usr/klibc/memcpy.c:8-29 memcpy *)
Definition memcpy (dst src : Z) (n : nat) (m : memory) : memory :=
  let nl := Nat.div n 4 in
  movsb_up (dst + 4 * Z.of_nat nl) (src + 4 * Z.of_nat nl) (Nat.modulo n 4) (movsl_up dst src nl m).

(* usr/klibc/memmove.c:7-36 memmove *)
Definition memmove (dst src : Z) (n : nat) (m : memory) : memory :=
  if decide (dst < src) then movsb_up dst src n m
  else movsb_down (dst + (Z.of_nat n - 1)) (src + (Z.of_nat n - 1)) n m.

(* usr/klibc/memchr.c:8-19 memchr *)
Fixpoint memchr (sp c : Z) (n : nat) (m : memory) : option Z :=
  match n with
  | O => None
  | S n => if decide (ldc m sp = u8 c) then Some sp else memchr (sp + 1) c n m
  end.

Fixpoint memrchr_loop (sp c : Z) (n : nat) (m : memory) : option Z :=
  match n with
  | O => None
  | S n => if decide (ldc m sp = u8 c) then Some sp else memrchr_loop (sp - 1) c n m
  end.

(* usr/klibc/memrchr.c:8-19 memrchr *)
Definition memrchr (s c : Z) (n : nat) (m : memory) : option Z :=
  memrchr_loop (s + Z.of_nat n - 1) c n m.

(* usr/klibc/memcmp.c:7-19 memcmp *)
Fixpoint memcmp (c1 c2 : Z) (n : nat) (m : memory) : Z :=
  match n with
  | O => 0
  | S n =>
      let d := ldc m c1 - ldc m c2 in
      if decide (d ≠ 0) then d else memcmp (c1 + 1) (c2 + 1) n m
  end.

(* usr/klibc/memswap.c:10-24 memswap *)
Fixpoint memswap (p q : Z) (n : nat) (m : memory) : memory :=
  match n with
  | O => m
  | S n =>
      let tmp := m p in
      let m := mset m p (m q) in
      memswap (p + 1) (q + 1) n (mset m q tmp)
  end.

(* usr/klibc/memccpy.c:10-23 memccpy *)
Fixpoint memccpy (q p c : Z) (n : nat) (m : memory) : option Z * memory :=
  match n with
  | O => (None, m)
  | S n =>
      let ch := ldc m p in
      let m := mset m q ch in
      if decide (ch = u8 c) then (Some (q + 1), m) else memccpy (q + 1) (p + 1) c n m
  end.

(** The loop of [memmem] for needles of two bytes and more. *)
Fixpoint memmem_loop (fuel : nat) (y x j k l lim : Z) (mm : nat) (m : memory) : outcome (option Z) :=
  match fuel with
  | O => Hang
  | S f =>
      if decide (j ≤ lim) then
        if decide (ldc m (x + 1) ≠ ldc m (y + (j + 1))) then memmem_loop f y x (j + k) k l lim mm m
        else if decide (memcmp (x + 2) (y + j + 2) (mm - 2) m = 0 ∧ ldc m x = ldc m (y + j))
        then Ok (Some (y + j))
        else memmem_loop f y x (j + l) k l lim mm m
      else Ok None
  end.

(** The loop for a needle of one byte. *)
Fixpoint memmem1_loop (n : nat) (y x : Z) (m : memory) : option Z :=
  match n with
  | O => None
  | S n => if decide (ldc m y = ldc m x) then Some y else memmem1_loop n (y + 1) x m
  end.

(* usr/klibc/memmem.c:14-52 memmem *)
Definition memmem (fuel : nat) (haystack : Z) (n : nat) (needle : Z) (mm : nat) (m : memory) :
    outcome (option Z) :=
  let y := haystack in
  let x := needle in
  if decide ((n < mm)%nat ∨ mm = O ∨ n = O) then Ok None
  else if decide (mm ≠ 1%nat) then
    let '(k, l) := if decide (ldc m x = ldc m (x + 1)) then (2, 1) else (1, 2) in
    memmem_loop fuel y x 0 k l (Z.of_nat n - Z.of_nat mm) mm m
  else Ok (memmem1_loop n y x m).

(** ** Strings *)

(** The address of the NUL. *)
Fixpoint nul_at (fuel : nat) (m : memory) (ss : Z) : outcome Z :=
  match fuel with
  | O => Hang
  | S f => if decide (ldc m ss ≠ 0) then nul_at f m (ss + 1) else Ok ss
  end.

(* usr/klibc/strlen.c:7-13 strlen *)
Definition strlen (fuel : nat) (m : memory) (s : Z) : outcome Z :=
  ss ← nul_at fuel m s; Ok (ss - s).

(* usr/klibc/strcmp.c:7-21 strcmp *)
Fixpoint strcmp (fuel : nat) (m : memory) (c1 c2 : Z) : outcome Z :=
  match fuel with
  | O => Hang
  | S f =>
      let ch := ldc m c1 in
      let d := ch - ldc m c2 in
      if decide (d ≠ 0 ∨ ch = 0) then Ok d else strcmp f m (c1 + 1) (c2 + 1)
  end.

(* usr/klibc/strncmp.c:7-21 strncmp *)
Fixpoint strncmp (m : memory) (c1 c2 : Z) (n : nat) : Z :=
  match n with
  | O => 0
  | S n =>
      let ch := ldc m c1 in
      let d := ch - ldc m c2 in
      if decide (d ≠ 0 ∨ ch = 0) then d else strncmp m (c1 + 1) (c2 + 1) n
  end.

(* usr/klibc/strchr.c:8-17 strchr *)
Fixpoint strchr (fuel : nat) (m : memory) (s c : Z) : outcome (option Z) :=
  match fuel with
  | O => Hang
  | S f =>
      if decide (ldc m s ≠ u8 c) then
        if decide (ldc m s = 0) then Ok None else strchr f m (s + 1) c
      else Ok (Some s)
  end.

Fixpoint strrchr_from (fuel : nat) (m : memory) (s c : Z) (found : option Z) : outcome (option Z) :=
  match fuel with
  | O => Hang
  | S f =>
      if decide (ldc m s ≠ 0) then
        strrchr_from f m (s + 1) c (if decide (ldc m s = u8 c) then Some s else found)
      else Ok found
  end.

(* usr/klibc/strrchr.c:8-19 strrchr *)
Definition strrchr (fuel : nat) (m : memory) (s c : Z) : outcome (option Z) :=
  strrchr_from fuel m s c None.

(** [do { *q++ = ch = *p++; } while (ch)] *)
Fixpoint copy_str (fuel : nat) (q p : Z) (m : memory) : outcome memory :=
  match fuel with
  | O => Hang
  | S f =>
      let ch := ldc m p in
      let m := mset m q ch in
      if decide (ch ≠ 0) then copy_str f (q + 1) (p + 1) m else Ok m
  end.

(* usr/klibc/strcpy.c:9-20 strcpy *)
Definition strcpy (fuel : nat) (dst src : Z) (m : memory) : outcome memory := copy_str fuel dst src m.

(* usr/klibc/strcat.c:7-11 strcat *)
Definition strcat (fuel : nat) (dst src : Z) (m : memory) : outcome memory :=
  e ← strchr fuel m dst 0;
  match e with
  | Some q => strcpy fuel q src m
  | None => Fault
  end.

(** The copying loop of [strncpy]: the next destination, and what is left of [n]. *)
Fixpoint strncpy_loop (q p : Z) (n : nat) (m : memory) : Z * nat * memory :=
  match n with
  | O => (q, O, m)
  | S n =>
      let ch := ldc m p in
      let m := mset m q ch in
      if decide (ch = 0) then (q + 1, n, m) else strncpy_loop (q + 1) (p + 1) n m
  end.

(* usr/klibc/strncpy.c:7-24 strncpy *)
Definition strncpy (dst src : Z) (n : nat) (m : memory) : memory :=
  let '(q, n, m) := strncpy_loop dst src n m in
  memset q 0 n m.

(** The copying loop of [strncat]; [None] when it stored the NUL itself. *)
Fixpoint strncat_loop (q p : Z) (n : nat) (m : memory) : option Z * memory :=
  match n with
  | O => (Some q, m)
  | S n =>
      let ch := ldc m p in
      let m := mset m q ch in
      if decide (ch = 0) then (None, m) else strncat_loop (q + 1) (p + 1) n m
  end.

(* usr/klibc/strncat.c:8-22 strncat *)
Definition strncat (fuel : nat) (dst src : Z) (n : nat) (m : memory) : outcome memory :=
  e ← strchr fuel m dst 0;
  match e with
  | None => Fault
  | Some q =>
      match strncat_loop q src n m with
      | (Some q, m) => Ok (mset m q 0)
      | (None, m) => Ok m
      end
  end.

(* usr/klibc/strstr.c:7-11 strstr *)
Definition strstr (fuel : nat) (haystack needle : Z) (m : memory) : outcome (option Z) :=
  n ← strlen fuel m haystack;
  k ← strlen fuel m needle;
  memmem fuel haystack (Z.to_nat n) needle (Z.to_nat k) m.

(** ** Spans and tokens *)

(** [matchmap] as a function from bytes. *)
Fixpoint fill_map (fuel : nat) (m : memory) (map : Z) (mm : Z → Z) : outcome (Z → Z) :=
  match fuel with
  | O => Hang
  | S f =>
      if decide (ldc m map ≠ 0)
      then fill_map f m (map + 1) (λ b, if decide (b = ldc m map) then 1 else mm b)
      else Ok mm
  end.

Fixpoint span (fuel : nat) (m : memory) (s : Z) (mm : Z → Z) (parity n : Z) : outcome Z :=
  match fuel with
  | O => Hang
  | S f =>
      if decide (Z.lxor (mm (ldc m s)) parity ≠ 0) then span f m (s + 1) mm parity (n + 1)
      else Ok n
  end.

(* usr/klibc/strxspn.c:11-29 __strxspn *)
Definition __strxspn (fuel : nat) (m : memory) (s map parity : Z) : outcome Z :=
  mm ← fill_map fuel m map (λ _, 0);
  span fuel m s (λ b, if decide (b = 0) then parity else mm b) parity 0.

(* usr/klibc/strspn.c:7-10 strspn *)
Definition strspn (fuel : nat) (m : memory) (s accept : Z) : outcome Z := __strxspn fuel m s accept 0.

(* usr/klibc/strcspn.c:7-10 strcspn *)
Definition strcspn (fuel : nat) (m : memory) (s reject : Z) : outcome Z := __strxspn fuel m s reject 1.

(* usr/klibc/strpbrk.c:7-12 strpbrk *)
Definition strpbrk (fuel : nat) (m : memory) (s accept : Z) : outcome (option Z) :=
  n ← __strxspn fuel m s accept 1;
  let ss := s + n in
  Ok (if decide (ldc m ss ≠ 0) then Some ss else None).

(* usr/klibc/strsep.c:7-21 strsep *)
Definition strsep (fuel : nat) (stringp : option Z) (delim : Z) (m : memory) :
    outcome (option Z * option Z * memory) :=
  match stringp with
  | None => Ok (None, None, m)
  | Some s =>
      e ← strpbrk fuel m s delim;
      match e with
      | Some e => Ok (Some s, Some (e + 1), mset m e 0)
      | None => Ok (Some s, None, m)
      end
  end.

(** The loop of [strtok]; [holder] is its static variable. *)
Fixpoint strtok_loop (fuel : nat) (holder : option Z) (delim : Z) (m : memory) :
    outcome (option Z * option Z * memory) :=
  match fuel with
  | O => Hang
  | S f =>
      '(s, holder, m) ← strsep fuel holder delim m;
      match s with
      | None => Ok (None, holder, m)
      | Some p => if decide (ldc m p = 0) then strtok_loop f holder delim m else Ok (Some p, holder, m)
      end
  end.

(* usr/klibc/strtok.c:7-19 strtok *)
Definition strtok (fuel : nat) (s holder : option Z) (delim : Z) (m : memory) :
    outcome (option Z * option Z * memory) :=
  strtok_loop fuel (match s with Some _ => s | None => holder end) delim m.

(** ** The blocks of bytes the functions leave *)

Lemma mset_at m a v b : mset m a v b = if decide (b = a) then v else m b.
Proof. done. Qed.

Ltac cells := repeat (rewrite mset_at); repeat case_decide; try done; try lia; try (f_equal; lia).

Lemma fill_up_at q c n m a :
  fill_up q c n m a = if decide (q ≤ a < q + Z.of_nat n) then u8 c else m a.
Proof.
  revert q m. induction n as [|n IH]; intros q m; cbn [fill_up]; [by rewrite decide_False by lia|].
  rewrite IH. cells.
Qed.

Lemma movsb_up_at q p n m a :
  q ≤ p ∨ p + Z.of_nat n ≤ q →
  movsb_up q p n m a = if decide (q ≤ a < q + Z.of_nat n) then m (p + (a - q)) else m a.
Proof.
  revert q p m. induction n as [|n IH]; intros q p m H; cbn [movsb_up]; [by rewrite decide_False by lia|].
  rewrite IH by lia. cells.
Qed.

Lemma movsb_down_at q p n m a :
  p ≤ q ∨ q ≤ p - Z.of_nat n →
  movsb_down q p n m a = if decide (q - Z.of_nat n < a ≤ q) then m (p - (q - a)) else m a.
Proof.
  revert q p m. induction n as [|n IH]; intros q p m H; cbn [movsb_down]; [by rewrite decide_False by lia|].
  rewrite IH by lia. cells.
Qed.

Lemma movsl_at q p m a :
  movsl q p m a = if decide (q ≤ a < q + 4) then m (p + (a - q)) else m a.
Proof. unfold movsl. cells. Qed.

Lemma movsl_up_at q p n m a :
  q ≤ p ∨ p + 4 * Z.of_nat n ≤ q →
  movsl_up q p n m a = if decide (q ≤ a < q + 4 * Z.of_nat n) then m (p + (a - q)) else m a.
Proof.
  revert q p m. induction n as [|n IH]; intros q p m H; cbn [movsl_up]; [by rewrite decide_False by lia|].
  rewrite IH by lia. rewrite !movsl_at. cells.
Qed.

Lemma memcpy_at d s n m a :
  d ≤ s ∨ s + Z.of_nat n ≤ d →
  memcpy d s n m a = if decide (d ≤ a < d + Z.of_nat n) then m (s + (a - d)) else m a.
Proof.
  intros H. unfold memcpy. pose proof (Nat.div_mod n 4 ltac:(lia)) as Hn.
  set (l := Nat.div n 4) in *. set (r := Nat.modulo n 4) in *. clearbody l r. subst n.
  rewrite movsb_up_at by lia. rewrite !movsl_up_at by lia. cells.
Qed.

Lemma memmove_at d s n m a :
  memmove d s n m a = if decide (d ≤ a < d + Z.of_nat n) then m (s + (a - d)) else m a.
Proof.
  unfold memmove. case_decide.
  - by rewrite movsb_up_at by lia.
  - rewrite movsb_down_at by lia. cells.
Qed.

Lemma memswap_at p q n m a :
  p + Z.of_nat n ≤ q ∨ q + Z.of_nat n ≤ p →
  memswap p q n m a =
    if decide (p ≤ a < p + Z.of_nat n) then m (q + (a - p))
    else if decide (q ≤ a < q + Z.of_nat n) then m (p + (a - q)) else m a.
Proof.
  revert p q m. induction n as [|n IH]; intros p q m H; cbn [memswap].
  - by rewrite !decide_False by lia.
  - rewrite IH by lia. cells.
Qed.

Lemma memcmp_spec a b n m :
  memcmp a b n m = 0 ↔ ∀ i, 0 ≤ i < Z.of_nat n → ldc m (a + i) = ldc m (b + i).
Proof.
  revert a b. induction n as [|n IH]; intros a b; cbn [memcmp]; [split; [lia|done]|].
  case_decide as E.
  - split; [done|]. intros H. specialize (H 0 ltac:(lia)). rewrite !Z.add_0_r in H. lia.
  - rewrite IH. split; intros H i Hi.
    + destruct (decide (i = 0)) as [->|]; [rewrite !Z.add_0_r; lia|].
      specialize (H (i - 1) ltac:(lia)).
      by replace (a + 1 + (i - 1)) with (a + i) in H by lia; replace (b + 1 + (i - 1)) with (b + i) in H by lia.
    + specialize (H (i + 1) ltac:(lia)).
      by replace (a + 1 + i) with (a + (i + 1)) by lia; replace (b + 1 + i) with (b + (i + 1)) by lia.
Qed.

(** ** The search for a block of bytes *)

(** The needle of [k] bytes at [x] is found [j] bytes after [y]. *)
Definition occurs (m : memory) (y x k j : Z) : Prop :=
  ∀ i, 0 ≤ i < k → ldc m (y + j + i) = ldc m (x + i).

(** The answer to a search of the first [lim + 1] places. *)
Definition first_occurrence (m : memory) (y x k lim : Z) (r : option Z) : Prop :=
  match r with
  | Some a => ∃ j, a = y + j ∧ 0 ≤ j ≤ lim ∧ occurs m y x k j ∧ ∀ j', 0 ≤ j' < j → ¬ occurs m y x k j'
  | None => ∀ j, 0 ≤ j ≤ lim → ¬ occurs m y x k j
  end.

Lemma occurs_first m y x k j : 0 < k → occurs m y x k j → ldc m (y + j) = ldc m x.
Proof. intros Hk H. specialize (H 0 ltac:(lia)). by rewrite !Z.add_0_r in H. Qed.
Lemma occurs_second m y x k j : 1 < k → occurs m y x k j → ldc m (y + (j + 1)) = ldc m (x + 1).
Proof. intros Hk H. specialize (H 1 ltac:(lia)). by rewrite <- Z.add_assoc in H. Qed.

Lemma occurs_tail m y x mm j :
  (2 ≤ mm)%nat → ldc m x = ldc m (y + j) → ldc m (x + 1) = ldc m (y + (j + 1)) →
  memcmp (x + 2) (y + j + 2) (mm - 2) m = 0 → occurs m y x (Z.of_nat mm) j.
Proof.
  intros Hmm H0 H1 H2 i Hi. rewrite memcmp_spec in H2.
  destruct (decide (i = 0)) as [->|]; [by rewrite !Z.add_0_r|].
  destruct (decide (i = 1)) as [->|]; [by rewrite <- Z.add_assoc|].
  specialize (H2 (i - 2) ltac:(lia)).
  replace (x + 2 + (i - 2)) with (x + i) in H2 by lia. by replace (y + j + 2 + (i - 2)) with (y + j + i) in H2 by lia.
Qed.

(** The steps of one and two places pass over no occurrence. *)
Lemma memmem_loop_spec fuel y x j k l lim mm m :
  (2 ≤ mm)%nat → 0 ≤ j → Z.max 0 (lim - j + 1) < Z.of_nat fuel →
  (ldc m x = ldc m (x + 1) ∧ k = 2 ∧ l = 1 ∨ ldc m x ≠ ldc m (x + 1) ∧ k = 1 ∧ l = 2) →
  (∀ j', 0 ≤ j' < j → ¬ occurs m y x (Z.of_nat mm) j') →
  ∃ r, memmem_loop fuel y x j k l lim mm m = Ok r ∧ first_occurrence m y x (Z.of_nat mm) lim r.
Proof.
  intros Hmm Hj Hf Hkl. revert j Hj Hf.
  induction fuel as [|fuel IH]; intros j Hj Hf Hno; [lia|]. cbn [memmem_loop].
  destruct (decide (j ≤ lim)) as [Hjl|Hjl].
  2:{ eexists. split; [done|]. intros j' Hj'. apply Hno. lia. }
  destruct (decide (ldc m (x + 1) ≠ ldc m (y + (j + 1)))) as [Hne|Heq].
  - apply IH; [lia|lia|]. intros j' Hj' Ho. destruct (decide (j' < j)); [by apply (Hno j'); [lia|]|].
    destruct (decide (j' = j)) as [->|]; [by apply Hne; rewrite (occurs_second m y x (Z.of_nat mm) j ltac:(lia) Ho)|].
    destruct Hkl as [(E & -> & ->)|(_ & -> & ->)]; [|lia]. assert (j' = j + 1) as -> by lia.
    apply Hne. rewrite <- E. symmetry. by apply (occurs_first _ _ _ (Z.of_nat mm)); [lia|].
  - apply dec_stable in Heq. destruct (decide _) as [[Hc H0]|Hn].
    + eexists. split; [done|]. exists j. split_and!; [done|lia|lia| |done]. by apply occurs_tail.
    + apply IH; [lia|lia|]. intros j' Hj' Ho. destruct (decide (j' < j)); [by apply (Hno j'); [lia|]|].
      destruct (decide (j' = j)) as [->|].
      * apply Hn. split; [|by rewrite (occurs_first m y x (Z.of_nat mm) j ltac:(lia) Ho)].
        apply memcmp_spec. intros i Hi. specialize (Ho (i + 2) ltac:(lia)).
        replace (x + 2 + i) with (x + (i + 2)) by lia. by replace (y + j + 2 + i) with (y + j + (i + 2)) by lia.
      * destruct Hkl as [(_ & -> & ->)|(E & -> & ->)]; [lia|]. assert (j' = j + 1) as -> by lia.
        apply E. rewrite Heq. symmetry. by apply (occurs_first _ _ _ (Z.of_nat mm)); [lia|].
Qed.

Lemma memmem1_loop_spec n y x j m :
  match memmem1_loop n (y + j) x m with
  | Some a => ∃ j', a = y + j' ∧ j ≤ j' < j + Z.of_nat n ∧ occurs m y x 1 j' ∧
                    ∀ i, j ≤ i < j' → ¬ occurs m y x 1 i
  | None => ∀ i, j ≤ i < j + Z.of_nat n → ¬ occurs m y x 1 i
  end.
Proof.
  revert j. induction n as [|n IH]; intros j; cbn [memmem1_loop]; [lia|].
  case_decide as E.
  - exists j. split_and!; [done|lia|lia| |lia]. intros i Hi. assert (i = 0) as -> by lia. by rewrite !Z.add_0_r.
  - assert (¬ occurs m y x 1 j) as Hno.
    { intros Ho. apply E. by apply (occurs_first _ _ _ 1). }
    specialize (IH (j + 1)). replace (y + (j + 1)) with (y + j + 1) in IH by lia.
    destruct (memmem1_loop n (y + j + 1) x m).
    + destruct IH as (j' & -> & ? & ? & Hi). exists j'. split_and!; [done|lia|lia|done|].
      intros i ?. destruct (decide (i = j)) as [->|]; [done|]. apply Hi. lia.
    + intros i ?. destruct (decide (i = j)) as [->|]; [done|]. apply IH. lia.
Qed.

Lemma memmem_spec fuel y n x k m :
  (n < fuel)%nat →
  ∃ r, memmem fuel y n x k m = Ok r ∧
    if decide (k = O) then r = None
    else first_occurrence m y x (Z.of_nat k) (Z.of_nat n - Z.of_nat k) r.
Proof.
  intros Hf. unfold memmem. destruct (decide (k = O)) as [->|Hk0].
  { rewrite decide_True by lia. by eexists. }
  destruct (decide (_ ∨ _)) as [Hd|Hd].
  { eexists. split; [done|]. intros j Hj. lia. }
  destruct (decide (k ≠ 1%nat)) as [Hk|Hk].
  - destruct (decide (ldc m x = ldc m (x + 1))); apply memmem_loop_spec; try lia; try tauto.
  - apply dec_stable in Hk as ->. eexists. split; [done|].
    pose proof (memmem1_loop_spec n y x 0 m) as H. rewrite Z.add_0_r in H. destruct (memmem1_loop n y x m); simpl.
    + destruct H as (j & -> & ? & ? & Hj). exists j. split_and!; [done|lia|lia|done|done].
    + intros j Hj. apply H. lia.
Qed.

(** ** Strings *)

Lemma cstr_ldc m p b s : cstr m p (b :: s) → ldc m p = b ∧ 0 < b < 256 ∧ cstr m (p + 1) s.
Proof. intros (Hm & Hb & Hs). unfold ldc. rewrite Hm, u8_small by lia. done. Qed.

Lemma cstr_move m m' p q s :
  (∀ i, 0 ≤ i ≤ Z.of_nat (length s) → m' (q + i) = m (p + i)) → cstr m p s → cstr m' q s.
Proof.
  revert p q. induction s as [|b s IH]; intros p q H; simpl.
  - specialize (H 0 ltac:(simpl; lia)). rewrite !Z.add_0_r in H. by rewrite H.
  - intros (Hm & Hb & Hs). split_and!; [|lia|lia|].
    + specialize (H 0 ltac:(simpl; lia)). rewrite !Z.add_0_r in H. by rewrite H.
    + eapply IH, Hs. intros i Hi. specialize (H (i + 1) ltac:(simpl; lia)).
      replace (q + 1 + i) with (q + (i + 1)) by lia. by replace (p + 1 + i) with (p + (i + 1)) by lia.
Qed.

Lemma cstr_frame m m' p s :
  (∀ a, p ≤ a ≤ p + Z.of_nat (length s) → m' a = m a) → cstr m p s → cstr m' p s.
Proof. intros H. apply cstr_move. intros. apply H. lia. Qed.

(** A string in two pieces. *)
Lemma cstr_split m p s1 s2 :
  cstr m p (s1 ++ s2) ↔
  (∀ i b, s1 !! i = Some b → m (p + Z.of_nat i) = b ∧ 0 < b < 256) ∧ cstr m (p + Z.of_nat (length s1)) s2.
Proof.
  split.
  - intros Hc. split; [|by apply cstr_app]. intros i b Hi. eapply cstr_lookup; [done|]. by apply lookup_app_l_Some.
  - revert p. induction s1 as [|c s1 IH]; intros p [H1 H2]; simpl.
    + simpl in H2. by rewrite Z.add_0_r in H2.
    + destruct (H1 0%nat c ltac:(done)) as [Hm Hb]. rewrite Z.add_0_r in Hm. split_and!; [done|lia|lia|].
      apply IH. split.
      * intros i b Hi. specialize (H1 (S i) b Hi). by replace (p + 1 + Z.of_nat i) with (p + Z.of_nat (S i)) by lia.
      * simpl in H2. by replace (p + 1 + Z.of_nat (length s1)) with (p + Z.of_nat (S (length s1))) by lia.
Qed.

Lemma nul_at_spec fuel m p s :
  cstr m p s → (length s < fuel)%nat → nul_at fuel m p = Ok (p + Z.of_nat (length s)).
Proof.
  revert p s. induction fuel as [|fuel IH]; intros p s Hc Hf; [lia|]. cbn [nul_at].
  destruct s as [|b s].
  - rewrite decide_False by (rewrite ldc_nil by done; lia). f_equal. simpl. lia.
  - apply cstr_ldc in Hc as (-> & Hb & Hc). simpl in Hf. rewrite decide_True, (IH _ _ Hc) by lia.
    f_equal. simpl. lia.
Qed.

Lemma strlen_spec fuel m p s :
  cstr m p s → (length s < fuel)%nat → strlen fuel m p = Ok (Z.of_nat (length s)).
Proof. intros Hc Hf. unfold strlen. rewrite (nul_at_spec _ _ _ s) by done. cbn. f_equal. lia. Qed.

(** The lexicographic order of byte strings. *)
Fixpoint lex (a b : list Z) : comparison :=
  match a, b with
  | [], [] => Eq
  | [], _ :: _ => Lt
  | _ :: _, [] => Gt
  | x :: a, y :: b => match x ?= y with Eq => lex a b | c => c end
  end.

Lemma lex_eq a b : lex a b = Eq ↔ a = b.
Proof.
  revert b. induction a as [|x a IH]; intros [|y b]; simpl; try done.
  destruct (Z.compare_spec x y) as [->|?|?].
  - rewrite IH. split; [by intros ->|by intros [= ->]].
  - split; [done|]. intros [= -> ->]. lia.
  - split; [done|]. intros [= -> ->]. lia.
Qed.

Lemma strcmp_spec fuel m a b sa sb :
  cstr m a sa → cstr m b sb → (length sa < fuel)%nat →
  ∃ d, strcmp fuel m a b = Ok d ∧ (d ?= 0) = lex sa sb.
Proof.
  revert a b sa sb. induction fuel as [|fuel IH]; intros a b sa sb Ha Hb Hf; [lia|]. cbn [strcmp].
  destruct sa as [|x sa].
  { rewrite (ldc_nil m a) by done. rewrite decide_True by lia. eexists. split; [done|].
    destruct sb as [|y sb]; simpl; [by rewrite (ldc_nil m b) by done|].
    apply cstr_ldc in Hb as (-> & ? & _). apply Z.compare_lt_iff. lia. }
  apply cstr_ldc in Ha as (-> & Hx & Ha). destruct sb as [|y sb]; simpl.
  { rewrite (ldc_nil m b) by done. rewrite decide_True by lia. eexists. split; [done|]. apply Z.compare_gt_iff. lia. }
  apply cstr_ldc in Hb as (-> & Hy & Hb). simpl in Hf. case_decide as E.
  - eexists. split; [done|]. destruct (Z.compare_spec x y); [lia|apply Z.compare_lt_iff; lia|apply Z.compare_gt_iff; lia].
  - assert (x = y) as -> by lia. rewrite Z.compare_refl. apply IH; [done..|lia].
Qed.

Lemma strncmp_spec m a b sa sb n :
  cstr m a sa → cstr m b sb → (strncmp m a b n ?= 0) = lex (take n sa) (take n sb).
Proof.
  revert a b sa sb. induction n as [|n IH]; intros a b sa sb Ha Hb; cbn [strncmp]; [done|].
  destruct sa as [|x sa].
  { rewrite (ldc_nil m a) by done. rewrite decide_True by lia.
    destruct sb as [|y sb]; simpl; [by rewrite (ldc_nil m b) by done|].
    apply cstr_ldc in Hb as (-> & ? & _). apply Z.compare_lt_iff. lia. }
  apply cstr_ldc in Ha as (-> & Hx & Ha). destruct sb as [|y sb]; simpl.
  { rewrite (ldc_nil m b) by done. rewrite decide_True by lia. apply Z.compare_gt_iff. lia. }
  apply cstr_ldc in Hb as (-> & Hy & Hb). case_decide as E.
  - destruct (Z.compare_spec x y); [lia|apply Z.compare_lt_iff; lia|apply Z.compare_gt_iff; lia].
  - assert (x = y) as -> by lia. rewrite Z.compare_refl. by apply IH.
Qed.

(** [strchr] finds the NUL too. *)
Lemma strchr_spec fuel m p s c :
  cstr m p s → 0 ≤ c < 256 → (length s < fuel)%nat →
  strchr fuel m p c = Ok ((λ x, p + Z.of_nat x.1) <$> list_find (eq c) (s ++ [0])).
Proof.
  revert p s. induction fuel as [|fuel IH]; intros p s Hc Hb Hf; [lia|]. cbn [strchr].
  rewrite (u8_small c) by lia. destruct s as [|b s]; simpl.
  - rewrite (ldc_nil m p) by done. destruct (decide (c = 0)) as [->|].
    + rewrite decide_False by lia. simpl. do 2 f_equal. lia.
    + by rewrite !decide_True by lia.
  - apply cstr_ldc in Hc as (-> & Hb' & Hc). simpl in Hf. destruct (decide (c = b)) as [->|].
    + rewrite decide_False by lia. simpl. do 2 f_equal. lia.
    + rewrite decide_True, decide_False by lia. rewrite (IH _ s) by (done || lia).
      rewrite <- option_fmap_compose. f_equal. apply option_fmap_ext. intros [i x]. simpl. lia.
Qed.

Lemma strchr_nul fuel m p s :
  cstr m p s → (length s < fuel)%nat → strchr fuel m p 0 = Ok (Some (p + Z.of_nat (length s))).
Proof.
  intros Hc Hf. rewrite (strchr_spec _ _ _ s) by (done || lia). f_equal.
  assert (list_find (eq 0) (s ++ [0]) = Some (length s, 0)) as ->; [|done].
  apply list_find_Some. split_and!; [by rewrite lookup_app_r, Nat.sub_diag|done|].
  intros i x Hi Hlt. rewrite lookup_app_l in Hi by done. destruct (cstr_lookup _ _ _ _ _ Hc Hi). lia.
Qed.

(** The last occurrence. *)
Lemma strrchr_from_spec fuel m p s c found :
  cstr m p s → 0 < c < 256 → (length s < fuel)%nat →
  (∃ s1 s2, s = s1 ++ c :: s2 ∧ (c ∉ s2) ∧
    strrchr_from fuel m p c found = Ok (Some (p + Z.of_nat (length s1)))) ∨
  ((c ∉ s) ∧ strrchr_from fuel m p c found = Ok found).
Proof.
  revert p s found. induction fuel as [|fuel IH]; intros p s found Hc Hb Hf; [lia|].
  cbn [strrchr_from]. rewrite (u8_small c) by lia. destruct s as [|b s].
  - right. rewrite decide_False by (rewrite ldc_nil by done; lia). split; [set_solver|done].
  - apply cstr_ldc in Hc as (-> & Hb' & Hc). simpl in Hf. rewrite decide_True by lia.
    destruct (IH (p + 1) s (if decide (b = c) then Some p else found) Hc Hb ltac:(lia))
      as [(s1 & s2 & -> & Hn & ->)|[Hn ->]].
    + left. exists (b :: s1), s2. split_and!; [done..|]. do 2 f_equal. simpl. lia.
    + case_decide as E; [|right; split; [set_solver|done]]. subst b.
      left. exists [], s. split_and!; [done..|]. do 2 f_equal. simpl. lia.
Qed.

Lemma copy_str_spec fuel q p s m :
  cstr m p s → q ≤ p ∨ p + Z.of_nat (length s) < q → (length s < fuel)%nat →
  ∃ m', copy_str fuel q p m = Ok m' ∧
    ∀ a, m' a = if decide (q ≤ a ≤ q + Z.of_nat (length s)) then m (p + (a - q)) else m a.
Proof.
  revert q p s m. induction fuel as [|fuel IH]; intros q p s m Hc Hd Hf; [lia|]. cbn [copy_str].
  destruct s as [|b s].
  - rewrite (ldc_nil m p) by done. rewrite decide_False by lia. eexists. split; [done|].
    intros a. simpl in *. cells. by replace (p + (a - q)) with p by lia.
  - destruct (cstr_ldc _ _ _ _ Hc) as (Hl & Hb & Hc'). rewrite Hl, decide_True by lia. simpl in Hf, Hd.
    destruct (IH (q + 1) (p + 1) s (mset m q b)) as (m' & -> & Hm').
    + eapply cstr_frame, Hc'. intros a Ha. cells.
    + lia.
    + lia.
    + exists m'. split; [done|]. intros a. rewrite Hm'. simpl. cells.
      replace (p + (a - q)) with p by lia. by destruct Hc as [-> _].
Qed.

Lemma strcat_spec fuel dst src a b m :
  cstr m dst a → cstr m src b →
  (dst + Z.of_nat (length a) + Z.of_nat (length b) < src ∨ src + Z.of_nat (length b) < dst) →
  (length a < fuel)%nat → (length b < fuel)%nat →
  ∃ m', strcat fuel dst src m = Ok m' ∧ cstr m' dst (a ++ b) ∧
    ∀ x, ¬ (dst ≤ x ≤ dst + Z.of_nat (length a + length b)) → m' x = m x.
Proof.
  intros Ha Hb Hd Hfa Hfb. unfold strcat, strcpy. rewrite (strchr_nul _ _ _ a) by done. cbn [mbind outcome_bind].
  destruct (copy_str_spec fuel (dst + Z.of_nat (length a)) src b m) as (m' & -> & Hm'); [done|lia|done|].
  exists m'. split_and!; [done| |intros x Hx; rewrite Hm'; by rewrite decide_False by lia].
  apply cstr_split. split.
  - intros i c Hi. destruct (cstr_lookup _ _ _ _ _ Ha Hi) as [Hm Hc]. split; [|done]. rewrite <- Hm, Hm'.
    apply lookup_lt_Some in Hi. by rewrite decide_False by lia.
  - eapply cstr_move, Hb. intros i Hi. rewrite Hm'. rewrite decide_True by lia. f_equal. lia.
Qed.

(** [strncpy] fills exactly [n] bytes. *)
Lemma strncpy_spec dst src s n m a :
  cstr m src s → dst + Z.of_nat n ≤ src ∨ src + Z.of_nat (length s) < dst →
  strncpy dst src n m a =
    if decide (dst ≤ a < dst + Z.of_nat n) then
      if decide (a - dst < Z.of_nat (length s)) then m (src + (a - dst)) else 0
    else m a.
Proof.
  unfold strncpy. revert dst src s m. induction n as [|n IH]; intros dst src s m Hc Hd; cbn [strncpy_loop].
  { unfold memset. simpl. by rewrite decide_False by lia. }
  destruct s as [|b s].
  - rewrite (ldc_nil m src) by done. rewrite decide_True by done. unfold memset. rewrite fill_up_at.
    change (u8 0) with 0. simpl. cells.
  - destruct (cstr_ldc _ _ _ _ Hc) as (Hl & Hb & Hc'). rewrite Hl, decide_False by lia. simpl in Hd.
    rewrite (IH _ _ s); [| |lia].
    + simpl. cells. replace (src + (a - dst)) with src by lia. by destruct Hc as [-> _].
    + eapply cstr_frame, Hc'. intros x Hx. cells.
Qed.

Lemma strncat_loop_spec q p s n m :
  cstr m p s → q + Z.of_nat n < p ∨ p + Z.of_nat (length s) < q →
  let '(r, m') := strncat_loop q p n m in
  let m'' := match r with Some q => mset m' q 0 | None => m' end in
  let k := Z.of_nat (Nat.min n (length s)) in
  ∀ a, m'' a = if decide (q ≤ a < q + k) then m (p + (a - q)) else if decide (a = q + k) then 0 else m a.
Proof.
  revert q p s m. induction n as [|n IH]; intros q p s m Hc Hd; cbn [strncat_loop].
  { intros a. simpl. rewrite Z.add_0_r. cells. }
  destruct s as [|b s].
  - rewrite (ldc_nil m p) by done. rewrite decide_True by done. intros a. simpl. rewrite Z.add_0_r. cells.
  - destruct (cstr_ldc _ _ _ _ Hc) as (Hl & Hb & Hc'). rewrite Hl, decide_False by lia. simpl in Hd.
    specialize (IH (q + 1) (p + 1) s (mset m q b)). destruct (strncat_loop _ _ _ _) as [r m'].
    assert (cstr (mset m q b) (p + 1) s) as Hc2 by (eapply cstr_frame, Hc'; intros x Hx; cells).
    specialize (IH Hc2 ltac:(lia)). cbv zeta in IH |- *. intros a. rewrite IH. simpl. cells.
    replace (p + (a - q)) with p by lia. by destruct Hc as [-> _].
Qed.

Lemma strncat_spec fuel dst src a b n m :
  cstr m dst a → cstr m src b →
  (dst + Z.of_nat (length a) + Z.of_nat n < src ∨ src + Z.of_nat (length b) < dst) →
  (length a < fuel)%nat →
  ∃ m', strncat fuel dst src n m = Ok m' ∧ cstr m' dst (a ++ take n b) ∧
    ∀ x, ¬ (dst ≤ x ≤ dst + Z.of_nat (length a + Nat.min n (length b))) → m' x = m x.
Proof.
  intros Ha Hb Hd Hfa. unfold strncat. rewrite (strchr_nul _ _ _ a) by done. cbn [mbind outcome_bind].
  pose proof (strncat_loop_spec (dst + Z.of_nat (length a)) src b n m Hb ltac:(lia)) as H.
  destruct (strncat_loop _ _ _ _) as [r m1]. cbv zeta in H.
  set (m' := match r with Some q => mset m1 q 0 | None => m1 end) in *.
  exists m'. split; [by destruct r|]. split.
  - apply cstr_split. split.
    + intros i c Hi. destruct (cstr_lookup _ _ _ _ _ Ha Hi) as [Hm Hc]. split; [|done]. rewrite <- Hm, H.
      apply lookup_lt_Some in Hi. by rewrite !decide_False by lia.
    + rewrite <- (app_nil_r (take n b)). apply cstr_split. split.
      * intros i c Hi. rewrite H. pose proof (lookup_lt_Some _ _ _ Hi) as Hlt. rewrite length_take in Hlt.
        rewrite decide_True by lia. rewrite lookup_take, decide_True in Hi by lia.
        destruct (cstr_lookup _ _ _ _ _ Hb Hi) as [<- ?]. split; [f_equal; lia|done].
      * simpl. rewrite H, length_take. by rewrite decide_False, decide_True by lia.
  - intros x Hx. rewrite H. by rewrite !decide_False by lia.
Qed.

(** ** Spans and tokens *)

Fixpoint prefix_len (f : Z → bool) (s : list Z) : nat :=
  match s with
  | b :: s => if f b then S (prefix_len f s) else O
  | [] => O
  end.

Lemma fill_map_spec fuel m d D mm :
  cstr m d D → (length D < fuel)%nat →
  ∃ mm', fill_map fuel m d mm = Ok mm' ∧ ∀ b, mm' b = if decide (b ∈ D) then 1 else mm b.
Proof.
  revert d D mm. induction fuel as [|fuel IH]; intros d D mm Hc Hf; [lia|]. cbn [fill_map].
  destruct D as [|x D].
  - rewrite decide_False by (rewrite ldc_nil by done; lia). eexists. split; [done|].
    intros b. by rewrite decide_False by set_solver.
  - apply cstr_ldc in Hc as (-> & Hx & Hc). simpl in Hf. rewrite decide_True by lia.
    destruct (IH _ _ (λ b, if decide (b = x) then 1 else mm b) Hc ltac:(lia)) as (mm' & -> & Hm).
    exists mm'. split; [done|]. intros b. rewrite Hm.
    repeat case_decide; set_solver.
Qed.

Lemma span_spec fuel m p s mm parity n :
  cstr m p s → (length s < fuel)%nat → mm 0 = parity →
  span fuel m p mm parity n =
    Ok (n + Z.of_nat (prefix_len (λ b, bool_decide (Z.lxor (mm b) parity ≠ 0)) s)).
Proof.
  intros Hc Hf H0. revert p s n Hc Hf. induction fuel as [|fuel IH]; intros p s n Hc Hf; [lia|].
  cbn [span]. destruct s as [|b s].
  - rewrite (ldc_nil m p) by done. rewrite H0, Z.lxor_nilpotent, decide_False by lia. f_equal. simpl. lia.
  - apply cstr_ldc in Hc as (-> & Hb & Hc). simpl in Hf |- *. case_decide as E.
    + rewrite bool_decide_true by done. rewrite (IH _ s) by (done || lia). f_equal. lia.
    + rewrite bool_decide_false by (intros F; by apply F). f_equal. lia.
Qed.

Lemma prefix_len_ext f g s : (∀ b, b ∈ s → f b = g b) → prefix_len f s = prefix_len g s.
Proof.
  induction s as [|b s IH]; intros H; simpl; [done|]. rewrite H by set_solver.
  destruct (g b); [|done]. f_equal. apply IH. set_solver.
Qed.

Lemma strxspn_spec fuel m p s d D parity :
  cstr m p s → cstr m d D → (length s < fuel)%nat → (length D < fuel)%nat → parity = 0 ∨ parity = 1 →
  __strxspn fuel m p d parity =
    Ok (Z.of_nat (prefix_len (λ b, if decide (parity = 0) then bool_decide (b ∈ D) else bool_decide (b ∉ D)) s)).
Proof.
  intros Hs Hd Hf1 Hf2 Hp. unfold __strxspn.
  destruct (fill_map_spec fuel m d D (λ _, 0) Hd Hf2) as (mm & -> & Hmm). cbn [mbind outcome_bind].
  rewrite (span_spec _ _ _ s); [|done|done|by rewrite decide_True]. rewrite Z.add_0_l.
  do 2 f_equal. apply prefix_len_ext. intros b Hb.
  apply list_elem_of_lookup in Hb as [i Hi]. destruct (cstr_lookup _ _ _ _ _ Hs Hi) as [_ Hb].
  rewrite decide_False by lia. rewrite Hmm.
  destruct Hp as [-> | ->]; case_decide; simpl; (by rewrite !bool_decide_true by naive_solver) ||
    (by rewrite !bool_decide_false by naive_solver).
Qed.

(** The pieces of a string between delimiters, and those that are not empty. *)
Fixpoint fields (D s : list Z) : list (list Z) :=
  match s with
  | [] => [[]]
  | b :: s =>
      if decide (b ∈ D) then [] :: fields D s
      else match fields D s with f :: fs => (b :: f) :: fs | [] => [[b]] end
  end.
Definition tokens (D s : list Z) : list (list Z) := filter (λ t, t ≠ []) (fields D s).

Lemma fields_none D s : Forall (λ b, b ∉ D) s → fields D s = [s].
Proof.
  induction 1 as [|b s Hb _ IH]; simpl; [done|]. by rewrite decide_False, IH.
Qed.
Lemma fields_split D a c b :
  Forall (λ b, b ∉ D) a → c ∈ D → fields D (a ++ c :: b) = a :: fields D b.
Proof.
  intros Ha Hc. induction Ha as [|x a Hx _ IH]; simpl; [by rewrite decide_True|].
  by rewrite decide_False, IH.
Qed.

Lemma break_at (D s : list Z) :
  (∃ a c b, s = a ++ c :: b ∧ Forall (λ b, b ∉ D) a ∧ c ∈ D ∧
     prefix_len (λ b, bool_decide (b ∉ D)) s = length a) ∨
  (Forall (λ b, b ∉ D) s ∧ prefix_len (λ b, bool_decide (b ∉ D)) s = length s).
Proof.
  induction s as [|x s IH]; simpl; [by right|]. destruct (decide (x ∈ D)) as [Hx|Hx].
  - left. exists [], x, s. rewrite bool_decide_false by naive_solver. by repeat split.
  - rewrite bool_decide_true by done. destruct IH as [(a & c & b & -> & Ha & Hc & Hl)|[Ha Hl]].
    + left. exists (x :: a), c, b. rewrite Hl. split_and!; [done|by constructor|done|done].
    + right. rewrite Hl. split; [by constructor|done].
Qed.

Lemma strsep_spec fuel m p s d D :
  cstr m p s → cstr m d D → (length s < fuel)%nat → (length D < fuel)%nat →
  (∃ a c b, s = a ++ c :: b ∧ Forall (λ b, b ∉ D) a ∧ c ∈ D ∧
     strsep fuel (Some p) d m =
       Ok (Some p, Some (p + Z.of_nat (length a) + 1), mset m (p + Z.of_nat (length a)) 0)) ∨
  (Forall (λ b, b ∉ D) s ∧ strsep fuel (Some p) d m = Ok (Some p, None, m)).
Proof.
  intros Hs Hd Hf1 Hf2. unfold strsep, strpbrk. rewrite (strxspn_spec _ _ _ s _ D) by (done || lia || by right).
  cbn [mbind outcome_bind]. rewrite (prefix_len_ext _ (λ b, bool_decide (b ∉ D))) by done.
  destruct (break_at D s) as [(a & c & b & -> & Ha & Hc & ->)|[Ha ->]].
  - left. exists a, c, b. split_and!; [done..|].
    apply cstr_app, cstr_ldc in Hs as (-> & ? & _). by rewrite decide_True by lia.
  - right. split; [done|]. unfold ldc. rewrite (cstr_end _ _ _ Hs). by rewrite decide_False by (intros F; by apply F).
Qed.

(** What [strtok] changes lies within the string it cuts. *)
Definition outside (p : Z) (s : list Z) (m m' : memory) : Prop :=
  ∀ a, ¬ (p ≤ a ≤ p + Z.of_nat (length s)) → m' a = m a.

(** What is left for the next calls. *)
Definition remains (D : list Z) (m : memory) (lo hi : Z) (h : option Z) (ts : list (list Z)) : Prop :=
  match h with
  | None => ts = []
  | Some h => ∃ s, cstr m h s ∧ tokens D s = ts ∧ lo < h ∧ h + Z.of_nat (length s) = hi
  end.

Lemma cstr_cut m p a c b :
  cstr m p (a ++ c :: b) →
  cstr (mset m (p + Z.of_nat (length a)) 0) p a ∧
  cstr (mset m (p + Z.of_nat (length a)) 0) (p + Z.of_nat (length a) + 1) b.
Proof.
  intros Hs. pose proof (cstr_app _ _ _ _ Hs) as Hb. apply cstr_ldc in Hb as (_ & _ & Hb). split.
  - rewrite <- (app_nil_r a) at 2. apply cstr_split. split.
    + intros i x Hi. apply cstr_split in Hs as [Hs _]. destruct (Hs i x Hi) as [Hm ?]. split; [|done].
      apply lookup_lt_Some in Hi. cells.
    + simpl. cells.
  - eapply cstr_frame, Hb. intros x Hx. cells.
Qed.

Lemma strtok_loop_spec fuel m p s d D :
  cstr m p s → cstr m d D → d + Z.of_nat (length D) < p ∨ p + Z.of_nat (length s) < d →
  (length s + length D + 1 < fuel)%nat →
  ∃ r h m', strtok_loop fuel (Some p) d m = Ok (r, h, m') ∧ outside p s m m' ∧
    match r with
    | None => tokens D s = [] ∧ h = None
    | Some q => ∃ t ts, tokens D s = t :: ts ∧ p ≤ q ∧ cstr m' q t ∧ t ≠ [] ∧
        q + Z.of_nat (length t) ≤ p + Z.of_nat (length s) ∧
        remains D m' (q + Z.of_nat (length t)) (p + Z.of_nat (length s)) h ts
    end.
Proof.
  revert m p s. induction fuel as [|fuel IH]; intros m p s Hs Hd Hdis Hf; [lia|]. cbn [strtok_loop].
  destruct (strsep_spec (S fuel) m p s d D) as [(a & c & b & -> & Ha & Hc & ->)|[Ha ->]]; [done|done|lia|lia| |];
    cbn [mbind outcome_bind].
  - destruct (cstr_cut _ _ _ _ _ Hs) as [Hca Hcb]. rewrite length_app in *. simpl in *.
    set (m1 := mset m _ 0) in *.
    unfold tokens. rewrite fields_split, filter_cons by done. fold (tokens D b).
    destruct a as [|x a].
    + rewrite decide_True by (by apply ldc_nil). rewrite decide_False by naive_solver.
      destruct (IH m1 (p + Z.of_nat 0 + 1) b) as (r & h & m' & Hr & Hout & Hq); [done| |lia|lia|].
      { eapply cstr_frame, Hd. intros y Hy. unfold m1. cells. }
      simpl in *. exists r, h, m'. split; [exact Hr|]. split.
      { intros y Hy. simpl in Hy. rewrite Hout by lia. unfold m1. cells. }
      destruct r as [q|]; [|done]. destruct Hq as (t & ts & ? & ? & ? & ? & ? & Hrm). exists t, ts.
      split_and!; [done|lia|done|done|lia|].
      by replace (p + Z.of_nat (S (length b))) with (p + 0 + 1 + Z.of_nat (length b)) by lia.
    + destruct (ldc_cons _ _ _ _ Hca) as [_ Hnz]. rewrite decide_False by done. rewrite decide_True by done.
      eexists _, _, m1. split; [done|]. split; [intros y Hy; rewrite length_app in Hy; unfold m1; simpl in *; cells|].
      exists (x :: a), (tokens D b). split; [done|]. split_and!; [lia|done|done|simpl; lia|].
      exists b. split_and!; [done|done|lia|simpl; lia].
  - unfold tokens. rewrite fields_none, filter_cons by done. destruct s as [|x s].
    + rewrite decide_True by (by apply ldc_nil). rewrite decide_False by naive_solver.
      destruct fuel as [|fuel]; [simpl in Hf; lia|]. simpl. eexists _, _, m. by repeat split.
    + destruct (ldc_cons _ _ _ _ Hs) as [_ Hnz]. rewrite decide_False by done. rewrite decide_True by done.
      eexists _, _, m. split; [done|]. split; [done|]. exists (x :: s), []. split; [done|]. by split_and!.
Qed.

(** A program that takes all the tokens of a string: the first call names the
    string, the following ones pass NULL. *)
Fixpoint strtok_all (calls fuel : nat) (s holder : option Z) (delim : Z) (m : memory) : outcome (list Z * memory) :=
  match calls with
  | O => Hang
  | S calls =>
      '(r, holder, m) ← strtok fuel s holder delim m;
      match r with
      | None => Ok ([], m)
      | Some q =>
          '(qs, m) ← strtok_all calls fuel None holder delim m;
          Ok (q :: qs, m)
      end
  end.

Lemma strtok_rest calls fuel h lo hi ts d D m :
  remains D m lo hi h ts → cstr m d D → d + Z.of_nat (length D) ≤ lo ∨ hi < d →
  (length D + 2 + Z.to_nat (hi - lo) < fuel)%nat → (Z.to_nat (hi - lo) < calls)%nat → lo ≤ hi →
  ∃ qs m', strtok_all calls fuel None h d m = Ok (qs, m') ∧ Forall2 (cstr m') qs ts ∧
    ∀ a, a ≤ lo ∨ hi < a → m' a = m a.
Proof.
  revert h lo ts m. induction calls as [|calls IH]; intros h lo ts m Hr Hd Hdis Hf Hca Hlo; [lia|].
  cbn [strtok_all]. unfold strtok. destruct h as [h|].
  - destruct Hr as (s & Hs & <- & Hlh & Hhi).
    destruct (strtok_loop_spec fuel m h s d D) as (r & h' & m1 & -> & Hout & Hq); [done|done|lia|lia|].
    cbn [mbind outcome_bind]. destruct r as [q|].
    + destruct Hq as (t & ts & -> & Hhq & Ht & Hne & Hqt & Hrem). rewrite Hhi in Hrem.
      assert (0 < Z.of_nat (length t)) by (destruct t; [done|simpl; lia]).
      destruct (IH h' (q + Z.of_nat (length t)) ts m1 Hrem) as (qs & m' & -> & Hall & Hfr); [|lia..|].
      { eapply cstr_frame, Hd. intros a Ha. apply Hout. lia. }
      cbn [mbind outcome_bind]. eexists _, m'. split; [done|]. split.
      * constructor; [|done]. eapply cstr_frame, Ht. intros a Ha. apply Hfr. lia.
      * intros a Ha. rewrite Hfr by lia. apply Hout. lia.
    + destruct Hq as [-> _]. exists [], m1. split; [done|]. split; [constructor|]. intros a Ha. apply Hout. lia.
  - simpl in Hr. subst ts. destruct fuel as [|fuel]; [lia|]. exists [], m. by repeat split; try constructor.
Qed.

(** ** Properties *)

(** C37: [memmem] ([strstr] on strings) answers the first place where the needle
    occurs and NULL when there is none, for every needle but the empty one; its
    steps of two bytes skip no occurrence. *)
Theorem memmem_finds_first fuel y n x k m :
  (n < fuel)%nat → k ≠ O →
  ∃ r, memmem fuel y n x k m = Ok r ∧
       first_occurrence m y x (Z.of_nat k) (Z.of_nat n - Z.of_nat k) r.
Proof.
  intros Hf Hk. destruct (memmem_spec fuel y n x k m Hf) as (r & Hr & H).
  rewrite decide_False in H by done. by exists r.
Qed.

Lemma memmem_finds_first_witness :
  let m := λ a, default 0 ([97; 98; 97; 97; 98; 99; 97; 98] !! Z.to_nat a) in
  ∃ r, memmem 10 0 6 3 3 m = Ok r ∧ first_occurrence m 0 3 3 3 r ∧ r = Some 3.
Proof.
  intros m. destruct (memmem_finds_first 10 0 6 3 3 m) as (r & Hr & H); [lia|lia|].
  exists r. split; [done|]. split; [exact H|]. vm_compute in Hr. by simplify_eq.
Defined.

(** The addresses [strtok] hands out, call after call, are those of the
    non-empty pieces of the string between delimiters, in order, each of them
    NUL-terminated; then it answers NULL.  Nothing but the string changes. *)
Theorem strtok_all_tokens calls fuel p s holder d D m :
  cstr m p s → cstr m d D → d + Z.of_nat (length D) < p ∨ p + Z.of_nat (length s) < d →
  (length D + length s + 3 < fuel)%nat → (length s + 1 < calls)%nat →
  ∃ qs m', strtok_all calls fuel (Some p) holder d m = Ok (qs, m') ∧
    Forall2 (cstr m') qs (tokens D s) ∧ outside p s m m'.
Proof.
  intros Hs Hd Hdis Hf Hc.
  assert (strtok_all calls fuel (Some p) holder d m = strtok_all calls fuel None (Some p) d m) as ->
    by (by destruct calls).
  destruct (strtok_rest calls fuel (Some p) (p - 1) (p + Z.of_nat (length s)) (tokens D s) d D m)
    as (qs & m' & Hr & Hall & Hfr); [|done|lia|lia|lia|lia|].
  - exists s. split_and!; [done|done|lia|done].
  - exists qs, m'. split_and!; [done|done|]. intros a Ha. apply Hfr. lia.
Qed.

(** The bytes of ",ab, c" at 1 and of ", " at 20. *)
Definition token_mem : memory := λ a,
  if decide (20 ≤ a) then mem_at 20 [44; 32; 0] a else mem_at 1 [44; 97; 98; 44; 32; 99; 0] a.

Lemma strtok_all_tokens_witness :
  ∃ m', strtok_all 10 20 (Some 1) None 20 token_mem = Ok ([2; 6], m') ∧
    Forall2 (cstr m') [2; 6] [[97; 98]; [99]].
Proof.
  destruct (strtok_all_tokens 10 20 1 [44; 97; 98; 44; 32; 99] None 20 [44; 32] token_mem)
    as (qs & m' & Hr & Hall & _); [by repeat split|by repeat split|simpl; lia|simpl; lia|simpl; lia|].
  exists m'. assert (qs = [2; 6]) as ->.
  { assert ((λ r, match r with Ok (qs, _) => qs | _ => [] end) (strtok_all 10 20 (Some 1) None 20 token_mem) = [2; 6])
      as E by (vm_compute; reflexivity). by rewrite Hr in E. }
  by split.
Defined.

(** The C standard counts the NUL as part of the string; [strrchr] does not
    find it, [strchr] does. *)
Example strrchr_misses_nul :
  strchr 10 (mem_at 1 [97; 98; 0]) 1 0 = Ok (Some 3) ∧ strrchr 10 (mem_at 1 [97; 98; 0]) 1 0 = Ok None.
Proof. by vm_compute. Qed.

(** The empty string occurs in every string; [strstr] answers NULL. *)
Example strstr_empty_needle : strstr 10 1 3 (mem_at 1 [97; 98; 0]) = Ok None.
Proof. by vm_compute. Qed.
