(* ===== verification/Malloc.v ===== *)
(** * The allocator of user programs (usr/klibc/malloc.c, realloc.c, calloc.c, sbrk.c, brk.c)

    The library keeps every block of the heap on a circular list in the order
    of the addresses and the free ones on a second list; both run through the
    same head, [__malloc_head], whose address is a parameter.  The two pairs of
    links are two heaps of KList.v.  Memory comes from [sbrk], an interface
    whose laws are all the allocator relies on; the implementation of sbrk.c
    and brk.c over the system call of MemArea.v is an instance of it. *)

From S2P Require Import Prelude KList Bitmap Klib Buddy PageAlloc Slice Paging MemArea Ustring.

(** ** The end of the data segment *)

(* usr/klibc/malloc.c:12-12 MAP_FAILED *)
Definition MAP_FAILED : Z := 2 ^ 32 - 1.

Class Break (S : Type) := {
  current_brk : S → Z;
  sbrk_op : Z → S → Z * S;
  brk_op : Z → S → S;
}.

(** [top] is an address below which the program may hold memory: [sbrk]
    hands out aligned memory above it, [brk] lowers it at most to its
    argument. *)
Class BreakLaws (S : Type) `{!Break S} (brk_ok : S → Prop) (top : S → Z) := {
  top_range s : brk_ok s → 0 < top s < 2 ^ 32;
  current_law s : brk_ok s → current_brk s = 0 ∨ current_brk s = top s;
  sbrk_law n s :
    brk_ok s → 0 < n < 2 ^ 30 →
    brk_ok (sbrk_op n s).2 ∧
    ((sbrk_op n s).1 = MAP_FAILED ∧ top s ≤ top (sbrk_op n s).2
     ∨ top s ≤ (sbrk_op n s).1 ∧ (sbrk_op n s).1 `mod` 16 = 0 ∧
       (sbrk_op n s).1 + n ≤ top (sbrk_op n s).2);
  brk_law a s :
    brk_ok s → 0 < a ≤ top s → brk_ok (brk_op a s) ∧ a ≤ top (brk_op a s);
}.

(** ** The blocks *)

(* usr/klibc/malloc.h:29-31 ARENA_TYPE_USED *)
Definition ARENA_TYPE_USED : Z := 0.
Definition ARENA_TYPE_FREE : Z := 1.
Definition ARENA_TYPE_HEAD : Z := 2.

(* usr/klibc/malloc.h:17-21 arena_header *)
Definition SIZEOF_arena_header : Z := 16.

(* usr/klibc/malloc.h:36-36 ARENA_SIZE_MASK *)
Definition ARENA_SIZE_MASK : Z := u32 (Z.lnot (SIZEOF_arena_header - 1)).

(* usr/include/klibc/sysconfig.h:108-108 _KLIBC_MALLOC_CHUNK_SIZE *)
Definition _KLIBC_MALLOC_CHUNK_SIZE : Z := 65536.

(* usr/klibc/malloc.h:34-34 MALLOC_CHUNK_MASK *)
Definition MALLOC_CHUNK_MASK : Z := _KLIBC_MALLOC_CHUNK_SIZE - 1.

(* usr/klibc/malloc.h:42-45 free_arena_header *)
Record arena := Arena { a_type : Z → Z; a_size : Z → Z; chain : heap Z; frees : heap Z }.

Definition set_type (p v : Z) (A : arena) : arena :=
  Arena (λ q, if decide (q = p) then v else a_type A q) (a_size A) (chain A) (frees A).
Definition set_size (p v : Z) (A : arena) : arena :=
  Arena (a_type A) (λ q, if decide (q = p) then v else a_size A q) (chain A) (frees A).
Definition on_chain (f : heap Z → heap Z) (A : arena) : arena :=
  Arena (a_type A) (a_size A) (f (chain A)) (frees A).
Definition on_frees (f : heap Z → heap Z) (A : arena) : arena :=
  Arena (a_type A) (a_size A) (chain A) (f (frees A)).

(** Taking a node out of either chain. *)
Definition bypass (ah : Z) (h : heap Z) : heap Z :=
  let ap := prev (h ah) in
  let an := next (h ah) in
  set_prev an ap (set_next ap an h).

(* usr/klibc/malloc.c:37-47 remove_from_main_chain *)
Definition remove_from_main_chain (ah : Z) : arena → arena := on_chain (bypass ah).

(* usr/klibc/malloc.c:49-57 remove_from_free_chain *)
Definition remove_from_free_chain (ah : Z) : arena → arena := on_frees (bypass ah).

(* usr/klibc/malloc.c:59-63 remove_from_chains *)
Definition remove_from_chains (ah : Z) (A : arena) : arena :=
  remove_from_main_chain ah (remove_from_free_chain ah A).

(** A node takes the place of another (malloc.c:90-94). *)
Definition substitute (fp nfp : Z) (h : heap Z) : heap Z :=
  let fpn := next (h fp) in
  let h := set_next nfp fpn h in
  let fpp := prev (h fp) in
  let h := set_prev nfp fpp h in
  set_next fpp nfp (set_prev fpn nfp h).

(* usr/klibc/malloc.c:65-101 __malloc_from_block *)
Definition __malloc_from_block (fp size : Z) (A : arena) : Z * arena :=
  let fsize := a_size A fp in
  (u32 (fp + SIZEOF_arena_header),
   if decide (u32 (size + 2 * SIZEOF_arena_header) ≤ fsize) then
     let nfp := u32 (fp + size) in
     let na := next (chain A fp) in
     let A := set_type nfp ARENA_TYPE_FREE A in
     let A := set_size nfp (u32 (fsize - size)) A in
     let A := set_type fp ARENA_TYPE_USED A in
     let A := set_size fp size A in
     let A := on_chain (λ h, set_next fp nfp (set_prev na nfp (set_next nfp na (set_prev nfp fp h)))) A in
     on_frees (substitute fp nfp) A
   else
     remove_from_free_chain fp (set_type fp ARENA_TYPE_USED A)).

(** A node enters a chain behind another (malloc.c:123-126 and 196-199). *)
Definition link_after (pah fp : Z) (h : heap Z) : heap Z :=
  let h := set_next fp (next (h pah)) h in
  let h := set_prev fp pah h in
  let h := set_next pah fp h in
  set_prev (next (h fp)) fp h.

Section malloc.
Context (__malloc_head : Z).

(* usr/klibc/malloc.c:19-28 __malloc_head *)
Definition arena0 (A : arena) : arena :=
  on_frees (KLIST0_INIT __malloc_head) (on_chain (KLIST0_INIT __malloc_head)
    (set_size __malloc_head 0 (set_type __malloc_head ARENA_TYPE_HEAD A))).

(** The two ways the block meets its predecessor (malloc.c:109-127): it is
    swallowed, or enters the free chain. *)
Definition merge_prev (ah : Z) (A : arena) : Z * arena :=
  let pah := prev (chain A ah) in
  let nah := next (chain A ah) in
  if decide (a_type A pah = ARENA_TYPE_FREE ∧ u32 (pah + a_size A pah) = ah) then
    let A := set_size pah (u32 (a_size A pah + a_size A ah)) A in
    (pah, on_chain (λ h, set_prev nah pah (set_next pah nah h)) A)
  else
    let A := set_type ah ARENA_TYPE_FREE A in
    (ah, on_frees (link_after __malloc_head ah) A).

(** The successor is swallowed (malloc.c:131-137). *)
Definition merge_next (ah nah : Z) (A : arena) : arena :=
  if decide (a_type A nah = ARENA_TYPE_FREE ∧ u32 (ah + a_size A ah) = nah) then
    remove_from_chains nah (set_size ah (u32 (a_size A ah + a_size A nah)) A)
  else A.

(* usr/klibc/malloc.c:103-141 __free_block *)
Definition __free_block (ah : Z) (A : arena) : Z * arena :=
  let nah := next (chain A ah) in
  let '(ah, A) := merge_prev ah A in
  (ah, merge_next ah nah A).

(** The first block of the free chain that is big enough (malloc.c:155-161). *)
Fixpoint first_fit (fuel : nat) (fp size : Z) (A : arena) : outcome (option Z) :=
  match fuel with
  | O => Hang
  | S f =>
      if decide (a_type A fp = ARENA_TYPE_HEAD) then Ok None
      else if decide (size ≤ a_size A fp) then Ok (Some fp)
      else first_fit f (next (frees A fp)) size A
  end.

(** The predecessor of a new block, searched backwards (malloc.c:188-192). *)
Fixpoint find_place (fuel : nat) (pah fp : Z) (A : arena) : outcome Z :=
  match fuel with
  | O => Hang
  | S f =>
      if decide (a_type A pah = ARENA_TYPE_HEAD) then Ok pah
      else if decide (pah < fp) then Ok pah
      else find_place f (prev (chain A pah)) fp A
  end.

Section calls.
Context {S : Type} `{!Break S}.

(* usr/klibc/malloc.c:143-206 malloc *)
Definition malloc (fuel : nat) (size : Z) (st : arena * S) : outcome (Z * (arena * S)) :=
  let '(A, s) := st in
  if decide (size = 0) then Ok (0, st) else
  let size := Z.land (u32 (size + 2 * SIZEOF_arena_header - 1)) ARENA_SIZE_MASK in
  f ← first_fit fuel (next (frees A __malloc_head)) size A;
  match f with
  | Some fp => let '(p, A) := __malloc_from_block fp size A in Ok (p, (A, s))
  | None =>
      let fsize := Z.land (u32 (size + MALLOC_CHUNK_MASK)) (u32 (Z.lnot MALLOC_CHUNK_MASK)) in
      let '(fp, s) := sbrk_op fsize s in
      if decide (fp = MAP_FAILED) then Ok (0, (A, s)) else
      let A := set_type fp ARENA_TYPE_FREE A in
      let A := set_size fp fsize A in
      pah ← find_place fuel (prev (chain A __malloc_head)) fp A;
      let A := on_chain (link_after pah fp) A in
      let '(fp, A) := __free_block fp A in
      let '(p, A) := __malloc_from_block fp size A in Ok (p, (A, s))
  end.

(* usr/klibc/malloc.c:208-287 free *)
Definition free (ptr : Z) (st : arena * S) : arena * S :=
  let '(A, s) := st in
  if decide (ptr = 0) then st else
  let '(ah, A) := __free_block (u32 (ptr - SIZEOF_arena_header)) A in
  if decide (_KLIBC_MALLOC_CHUNK_SIZE ≤ a_size A ah ∧ u32 (ah + a_size A ah) = current_brk s) then
    (remove_from_chains ah A, brk_op ah s)
  else (A, s).


(* usr/klibc/realloc.c:12-48 realloc *)
Definition realloc (fuel : nat) (ptr size : Z) (st : arena * S) (m : memory) :
    outcome (Z * ((arena * S) * memory)) :=
  if decide (ptr = 0) then
    '(p, st) ← malloc fuel size st; Ok (p, (st, m))
  else if decide (size = 0) then Ok (0, (free ptr st, m))
  else
    let size := Z.land (u32 (size + 2 * SIZEOF_arena_header - 1)) ARENA_SIZE_MASK in
    let ah := u32 (ptr - SIZEOF_arena_header) in
    let asize := a_size st.1 ah in
    if decide (size ≤ asize ∧ Z.shiftr asize 2 ≤ size) then Ok (ptr, (st, m))
    else
      let oldsize := u32 (asize - SIZEOF_arena_header) in
      '(newptr, st) ← malloc fuel size st;
      let n := if decide (size < oldsize) then size else oldsize in
      if decide (newptr = 0) then Fault (* memcpy to NULL *)
      else Ok (newptr, (free ptr st, memcpy newptr ptr (Z.to_nat n) m)).
End calls.
End malloc.

(** ** The chains as lists of blocks *)

Record block := Block { b_addr : Z; b_size : Z; b_free : bool }.
Definition b_end (b : block) : Z := b_addr b + b_size b.
Definition used (l : list block) : list block := filter (λ b, b_free b = false) l.
Definition idle (l : list block) : list Z := b_addr <$> filter (λ b, b_free b = true) l.

Definition block_ok (b : block) : Prop :=
  32 ≤ b_size b ∧ b_addr b `mod` 16 = 0 ∧ b_size b `mod` 16 = 0.

(** Between [lo] and [hi], in order, disjoint, and no two free blocks touch;
    [pf] tells whether a free block ends at [lo]. *)
Fixpoint tiles (lo : Z) (pf : bool) (l : list block) (hi : Z) : Prop :=
  match l with
  | [] => lo ≤ hi
  | b :: l =>
      lo ≤ b_addr b ∧ (pf = true → b_free b = true → lo ≠ b_addr b) ∧ block_ok b ∧
      tiles (b_end b) (b_free b) l hi
  end.

Definition lays (head : Z) (A : arena) (l : list block) (fl : list Z) : Prop :=
  ring (chain A) head (b_addr <$> l) ∧ ring (frees A) head fl ∧
  a_type A head = ARENA_TYPE_HEAD ∧ fl ≡ₚ idle l ∧ (∀ b, b ∈ l → a_size A (b_addr b) = b_size b).

Definition typed (A : arena) (l : list block) : Prop :=
  ∀ b, b ∈ l → a_type A (b_addr b) = if b_free b then ARENA_TYPE_FREE else ARENA_TYPE_USED.

Definition ainv (head : Z) (A : arena) (l : list block) (hi : Z) : Prop :=
  (∃ fl, lays head A l fl) ∧ typed A l ∧ 0 ≤ head < 2 ^ 32 ∧ tiles (head + 1) false l hi.

(** *** Rounding *)

Lemma arena_round size :
  0 ≤ size < 2 ^ 31 →
  let r := Z.land (u32 (size + 2 * SIZEOF_arena_header - 1)) ARENA_SIZE_MASK in
  r = (size + 31) / 16 * 16.
Proof.
  intros Hs r. unfold r, ARENA_SIZE_MASK, SIZEOF_arena_header.
  pose proof (roundup_l2_spec (size + 16) 4 ltac:(lia) ltac:(lia) ltac:(lia)) as H.
  unfold roundup_l2 in H. change (2 ^ 4) with 16 in H.
  replace (size + 2 * 16 - 1) with (size + 16 + (16 - 1)) by lia. rewrite H. f_equal. f_equal. lia.
Qed.

Lemma chunk_round size :
  0 ≤ size < 2 ^ 31 →
  Z.land (u32 (size + MALLOC_CHUNK_MASK)) (u32 (Z.lnot MALLOC_CHUNK_MASK)) =
    (size + 65535) / 65536 * 65536.
Proof.
  intros Hs. pose proof (roundup_l2_spec size 16 ltac:(lia) ltac:(lia) ltac:(lia)) as H.
  unfold roundup_l2 in H. change (2 ^ 16) with 65536 in H.
  unfold MALLOC_CHUNK_MASK, _KLIBC_MALLOC_CHUNK_SIZE. rewrite H. f_equal. f_equal. lia.
Qed.

(** *** The two chains as rings *)

Lemma ring_bypass (h : heap Z) hd l1 x l2 :
  ring h hd (l1 ++ x :: l2) → ring (bypass x h) hd (l1 ++ l2).
Proof.
  intros Hr. pose proof (ring_prev_ne _ _ _ x Hr ltac:(set_solver)) as Hp.
  pose proof (klist0_unlink_ring _ _ _ _ _ Hr) as [Hu _].
  eapply ring_ext, Hu. intros m Hm.
  assert (m ≠ x).
  { destruct Hr as [_ Hd]. rewrite NoDup_cons, NoDup_app, NoDup_cons in Hd. set_solver. }
  apply node_eq; rewrite ?klist0_unlink_prev, ?klist0_unlink_next by done;
    unfold bypass, set_next, set_prev; repeat (case_decide; simplify_eq/=); done.
Qed.

(** Any heap with the links of [klist0_append] after [x]. *)
Lemma ring_put_after (h h' : heap Z) hd l1 x l2 y :
  ring h hd (l1 ++ x :: l2) → y ∉ hd :: l1 ++ x :: l2 → (∀ m, h' m = klist0_append y x h m) →
  ring h' hd (l1 ++ x :: y :: l2).
Proof. intros Hr Hy He. eapply ring_ext, klist0_append_after; [intros; apply He|done..]. Qed.

Lemma ring_put_first (h h' : heap Z) hd l y :
  ring h hd l → y ∉ hd :: l → (∀ m, h' m = klist0_append y hd h m) → ring h' hd (y :: l).
Proof. intros Hr Hy He. eapply ring_ext, klist0_append_ring; [intros; apply He|done..]. Qed.

Lemma link_after_append x y h m : y ≠ x → link_after x y h m = klist0_append y x h m.
Proof.
  intros. unfold link_after, klist0_append, set_next, set_prev. repeat (case_decide; simplify_eq/=); done.
Qed.

Lemma ring_substitute (h : heap Z) hd l1 x l2 y :
  ring h hd (l1 ++ x :: l2) → y ∉ hd :: l1 ++ x :: l2 →
  ring (substitute x y h) hd (l1 ++ y :: l2).
Proof.
  intros Hr Hy. assert (y ≠ x) by set_solver.
  pose proof (ring_prev_ne _ _ _ x Hr ltac:(set_solver)) as Hp.
  pose proof (klist0_append_after _ _ _ _ _ _ Hr Hy) as Ha.
  pose proof (klist0_unlink_ring _ _ _ _ _ Ha) as [Hu _].
  assert (next (h x) ≠ x) as Hnx.
  { intros E. apply Hp. pose proof (ring_next_prev h hd (l1 ++ x :: l2) x Hr ltac:(set_solver)).
    destruct Hr as [Hs Hd]. apply seg_app in Hs as [_ Hs].
    destruct l2; simpl in Hs; destruct Hs as [Hn _]; rewrite E in Hn; subst;
      rewrite NoDup_cons, NoDup_app, NoDup_cons in Hd; set_solver. }
  assert (next (h x) ≠ y).
  { pose proof (ring_closed _ _ _ x Hr). set_solver. }
  assert (prev (h x) ≠ y).
  { pose proof (ring_closed _ _ _ x Hr). set_solver. }
  eapply ring_ext, Hu. intros m Hm.
  assert (m ≠ x).
  { destruct Hr as [_ Hd]. rewrite NoDup_cons, NoDup_app, NoDup_cons in Hd. set_solver. }
  apply node_eq; rewrite ?klist0_unlink_prev, ?klist0_unlink_next;
    rewrite ?klist0_append_next, ?klist0_append_prev by done;
    unfold substitute, set_next, set_prev; repeat (case_decide; simplify_eq/=); done.
Qed.

(** *** Tilings *)

Fixpoint brink (lo : Z) (pf : bool) (l : list block) : Z * bool :=
  match l with [] => (lo, pf) | b :: l => brink (b_end b) (b_free b) l end.

Lemma tiles_app lo pf l1 l2 hi :
  tiles lo pf (l1 ++ l2) hi ↔
  tiles lo pf l1 (brink lo pf l1).1 ∧ tiles (brink lo pf l1).1 (brink lo pf l1).2 l2 hi.
Proof.
  revert lo pf. induction l1 as [|b l1 IH]; intros lo pf; simpl; [intuition lia|].
  rewrite IH. tauto.
Qed.

Lemma tiles_lo lo lo' pf l hi : lo' < lo → tiles lo pf l hi → tiles lo' false l hi.
Proof. destruct l; simpl; [lia|]. intros ? (? & ? & ? & ?). split_and!; [lia|done..]. Qed.
Lemma tiles_weak lo pf l hi : tiles lo pf l hi → tiles lo false l hi.
Proof. destruct l; simpl; [done|]. intros (? & ? & ? & ?). by split_and!. Qed.
Lemma tiles_hi lo pf l hi hi' : hi ≤ hi' → tiles lo pf l hi → tiles lo pf l hi'.
Proof. intros Hh. revert lo pf. induction l; simpl; [lia|]. naive_solver. Qed.

Lemma tiles_bound lo pf l hi :
  tiles lo pf l hi → lo ≤ hi ∧ ∀ b, b ∈ l → block_ok b ∧ lo ≤ b_addr b ∧ b_end b ≤ hi.
Proof.
  revert lo pf. induction l as [|c l IH]; simpl; intros lo pf; [set_solver|].
  intros (Hlo & _ & Hc & [Hh Hl]%IH). pose proof Hc as [Hsz _]. unfold b_end in *. split; [lia|].
  intros b [->|Hb]%elem_of_cons; [by split_and!; [|lia..]|].
  specialize (Hl b Hb) as (? & ? & ?). split_and!; [done|lia..].
Qed.

Lemma tiles_snoc lo pf l hi b hi' :
  tiles lo pf l hi → hi ≤ b_addr b → b_free b = false → block_ok b → b_end b ≤ hi' →
  tiles lo pf (l ++ [b]) hi'.
Proof.
  intros Ht Hhi Hf Hok He. revert lo pf Ht.
  induction l as [|c l IH]; simpl; intros lo pf; [|naive_solver].
  intros. split_and!; [lia|by rewrite Hf|done|done].
Qed.

Lemma used_app l1 l2 : used (l1 ++ l2) = used l1 ++ used l2.
Proof. apply filter_app. Qed.
Lemma idle_app l1 l2 : idle (l1 ++ l2) = idle l1 ++ idle l2.
Proof. unfold idle. by rewrite filter_app, fmap_app. Qed.
Lemma used_cons b l : used (b :: l) = (if b_free b then [] else [b]) ++ used l.
Proof. unfold used. rewrite filter_cons. by destruct (b_free b). Qed.
Lemma idle_cons b l : idle (b :: l) = (if b_free b then [b_addr b] else []) ++ idle l.
Proof. unfold idle. rewrite filter_cons. by destruct (b_free b). Qed.
Lemma idle_sub l a : a ∈ idle l → a ∈ b_addr <$> l.
Proof. unfold idle. rewrite !list_elem_of_fmap. intros (b & -> & [_ ?]%list_elem_of_filter). eauto. Qed.
Ltac blocks := rewrite ?used_app, ?idle_app, ?used_cons, ?idle_cons; simpl.
Tactic Notation "blocks" "in" hyp(H) := rewrite ?used_app, ?idle_app, ?used_cons, ?idle_cons in H; simpl in H.

Lemma tiles_split lo pf l1 b l2 hi :
  tiles lo pf (l1 ++ b :: l2) hi →
  (∀ c, c ∈ l1 → b_addr c < b_addr b ∧ b_end c ≤ b_addr b) ∧
  (∀ c, c ∈ l2 → b_end b ≤ b_addr c) ∧ block_ok b ∧ lo ≤ b_addr b ∧ b_end b ≤ hi.
Proof.
  intros (Ht & Hb & _ & Hok & H2)%tiles_app.
  apply tiles_bound in Ht as [Hlo H1], H2 as [Hh H2].
  split_and!; [|apply H2|done|lia|lia].
  intros c (Hc & _ & He)%H1. destruct Hc as [Hc _]. unfold b_end in *. lia.
Qed.

(** Cell updates that leave the blocks of a list alone. *)
Lemma typed_ext A A' l :
  (∀ b, b ∈ l → a_type A' (b_addr b) = a_type A (b_addr b)) → typed A l → typed A' l.
Proof. intros He Ht b Hb. rewrite He by done. by apply Ht. Qed.
Lemma typed_app A l1 l2 : typed A (l1 ++ l2) ↔ typed A l1 ∧ typed A l2.
Proof. unfold typed. set_solver. Qed.
Lemma typed_cons A b l :
  typed A (b :: l) ↔ a_type A (b_addr b) = (if b_free b then ARENA_TYPE_FREE else ARENA_TYPE_USED) ∧ typed A l.
Proof. unfold typed. set_solver. Qed.

(** A free block picked out of both chains. *)
Definition picked (head : Z) (A : arena) (l1 : list block) (fp fs : Z) (l2 : list block) (f1 f2 : list Z)
    (hi : Z) : Prop :=
  (ring (chain A) head ((b_addr <$> l1) ++ fp :: (b_addr <$> l2)) ∧ ring (frees A) head (f1 ++ fp :: f2) ∧
   a_type A head = ARENA_TYPE_HEAD ∧ f1 ++ f2 ≡ₚ idle l1 ++ idle l2) ∧
  ((∀ b, b ∈ l1 ++ Block fp fs true :: l2 → a_size A (b_addr b) = b_size b) ∧ typed A l1 ∧ typed A l2) ∧
  ((∀ c, c ∈ l1 → b_addr c < fp ∧ b_end c ≤ fp) ∧ (∀ c, c ∈ l2 → fp + fs ≤ b_addr c)) ∧
  0 ≤ head < 2 ^ 32 ∧ head + 1 ≤ fp ∧ fp + fs ≤ hi ∧
  tiles (head + 1) false l1 (brink (head + 1) false l1).1 ∧ (brink (head + 1) false l1).1 ≤ fp ∧
  block_ok (Block fp fs true) ∧ tiles (fp + fs) true l2 hi.

Lemma ainv_picked head A l1 fp fs l2 hi :
  ainv head A (l1 ++ Block fp fs true :: l2) hi → ∃ f1 f2, picked head A l1 fp fs l2 f1 f2 hi.
Proof.
  intros ((fl & Hm & Hf & Hh & Hp & Hz) & Hty & Hhd & Ht).
  pose proof (tiles_split _ _ _ _ _ _ Ht) as (Hb1 & Hb2 & _ & Hlo & Hend).
  rewrite fmap_app in Hm. blocks in Hp.
  assert (fp ∈ fl) as (f1 & f2 & ->)%list_elem_of_split by (rewrite Hp; set_solver).
  apply typed_app in Hty as [Ht1 [_ Ht2]%typed_cons].
  apply tiles_app in Ht as [Htl1 (Htlo & _ & Htb & Htl2)].
  exists f1, f2. repeat (split; [try done|]); try done.
  - apply (Permutation_cons_inv (a := fp)). by rewrite !Permutation_middle.
Qed.

(** The block is cut in two. *)
Lemma split_block head A l1 fp fs l2 f1 f2 hi size :
  picked head A l1 fp fs l2 f1 f2 hi → hi < 2 ^ 32 → 32 ≤ size → size + 32 ≤ fs → size `mod` 16 = 0 →
  let A' := set_size fp size (set_type fp ARENA_TYPE_USED
              (set_size (fp + size) (fs - size) (set_type (fp + size) ARENA_TYPE_FREE A))) in
  let A' := on_chain (λ h, set_next fp (fp + size) (set_prev (next (chain A fp)) (fp + size)
              (set_next (fp + size) (next (chain A fp)) (set_prev (fp + size) fp h)))) A' in
  ainv head (on_frees (substitute fp (fp + size)) A')
    (l1 ++ Block fp size false :: Block (fp + size) (fs - size) true :: l2) hi.
Proof.
  intros ((Hm & Hf & Hh & Hp') & (Hz & Ht1 & Ht2) & (Hb1 & Hb2) & Hhd & Hlo & Hend & Htl1 & Htlo &
    (_ & Ha16 & Hf16) & Htl2) Hhi Hsz Hsp Hs16 A1 A'. simpl in *.
  assert (fp + size ∉ head :: (b_addr <$> l1) ++ fp :: (b_addr <$> l2)) as Hfresh.
  { rewrite elem_of_cons, elem_of_app, elem_of_cons, !list_elem_of_fmap.
    intros [?|[(c & Hc & [??]%Hb1)|[?|(c & Hc & ?%Hb2)]]]; lia. }
  split; [exists (f1 ++ (fp + size) :: f2)|]; split_and!; simpl; try lia.
  + rewrite fmap_app. eapply ring_put_after; [done..|].
    intros m. unfold klist0_append, set_next, set_prev. repeat (case_decide; simplify_eq/=); done || lia.
  + apply ring_substitute; [done|]. intros Hin. apply Hfresh.
    assert (fp + size ∈ f1 ++ f2 → fp + size ∈ (b_addr <$> l1) ++ (b_addr <$> l2)) as Hsub.
    { rewrite Hp', !elem_of_app. intros [?%idle_sub|?%idle_sub]; tauto. }
    clear - Hin Hsub. set_solver.
  + by rewrite !decide_False by lia.
  + blocks. by rewrite <- !Permutation_middle, Hp'.
  + intros b Hb. apply elem_of_app in Hb as [Hb|[->|[->|Hb]%elem_of_cons]%elem_of_cons]; simpl.
    * pose proof (Hb1 b Hb). rewrite !decide_False by lia. apply Hz; set_solver.
    * by rewrite decide_True.
    * by rewrite decide_False, decide_True by lia.
    * pose proof (Hb2 b Hb). rewrite !decide_False by lia. apply Hz; set_solver.
  + apply typed_app; split; [|rewrite !typed_cons; split_and!; simpl].
    * eapply typed_ext, Ht1. intros b Hb%Hb1. simpl. by rewrite !decide_False by lia.
    * by rewrite decide_True.
    * by rewrite decide_False, decide_True by lia.
    * eapply typed_ext, Ht2. intros b Hb%Hb2. simpl. by rewrite !decide_False by lia.
  + apply tiles_app. split; [done|]. simpl. unfold b_end, block_ok in *. simpl in *.
    replace (fp + size + (fs - size)) with (fp + fs) by lia.
    assert ((fp + size) `mod` 16 = 0 ∧ (fs - size) `mod` 16 = 0) by (clear - Hs16 Ha16 Hf16; split; Z.div_mod_to_equations; lia).
    split_and!; done || lia.
Qed.

(** The block is taken as it is. *)
Lemma take_block head A l1 fp fs l2 f1 f2 hi :
  picked head A l1 fp fs l2 f1 f2 hi →
  ainv head (remove_from_free_chain fp (set_type fp ARENA_TYPE_USED A)) (l1 ++ Block fp fs false :: l2) hi.
Proof.
  intros ((Hm & Hf & Hh & Hp') & (Hz & Ht1 & Ht2) & (Hb1 & Hb2) & Hhd & Hlo & Hend & Htl1 & Htlo & Htb & Htl2).
  assert (0 < fs) by (destruct Htb; simpl in *; lia).
  split; [exists (f1 ++ f2)|]; split_and!; simpl; try lia.
  + by rewrite fmap_app.
  + by apply ring_bypass.
  + by rewrite decide_False by lia.
  + by blocks.
  + intros b Hb. apply elem_of_app in Hb as [Hb|[->|Hb]%elem_of_cons]; [|apply (Hz (Block fp fs true)); set_solver|]; apply Hz; set_solver.
  + apply typed_app; split; [|rewrite typed_cons; split; simpl].
    * eapply typed_ext, Ht1. intros b Hb%Hb1. simpl. by rewrite decide_False by lia.
    * by rewrite decide_True.
    * eapply typed_ext, Ht2. intros b Hb%Hb2. simpl. by rewrite decide_False by lia.
  + apply tiles_app. split; [done|]. simpl. apply tiles_weak in Htl2. by split_and!.
Qed.

Lemma from_block_run head A l1 fp fs l2 hi size :
  ainv head A (l1 ++ Block fp fs true :: l2) hi → hi < 2 ^ 32 → 32 ≤ size ≤ fs → size < 2 ^ 31 → size `mod` 16 = 0 →
  ∃ A' sz l', __malloc_from_block fp size A = (fp + 16, A') ∧ ainv head A' l' hi ∧
    used l' = used l1 ++ Block fp sz false :: used l2 ∧ size ≤ sz.
Proof.
  intros (f1 & f2 & Hp)%ainv_picked Hhi Hsz Hs31 Hs16.
  pose proof Hp as (_ & (Hz & _) & _ & Hhd & Hlo & Hend & _).
  assert (a_size A fp = fs) as Hfs by (apply (Hz (Block fp fs true)); set_solver).
  unfold __malloc_from_block. rewrite Hfs. unfold SIZEOF_arena_header.
  rewrite (u32_small (fp + 16)) by (unfold is_u32; lia).
  destruct (decide (u32 (size + 2 * 16) ≤ fs)) as [Hsp|Hsp].
  - rewrite u32_small in Hsp by (unfold is_u32; lia).
    rewrite (u32_small (fp + size)), (u32_small (fs - size)) by (unfold is_u32; lia).
    eexists _, size, _. split; [done|]. split; [apply (split_block head A l1 fp fs l2 f1 f2); done || lia|].
    split; [by blocks|lia].
  - eexists _, fs, _. split; [done|]. split; [by eapply take_block|]. split; [by blocks|lia].
Qed.

Lemma ring_around (h : heap Z) hd l1 x l2 :
  ring h hd (l1 ++ x :: l2) →
  prev (h x) = default hd (last l1) ∧ next (h x) = default hd (list.head l2).
Proof.
  intros [[H1 H2]%seg_app _]. split.
  - clear H2. revert hd H1. induction l1 as [|y l1 IH]; intros hd; [by intros [_ ?]|].
    intros (_ & _ & ->%IH). rewrite last_cons. by destruct (last l1).
  - destruct l2; simpl in *; by destruct H2.
Qed.

(** A block that is not on the free chain and whose type does not matter. *)
Definition loose (head : Z) (A : arena) (l1 : list block) (b : block) (l2 : list block) (hi : Z) : Prop :=
  (∃ fl, lays head A (l1 ++ b :: l2) fl) ∧ typed A l1 ∧ typed A l2 ∧ b_free b = false ∧
  0 ≤ head < 2 ^ 32 ∧ tiles (head + 1) false (l1 ++ b :: l2) hi.

Lemma ainv_loose head A l1 a sz l2 hi :
  ainv head A (l1 ++ Block a sz false :: l2) hi → loose head A l1 (Block a sz false) l2 hi.
Proof.
  intros (Hl & [H1 [_ H2]%typed_cons]%typed_app & Hh & Ht). repeat (split; [done|]). done.
Qed.

(** A free block that may touch a free one on its right. *)
Definition halfway (head : Z) (A : arena) (l1 : list block) (r rs : Z) (l2 : list block) (hi : Z) : Prop :=
  (∃ fl, lays head A (l1 ++ Block r rs true :: l2) fl) ∧ typed A (l1 ++ Block r rs true :: l2) ∧
  0 ≤ head < 2 ^ 32 ∧ tiles (head + 1) false (l1 ++ [Block r rs true]) (r + rs) ∧
  tiles (r + rs) false l2 hi.

Lemma brink_snoc lo pf l b : brink lo pf (l ++ [b]) = (b_end b, b_free b).
Proof. revert lo pf. induction l; simpl; done. Qed.

Lemma swallow_prev head A l1 pa ps a sz l2 hi :
  loose head A (l1 ++ [Block pa ps true]) (Block a sz false) l2 hi → hi < 2 ^ 32 → pa + ps = a →
  halfway head (on_chain (bypass a) (set_size pa (ps + sz) A)) l1 pa (ps + sz) l2 hi.
Proof.
  intros ((fl & Hm & Hf & Hh & Hp & Hz) & Ht1 & Ht2 & _ & Hhd & Ht) Hhi <-.
  rewrite <- app_assoc in *. simpl in *.
  pose proof (tiles_split _ _ _ _ _ _ Ht) as (Hb1 & Hb2 & Hok & Hlo & Hend).
  apply tiles_app in Ht as [Htl1 (Htlo & Htp & Htb & Htm & _ & Htc & Htl2)].
  unfold b_end, block_ok in *. simpl in *. rewrite fmap_app in Hm. simpl in Hm.
  assert (∀ c, c ∈ l2 → pa + ps + sz ≤ b_addr c) as Hb2'.
  { intros c Hc. apply tiles_bound in Htl2 as [_ Htl2]. by apply Htl2. }
  split; [exists fl; split_and!|split; [|split_and!]]; simpl; try done || lia.
  - pose proof (ring_bypass (chain A) head ((b_addr <$> l1) ++ [pa]) (pa + ps) (b_addr <$> l2)) as Hr.
    rewrite <- !app_assoc in Hr. rewrite fmap_app. by apply Hr.
  - rewrite Hp. by blocks.
  - intros b Hb. apply elem_of_app in Hb as [Hb|[->|Hb]%elem_of_cons]; simpl.
    + pose proof (Hb1 b Hb). rewrite decide_False by lia. apply Hz; set_solver.
    + by rewrite decide_True.
    + pose proof (Hb2' b Hb). rewrite decide_False by lia. apply Hz; set_solver.
  - apply typed_app in Ht1 as [Ht1 [Htp1 _]%typed_cons]. apply typed_app; split; [done|].
    by apply typed_cons.
  - apply tiles_app. split; [done|]. simpl. unfold b_end, block_ok. simpl.
    assert ((ps + sz) `mod` 16 = 0) by (Z.div_mod_to_equations; lia).
    split_and!; done || lia.
  - by replace (pa + (ps + sz)) with (pa + ps + sz) by lia.
Qed.

Lemma enter_free head A l1 a sz l2 hi :
  loose head A l1 (Block a sz false) l2 hi → hi < 2 ^ 32 →
  ((brink (head + 1) false l1).2 = true → (brink (head + 1) false l1).1 ≠ a) →
  halfway head (on_frees (link_after head a) (set_type a ARENA_TYPE_FREE A)) l1 a sz l2 hi.
Proof.
  intros ((fl & Hm & Hf & Hh & Hp & Hz) & Ht1 & Ht2 & _ & Hhd & Ht) Hhi Hsep.
  pose proof (tiles_split _ _ _ _ _ _ Ht) as (Hb1 & Hb2 & Hok & Hlo & Hend).
  apply tiles_app in Ht as [Htl1 (Htlo & Htp & Htb & Htl2)].
  unfold b_end, block_ok in *. simpl in *.
  assert (a ∉ head :: fl).
  { rewrite elem_of_cons, Hp. blocks. rewrite elem_of_app.
    intros [?|[(c & Hc & ?%Hb1)%idle_sub%list_elem_of_fmap|(c & Hc & ?%Hb2)%idle_sub%list_elem_of_fmap]]; lia. }
  split; [exists (a :: fl); split_and!|split; [|split_and!]]; simpl; try done || lia.
  - rewrite fmap_app in *. done.
  - eapply ring_put_first; [done..|]. intros m. apply link_after_append. set_solver.
  - by rewrite decide_False by lia.
  - rewrite Hp. blocks. by rewrite Permutation_middle.
  - intros b Hb. apply elem_of_app in Hb as [Hb|[->|Hb]%elem_of_cons].
    + apply Hz. set_solver.
    + apply (Hz (Block a sz false)). set_solver.
    + apply Hz. set_solver.
  - apply typed_app; split; [|rewrite typed_cons; split; simpl].
    + eapply typed_ext, Ht1. intros b Hb%Hb1. simpl. by rewrite decide_False by lia.
    + by rewrite decide_True.
    + eapply typed_ext, Ht2. intros b Hb%Hb2. simpl. by rewrite decide_False by lia.
  - apply tiles_app. split; [done|]. simpl. unfold b_end, block_ok. simpl. split_and!; auto; lia.
Qed.

Lemma merge_prev_run head A l1 b l2 hi :
  loose head A l1 b l2 hi → hi < 2 ^ 32 →
  ∃ r A' m1 rs, merge_prev head (b_addr b) A = (r, A') ∧ halfway head A' m1 r rs l2 hi ∧
    used m1 = used l1 ∧ r ≤ b_addr b ∧ r + rs = b_end b.
Proof.
  intros Hl Hhi. pose proof Hl as ((fl & Hm & Hf & Hh & Hp & Hz) & Ht1 & Ht2 & Hfree & Hhd & Ht).
  destruct b as [a sz free]. simpl in Hfree. subst free.
  pose proof (tiles_split _ _ _ _ _ _ Ht) as (Hb1 & Hb2 & Hok & Hlo & Hend).
  unfold b_end in *. simpl in *. rewrite fmap_app in Hm.
  assert (a_size A a = sz) as Hs by (apply (Hz (Block a sz false)); set_solver).
  pose proof (ring_around _ _ _ _ _ Hm) as [Hpr _].
  unfold merge_prev. rewrite Hs.
  destruct l1 as [|[pa ps pf] l1 _] using rev_ind.
  { simpl in Hpr. rewrite Hpr, Hh, decide_False by naive_solver.
    exists a. eexists. exists [], sz. split; [done|]. split; [by apply enter_free|done || split_and!; done || lia]. }
  rewrite fmap_app in Hpr. cbn [fmap list_fmap b_addr] in Hpr. rewrite last_snoc in Hpr. simpl in Hpr.
  assert (a_size A pa = ps) as Hps by (apply (Hz (Block pa ps pf)); set_solver).
  destruct (Hb1 (Block pa ps pf) ltac:(set_solver)) as [Hpa Hpe]. simpl in Hpa, Hpe.
  pose proof (Ht1 (Block pa ps pf) ltac:(set_solver)) as Htp. simpl in Htp.
  assert (head < pa ∧ 32 ≤ ps) as [Hhp Hp32].
  { apply tiles_app in Ht as [[_ Ht]%tiles_bound _].
    destruct (Ht (Block pa ps pf) ltac:(set_solver)) as ([? _] & ? & _). simpl in *. lia. }
  rewrite Hpr, Hps, (u32_small (pa + ps)) by (unfold is_u32; destruct Hok; simpl in *; lia).
  destruct (decide _) as [[Hty Htouch]|Hno].
  - destruct pf; [|by rewrite Htp in Hty]. exists pa. eexists. exists l1, (ps + sz). split; [done|].
    rewrite (u32_small (ps + sz)) by (unfold is_u32; destruct Hok; simpl in *; lia).
    split; [|split; [blocks; by rewrite app_nil_r|lia]].
    pose proof (swallow_prev _ _ _ _ _ _ _ _ _ Hl Hhi Htouch) as Hsw.
    unfold bypass, on_chain in Hsw |- *. simpl in *. by rewrite Hpr in Hsw.
  - exists a. eexists. exists (l1 ++ [Block pa ps pf]), sz. split; [done|]. split; [|done].
    apply enter_free; [done..|]. rewrite brink_snoc. unfold b_end. simpl.
    intros -> ?. apply Hno. by rewrite Htp.
Qed.

Lemma halfway_apart head A l1 r rs l2 hi :
  halfway head A l1 r rs l2 hi →
  (∀ b, list.head l2 = Some b → b_free b = true → r + rs ≠ b_addr b) →
  ainv head A (l1 ++ Block r rs true :: l2) hi.
Proof.
  intros (Hl & Hty & Hhd & Ht1 & Ht2) Hsep. split; [done|]. split; [done|]. split; [done|].
  apply tiles_app in Ht1 as [Ht1 (? & ? & ? & ?)]. apply tiles_app. split; [done|]. simpl.
  split_and!; try done. destruct l2 as [|b l2]; [done|]. destruct Ht2 as (? & ? & ? & ?).
  split_and!; try done. intros _ Hb. by apply Hsep.
Qed.

Lemma swallow_next head A l1 r rs ns l2 hi :
  halfway head A l1 r rs (Block (r + rs) ns true :: l2) hi → hi < 2 ^ 32 →
  ainv head (remove_from_chains (r + rs) (set_size r (rs + ns) A)) (l1 ++ Block r (rs + ns) true :: l2) hi.
Proof.
  intros ((fl & Hm & Hf & Hh & Hp & Hz) & Hty & Hhd & Ht1 & _ & _ & Hok2 & Ht2) Hhi.
  pose proof (tiles_split _ _ _ _ _ _ Ht1) as (Hb1 & _ & Hok & Hlo & _).
  apply tiles_app in Ht1 as [Ht1 (Htlo & Hsep & _ & _)].
  pose proof (tiles_bound _ _ _ _ Ht2) as [_ Hb2].
  unfold b_end, block_ok in *. simpl in *. rewrite fmap_app in Hm. blocks in Hp.
  assert (r + rs ∈ fl) as (f1 & f2 & ->)%list_elem_of_split by (rewrite Hp; set_solver).
  split; [exists (f1 ++ f2); split_and!|split; [|split_and!]]; simpl; try done || lia.
  - pose proof (ring_bypass (chain A) head ((b_addr <$> l1) ++ [r]) (r + rs) (b_addr <$> l2)) as Hr.
    rewrite <- !app_assoc in Hr. rewrite fmap_app. by apply Hr.
  - by apply ring_bypass.
  - blocks. apply (Permutation_cons_inv (a := r + rs)). rewrite Permutation_middle, Hp.
    by rewrite !(Permutation_middle _ _ (r + rs)), (Permutation_swap r).
  - intros b Hb. apply elem_of_app in Hb as [Hb|[->|Hb]%elem_of_cons]; simpl.
    + pose proof (Hb1 b Hb). rewrite decide_False by lia. apply Hz; set_solver.
    + by rewrite decide_True.
    + destruct (Hb2 b Hb) as (_ & ? & _). rewrite decide_False by lia. apply Hz; set_solver.
  - apply typed_app in Hty as [? [? [_ ?]%typed_cons]%typed_cons]. apply typed_app; split; [done|].
    by apply typed_cons.
  - apply tiles_app. split; [done|]. simpl. unfold b_end, block_ok. simpl.
    assert ((rs + ns) `mod` 16 = 0) by (Z.div_mod_to_equations; lia).
    replace (r + (rs + ns)) with (r + rs + ns) by lia. split_and!; done || lia.
Qed.

Lemma merge_next_run head A l1 r rs l2 hi :
  halfway head A l1 r rs l2 hi → hi < 2 ^ 32 →
  ∃ rs' m2, ainv head (merge_next r (default head (list.head (b_addr <$> l2))) A)
              (l1 ++ Block r rs' true :: m2) hi ∧ used m2 = used l2 ∧ rs ≤ rs'.
Proof.
  intros Hw Hhi. pose proof Hw as ((fl & _ & _ & Hh & _ & Hz) & Hty & Hhd & Ht1 & Ht2).
  assert (a_size A r = rs) as Hrs by (apply (Hz (Block r rs true)); set_solver).
  unfold merge_next. rewrite Hrs.
  destruct (tiles_split _ _ _ _ _ _ Ht1) as (_ & _ & [Hr32 _] & Hlo & _). simpl in Hr32, Hlo.
  destruct l2 as [|[na ns nf] l2]; simpl.
  { rewrite Hh, decide_False by naive_solver. exists rs, [].
    split; [by apply halfway_apart|]. split; [done|lia]. }
  assert (a_size A na = ns) as Hns by (apply (Hz (Block na ns nf)); set_solver).
  pose proof (tiles_bound _ _ _ _ Ht2) as [_ Hb2].
  destruct (Hb2 (Block na ns nf) ltac:(set_solver)) as ([Hn32 _] & Hna & Hne).
  unfold b_end in *. simpl in *.
  assert (a_type A na = if nf then ARENA_TYPE_FREE else ARENA_TYPE_USED) as Htn
    by (apply (Hty (Block na ns nf)); set_solver).
  rewrite (u32_small (r + rs)) by (unfold is_u32; lia).
  destruct (decide _) as [[Hfn Htouch]|Hno].
  - destruct nf; [|by rewrite Htn in Hfn]. subst na. rewrite Hns.
    rewrite (u32_small (rs + ns)) by (unfold is_u32; lia).
    exists (rs + ns), l2. split; [by apply swallow_next|]. split; [by blocks|lia].
  - exists rs, (Block na ns nf :: l2). split; [|split; [done|lia]].
    apply halfway_apart; [done|]. simpl. intros b ?. simplify_eq. simpl. intros -> ?. apply Hno. by rewrite Htn.
Qed.

Lemma free_block_run head A l1 b l2 hi :
  loose head A l1 b l2 hi → hi < 2 ^ 32 →
  ∃ r rs A' m1 m2, __free_block head (b_addr b) A = (r, A') ∧
    ainv head A' (m1 ++ Block r rs true :: m2) hi ∧ used m1 = used l1 ∧ used m2 = used l2 ∧
    b_size b ≤ rs.
Proof.
  intros Hl Hhi. pose proof Hl as ((fl & Hm & _) & _).
  rewrite fmap_app in Hm. apply ring_around in Hm as [_ Hnx].
  destruct (merge_prev_run _ _ _ _ _ _ Hl Hhi) as (r & A1 & m1 & rs & Hmp & Hw & Hu & Hr & Hrs).
  destruct (merge_next_run _ _ _ _ _ _ _ Hw Hhi) as (rs' & m2 & Hi & Hu2 & Hrs').
  unfold __free_block. rewrite Hnx, Hmp. unfold b_end in Hrs.
  eexists _, rs', _, m1, m2. split; [done|]. split_and!; [done..|lia].
Qed.

Lemma idle_block l a : a ∈ idle l → ∃ l1 s l2, l = l1 ++ Block a s true :: l2.
Proof.
  unfold idle. intros ([a' s f] & -> & [Hf Hin]%list_elem_of_filter)%list_elem_of_fmap. simpl in *. subst f.
  apply list_elem_of_split in Hin as (l1 & l2 & ->). eauto.
Qed.

Lemma first_fit_run head A f1 f2 fuel size :
  ring (frees A) head (f1 ++ f2) → a_type A head = ARENA_TYPE_HEAD →
  (∀ x, x ∈ f2 → a_type A x = ARENA_TYPE_FREE) → (length f2 < fuel)%nat →
  first_fit fuel (default head (list.head f2)) size A = Ok None ∨
  ∃ fp, first_fit fuel (default head (list.head f2)) size A = Ok (Some fp) ∧ fp ∈ f2 ∧ size ≤ a_size A fp.
Proof.
  revert f1 fuel. induction f2 as [|x f2 IH]; intros f1 fuel Hr Hh Hx Hl;
    (destruct fuel as [|fuel]; [simpl in Hl; lia|]); simpl.
  { left. by rewrite decide_True. }
  rewrite Hx by set_solver. rewrite (decide_False (P := ARENA_TYPE_FREE = _)) by done.
  destruct (decide _); [right; exists x; split_and!; [done|set_solver|done]|].
  destruct (ring_around _ _ _ _ _ Hr) as [_ ->].
  destruct (IH (f1 ++ [x]) fuel) as [?|(fp & ? & ? & ?)]; [|done|set_solver|simpl in Hl; lia|by left|].
  - by rewrite <- app_assoc.
  - right. exists fp. split_and!; [done|set_solver|done].
Qed.

Lemma ring_ends (h : heap Z) hd l :
  ring h hd l → next (h hd) = default hd (list.head l) ∧ prev (h hd) = default hd (last l).
Proof.
  intros Hr. split; [|by apply ring_last]. destruct Hr as [Hs _]. by destruct l; destruct Hs.
Qed.

Lemma ainv_fit head A l hi fuel size :
  ainv head A l hi → (length l < fuel)%nat →
  first_fit fuel (next (frees A head)) size A = Ok None ∨
  ∃ l1 fp fs l2, first_fit fuel (next (frees A head)) size A = Ok (Some fp) ∧
    l = l1 ++ Block fp fs true :: l2 ∧ size ≤ fs.
Proof.
  intros ((fl & _ & Hf & Hh & Hp & Hz) & Hty & _) Hfu. destruct (ring_ends _ _ _ Hf) as [-> _].
  destruct (first_fit_run head A [] fl fuel size) as [?|(fp & -> & Hin & Hs)]; [done..| | |by left|].
  - intros x Hx. rewrite Hp in Hx. apply idle_block in Hx as (l1 & s & l2 & ->).
    apply (Hty (Block x s true)). set_solver.
  - rewrite Hp. unfold idle. rewrite length_fmap. pose proof (length_filter (λ b, b_free b = true) l). lia.
  - right. rewrite Hp in Hin. apply idle_block in Hin as (l1 & s & l2 & ->). exists l1, fp, s, l2.
    split_and!; [done..|].
    pose proof (Hz (Block fp s true) ltac:(set_solver)) as E. simpl in E. lia.
Qed.

(** A fresh block above all the others, linked in behind the last one. *)
Lemma link_last head A l hi fp fsize hi' :
  ainv head A l hi → hi ≤ fp → fp `mod` 16 = 0 → fsize `mod` 16 = 0 → 32 ≤ fsize →
  fp + fsize ≤ hi' → hi' < 2 ^ 32 →
  loose head (on_chain (link_after (default head (last (b_addr <$> l))) fp)
               (set_size fp fsize (set_type fp ARENA_TYPE_FREE A))) l (Block fp fsize false) [] hi'.
Proof.
  intros ((fl & Hm & Hf & Hh & Hp & Hz) & Hty & Hhd & Ht) Hfp H16 Hs16 H32 Hhi' Hmax.
  pose proof (tiles_bound _ _ _ _ Ht) as [Hlh Hb].
  assert (∀ b, b ∈ l → b_addr b < fp) as Hlt.
  { intros b Hin. destruct (Hb b Hin) as ([? _] & _ & ?). unfold b_end in *. lia. }
  assert (fp ∉ head :: (b_addr <$> l)) as Hfresh.
  { rewrite elem_of_cons, list_elem_of_fmap. intros [?|(b & ? & ?%Hlt)]; lia. }
  split; [exists fl; split_and!|split; [|split; [|split; [|split]]]]; simpl; try done.
  - destruct l as [|p l _] using rev_ind; rewrite fmap_app.
    + eapply ring_put_first; [done..|]. intros m. apply link_after_append. set_solver.
    + rewrite !fmap_app. rewrite fmap_app in Hm, Hfresh. change (b_addr <$> [p]) with [b_addr p] in *.
      rewrite last_snoc, <- app_assoc.
      eapply ring_put_after; [done..|]. intros m. apply link_after_append. set_solver.
  - rewrite decide_False by lia. done.
  - rewrite Hp. blocks. by rewrite app_nil_r.
  - intros b Hb'. apply elem_of_app in Hb' as [Hb'|Hb'%list_elem_of_singleton]; [|subst b]; simpl.
    + pose proof (Hlt b Hb'). rewrite decide_False by lia. by apply Hz.
    + by rewrite decide_True.
  - eapply typed_ext, Hty. intros b Hb'%Hlt. simpl. by rewrite decide_False by lia.
  - by intros ? ?%elem_of_nil.
  - eapply tiles_snoc; [done|done|done|by split_and!|done].
Qed.

Lemma find_place_last head A l hi fp fsize fuel :
  ainv head A l hi → hi ≤ fp → (0 < fuel)%nat →
  let A' := set_size fp fsize (set_type fp ARENA_TYPE_FREE A) in
  find_place fuel (prev (chain A' head)) fp A' = Ok (default head (last (b_addr <$> l))).
Proof.
  intros ((fl & Hm & Hf & Hh & Hp & Hz) & Hty & Hhd & Ht) Hfp Hfu A'. unfold A'. simpl.
  destruct (ring_ends _ _ _ Hm) as [_ ->]. destruct fuel as [|fuel]; [lia|]. simpl.
  pose proof (tiles_bound _ _ _ _ Ht) as [Hlh Hb].
  rewrite fmap_last. destruct (last l) as [b|] eqn:E; simpl.
  - apply last_Some_elem_of in E. destruct (Hb b E) as ([? _] & _ & ?). unfold b_end in *.
    rewrite (decide_False (P := b_addr b = fp)) by lia. specialize (Hty b E). rewrite Hty.
    rewrite (decide_True (P := b_addr b < fp)) by lia. by destruct (b_free b).
  - rewrite (decide_False (P := head = fp)) by lia. by rewrite Hh.
Qed.

(** The last block is given back. *)
Lemma drop_last head A l r rs hi hi' :
  ainv head A (l ++ [Block r rs true]) hi → r ≤ hi' → ainv head (remove_from_chains r A) l hi'.
Proof.
  intros ((fl & Hm & Hf & Hh & Hp & Hz) & Hty & Hhd & Ht) Hr.
  apply tiles_app in Ht as [Ht (Hlo & _)]. simpl in Hlo. rewrite fmap_app in Hm. blocks in Hp.
  assert (r ∈ fl) as (f1 & f2 & ->)%list_elem_of_split by (rewrite Hp; set_solver).
  split; [exists (f1 ++ f2); split_and!|split; [|split]]; simpl; try done.
  - apply ring_bypass in Hm. by rewrite app_nil_r in Hm.
  - by apply ring_bypass.
  - apply (Permutation_cons_inv (a := r)). by rewrite Permutation_middle, Hp, Permutation_app_comm.
  - intros b Hb. apply Hz. set_solver.
  - by apply typed_app in Hty as [? _].
  - eapply tiles_hi, Ht. lia.
Qed.

#[local] Arguments __malloc_from_block : simpl never.
#[local] Arguments __free_block : simpl never.

(** What [malloc] asks [sbrk] for: header included, rounded up to chunks. *)
Definition chunk_of (size : Z) : Z := ((size + 31) / 16 * 16 + 65535) / 65536 * 65536.

Section calls_spec.
Context {S : Type} `{!Break S} {brk_ok : S → Prop} {top : S → Z} `{!BreakLaws S brk_ok top}.

Definition hinv (head : Z) (st : arena * S) (l : list block) : Prop :=
  ainv head st.1 l (top st.2) ∧ brk_ok st.2.

Lemma malloc_run head st l size fuel :
  hinv head st l → 0 < size < 2 ^ 29 → (length l < fuel)%nat →
  ∃ p st' l', malloc head fuel size st = Ok (p, st') ∧ hinv head st' l' ∧
    (p = 0 ∧ used l' = used l ∧ (sbrk_op (chunk_of size) st.2).1 = MAP_FAILED ∨
     ∃ a u1 u2 sz, p = a + 16 ∧ used l = u1 ++ u2 ∧ used l' = u1 ++ Block a sz false :: u2 ∧ size + 16 ≤ sz).
Proof.
  intros [Hi Hok] Hs Hfu. destruct st as [A s]. simpl in Hi, Hok.
  unfold malloc. rewrite decide_False by lia.
  pose proof (arena_round size ltac:(lia)) as Hr. cbv zeta in Hr. rewrite Hr. clear Hr. unfold chunk_of. cbn [snd].
  assert (∃ r, r = (size + 31) / 16 * 16 ∧ r `mod` 16 = 0 ∧ 32 ≤ r ∧ size + 16 ≤ r ≤ size + 31)
    as (r & <- & Hr16 & Hr32 & Hrs).
  { eexists. split; [done|]. split; [by apply Z.mod_mul|]. Z.div_mod_to_equations; lia. }
  pose proof (top_range s Hok) as Htop.
  destruct (ainv_fit _ _ _ _ _ r Hi Hfu) as [->|(l1 & fp & fs & l2 & -> & -> & Hfs)]; unfold mbind, outcome_bind; cbv beta iota.
  - pose proof (chunk_round r ltac:(lia)) as ->.
    assert (∃ c, c = (r + 65535) / 65536 * 65536 ∧ c `mod` 16 = 0 ∧ r ≤ c ≤ r + 65535) as (c & <- & Hc16 & Hrc).
    { eexists. split; [done|]. Z.div_mod_to_equations; lia. }
    destruct (sbrk_law c s Hok ltac:(lia)) as [Hok' Hlaw].
    destruct (sbrk_op c s) as [fp s']. cbn [fst snd] in *. pose proof (top_range s' Hok') as Htop'.
    destruct (decide (fp = MAP_FAILED)) as [Hf|Hf].
    { exists 0, (A, s'), l. split; [done|]. split; [|by left]. split; [|done].
      destruct Hi as (? & ? & ? & Ht). split_and!; [done..|lia|lia|]. eapply tiles_hi, Ht. simpl.
      destruct Hlaw as [[_ ?]|(? & _ & ?)]; lia. }
    destruct Hlaw as [[? _]|(Hfp & Hf16 & Hfc)]; [done|].
    pose proof (find_place_last _ _ _ _ fp c fuel Hi Hfp ltac:(lia)) as Hpl.
    cbv zeta in Hpl |- *. rewrite Hpl.
    unfold mbind, outcome_bind; cbv beta iota.
    pose proof (link_last _ _ _ _ fp c _ Hi Hfp Hf16 Hc16 ltac:(lia) Hfc ltac:(lia)) as Hl.
    destruct (free_block_run _ _ _ _ _ _ Hl ltac:(lia)) as (r' & rs & A' & m1 & m2 & Hfr & Hi' & Hu1 & Hu2 & Hrs').
    simpl in Hfr. rewrite Hfr. simpl in Hrs'.
    destruct (from_block_run _ _ _ _ _ _ _ r Hi' ltac:(lia) ltac:(lia) ltac:(lia) Hr16)
      as (A2 & sz & l' & -> & Hi2 & Hu' & Hsz).
    exists (r' + 16), (A2, s'), l'. split; [done|]. split; [done|]. right.
    exists r', (used l), [], sz. rewrite app_nil_r, Hu', Hu1, Hu2. split_and!; [done..|lia].
  - destruct (from_block_run _ _ _ _ _ _ _ r Hi ltac:(lia) ltac:(lia) ltac:(lia) Hr16)
      as (A2 & sz & l' & -> & Hi2 & Hu' & Hsz).
    exists (fp + 16), (A2, s), l'. split; [done|]. split; [done|]. right.
    exists fp, (used l1), (used l2), sz. rewrite Hu'. blocks. split_and!; [done..|lia].
Qed.

Lemma free_run head st l1 a sz l2 :
  hinv head st (l1 ++ Block a sz false :: l2) →
  ∃ l', hinv head (free head (a + 16) st) l' ∧ used l' = used l1 ++ used l2.
Proof.
  intros [Hi Hok]. destruct st as [A s]. simpl in Hi, Hok. pose proof (top_range s Hok) as Htop.
  pose proof Hi as (Hl & Hty & Hhd & Ht).
  pose proof (tiles_split _ _ _ _ _ _ Ht) as (_ & _ & [Ha32 _] & Hlo & Hend). unfold b_end in *. simpl in *.
  destruct (free_block_run head A l1 (Block a sz false) l2 (top s)) as
    (r & rs & A' & m1 & m2 & Hfr & Hi' & Hu1 & Hu2 & _); [by apply ainv_loose|lia|]. simpl in Hfr.
  unfold free. rewrite decide_False by lia. unfold SIZEOF_arena_header.
  rewrite u32_small by (unfold is_u32; lia). replace (a + 16 - 16) with a by lia. rewrite Hfr.
  destruct (decide _) as [Hd|_].
  - destruct Hd as [_ Hd]. pose proof Hi' as ((fl & _ & _ & _ & _ & Hz) & _ & _ & Ht').
    pose proof (Hz (Block r rs true) ltac:(set_solver)) as Hsz. simpl in Hsz. rewrite Hsz in Hd.
    pose proof (tiles_split _ _ _ _ _ _ Ht') as (_ & Hm2 & [Hr32 _] & Hrlo & Hrend). unfold b_end in *. simpl in *.
    rewrite u32_small in Hd by (unfold is_u32; lia).
    assert (r + rs = top s) as Hrt by (destruct (current_law s Hok); lia).
    assert (m2 = []) as ->.
    { destruct m2 as [|c m2]; [done|]. apply tiles_bound in Ht' as [_ Ht'].
      destruct (Ht' c ltac:(set_solver)) as ([? _] & _ & ?). pose proof (Hm2 c ltac:(set_solver)).
      unfold b_end in *. lia. }
    destruct (brk_law (top := top) r s Hok ltac:(lia)) as [Hok' Hb].
    exists m1. rewrite <- Hu2, <- Hu1. split; [|by rewrite app_nil_r]. split; [|done].
    by eapply drop_last.
  - exists (m1 ++ Block r rs true :: m2). split; [done|]. blocks. by rewrite Hu1, Hu2.
Qed.
End calls_spec.

(** ** Programs that allocate and release *)

Inductive call := CMalloc (size : Z) | CFree (i : nat).

Lemma elem_of_delete_ne {A} (l : list A) i j x : l !! j = Some x → j ≠ i → x ∈ delete i l.
Proof.
  intros Hx Hj. rewrite delete_take_drop. apply elem_of_app. destruct (decide (j < i)%nat).
  - left. apply list_elem_of_lookup. exists j. by rewrite lookup_take_lt.
  - right. apply list_elem_of_lookup. exists (j - S i)%nat. rewrite lookup_drop.
    by replace (S i + (j - S i))%nat with j by lia.
Qed.

Section sessions.
Context {S : Type} `{!Break S}.

(** A program calls [malloc] and [free]; it releases regions by their number
    among those it holds, a pair of address and requested size each. *)
Fixpoint session (head : Z) (fuel : nat) (cs : list call) (live : list (Z * Z)) (st : arena * S) :
    outcome (list (Z * Z) * (arena * S)) :=
  match cs with
  | [] => Ok (live, st)
  | CMalloc n :: cs =>
      '(p, st) ← malloc head fuel n st;
      session head fuel cs (if decide (p = 0) then live else live ++ [(p, n)]) st
  | CFree i :: cs =>
      match live !! i with
      | Some (p, _) => session head fuel cs (delete i live) (free head p st)
      | None => session head fuel cs live st
      end
  end.

Context {brk_ok : S → Prop} {top : S → Z} `{!BreakLaws S brk_ok top}.

Definition serves (x : Z * Z) (b : block) : Prop :=
  x.1 = b_addr b + 16 ∧ 0 < x.2 ∧ x.2 + 16 ≤ b_size b.

Definition holds (head : Z) (live : list (Z * Z)) (st : arena * S) : Prop :=
  ∃ l bs, hinv (brk_ok := brk_ok) (top := top) head st l ∧ bs ≡ₚ used l ∧ Forall2 serves live bs.

Lemma tiles_length lo pf l hi : tiles lo pf l hi → 32 * Z.of_nat (length l) ≤ hi - lo.
Proof.
  revert lo pf. induction l as [|b l IH]; simpl; intros lo pf; [lia|].
  intros (? & _ & [? _] & ?%IH). unfold b_end in *. lia.
Qed.

Lemma malloc_holds head live st n fuel :
  holds head live st → 0 < n < 2 ^ 29 → 2 ^ 27 ≤ Z.of_nat fuel →
  ∃ p st', malloc head fuel n st = Ok (p, st') ∧
    (p = 0 → holds head live st' ∧ (sbrk_op (chunk_of n) st.2).1 = MAP_FAILED) ∧
    (p ≠ 0 → holds head (live ++ [(p, n)]) st').
Proof.
  intros (l & bs & Hi & Hp & Hf) Hn Hfu.
  destruct (malloc_run head st l n fuel Hi) as (p & st' & l' & -> & Hi' & Hr); [lia| |].
  { destruct Hi as [(_ & _ & Hh & Ht%tiles_length) Hok]. pose proof (top_range (top := top) _ Hok). lia. }
  exists p, st'. split; [done|]. destruct Hr as [(-> & Hu & Hfail)|(a & u1 & u2 & sz & -> & Hu & Hu' & Hsz)].
  - split; [|done]. intros _. split; [|done]. exists l', bs. by rewrite Hu.
  - assert (0 < a).
    { destruct Hi' as [(_ & _ & Hh & [_ Ht]%tiles_bound) _].
      destruct (Ht (Block a sz false)) as (_ & ? & _); [|simpl in *; lia].
      assert (Block a sz false ∈ used l') as [_ ?]%list_elem_of_filter by (rewrite Hu'; set_solver). done. }
    split; [lia|]. intros _. exists l', (bs ++ [Block a sz false]). split; [done|]. split.
    + by rewrite Hu', Hp, Hu, <- !Permutation_cons_append, Permutation_middle.
    + apply Forall2_app; [done|]. by repeat constructor; simpl; lia.
Qed.

Lemma free_holds head live st i p n :
  holds head live st → live !! i = Some (p, n) → holds head (delete i live) (free head p st).
Proof.
  intros (l & bs & Hi & Hp & Hf) Hx.
  destruct (Forall2_lookup_l _ _ _ _ _ Hf Hx) as ([a sz fr] & Hb & Hpa & Hn & Hsz). simpl in *. subst p.
  pose proof (list_elem_of_lookup_2 _ _ _ Hb) as Hin. rewrite Hp in Hin.
  apply list_elem_of_filter in Hin as [Hfr Hin]. simpl in Hfr. subst fr.
  apply list_elem_of_split in Hin as (l1 & l2 & ->).
  destruct (free_run _ _ _ _ _ _ Hi) as (l' & Hi' & Hu).
  exists l', (delete i bs). split; [done|]. split; [|by apply Forall2_delete].
  rewrite Hu. blocks in Hp. apply (Permutation_cons_inv (a := Block a sz false)).
  by rewrite <- delete_Permutation, Permutation_middle.
Qed.

Lemma tiles_apart lo pf l hi b c :
  tiles lo pf l hi → b ∈ l → c ∈ l → b ≠ c → b_end b ≤ b_addr c ∨ b_end c ≤ b_addr b.
Proof.
  revert lo pf. induction l as [|x l IH]; simpl; intros lo pf; [set_solver|].
  intros (_ & _ & _ & Ht) Hb Hc Hne. pose proof (tiles_bound _ _ _ _ Ht) as [_ Hl].
  apply elem_of_cons in Hb as [->|Hb], Hc as [->|Hc].
  - done.
  - left. by apply Hl.
  - right. by apply Hl.
  - by eapply IH.
Qed.

Lemma tiles_nodup lo pf l hi : tiles lo pf l hi → NoDup l.
Proof.
  revert lo pf. induction l as [|x l IH]; simpl; intros lo pf; [constructor|].
  intros (_ & _ & [? _] & Ht). constructor; [|by eapply IH].
  intros Hx. apply tiles_bound in Ht as [_ Ht]. destruct (Ht x Hx) as (_ & ? & _). unfold b_end in *. lia.
Qed.

(** What a held region looks like. *)
Definition region_ok (head hi : Z) (live : list (Z * Z)) : Prop :=
  ∀ i p n, live !! i = Some (p, n) →
    p `mod` 16 = 0 ∧ head < p ∧ p + n ≤ hi ∧
    ∀ j q k, live !! j = Some (q, k) → i ≠ j → p + n ≤ q ∨ q + k ≤ p.

Lemma holds_regions head live st : holds head live st → region_ok head (top st.2) live.
Proof.
  intros (l & bs & [(_ & _ & Hh & Ht) _] & Hp & Hf) i p n Hi.
  assert (∀ i p n, live !! i = Some (p, n) →
    ∃ b, bs !! i = Some b ∧ b ∈ l ∧ p = b_addr b + 16 ∧ 0 < n ∧ n + 16 ≤ b_size b) as Hget.
  { intros i' p' n' Hx. destruct (Forall2_lookup_l _ _ _ _ _ Hf Hx) as (b & Hb & ? & ? & ?).
    exists b. split_and!; try done. pose proof (list_elem_of_lookup_2 _ _ _ Hb) as Hin.
    rewrite Hp in Hin. by apply list_elem_of_filter in Hin as [_ ?]. }
  destruct (Hget _ _ _ Hi) as (b & Hb & Hbl & -> & Hn & Hbn).
  pose proof (tiles_bound _ _ _ _ Ht) as [_ Hbd]. destruct (Hbd b Hbl) as ((_ & Hb16 & _) & ? & ?).
  unfold b_end in *. split_and!; [Z.div_mod_to_equations; lia|lia|lia|].
  intros j q k Hj Hij. destruct (Hget _ _ _ Hj) as (c & Hc & Hcl & -> & Hk & Hck).
  assert (b ≠ c).
  { intros ->. apply Hij. eapply (NoDup_lookup bs); [|done..]. rewrite Hp. apply NoDup_filter. by eapply tiles_nodup. }
  destruct (tiles_apart _ _ _ _ _ _ Ht Hbl Hcl); [done|..]; unfold b_end in *; lia.
Qed.

(** The size recorded in a block bounds what may be held of it. *)
Lemma holds_block head live st i p n :
  holds head live st → live !! i = Some (p, n) →
  16 < p ∧ is_u32 (p - 16) ∧ 32 ≤ a_size st.1 (p - 16) < 2 ^ 32 ∧ n + 16 ≤ a_size st.1 (p - 16) ∧
  ∀ k, 0 < k → k + 16 ≤ a_size st.1 (p - 16) → holds head (<[i := (p, k)]> live) st.
Proof.
  intros (l & bs & Hi & Hp & Hf) Hx.
  destruct (Forall2_lookup_l _ _ _ _ _ Hf Hx) as (b & Hb & Hpa & Hn & Hsz). simpl in *. subst p.
  pose proof (list_elem_of_lookup_2 _ _ _ Hb) as Hin. rewrite Hp in Hin.
  apply list_elem_of_filter in Hin as [_ Hin]. replace (b_addr b + 16 - 16) with (b_addr b) by lia.
  pose proof Hi as [((fl & _ & _ & _ & _ & Hz) & _ & Hh & Ht) Hok]. rewrite (Hz b Hin).
  pose proof (top_range (top := top) _ Hok). apply tiles_bound in Ht as [_ Ht].
  destruct (Ht b Hin) as ([Hb32 _] & ? & ?). unfold b_end, is_u32 in *. split_and!; try lia.
  intros k Hk Hbk. exists l, bs. split_and!; [done|done|].
  rewrite <- (list_insert_id bs i b Hb). apply Forall2_insert; [done|]. by split_and!.
Qed.

(** [realloc] of a held region: it grows or shrinks with its contents, where it
    is or elsewhere; when [sbrk] refuses the chunk the copy goes to NULL. *)
Lemma realloc_keeps head live st i p old n fuel m :
  holds head live st → live !! i = Some (p, old) → 0 < n < 2 ^ 28 → 2 ^ 27 ≤ Z.of_nat fuel →
  (∃ p' st' m' live', realloc head fuel p n st m = Ok (p', (st', m')) ∧ holds head live' st' ∧
     (p', n) ∈ live' ∧ (∀ j x, j ≠ i → live !! j = Some x → x ∈ live') ∧
     ∀ k, 0 ≤ k < Z.min n old → m' (p' + k) = m (p + k)) ∨
  realloc head fuel p n st m = Fault ∧ ∃ c, (sbrk_op c st.2).1 = MAP_FAILED.
Proof.
  intros Hh Hi Hn Hf. destruct (holds_block _ _ _ _ _ _ Hh Hi) as (Hp & Hp16 & Ha & Hold & Hre).
  unfold realloc. rewrite !decide_False by lia.
  pose proof (arena_round n ltac:(lia)) as Hr. cbv zeta in Hr. rewrite Hr. clear Hr.
  assert (∃ r, r = (n + 31) / 16 * 16 ∧ n + 16 ≤ r ≤ n + 31) as (r & <- & Hr).
  { eexists. split; [done|]. Z.div_mod_to_equations; lia. }
  unfold SIZEOF_arena_header. rewrite (u32_small (p - 16)) by done.
  set (asz := a_size st.1 (p - 16)) in *. pose proof (lookup_lt_Some _ _ _ Hi) as Hlt.
  destruct (decide (r ≤ asz ∧ _)) as [[Hfit _]|_].
  - left. exists p, st, m, (<[i := (p, n)]> live). split_and!; [done|apply Hre; lia| | |done].
    + apply list_elem_of_lookup. exists i. by apply list_lookup_insert_eq.
    + intros j x Hj Hx. apply list_elem_of_lookup. exists j. by rewrite list_lookup_insert_ne.
  - rewrite (u32_small (asz - 16)) by (unfold is_u32; lia).
    pose proof (Hre (asz - 16) ltac:(lia) ltac:(lia)) as Hh1. set (live1 := <[i := (p, asz - 16)]> live) in *.
    destruct (malloc_holds _ _ _ r fuel Hh1 ltac:(lia) Hf) as (p' & st' & -> & H0 & H1).
    cbn [mbind outcome_bind]. destruct (decide (p' = 0)) as [E|E].
    { right. split; [done|]. eexists. by apply H0. }
    left. specialize (H1 E). assert (live1 !! i = Some (p, asz - 16)) as Hi1 by (by apply list_lookup_insert_eq).
    assert ((live1 ++ [(p', r)]) !! length live1 = Some (p', r)) as Hnew by (by rewrite lookup_app_r, Nat.sub_diag).
    assert (p + (asz - 16) ≤ p' ∨ p' + r ≤ p) as Hdis.
    { destruct (holds_regions _ _ _ H1 i p (asz - 16)) as (_ & _ & _ & Hd); [by rewrite lookup_app_l by (by eapply lookup_lt_Some)|].
      eapply Hd; [done|]. apply lookup_lt_Some in Hi1. lia. }
    destruct (holds_block _ _ _ _ _ _ H1 Hnew) as (_ & _ & _ & Hr16 & Hre').
    specialize (Hre' n ltac:(lia) ltac:(lia)). rewrite insert_app_r_alt, Nat.sub_diag in Hre' by done. simpl in Hre'.
    eexists p', _, _, (delete i (live1 ++ [(p', n)])). split; [done|]. split_and!.
    + eapply free_holds; [done|]. by rewrite lookup_app_l by (by eapply lookup_lt_Some).
    + apply (elem_of_delete_ne _ _ (length live1)); [by rewrite lookup_app_r, Nat.sub_diag|].
      apply lookup_lt_Some in Hi1. lia.
    + intros j x Hj Hx. apply (elem_of_delete_ne _ _ j); [|done].
      rewrite lookup_app_l by (unfold live1; rewrite length_insert; by eapply lookup_lt_Some).
      unfold live1. by rewrite list_lookup_insert_ne.
    + intros k Hk. rewrite memcpy_at by (case_decide; lia).
      rewrite decide_True by (case_decide; lia). f_equal. lia.
Qed.

Definition call_ok (c : call) : Prop := match c with CMalloc n => 0 ≤ n < 2 ^ 29 | CFree _ => True end.

Lemma session_holds head fuel cs live st :
  holds head live st → Forall call_ok cs → 2 ^ 27 ≤ Z.of_nat fuel →
  ∃ live' st', session head fuel cs live st = Ok (live', st') ∧ holds head live' st'.
Proof.
  intros Hh Hc Hfu. revert live st Hh. induction Hc as [|c cs Hc _ IH]; intros live st Hh; [by exists live, st|].
  destruct c as [n|i]; simpl.
  - destruct (decide (n = 0)) as [->|]; [destruct st; by apply IH|]. simpl in Hc.
    destruct (malloc_holds _ _ _ n fuel Hh ltac:(lia) Hfu) as (p & st' & -> & H0 & H1). simpl.
    apply IH. case_decide; [by apply H0|by apply H1].
  - destruct (live !! i) as [[p n]|] eqn:E; [|by apply IH]. apply IH. by eapply free_holds.
Qed.

Lemma arena0_holds head A s :
  0 ≤ head < top s → brk_ok s → holds head [] (arena0 head A, s).
Proof.
  intros Hh Hok. exists [], []. split; [|by split; [|constructor]]. split; [|done].
  pose proof (top_range (top := top) s Hok).
  split; [exists []; split_and!|split; [|split]]; simpl; try apply KLIST0_INIT_ring; try done; try lia.
  - by rewrite decide_True.
  - by intros ? ?%elem_of_nil.
  - by intros ? ?%elem_of_nil.
Qed.
End sessions.

(** ** [sbrk] and [brk] over the system call *)

(* usr/klibc/sbrk.c:14-14 __current_brk *)
Record ubrk := Ubrk { __current_brk : Z; proc_map : Z; kern : ms }.

(* usr/include/klibc/sysconfig.h:121-121 _KLIBC_SBRK_ALIGNMENT *)
Definition _KLIBC_SBRK_ALIGNMENT : Z := 32.

(* usr/klibc/sbrk.c:16-20 align_up *)
Definition align_up (p a : Z) : Z := Z.land (u32 (p + a - 1)) (u32 (Z.lnot (a - 1))).

Definition sys_brk (e : Z) (u : ubrk) : Z * ubrk :=
  let '(r, k) := MemArea.brk e (proc_map u) (kern u) in
  (r, Ubrk (__current_brk u) (proc_map u) k).
Definition set_current (c : Z) (u : ubrk) : ubrk := Ubrk c (proc_map u) (kern u).

(* usr/klibc/sbrk.c:22-43 sbrk *)
Definition usr_sbrk (increment : Z) (u : ubrk) : Z * ubrk :=
  let u := if decide (__current_brk u = 0) then
             let '(c, u) := sys_brk 0 u in set_current c u
           else u in
  let start := align_up (__current_brk u) _KLIBC_SBRK_ALIGNMENT in
  let end_ := u32 (start + increment) in
  let '(new_brk, u) := sys_brk end_ u in
  if decide (new_brk = 2 ^ 32 - 1) then (2 ^ 32 - 1, u)
  else if decide (new_brk < end_) then (2 ^ 32 - 1, u)
  else (start, set_current new_brk u).

(* usr/klibc/brk.c:19-28 brk *)
Definition usr_brk (end_data_segment : Z) (u : ubrk) : Z * ubrk :=
  let '(new_brk, u) := sys_brk end_data_segment u in
  if decide (new_brk ≠ end_data_segment) then (-1, u)
  else (0, set_current new_brk u).

#[export] Instance ubrk_break : Break ubrk := {
  current_brk := __current_brk;
  sbrk_op := usr_sbrk;
  brk_op a u := (usr_brk a u).2;
}.

Definition heap_area (u : ubrk) : mem_area := mmas (kern u) (m_mma (maps (kern u) (proc_map u)) 3).
Definition utop (u : ubrk) : Z :=
  if decide (__current_brk u = 0) then m_start (heap_area u) else __current_brk u.
Definition ubrk_ok (u : ubrk) : Prop :=
  0 < m_start (heap_area u) ≤ 0x80000000 ∧ 0 ≤ m_sizelim (heap_area u) ≤ USERMEM_HEAPLIM ∧
  m_start (heap_area u) ≤ utop u ≤ m_start (heap_area u) + USERMEM_HEAPLIM.

Lemma sys_brk_run e u :
  ubrk_ok u → e ≠ 0 →
  let lim := u32 (m_sizelim (heap_area u) + (e - m_start (heap_area u))) in
  (lim ≤ USERMEM_HEAPLIM ∧ ∃ u', sys_brk e u = (m_start (heap_area u) + lim, u') ∧
     __current_brk u' = __current_brk u ∧ m_start (heap_area u') = m_start (heap_area u) ∧
     m_sizelim (heap_area u') = lim) ∨
  sys_brk e u = (2 ^ 32 - 1, u).
Proof.
  intros (Hs & Hl & _) He lim. unfold sys_brk, MemArea.brk. rewrite decide_False by done.
  unfold MemArea.sbrk. fold (heap_area u).
  assert (u32 (m_sizelim (heap_area u) + u32 (e - m_start (heap_area u))) = lim) as ->.
  { unfold lim, u32. by rewrite Z.add_mod_idemp_r. }
  destruct (decide _) as [Hd|]; [|right; by destruct u]. left. split; [done|].
  pose proof (u32_range (m_sizelim (heap_area u) + (e - m_start (heap_area u)))) as Hr. fold lim in Hr.
  unfold USERMEM_HEAPLIM, is_u32 in *. rewrite u32_small by (unfold is_u32; lia).
  eexists. split; [done|]. unfold heap_area. simpl. by rewrite decide_True.
Qed.

Lemma align_up_spec p : 0 ≤ p < 2 ^ 32 - 32 → p ≤ align_up p 32 < p + 32 ∧ align_up p 32 `mod` 16 = 0.
Proof.
  intros Hp. pose proof (roundup_l2_spec p 5 ltac:(lia) ltac:(lia) ltac:(lia)) as H.
  unfold roundup_l2 in H. change (2 ^ 5) with 32 in H. unfold align_up.
  replace (p + 32 - 1) with (p + (32 - 1)) by lia. rewrite H.
  replace (p + (32 - 1)) with (p + 31) by lia. Z.div_mod_to_equations; lia.
Qed.

(** [sbrk] once [__current_brk] is set. *)
Lemma usr_sbrk_law n u :
  ubrk_ok u → 0 < n < 2 ^ 30 →
  ubrk_ok (usr_sbrk n u).2 ∧
  ((usr_sbrk n u).1 = MAP_FAILED ∧ utop u ≤ utop (usr_sbrk n u).2
   ∨ utop u ≤ (usr_sbrk n u).1 ∧ (usr_sbrk n u).1 `mod` 16 = 0 ∧
     (usr_sbrk n u).1 + n ≤ utop (usr_sbrk n u).2).
Proof.
  intros Hok Hn. unfold usr_sbrk.
  set (u1 := if decide (__current_brk u = 0) then _ else u).
  assert (ubrk_ok u1 ∧ __current_brk u1 = utop u ∧ heap_area u1 = heap_area u) as (Hok1 & Hc1 & Hh1).
  { unfold u1, ubrk_ok, utop, heap_area in *. destruct (decide (__current_brk u = 0)) as [E|E].
    - simpl in *. destruct Hok as (? & ? & ?). rewrite decide_False by lia. by split_and!; try lia.
    - rewrite decide_False by done. done. }
  assert (0 < utop u) as Hpos by (destruct Hok as (? & ? & ?); lia).
  rewrite <- Hc1 in Hpos |- *. clearbody u1. clear Hc1 Hh1 Hok u. pose proof Hok1 as (Hs & Hl & Ht).
  assert (utop u1 = __current_brk u1) as Hc by (unfold utop; by rewrite decide_False by lia).
  rewrite Hc in Ht. unfold USERMEM_HEAPLIM, _KLIBC_SBRK_ALIGNMENT in *.
  destruct (align_up_spec (__current_brk u1)) as [Ha Ha16]; [lia|].
  set (a := align_up (__current_brk u1) 32) in *. rewrite (u32_small (a + n)) by (unfold is_u32; lia).
  destruct (sys_brk_run (a + n) u1 Hok1) as [(Hlim & u' & -> & Hc' & Hs' & Hl')| ->]; [lia| |].
  - set (lim := u32 _) in *.
    assert (lim = m_sizelim (heap_area u1) + (a + n - m_start (heap_area u1))) as Elim
      by (apply u32_small; unfold is_u32; lia).
    unfold USERMEM_HEAPLIM in Hlim. rewrite !decide_False by lia. simpl.
    unfold ubrk_ok, utop, set_current, heap_area, USERMEM_HEAPLIM in *. simpl. rewrite Hs', Hl'.
    rewrite decide_False by lia. split; [split_and!; lia|right; split_and!; lia || done].
  - rewrite decide_True by done. simpl. split; [done|]. left. split; [done|]. lia.
Qed.

#[export] Instance ubrk_laws : BreakLaws ubrk ubrk_ok utop.
Proof.
  split.
  - intros u (Hs & Hl & Ht). unfold USERMEM_HEAPLIM in *. lia.
  - intros u _. simpl. unfold utop. case_decide; [by left|by right].
  - apply usr_sbrk_law.
  - intros a u Hok Ha. simpl. unfold usr_brk. pose proof Hok as (Hs & Hl & Ht).
    destruct (sys_brk_run a u Hok) as [(Hlim & u' & -> & Hc' & Hs' & Hl')| ->]; [lia| |].
    + pose proof (u32_range (m_sizelim (heap_area u) + (a - m_start (heap_area u)))) as Hr.
      set (lim := u32 _) in *. clearbody lim. unfold is_u32 in Hr.
      destruct (decide _) as [Hd|Hd]; simpl.
      * unfold ubrk_ok, utop in *. rewrite Hs', Hl', Hc'. split_and!; lia || done.
      * apply dec_stable in Hd. unfold ubrk_ok, utop, set_current, heap_area in *. simpl. rewrite Hs', Hl'.
        rewrite decide_False by lia. split_and!; lia.
    + destruct (decide _) as [Hd|Hd%dec_stable]; simpl; [split; [done|lia]|].
      unfold USERMEM_HEAPLIM in *. lia.
Qed.

(** ** Properties *)

(** C33: in a heap in which a program holds the regions [live], the regions are
    aligned, disjoint and below the end of the data segment; [malloc] adds one
    of the size asked for, and answers NULL, changing nothing, only when [sbrk]
    refuses a chunk; [free] of a held address takes just that region away.
    The searches need no more steps than there is room for blocks. *)
Theorem malloc_free_correct {S : Type} `{!Break S} {brk_ok : S → Prop} {top : S → Z}
    `{!BreakLaws S brk_ok top} head live st fuel :
  holds (brk_ok := brk_ok) (top := top) head live st → 2 ^ 27 ≤ Z.of_nat fuel →
  region_ok head (top st.2) live ∧
  (∀ n, 0 < n < 2 ^ 29 →
    ∃ p st', malloc head fuel n st = Ok (p, st') ∧
      (p = 0 → holds (brk_ok := brk_ok) (top := top) head live st' ∧
               (sbrk_op (chunk_of n) st.2).1 = MAP_FAILED) ∧
      (p ≠ 0 → holds (brk_ok := brk_ok) (top := top) head (live ++ [(p, n)]) st')) ∧
  (∀ i p n, live !! i = Some (p, n) →
    holds (brk_ok := brk_ok) (top := top) head (delete i live) (free head p st)).
Proof.
  intros Hh Hf. split_and!.
  - by apply holds_regions.
  - intros. by apply malloc_holds.
  - intros. by eapply free_holds.
Qed.

Definition blank_arena : arena := Arena (λ _, 0) (λ _, 0) empty_heap empty_heap.
Definition user0 : ubrk := Ubrk 0 1 area2.

Lemma user0_ok : ubrk_ok user0 ∧ utop user0 = 2 ^ 24.
Proof. split; [split_and!|]; vm_compute; done. Qed.

Lemma malloc_free_correct_witness :
  ∃ p st', malloc 0x4000 (Z.to_nat (2 ^ 27)) 100 (arena0 0x4000 blank_arena, user0) = Ok (p, st') ∧
    (p ≠ 0 → holds (brk_ok := ubrk_ok) (top := utop) 0x4000 [(p, 100)] st').
Proof.
  destruct user0_ok as [Hok Ht].
  destruct (malloc_free_correct (top := utop) 0x4000 [] (arena0 0x4000 blank_arena, user0) (Z.to_nat (2 ^ 27)))
    as (_ & Hm & _).
  - apply arena0_holds; [|done]. rewrite Ht. lia.
  - rewrite Z2Nat.id by lia. lia.
  - destruct (Hm 100 ltac:(lia)) as (p & st' & He & _ & Hp). exists p, st'. split; [exact He|exact Hp].
Defined.

(** Two regions from one chunk, a bigger one above it, and the first used again. *)
Example malloc_runs :
  (λ x, match x with Ok (live, _) => live | _ => [] end)
    (session 0x4000 100 [CMalloc 100; CMalloc 40; CMalloc 70000; CFree 0; CMalloc 50] []
       (arena0 0x4000 blank_arena, user0)) =
  [(2 ^ 24 + 16 + 128, 40); (2 ^ 24 + 16 + 65536 + 4096, 70000); (2 ^ 24 + 16, 50)].
Proof. vm_compute. reflexivity. Qed.

(** A size within 31 bytes of 2^32 wraps around to nothing: the program gets a
    block without a byte for the 4294967280 it asked for. *)
Example malloc_size_wraps :
  (λ x, match x with Ok (p, (A, _)) => Some (p, a_size A (p - 16)) | _ => None end)
    (malloc 0x4000 100 (2 ^ 32 - 16) (arena0 0x4000 blank_arena, user0)) = Some (2 ^ 24 + 16, 0).
Proof. vm_compute. reflexivity. Qed.

(** When no memory is left, [realloc] copies the old contents to address 0. *)
Example realloc_faults :
  (λ x, match x with Ok (p, st) => realloc 0x4000 100 p (2 ^ 20) st (λ _, 0) | _ => Hang end)
    (malloc 0x4000 100 100 (arena0 0x4000 blank_arena, user0)) = Fault.
Proof. vm_compute. reflexivity. Qed.
