(* ===== verification/Qsort.v ===== *)
(** * Sorting and searching (usr/klibc/qsort.c, bsearch.c)

    [qsort] is a comb sort: passes over the array exchange elements that are a
    shrinking gap apart, until a pass with gap 1 exchanges nothing.  The
    comparison is a function of the program, called with two addresses; the
    theorems assume that it looks at the bytes of the two elements only. *)

From S2P Require Import Prelude Klib Ustring.

(* usr/klibc/qsort.c:11-20 newgap *)
Definition newgap (gap : Z) : Z :=
  let gap := u32 (gap * 10) / 13 in
  let gap := if decide (gap = 9 ∨ gap = 10) then 11 else gap in
  if decide (gap < 1) then 1 else gap.

Section calls.
Context (compar : memory → Z → Z → Z).

(** One pass, [n] iterations of it left (qsort.c:34-40). *)
Fixpoint qsort_pass (n : nat) (base size gap i p1 : Z) (swapped : bool) (m : memory) : bool * memory :=
  match n with
  | O => (swapped, m)
  | S n =>
      let j := i + gap in
      let p2 := base + j * size in
      if decide (0 < compar m p1 p2) then
        qsort_pass n base size gap (i + 1) (p1 + size) true (memswap p1 p2 (Z.to_nat size) m)
      else qsort_pass n base size gap (i + 1) (p1 + size) swapped m
  end.

Fixpoint qsort_loop (fuel : nat) (base nmemb size gap : Z) (m : memory) : outcome memory :=
  match fuel with
  | O => Hang
  | S f =>
      let gap := newgap gap in
      let '(swapped, m) := qsort_pass (Z.to_nat (u32 (nmemb - gap))) base size gap 0 base false m in
      if decide (1 < gap ∨ swapped = true) then qsort_loop f base nmemb size gap m else Ok m
  end.

(* usr/klibc/qsort.c:22-42 qsort *)
Definition qsort (fuel : nat) (base nmemb size : Z) (m : memory) : outcome memory :=
  qsort_loop fuel base nmemb size nmemb m.

(* usr/klibc/bsearch.c:7-26 bsearch *)
Fixpoint bsearch (fuel : nat) (key base nmemb size : Z) (m : memory) : outcome (option Z) :=
  match fuel with
  | O => Hang
  | S f =>
      if decide (nmemb ≠ 0) then
        let mididx := nmemb / 2 in
        let midobj := base + mididx * size in
        let diff := compar m key midobj in
        if decide (diff = 0) then Ok (Some midobj)
        else if decide (0 < diff) then bsearch f key (midobj + size) (nmemb - (mididx + 1)) size m
        else bsearch f key base mididx size m
      else Ok None
  end.
End calls.

(** ** The gaps *)

Lemma newgap_pos g : 1 ≤ newgap g.
Proof. unfold newgap. repeat case_decide; lia. Qed.

Lemma newgap_decr g : 2 ≤ g < 2 ^ 32 → newgap g < g.
Proof.
  intros Hg. unfold newgap.
  assert (u32 (g * 10) ≤ g * 10) by (unfold u32; apply Z.mod_le; lia).
  pose proof (u32_range (g * 10)) as Hr. unfold is_u32 in Hr. set (v := u32 (g * 10)) in *. clearbody v.
  repeat case_decide; Z.div_mod_to_equations; lia.
Qed.

Lemma newgap_one g : g = 1 → newgap g = 1.
Proof. by intros ->. Qed.

(** ** The array as a list of elements *)

Definition elems (m : memory) (base size : Z) (n : nat) : list (list Z) :=
  (λ i, bytes m (base + i * size) size) <$> seqZ 0 (Z.of_nat n).

Lemma elems_length m base size n : length (elems m base size n) = n.
Proof. unfold elems. by rewrite length_fmap, length_seqZ, Nat2Z.id. Qed.

Lemma elems_lookup m base size n i :
  (i < n)%nat → elems m base size n !! i = Some (bytes m (base + Z.of_nat i * size) size).
Proof. intros Hi. unfold elems. rewrite list_lookup_fmap, lookup_seqZ_lt by lia. done. Qed.

Lemma elems_swap m base size n i j :
  (i < j < n)%nat → 0 ≤ size →
  let pi := base + Z.of_nat i * size in
  let pj := base + Z.of_nat j * size in
  elems (memswap pi pj (Z.to_nat size) m) base size n =
    <[i := bytes m pj size]> (<[j := bytes m pi size]> (elems m base size n)).
Proof.
  intros Hij Hs pi pj. apply list_eq_same_length with n.
  - by rewrite !length_insert, elems_length.
  - by rewrite elems_length.
  - intros k x y Hk Hx Hy. rewrite elems_lookup in Hx by done. injection Hx as <-.
    assert (∀ a b : nat, (a < b)%nat → base + Z.of_nat a * size + size ≤ base + Z.of_nat b * size) as Hsep by nia.
    destruct (decide (k = i)) as [->|].
    { rewrite list_lookup_insert_eq in Hy by (rewrite length_insert, elems_length; lia). injection Hy as <-.
      apply bytes_ext. intros o Ho. pose proof (Hsep i j ltac:(lia)). rewrite memswap_at by (subst pi pj; lia).
      rewrite decide_True by (subst pi pj; lia). f_equal. subst pi pj. lia. }
    rewrite list_lookup_insert_ne in Hy by done. destruct (decide (k = j)) as [->|].
    { rewrite list_lookup_insert_eq in Hy by (rewrite elems_length; lia). injection Hy as <-.
      apply bytes_ext. intros o Ho. pose proof (Hsep i j ltac:(lia)). rewrite memswap_at by (subst pi pj; lia).
      rewrite decide_False, decide_True by (subst pi pj; lia). f_equal. subst pi pj. lia. }
    rewrite list_lookup_insert_ne, elems_lookup in Hy by done. injection Hy as <-.
    apply bytes_ext. intros o Ho. pose proof (Hsep i j ltac:(lia)). rewrite memswap_at by (subst pi pj; lia).
    assert (∀ a : nat, k ≠ a → base + Z.of_nat k * size + size ≤ base + Z.of_nat a * size ∨
                               base + Z.of_nat a * size + size ≤ base + Z.of_nat k * size) as Hk2.
    { intros a Ha. destruct (decide (k < a)%nat); [left|right]; apply Hsep; lia. }
    pose proof (Hk2 i ltac:(done)). pose proof (Hk2 j ltac:(done)).
    by rewrite !decide_False by (subst pi pj; lia).
Qed.

(** ** Passes over a list *)

Section order.
Context (c : list Z → list Z → Z).

(** [asym]: two elements are not each greater than the other; [trans]: not
    being greater is transitive. *)
Definition asym : Prop := ∀ x y, 0 < c x y → c y x ≤ 0.
Definition trans : Prop := ∀ x y z, c x y ≤ 0 → c y z ≤ 0 → c x z ≤ 0.

Fixpoint list_pass (n gap i : nat) (swapped : bool) (l : list (list Z)) : bool * list (list Z) :=
  match n with
  | O => (swapped, l)
  | S n =>
      match l !! i, l !! (i + gap)%nat with
      | Some x, Some y =>
          if decide (0 < c x y) then list_pass n gap (S i) true (<[i := y]> (<[(i + gap)%nat := x]> l))
          else list_pass n gap (S i) swapped l
      | _, _ => (swapped, l)
      end
  end.

Lemma insert_swap_perm (l : list (list Z)) i j x y :
  (i < j)%nat → l !! i = Some x → l !! j = Some y → <[i := y]> (<[j := x]> l) ≡ₚ l.
Proof.
  intros Hij Hi Hj.
  apply list_elem_of_split_length in Hi as (l1 & l2 & -> & Hl1).
  rewrite lookup_app_r in Hj by lia. replace (j - length l1)%nat with (S (j - length l1 - 1)) in Hj by lia.
  simpl in Hj. apply list_elem_of_split_length in Hj as (l3 & l4 & -> & Hl3).
  replace j with (length l1 + S (length l3))%nat by lia. rewrite insert_app_r. simpl.
  rewrite (insert_app_r_alt l3), Nat.sub_diag by lia. simpl.
  replace i with (length l1 + 0)%nat by lia. rewrite insert_app_r. simpl.
  rewrite <- !Permutation_middle. by rewrite Permutation_swap.
Qed.

Lemma list_pass_perm n gap i s l : (0 < gap)%nat → (list_pass n gap i s l).2 ≡ₚ l.
Proof.
  intros Hg. revert i s l. induction n as [|n IH]; intros i s l; simpl; [done|].
  destruct (l !! i) as [x|] eqn:Hi; [|done]. destruct (l !! (i + gap)%nat) as [y|] eqn:Hj; [|done].
  case_decide; rewrite IH; [|done]. apply insert_swap_perm; [lia|done..].
Qed.

Lemma list_pass_true n gap i l : (list_pass n gap i true l).1 = true.
Proof.
  revert i l. induction n as [|n IH]; intros i l; simpl; [done|].
  destruct (l !! i); [|done]. destruct (l !! (i + gap)%nat); [|done]. by case_decide; rewrite IH.
Qed.

(** A pass without exchanges: nothing changed, and everything is in order. *)
Lemma list_pass_false n gap i l l' :
  list_pass n gap i false l = (false, l') → (i + n + gap ≤ length l)%nat →
  l' = l ∧ ∀ k x y, (i ≤ k < i + n)%nat → l !! k = Some x → l !! (k + gap)%nat = Some y → c x y ≤ 0.
Proof.
  revert i. induction n as [|n IH]; intros i H Hl; simpl in H.
  - injection H as <-. split; [done|]. lia.
  - destruct (l !! i) as [x|] eqn:Hi; [|apply lookup_ge_None in Hi; lia].
    destruct (l !! (i + gap)%nat) as [y|] eqn:Hj; [|apply lookup_ge_None in Hj; lia].
    case_decide as Hd.
    + pose proof (list_pass_true n gap (S i) (<[i := y]> (<[(i + gap)%nat := x]> l))) as Ht. by rewrite H in Ht.
    + apply IH in H as [-> Hk]; [|lia]. split; [done|]. intros k x' y' Hki Hx Hy.
      destruct (decide (k = i)) as [->|]; [simplify_eq; lia|]. eapply Hk; [|done..]. lia.
Qed.

(** ** The passes with gap 1 come to an end *)

Definition above (x : list Z) (l : list (list Z)) : nat := length (filter (λ y, 0 < c x y) l).
Fixpoint inversions (l : list (list Z)) : nat :=
  match l with [] => O | x :: l => (above x l + inversions l)%nat end.

Lemma above_perm x l l' : l ≡ₚ l' → above x l = above x l'.
Proof. intros H. unfold above. by rewrite H. Qed.

Lemma inversions_swap l1 x y l2 :
  asym → 0 < c x y → inversions (l1 ++ x :: y :: l2) = S (inversions (l1 ++ y :: x :: l2)).
Proof.
  intros Ha Hc. induction l1 as [|z l1 IH]; simpl.
  - unfold above. rewrite !filter_cons. rewrite (decide_True (P := 0 < c x y)) by done.
    rewrite (decide_False (P := 0 < c y x)) by (apply Ha in Hc; lia). simpl. lia.
  - rewrite IH. rewrite (above_perm z (l1 ++ y :: x :: l2) (l1 ++ x :: y :: l2)); [lia|].
    by rewrite (Permutation_swap x y).
Qed.

Lemma inversions_bound l : (inversions l ≤ length l * length l)%nat.
Proof.
  induction l as [|x l IH]; simpl; [done|]. unfold above.
  pose proof (length_filter (λ y, 0 < c x y) l). nia.
Qed.

Lemma list_pass_inversions n i s l :
  asym →
  let r := list_pass n 1 i s l in
  (inversions r.2 ≤ inversions l)%nat ∧ (r.1 = true → s = true ∨ (inversions r.2 < inversions l)%nat).
Proof.
  intros Ha. revert i s l. induction n as [|n IH]; intros i s l; simpl; [by split; [|left]|].
  destruct (l !! i) as [x|] eqn:Hi; [|by split; [|left]].
  destruct (l !! (i + 1)%nat) as [y|] eqn:Hj; [|by split; [|left]].
  case_decide as Hd; [|apply IH].
  set (l' := <[i := y]> (<[(i + 1)%nat := x]> l)).
  assert (inversions l = S (inversions l')) as Hl.
  { pose proof Hi as Hi'. apply list_elem_of_split_length in Hi' as (l1 & l2 & -> & ->). unfold l'.
    rewrite lookup_app_r in Hj by lia. replace (length l1 + 1 - length l1)%nat with 1%nat in Hj by lia.
    destruct l2 as [|y' l2]; [done|]. simpl in Hj. simplify_eq.
    rewrite insert_app_r. simpl. rewrite insert_app_r_alt, Nat.sub_diag by lia. simpl. by apply inversions_swap. }
  destruct (IH (S i) true l') as [Hle _]. split; [lia|]. intros _. right. lia.
Qed.
End order.

(** ** The array in memory *)

Section sorting.
Context (compar : memory → Z → Z → Z) (c : list Z → list Z → Z) (base size : Z) (N : nat).
Context (Hsize : 0 ≤ size) (Hcmp : ∀ m p q, compar m p q = c (bytes m p size) (bytes m q size)).

Definition untouched (m m' : memory) : Prop :=
  ∀ a, ¬ (base ≤ a < base + Z.of_nat N * size) → m' a = m a.

Definition in_order (l : list (list Z)) : Prop :=
  ∀ i j x y, (i < j)%nat → l !! i = Some x → l !! j = Some y → c x y ≤ 0.

Lemma qsort_pass_elems n gap i s m :
  (i + n + gap ≤ N)%nat → (0 < gap)%nat →
  let r := qsort_pass compar n base size (Z.of_nat gap) (Z.of_nat i) (base + Z.of_nat i * size) s m in
  (r.1, elems r.2 base size N) = list_pass c n gap i s (elems m base size N) ∧ untouched m r.2.
Proof.
  intros Hn Hg. revert i s m Hn. induction n as [|n IH]; intros i s m Hn; cbn [qsort_pass list_pass]; [by split|].
  rewrite !elems_lookup by lia. rewrite Hcmp.
  replace (Z.of_nat i + Z.of_nat gap) with (Z.of_nat (i + gap)) by lia.
  replace (base + Z.of_nat i * size + size) with (base + Z.of_nat (S i) * size) by lia.
  replace (Z.of_nat i + 1) with (Z.of_nat (S i)) by lia.
  case_decide as Hd; [|apply IH; lia].
  rewrite <- (elems_swap m base size N i (i + gap)) by lia.
  set (m1 := memswap _ _ _ m). destruct (IH (S i) true m1 ltac:(lia)) as [He Hu]. split; [exact He|].
  intros a Ha. rewrite Hu by done. unfold m1. rewrite memswap_at by nia. by rewrite !decide_False by nia.
Qed.

Lemma in_order_adjacent l :
  trans c → (∀ k x y, (k < length l - 1)%nat → l !! k = Some x → l !! (k + 1)%nat = Some y → c x y ≤ 0) → in_order l.
Proof.
  intros Ht Hadj i j x y Hij Hx Hy. remember (j - i - 1)%nat as d eqn:Hd. revert j y Hij Hy Hd.
  induction d as [|d IH]; intros j y Hij Hy Hd.
  - assert (j = i + 1)%nat as -> by lia. eapply Hadj; [|done..]. apply lookup_lt_Some in Hy. lia.
  - pose proof (lookup_lt_Some _ _ _ Hy). destruct (lookup_lt_is_Some_2 l (j - 1)%nat) as [z Hz]; [lia|].
    apply (Ht x z y); [eapply (IH (j - 1)%nat); [lia|done|lia]|].
    eapply (Hadj (j - 1)%nat); [lia|done|]. by replace (j - 1 + 1)%nat with j by lia.
Qed.

(** What one round of the loop does. *)
Lemma qsort_round g m :
  (1 ≤ N)%nat → Z.of_nat N < 2 ^ 32 → 1 ≤ g ≤ Z.of_nat N →
  let r := qsort_pass compar (Z.to_nat (u32 (Z.of_nat N - g))) base size g 0 base false m in
  elems r.2 base size N ≡ₚ elems m base size N ∧ untouched m r.2 ∧
  (r.1, elems r.2 base size N) = list_pass c (N - Z.to_nat g) (Z.to_nat g) 0 false (elems m base size N).
Proof.
  intros HN H32 Hg r. unfold r. rewrite u32_small by (unfold is_u32; lia).
  destruct (qsort_pass_elems (Z.to_nat (Z.of_nat N - g)) (Z.to_nat g) 0 false m) as [He Hu]; [lia|lia|].
  rewrite Z2Nat.id in He, Hu by lia. simpl in He, Hu. rewrite Z.add_0_r in He, Hu.
  replace (Z.to_nat (Z.of_nat N - g)) with (N - Z.to_nat g)%nat in * by lia.
  split_and!; [|done|done].
  pose proof (list_pass_perm c (N - Z.to_nat g) (Z.to_nat g) 0 false (elems m base size N) ltac:(lia)) as Hp.
  by rewrite <- He in Hp.
Qed.

Definition sorts (m m' : memory) : Prop :=
  elems m' base size N ≡ₚ elems m base size N ∧ in_order (elems m' base size N) ∧ untouched m m'.

Lemma sorts_after m m1 m' :
  elems m1 base size N ≡ₚ elems m base size N → untouched m m1 → sorts m1 m' → sorts m m'.
Proof.
  intros Hp Hu (Hp' & Ho & Hu'). split_and!; [by rewrite Hp'|done|]. intros a Ha. by rewrite Hu', Hu.
Qed.

(** With gap 1 every round but the last removes an inversion. *)
Lemma qsort_gap1 fuel g m :
  asym c → trans c → (1 ≤ N)%nat → Z.of_nat N < 2 ^ 32 → newgap g = 1 →
  (inversions c (elems m base size N) < fuel)%nat →
  ∃ m', qsort_loop compar fuel base (Z.of_nat N) size g m = Ok m' ∧ sorts m m'.
Proof.
  intros Ha Ht HN H32 Hg. revert g m Hg. induction fuel as [|fuel IH]; intros g m Hg Hf; [lia|].
  cbn [qsort_loop]. rewrite Hg.
  destruct (qsort_round 1 m HN H32 ltac:(lia)) as (Hp & Hu & He).
  destruct (qsort_pass _ _ _ _ _ _ _ _ _) as [sw m1]. simpl in *. change (Z.to_nat 1) with 1%nat in He.
  destruct sw.
  - rewrite decide_True by (by right).
    destruct (list_pass_inversions c (N - 1) 0 false (elems m base size N) Ha) as [_ Hinv].
    rewrite <- He in Hinv. simpl in Hinv. destruct (Hinv eq_refl) as [?|Hlt]; [done|].
    destruct (IH 1 m1 eq_refl ltac:(lia)) as (m' & -> & Hs). exists m'. split; [done|]. by eapply sorts_after.
  - rewrite decide_False by (by intros [?|?]). exists m1. split; [done|]. symmetry in He.
    apply list_pass_false in He as [He Hadj]; [|rewrite elems_length; lia].
    split_and!; [done| |done]. rewrite He. apply in_order_adjacent; [done|].
    rewrite elems_length. intros k x y Hk. apply Hadj. lia.
Qed.

(** The gap shrinks until it is 1. *)
Lemma qsort_gaps fuel g m :
  asym c → trans c → (1 ≤ N)%nat → Z.of_nat N < 2 ^ 32 → 1 ≤ g ≤ Z.of_nat N →
  (Z.to_nat g + N * N < fuel)%nat →
  ∃ m', qsort_loop compar fuel base (Z.of_nat N) size g m = Ok m' ∧ sorts m m'.
Proof.
  intros Ha Ht HN H32. revert g m. induction fuel as [|fuel IH]; intros g m Hg Hf; [lia|].
  destruct (decide (newgap g = 1)) as [E|E].
  { apply qsort_gap1; [done..|]. pose proof (inversions_bound c (elems m base size N)) as Hb.
    rewrite elems_length in Hb. lia. }
  pose proof (newgap_pos g). assert (newgap g < g).
  { apply newgap_decr. assert (g ≠ 1) by (by intros ->). lia. }
  cbn [qsort_loop]. destruct (qsort_round (newgap g) m HN H32 ltac:(lia)) as (Hp & Hu & _).
  destruct (qsort_pass _ _ _ _ _ _ _ _ _) as [sw m1]. simpl in *. rewrite decide_True by (left; lia).
  destruct (IH (newgap g) m1 ltac:(lia) ltac:(lia)) as (m' & -> & Hs). exists m'. split; [done|].
  by eapply sorts_after.
Qed.
End sorting.

(** ** Searching *)

Section searching.
Context (compar : memory → Z → Z → Z) (m : memory) (key size : Z).

(** Along the array the key compares first greater, then equal, then less. *)
Definition ascending (base n : Z) : Prop :=
  ∀ i j, 0 ≤ i ≤ j → j < n →
    (compar m key (base + i * size) ≤ 0 → compar m key (base + j * size) ≤ 0) ∧
    (compar m key (base + i * size) < 0 → compar m key (base + j * size) < 0).

Lemma bsearch_spec fuel base n :
  0 ≤ n < 2 ^ Z.of_nat fuel → ascending base n →
  ∃ r, bsearch compar (S fuel) key base n size m = Ok r ∧
    match r with
    | Some p => ∃ i, 0 ≤ i < n ∧ p = base + i * size ∧ compar m key p = 0
    | None => ∀ i, 0 ≤ i < n → compar m key (base + i * size) ≠ 0
    end.
Proof.
  revert base n. induction fuel as [|fuel IH]; intros base n Hn Hasc.
  - assert (n = 0) as -> by (change (2 ^ Z.of_nat 0) with 1 in Hn; lia).
    exists None. split; [done|]. lia.
  - rewrite Nat2Z.inj_succ, Z.pow_succ_r in Hn by lia.
    remember (S fuel) as f eqn:Ef. cbn [bsearch]. subst f.
    destruct (decide (n ≠ 0)) as [Hn0|Hn0]; [|exists None; split; [done|lia]].
    set (mid := n / 2). assert (0 ≤ mid < n ∧ mid < 2 ^ Z.of_nat fuel ∧ n - (mid + 1) < 2 ^ Z.of_nat fuel) as (Hm & H1 & H2).
    { unfold mid. Z.div_mod_to_equations; lia. }
    destruct (decide (compar m key (base + mid * size) = 0)) as [E|E].
    { eexists. split; [done|]. exists mid. by split_and!; [lia..| |]. }
    destruct (decide (0 < compar m key (base + mid * size))) as [Hpos|Hneg].
    + destruct (IH (base + mid * size + size) (n - (mid + 1))) as (r & -> & Hr); [lia| |].
      { intros i j Hi Hj. replace (base + mid * size + size + i * size) with (base + (mid + 1 + i) * size) by lia.
        replace (base + mid * size + size + j * size) with (base + (mid + 1 + j) * size) by lia. apply Hasc; lia. }
      exists r. split; [done|]. destruct r as [p|].
      * destruct Hr as (i & Hi & -> & Hc). exists (mid + 1 + i). split_and!; [lia|lia|lia|done].
      * intros i Hi. destruct (decide (i ≤ mid)).
        -- intros Ei. destruct (Hasc i mid ltac:(lia) ltac:(lia)) as [Hle _]. lia.
        -- specialize (Hr (i - mid - 1) ltac:(lia)).
           by replace (base + mid * size + size + (i - mid - 1) * size) with (base + i * size) in Hr by lia.
    + destruct (IH base mid) as (r & -> & Hr); [lia|intros i j Hi Hj; apply Hasc; lia|].
      exists r. split; [done|]. destruct r as [p|].
      * destruct Hr as (i & Hi & -> & Hc). exists i. split_and!; [lia|lia|done|done].
      * intros i Hi. destruct (decide (i < mid)); [apply Hr; lia|].
        destruct (Hasc mid i ltac:(lia) ltac:(lia)) as [_ Hlt]. lia.
Qed.
End searching.

(** ** Properties *)

(** C36: for a comparison that orders the elements, [qsort] of a non-empty array
    returns, leaves the same elements in ascending order and touches nothing
    else; the number of rounds is bounded by the length and its square. *)
Theorem qsort_sorts compar c base size N fuel m :
  0 ≤ size → (∀ m p q, compar m p q = c (bytes m p size) (bytes m q size)) → asym c → trans c →
  (1 ≤ N)%nat → Z.of_nat N < 2 ^ 32 → (N + N * N < fuel)%nat →
  ∃ m', qsort compar fuel base (Z.of_nat N) size m = Ok m' ∧ sorts c base size N m m'.
Proof.
  intros Hs Hc Ha Ht HN H32 Hf. apply qsort_gaps; try done; [lia|]. by rewrite Nat2Z.id.
Qed.

(** Bytes, compared as numbers. *)
Definition byte_cmp (x y : list Z) : Z := default 0 (list.head x) - default 0 (list.head y).

Lemma qsort_sorts_witness :
  ∃ m', qsort (λ m p q, byte_cmp (bytes m p 1) (bytes m q 1)) 30 100 4 1 (mem_at 100 [7; 3; 9; 1]) = Ok m' ∧
    sorts byte_cmp 100 1 4 (mem_at 100 [7; 3; 9; 1]) m' ∧ bytes m' 100 4 = [1; 3; 7; 9].
Proof.
  destruct (qsort_sorts (λ m p q, byte_cmp (bytes m p 1) (bytes m q 1)) byte_cmp 100 1 4 30
              (mem_at 100 [7; 3; 9; 1])) as (m' & Hm & Hs); [lia|done| | |lia|lia|lia|].
  - intros x y. unfold byte_cmp. lia.
  - intros x y z. unfold byte_cmp. lia.
  - exists m'. split; [exact Hm|]. split; [exact Hs|].
    assert ((λ r, match r with Ok m => bytes m 100 4 | _ => [] end)
      (qsort (λ m p q, byte_cmp (bytes m p 1) (bytes m q 1)) 30 100 4 1 (mem_at 100 [7; 3; 9; 1])) = [1; 3; 7; 9])
      as E by (vm_compute; reflexivity).
    change 4 with (Z.of_nat 4) in E at 2. by rewrite Hm in E.
Defined.

(** For an empty array the first pass runs 2^32 - 1 times. *)
Lemma qsort_empty : u32 (0 - newgap 0) = 2 ^ 32 - 1.
Proof. done. Qed.

(** In an array in ascending order, [bsearch] finds an element equal to the key
    in at most 33 steps if there is one, and answers NULL otherwise. *)
Lemma bsearch_finds compar m key base n size :
  0 ≤ n < 2 ^ 32 → ascending compar m key size base n →
  ∃ r, bsearch compar 33 key base n size m = Ok r ∧
    match r with
    | Some p => ∃ i, 0 ≤ i < n ∧ p = base + i * size ∧ compar m key p = 0
    | None => ∀ i, 0 ≤ i < n → compar m key (base + i * size) ≠ 0
    end.
Proof. intros Hn. by apply (bsearch_spec _ _ _ _ 32). Qed.
