(* ===== verification/Unum.v ===== *)
(** * Characters and numbers in user programs (usr/klibc: ctypes.c, strntoumax.c, strtox.c, atox.c, libgcc)

    The table of character classes, the conversion of numerals and the 64 bit
    division that the compiler calls. *)

From S2P Require Import Prelude Klib.

Definition u64 (x : Z) : Z := x `mod` 2 ^ 64.

(** ** Character classes *)

(* usr/include/ctype.h:20-29 __ctype_upper *)
Definition __ctype_upper : Z := 1.
Definition __ctype_lower : Z := 2.
Definition __ctype_digit : Z := 4.
Definition __ctype_xdigit : Z := 8.
Definition __ctype_space : Z := 16.
Definition __ctype_print : Z := 32.
Definition __ctype_punct : Z := 64.
Definition __ctype_cntrl : Z := 128.

Notation "a .| b" := (Z.lor a b) (at level 50, left associativity).

(* usr/klibc/ctypes.c:10-284 __ctypes *)
Definition __ctypes : list Z :=
  [0] ++
  replicate 8 __ctype_cntrl ++
  replicate 6 (__ctype_cntrl .| __ctype_space) ++
  replicate 18 __ctype_cntrl ++
  [__ctype_print .| __ctype_space] ++
  replicate 15 (__ctype_print .| __ctype_punct) ++
  replicate 10 (__ctype_print .| __ctype_digit .| __ctype_xdigit) ++
  replicate 7 (__ctype_print .| __ctype_punct) ++
  replicate 6 (__ctype_print .| __ctype_upper .| __ctype_xdigit) ++
  replicate 20 (__ctype_print .| __ctype_upper) ++
  replicate 6 (__ctype_print .| __ctype_punct) ++
  replicate 6 (__ctype_print .| __ctype_lower .| __ctype_xdigit) ++
  replicate 20 (__ctype_print .| __ctype_lower) ++
  replicate 4 (__ctype_print .| __ctype_punct) ++
  replicate 33 __ctype_cntrl ++
  [__ctype_print .| __ctype_space] ++
  replicate 31 (__ctype_print .| __ctype_punct) ++
  replicate 23 (__ctype_print .| __ctype_upper) ++
  [__ctype_print .| __ctype_punct] ++
  replicate 7 (__ctype_print .| __ctype_upper) ++
  replicate 24 (__ctype_print .| __ctype_lower) ++
  [__ctype_print .| __ctype_punct] ++
  replicate 8 (__ctype_print .| __ctype_lower).

(** The class bits of a character, from EOF to 255. *)
Definition has_class (c mask : Z) : bool :=
  bool_decide (Z.land (default 0 (__ctypes !! Z.to_nat (c + 1))) mask ≠ 0).

(* usr/include/ctype.h:33-37 __ctype_isalnum *)
Definition __ctype_isalnum (c : Z) : bool := has_class c (__ctype_upper .| __ctype_lower .| __ctype_digit).
(* usr/include/ctype.h:39-42 __ctype_isalpha *)
Definition __ctype_isalpha (c : Z) : bool := has_class c (__ctype_upper .| __ctype_lower).
(* usr/include/ctype.h:44-47 __ctype_isascii *)
Definition __ctype_isascii (c : Z) : bool := bool_decide (Z.land c (Z.lnot 0x7f) = 0).
(* usr/include/ctype.h:49-52 __ctype_isblank *)
Definition __ctype_isblank (c : Z) : bool := bool_decide (c = 9 ∨ c = 32).
(* usr/include/ctype.h:54-57 __ctype_iscntrl *)
Definition __ctype_iscntrl (c : Z) : bool := has_class c __ctype_cntrl.
(* usr/include/ctype.h:59-62 __ctype_isdigit *)
Definition __ctype_isdigit (c : Z) : bool := bool_decide (u32 (c - 48) ≤ 9).
(* usr/include/ctype.h:64-68 __ctype_isgraph *)
Definition __ctype_isgraph (c : Z) : bool :=
  has_class c (__ctype_upper .| __ctype_lower .| __ctype_digit .| __ctype_punct).
(* usr/include/ctype.h:70-73 __ctype_islower *)
Definition __ctype_islower (c : Z) : bool := has_class c __ctype_lower.
(* usr/include/ctype.h:75-78 __ctype_isprint *)
Definition __ctype_isprint (c : Z) : bool := has_class c __ctype_print.
(* usr/include/ctype.h:80-83 __ctype_ispunct *)
Definition __ctype_ispunct (c : Z) : bool := has_class c __ctype_punct.
(* usr/include/ctype.h:85-88 __ctype_isspace *)
Definition __ctype_isspace (c : Z) : bool := has_class c __ctype_space.
(* usr/include/ctype.h:90-93 __ctype_isupper *)
Definition __ctype_isupper (c : Z) : bool := has_class c __ctype_upper.
(* usr/include/ctype.h:95-98 __ctype_isxdigit *)
Definition __ctype_isxdigit (c : Z) : bool := has_class c __ctype_xdigit.
(* usr/include/ctype.h:104-107 __ctype_toupper *)
Definition __ctype_toupper (c : Z) : Z := if __ctype_islower c then Z.land c (Z.lnot 32) else c.
(* usr/include/ctype.h:109-112 __ctype_tolower *)
Definition __ctype_tolower (c : Z) : Z := if __ctype_isupper c then Z.lor c 32 else c.

(** ** Numerals *)

(* usr/klibc/strntoumax.c:11-22 digitval *)
Definition digitval (ch : Z) : Z :=
  if decide (48 ≤ ch ≤ 57) then ch - 48
  else if decide (65 ≤ ch ≤ 90) then ch - 65 + 10
  else if decide (97 ≤ ch ≤ 122) then ch - 97 + 10
  else -1.

(** The loop over blanks: the address and the count that are left. *)
Fixpoint skip_blanks (fuel : nat) (m : memory) (p n : Z) : outcome (Z * Z) :=
  match fuel with
  | O => Hang
  | S f => if decide (n ≠ 0 ∧ __ctype_isspace (ldc m p) = true) then skip_blanks f m (p + 1) (n - 1) else Ok (p, n)
  end.

(** The loop over digits: the address after them and the value. *)
Fixpoint scan_digits (fuel : nat) (m : memory) (p n base v : Z) : outcome (Z * Z) :=
  match fuel with
  | O => Hang
  | S f =>
      let d := digitval (ldc m p) in
      if decide (n ≠ 0 ∧ 0 ≤ d ∧ d < base) then scan_digits f m (p + 1) (n - 1) base (u64 (v * base + d))
      else Ok (p, v)
  end.

(** The sign (strntoumax.c:35-43) and the prefix of the base (45-64). *)
Definition take_sign (m : memory) (p n : Z) : bool * Z * Z :=
  if decide (n ≠ 0) then
    let c := ldc m p in
    if decide (c = c_minus ∨ c = c_plus) then (bool_decide (c = c_minus), p + 1, n - 1) else (false, p, n)
  else (false, p, n).
Definition take_prefix (m : memory) (p n base : Z) : Z * Z * Z :=
  let hex := bool_decide (2 ≤ n ∧ ldc m p = c_0 ∧ (ldc m (p + 1) = c_x ∨ ldc m (p + 1) = c_X)) in
  if decide (base = 0) then
    if hex then (p + 2, n - 2, 16)
    else if decide (1 ≤ n ∧ ldc m p = c_0) then (p + 1, n - 1, 8)
    else (p, n, 10)
  else if decide (base = 16) then
    if hex then (p + 2, n - 2, base) else (p, n, base)
  else (p, n, base).

(* usr/klibc/strntoumax.c:24-76 strntoumax *)
Definition strntoumax (fuel : nat) (m : memory) (nptr base n : Z) : outcome (Z * Z) :=
  '(p, n) ← skip_blanks fuel m nptr n;
  let '(minus, p, n) := take_sign m p n in
  let '(p, n, base) := take_prefix m p n base in
  '(p, v) ← scan_digits fuel m p n base 0;
  Ok (if minus then u64 (- v) else v, p).

(** The instances of strtox.c and atox.c differ in the type of the result. *)
Definition s32_of (x : Z) : Z := let y := u32 x in if decide (y < 2 ^ 31) then y else y - 2 ^ 32.
Definition s64_of (x : Z) : Z := let y := u64 x in if decide (y < 2 ^ 63) then y else y - 2 ^ 64.

(* usr/klibc/strtox.c:10-13 NAME *)
Definition strtox (TYPE : Z → Z) (fuel : nat) (m : memory) (nptr base : Z) : outcome (Z * Z) :=
  '(v, e) ← strntoumax fuel m nptr base (2 ^ 32 - 1); Ok (TYPE v, e).
(* usr/klibc/strtol.c:1-3 strtol *)
Definition strtol := strtox s32_of.
(* usr/klibc/strtoul.c:1-3 strtoul *)
Definition strtoul := strtox u32.
(* usr/klibc/strtoll.c:1-3 strtoll *)
Definition strtoll := strtox s64_of.
(* usr/klibc/strtoull.c:1-3 strtoull *)
Definition strtoull := strtox u64.

(* usr/klibc/atox.c:11-14 NAME *)
Definition atox (TYPE : Z → Z) (fuel : nat) (m : memory) (nptr : Z) : outcome Z :=
  '(v, _) ← strntoumax fuel m nptr 10 (2 ^ 32 - 1); Ok (TYPE v).
(* usr/klibc/atoi.c:1-3 atoi *)
Definition atoi := atox s32_of.
(* usr/klibc/atol.c:1-3 atol *)
Definition atol := atox s32_of.
(* usr/klibc/atoll.c:1-3 atoll *)
Definition atoll := atox s64_of.

(** ** Division *)

(** Left-justify the denominator (__udivmoddi4.c:14-17). *)
Fixpoint justify (fuel : nat) (den qbit : Z) : outcome (Z * Z) :=
  match fuel with
  | O => Hang
  | S f => if decide (0 ≤ s64_of den) then justify f (u64 (den * 2)) (u64 (qbit * 2)) else Ok (den, qbit)
  end.

Fixpoint divide (fuel : nat) (num den quot qbit : Z) : outcome (Z * Z) :=
  match fuel with
  | O => Hang
  | S f =>
      if decide (qbit ≠ 0) then
        let '(num, quot) := if decide (den ≤ num) then (u64 (num - den), u64 (quot + qbit)) else (num, quot) in
        divide f num (Z.shiftr den 1) quot (Z.shiftr qbit 1)
      else Ok (quot, num)
  end.

(* usr/klibc/libgcc/__udivmoddi4.c:4-32 __udivmoddi4 *)
Definition __udivmoddi4 (num den : Z) : outcome (Z * Z) :=
  if decide (den = 0) then Fault (* int $0 *)
  else
    '(den, qbit) ← justify 64 den 1;
    divide 65 num den 0 qbit.

(* usr/klibc/libgcc/__udivdi3.c:10-13 __udivdi3 *)
Definition __udivdi3 (num den : Z) : outcome Z := '(q, _) ← __udivmoddi4 num den; Ok q.

(* usr/klibc/libgcc/__umoddi3.c:10-16 __umoddi3 *)
Definition __umoddi3 (num den : Z) : outcome Z := '(_, v) ← __udivmoddi4 num den; Ok v.

(** ** The classes of the ASCII characters *)

Definition within (lo c hi : Z) : bool := bool_decide (lo ≤ c ≤ hi).

(** Letters, digits, controls and the rest are what ASCII says; only backspace
    is counted as white space too. *)
Lemma ctype_ascii c :
  0 ≤ c < 128 →
  __ctype_isupper c = within 65 c 90 ∧ __ctype_islower c = within 97 c 122 ∧
  __ctype_isdigit c = within 48 c 57 ∧ __ctype_isalpha c = within 65 c 90 || within 97 c 122 ∧
  __ctype_isalnum c = within 65 c 90 || within 97 c 122 || within 48 c 57 ∧
  __ctype_isxdigit c = within 48 c 57 || within 65 c 70 || within 97 c 102 ∧
  __ctype_isprint c = within 32 c 126 ∧ __ctype_iscntrl c = negb (within 32 c 126) ∧
  __ctype_isgraph c = within 33 c 126 ∧
  __ctype_ispunct c = within 33 c 126 && negb (within 65 c 90 || within 97 c 122 || within 48 c 57) ∧
  __ctype_isspace c = within 8 c 13 || within 32 c 32 ∧ __ctype_isascii c = true.
Proof.
  intros Hc. pose proof (range_check (λ c,
    eqb (__ctype_isupper c) (within 65 c 90) && eqb (__ctype_islower c) (within 97 c 122) &&
    eqb (__ctype_isdigit c) (within 48 c 57) && eqb (__ctype_isalpha c) (within 65 c 90 || within 97 c 122) &&
    eqb (__ctype_isalnum c) (within 65 c 90 || within 97 c 122 || within 48 c 57) &&
    eqb (__ctype_isxdigit c) (within 48 c 57 || within 65 c 70 || within 97 c 102) &&
    eqb (__ctype_isprint c) (within 32 c 126) && eqb (__ctype_iscntrl c) (negb (within 32 c 126)) &&
    eqb (__ctype_isgraph c) (within 33 c 126) &&
    eqb (__ctype_ispunct c) (within 33 c 126 && negb (within 65 c 90 || within 97 c 122 || within 48 c 57)) &&
    eqb (__ctype_isspace c) (within 8 c 13 || within 32 c 32) && __ctype_isascii c) 128) as H.
  specialize (H ltac:(vm_compute; reflexivity) c Hc). cbv beta in H.
  rewrite !andb_true_iff, !eqb_true_iff in H. tauto.
Qed.

(** [tolower] and [toupper] change the case of the ASCII letters only. *)
Lemma ctype_case c :
  0 ≤ c < 128 →
  __ctype_tolower c = (if within 65 c 90 then c + 32 else c) ∧
  __ctype_toupper c = (if within 97 c 122 then c - 32 else c).
Proof.
  intros Hc. pose proof (range_check (λ c,
    (__ctype_tolower c =? (if within 65 c 90 then c + 32 else c)) &&
    (__ctype_toupper c =? (if within 97 c 122 then c - 32 else c))) 128) as H.
  specialize (H ltac:(vm_compute; reflexivity) c Hc). cbv beta in H.
  rewrite andb_true_iff, !Z.eqb_eq in H. done.
Qed.

(** The table covers EOF and every byte. *)
Lemma ctypes_length : length __ctypes = 257%nat.
Proof. done. Qed.

(** In ISO 8859-1, 0xff has no upper case; the answer is another letter. *)
Example toupper_0xff : __ctype_toupper 0xff = 0xdf.
Proof. done. Qed.

(** ** Division *)

Lemma s64_neg x : 0 ≤ x < 2 ^ 64 → (0 ≤ s64_of x ↔ x < 2 ^ 63).
Proof. intros Hx. unfold s64_of, u64. rewrite Z.mod_small by lia. case_decide; lia. Qed.

Lemma justify_spec fuel den k :
  0 < den → 0 ≤ k < 64 → den * 2 ^ k < 2 ^ 64 → 63 - k < Z.of_nat fuel →
  ∃ j, k ≤ j < 64 ∧ justify fuel (den * 2 ^ k) (2 ^ k) = Ok (den * 2 ^ j, 2 ^ j) ∧
       2 ^ 63 ≤ den * 2 ^ j < 2 ^ 64.
Proof.
  intros Hd. revert k. induction fuel as [|fuel IH]; intros k Hk Hb Hf; [lia|]. cbn [justify].
  assert (0 < 2 ^ k) by (apply Z.pow_pos_nonneg; lia).
  destruct (decide (0 ≤ s64_of (den * 2 ^ k))) as [Hs|Hs]; rewrite s64_neg in Hs by nia.
  - assert (k < 63).
    { destruct (decide (k = 63)) as [->|]; [nia|lia]. }
    assert (2 ^ (k + 1) = 2 * 2 ^ k) as E by (rewrite Z.pow_add_r by lia; lia).
    assert (2 ^ (k + 1) ≤ 2 ^ 63) by (apply Z.pow_le_mono_r; lia).
    unfold u64. rewrite !Z.mod_small by nia.
    replace (den * 2 ^ k * 2) with (den * 2 ^ (k + 1)) by lia. replace (2 ^ k * 2) with (2 ^ (k + 1)) by lia.
    destruct (IH (k + 1)) as (j & Hj & -> & Hjb); [lia|lia|lia|]. exists j. split_and!; [lia|lia|done|lia|lia].
  - exists k. split_and!; [lia|lia|done|lia|lia].
Qed.

(** With [n] bits to go the denominator is shifted by [n - 1]. *)
Lemma divide_spec fuel num den q (n : nat) :
  0 < den → den * 2 ^ Z.of_nat n < 2 ^ 65 → (n < fuel)%nat → 0 ≤ num < den * 2 ^ Z.of_nat n → num < 2 ^ 64 →
  0 ≤ q → q + 2 ^ Z.of_nat n ≤ 2 ^ 64 →
  ∃ q' r, divide fuel num (den * 2 ^ Z.of_nat n / 2) q (2 ^ Z.of_nat n / 2) = Ok (q', r) ∧
    0 ≤ r < den ∧ num + q * den = q' * den + r.
Proof.
  intros Hd. revert fuel num q. induction n as [|n IH]; intros fuel num q Hb Hf Hn H64 Hq Hqb;
    (destruct fuel as [|fuel]; [lia|]); cbn [divide].
  - change (2 ^ Z.of_nat 0 / 2) with 0. rewrite decide_False by lia. exists q, num.
    split; [done|]. change (2 ^ Z.of_nat 0) with 1 in Hn. lia.
  - assert (2 ^ Z.of_nat (S n) = 2 ^ Z.of_nat n * 2) as E by (rewrite Nat2Z.inj_succ, Z.pow_succ_r by lia; lia).
    rewrite E in *. assert (0 < 2 ^ Z.of_nat n) by (apply Z.pow_pos_nonneg; lia).
    rewrite Z.mul_assoc, !Z.div_mul by lia. rewrite decide_True by lia.
    rewrite !Z.shiftr_div_pow2 by lia. change (2 ^ 1) with 2.
    set (d := den * 2 ^ Z.of_nat n) in *. case_decide as Hc.
    + unfold u64. rewrite !Z.mod_small by lia.
      destruct (IH fuel (num - d) (q + 2 ^ Z.of_nat n)) as (q' & r & -> & Hr & He); [lia..|].
      exists q', r. split; [done|]. split; [done|]. subst d. lia.
    + apply IH; lia.
Qed.

Lemma udivmoddi4_spec num den :
  0 ≤ num < 2 ^ 64 → 0 < den < 2 ^ 64 → __udivmoddi4 num den = Ok (num / den, num `mod` den).
Proof.
  intros Hn Hd. unfold __udivmoddi4. rewrite decide_False by lia.
  destruct (justify_spec 64 den 0) as (j & Hj & Hjust & Hjb); [lia..|].
  rewrite Z.mul_1_r in Hjust. change (2 ^ 0) with 1 in Hjust. rewrite Hjust. cbn [mbind outcome_bind].
  assert (0 < 2 ^ j) by (apply Z.pow_pos_nonneg; lia).
  assert (2 ^ Z.of_nat (Z.to_nat (j + 1)) = 2 ^ j * 2) as E.
  { rewrite Z2Nat.id by lia. rewrite Z.pow_add_r by lia. lia. }
  destruct (divide_spec 65 num den 0 (Z.to_nat (j + 1))) as (q & r & Hdiv & Hr & He);
    rewrite ?E; try lia.
  - assert (2 ^ (j + 1) ≤ 2 ^ 64) by (apply Z.pow_le_mono_r; lia). rewrite Z.pow_add_r in * by lia. lia.
  - rewrite E, Z.mul_assoc, !Z.div_mul in Hdiv by lia. rewrite Hdiv.
    do 2 f_equal; [apply (Z.div_unique_pos _ _ _ r)|apply (Z.mod_unique_pos _ _ q)]; lia.
Qed.

(** ** Numerals *)

Definition chars (m : memory) (p : Z) (cs : list Z) : Prop :=
  ∀ i c, cs !! i = Some c → ldc m (p + Z.of_nat i) = c.

Lemma chars_cons m p c cs : chars m p (c :: cs) → ldc m p = c ∧ chars m (p + 1) cs.
Proof.
  intros H. split; [by rewrite <- (H 0%nat c), Z.add_0_r|]. intros i c' Hi. rewrite <- (H (S i) c' Hi). f_equal. lia.
Qed.
Lemma chars_app m p c1 c2 : chars m p (c1 ++ c2) → chars m p c1 ∧ chars m (p + Z.of_nat (length c1)) c2.
Proof.
  intros H. split; intros i c Hi.
  - apply H. by apply lookup_app_l_Some.
  - rewrite <- (H (length c1 + i)%nat c); [f_equal; lia|]. rewrite lookup_app_r by lia.
    by replace (length c1 + i - length c1)%nat with i by lia.
Qed.

Lemma skip_blanks_spec fuel m p n ws :
  chars m p ws → Forall (λ c, __ctype_isspace c = true) ws → (length ws < fuel)%nat → Z.of_nat (length ws) ≤ n →
  n = Z.of_nat (length ws) ∨ __ctype_isspace (ldc m (p + Z.of_nat (length ws))) = false →
  skip_blanks fuel m p n = Ok (p + Z.of_nat (length ws), n - Z.of_nat (length ws)).
Proof.
  intros Hc Hb. revert p n fuel Hc. induction Hb as [|c ws Hs _ IH]; intros p n fuel Hc Hf Hn Hend;
    (destruct fuel as [|fuel]; [simpl in Hf; lia|]); cbn [skip_blanks].
  - simpl in Hend. rewrite Z.add_0_r in Hend. rewrite decide_False by (intros [? ?]; destruct Hend; [lia|congruence]).
    do 2 f_equal; simpl; lia.
  - apply chars_cons in Hc as [-> Hc]. simpl in Hf, Hn, Hend. rewrite decide_True by (split; [lia|done]).
    rewrite IH; [|done|lia|lia|]; [do 2 f_equal; simpl; lia|].
    destruct Hend as [->|He]; [left; lia|right]. rewrite <- He. do 2 f_equal. lia.
Qed.

(** The digits [ds] written with the characters [cs]. *)
Definition digits (base : Z) (cs ds : list Z) : Prop :=
  Forall2 (λ c d, digitval c = d ∧ 0 ≤ d < base) cs ds.

Lemma u64_step v base d : u64 (u64 v * base + d) = u64 (v * base + d).
Proof. unfold u64. by rewrite Z.add_mod, Z.mul_mod_idemp_l, <- Z.add_mod by lia. Qed.

Lemma u64_foldl base ds v :
  foldl (λ acc d, u64 (acc * base + d)) (u64 v) ds = u64 (foldl (λ acc d, acc * base + d) v ds).
Proof.
  revert v. induction ds as [|d ds IH]; intros v; simpl; [done|]. by rewrite u64_step, IH.
Qed.

Lemma u64_value base ds : foldl (λ acc d, u64 (acc * base + d)) 0 ds = u64 (value base ds).
Proof. exact (u64_foldl base ds 0). Qed.

Lemma scan_digits_spec fuel m p n base v cs ds :
  digits base cs ds → chars m p cs → (length cs < fuel)%nat → Z.of_nat (length cs) ≤ n →
  n = Z.of_nat (length cs) ∨ ¬ (0 ≤ digitval (ldc m (p + Z.of_nat (length cs))) < base) →
  scan_digits fuel m p n base v =
    Ok (p + Z.of_nat (length cs), foldl (λ acc d, u64 (acc * base + d)) v ds).
Proof.
  intros Hd. revert p n fuel v. induction Hd as [|c d cs ds [Hcd Hdb] _ IH]; intros p n fuel v Hc Hf Hn Hend;
    (destruct fuel as [|fuel]; [simpl in Hf; lia|]); cbn [scan_digits].
  - simpl in Hend. rewrite Z.add_0_r in Hend. rewrite decide_False by (intros (? & ? & ?); destruct Hend; lia).
    do 2 f_equal; simpl; lia.
  - apply chars_cons in Hc as [-> Hc]. simpl in Hf, Hn, Hend. rewrite Hcd, decide_True by lia.
    rewrite IH; [|done|lia|lia|]; [do 2 f_equal; simpl; lia|].
    destruct Hend as [->|He]; [left; lia|right]. intros Hx. apply He.
    by replace (p + Z.of_nat (S (length cs))) with (p + 1 + Z.of_nat (length cs)) by lia.
Qed.

(** How a numeral may be written for the argument [b] of [strntoumax], in base [B]. *)
Inductive written : Z → Z → list Z → list Z → Prop :=
  | written_plain b cs : b ≠ 0 → written b b [] cs
  | written_hex b x cs : b = 0 ∨ b = 16 → x = c_x ∨ x = c_X → written b 16 [c_0; x] cs
  | written_octal cs : written 0 8 [c_0] cs
  | written_decimal c cs : c ≠ c_0 → written 0 10 [] (c :: cs).

(** The second character of a numeral without prefix is no x. *)
Lemma no_hex m p n base c cs ds :
  digits base (c :: cs) ds → base ≤ 32 → chars m p (c :: cs) →
  (n = Z.of_nat (length (c :: cs)) ∨ digitval (ldc m (p + Z.of_nat (length (c :: cs)))) < 0) →
  ¬ (2 ≤ n ∧ ldc m p = c_0 ∧ (ldc m (p + 1) = c_x ∨ ldc m (p + 1) = c_X)).
Proof.
  intros Hd Hb [_ Hc]%chars_cons Hend (Hn & _ & Hx).
  assert (digitval (ldc m (p + 1)) = 33) as H33 by (destruct Hx as [-> | ->]; done).
  apply Forall2_cons_inv_l in Hd as (d & ds' & _ & Hd & ->). destruct cs as [|c' cs].
  - cbn [length] in Hend. change (Z.of_nat 1) with 1 in Hend. destruct Hend as [->|He]; [lia|].
    rewrite H33 in He. lia.
  - apply Forall2_cons_inv_l in Hd as (d' & ds'' & [Hd' Hdb] & _ & _). apply chars_cons in Hc as [Hc _].
    rewrite Hc in H33. lia.
Qed.

Lemma take_prefix_spec m p n b B px cs ds :
  written b B px cs → digits B cs ds → cs ≠ [] → B ≤ 32 →
  chars m p (px ++ cs) → Z.of_nat (length (px ++ cs)) ≤ n →
  (n = Z.of_nat (length (px ++ cs)) ∨ digitval (ldc m (p + Z.of_nat (length (px ++ cs)))) < 0) →
  take_prefix m p n b = (p + Z.of_nat (length px), n - Z.of_nat (length px), B).
Proof.
  intros Hw Hd Hne Hb Hc Hn Hend. unfold take_prefix.
  destruct Hw as [b cs Hb0|b x cs Hb0 Hx|cs|c cs Hc0].
  - destruct cs as [|c cs]; [done|]. rewrite bool_decide_false by (by eapply no_hex).
    rewrite decide_False by done. case_decide; do 2 f_equal; simpl; lia.
  - apply chars_cons in Hc as [H0 [H1 _]%chars_cons]. simpl in Hn.
    rewrite bool_decide_true by (rewrite H0, H1; split_and!; [lia|done|done]).
    destruct Hb0 as [-> | ->]; by rewrite ?decide_True by done.
  - destruct cs as [|c cs]; [done|]. apply chars_cons in Hc as [H0 [H1 _]%chars_cons].
    apply Forall2_cons_inv_l in Hd as (d & ds' & [Hd Hdb] & _ & _).
    rewrite bool_decide_false.
    2:{ rewrite H0, H1. intros (_ & _ & [-> | ->]); unfold digitval in Hd; simpl in Hd; vm_compute in Hd; lia. }
    simpl in Hn. rewrite decide_True by done. by rewrite decide_True by (split; [lia|done]).
  - rewrite bool_decide_false by (by eapply no_hex). apply chars_cons in Hc as [H0 _].
    rewrite decide_True by done. rewrite decide_False by (rewrite H0; intros [_ ?]; done).
    do 2 f_equal; simpl; lia.
Qed.

Definition signs (minus : bool) (sg : list Z) : Prop :=
  if minus then sg = [c_minus] else sg = [] ∨ sg = [c_plus].

Lemma take_sign_spec m p n minus sg c cs :
  signs minus sg → chars m p (sg ++ c :: cs) → Z.of_nat (length (sg ++ c :: cs)) ≤ n → c ≠ c_minus ∧ c ≠ c_plus →
  take_sign m p n = (minus, p + Z.of_nat (length sg), n - Z.of_nat (length sg)).
Proof.
  intros Hs Hc Hn [Hm Hp]. unfold take_sign.
  assert (n ≠ 0) by (rewrite length_app in Hn; simpl in Hn; lia). rewrite decide_True by done.
  destruct minus; simpl in Hs; [subst sg|destruct Hs as [-> | ->]]; apply chars_cons in Hc as [-> _].
  - done.
  - rewrite decide_False by (intros [?|?]; done). do 2 f_equal; simpl; lia.
  - done.
Qed.

Lemma numeral_head b B px cs ds :
  written b B px cs → digits B cs ds → cs ≠ [] → ∃ c r, px ++ cs = c :: r ∧ 0 ≤ digitval c.
Proof.
  intros Hw Hd Hne. assert (∃ c r, cs = c :: r ∧ 0 ≤ digitval c) as (c & r & -> & Hc).
  { destruct Hd as [|c d cs ds [<- ?] _]; [done|]. exists c, cs. split; [done|lia]. }
  inversion Hw; subst; simpl; eexists _, _; (split; [done|]); done || lia.
Qed.

Lemma digit_not_space c : 0 ≤ digitval c → __ctype_isspace c = false ∧ c ≠ c_minus ∧ c ≠ c_plus.
Proof.
  unfold digitval, c_minus, c_plus. intros Hc.
  assert (48 ≤ c < 128) by (repeat case_decide; lia). split; [|lia].
  destruct (ctype_ascii c ltac:(lia)) as (_ & _ & _ & _ & _ & _ & _ & _ & _ & _ & -> & _).
  unfold within. by rewrite !bool_decide_false by lia.
Qed.

Ltac eqaddr H :=
  match type of H with context [ldc ?m ?a] =>
    match goal with |- context [ldc m ?b] => replace b with a by lia; exact H end
  end.

(** Blanks, a sign, the prefix of the base, digits, then the end. *)
Lemma strntoumax_spec fuel m p b n ws minus sg B px cs ds :
  Forall (λ c, __ctype_isspace c = true) ws → signs minus sg → written b B px cs → digits B cs ds → cs ≠ [] →
  B ≤ 32 → let txt := ws ++ sg ++ px ++ cs in
  chars m p txt → Z.of_nat (length txt) ≤ n → (length txt < fuel)%nat →
  (n = Z.of_nat (length txt) ∨ digitval (ldc m (p + Z.of_nat (length txt))) < 0) →
  strntoumax fuel m p b n =
    Ok (u64 (if minus then - value B ds else value B ds), p + Z.of_nat (length txt)).
Proof.
  intros Hws Hsg Hw Hd Hne HB txt Hc Hn Hf Hend. unfold txt in *. rewrite !length_app in *.
  destruct (numeral_head _ _ _ _ _ Hw Hd Hne) as (c & r & Hcr & Hc0).
  destruct (digit_not_space _ Hc0) as [Hns Hnsg].
  apply chars_app in Hc as [Hcw Hc]. pose proof (chars_app _ _ _ _ Hc) as [_ Hcp].
  pose proof (chars_app _ _ _ _ Hcp) as [_ Hcd].
  unfold strntoumax. rewrite (skip_blanks_spec _ _ _ _ ws); [|done|done|lia|lia|].
  2:{ right. assert (∃ h t, sg ++ px ++ cs = h :: t ∧ __ctype_isspace h = false) as (h & t & Et & Hh).
      { rewrite Hcr. destruct minus; simpl in Hsg; [subst sg|destruct Hsg as [-> | ->]]; eexists _, _; by split. }
      rewrite Et in Hc. by apply chars_cons in Hc as [-> _]. }
  cbn [mbind outcome_bind]. rewrite Hcr in Hc.
  rewrite (take_sign_spec _ _ _ minus sg c r) by (done || rewrite <- Hcr, !length_app; lia).
  rewrite (take_prefix_spec _ _ _ b B px cs ds); [|done..| |]; rewrite ?length_app; [|lia|].
  2:{ destruct Hend as [->|He]; [left; lia|right]. eqaddr He. }
  rewrite (scan_digits_spec _ _ _ _ _ _ cs ds); [|done|done|lia|lia|].
  2:{ destruct Hend as [->|He]; [left; lia|right; intros [? _]].
      assert (digitval (ldc m (p + Z.of_nat (length ws) + Z.of_nat (length sg) + Z.of_nat (length px) +
                Z.of_nat (length cs))) < 0) by eqaddr He. lia. }
  cbn [mbind outcome_bind]. rewrite u64_value. f_equal. f_equal; [|lia]. destruct minus; [|done].
  unfold u64. rewrite <- (Z.sub_0_l (_ `mod` _)), Zminus_mod_idemp_r. done.
Qed.

(** ** Properties *)

(** Blanks, a sign, the prefix of the base and digits of a base up to 32,
    followed by the end of the count or a character that is no digit, are read
    as their value modulo 2^64, negated for a minus, and the address after the
    last digit is handed back. *)
Theorem strntoumax_reads fuel m p b n ws minus sg B px cs ds :
  Forall (λ c, __ctype_isspace c = true) ws → signs minus sg → written b B px cs → digits B cs ds → cs ≠ [] →
  B ≤ 32 → let txt := ws ++ sg ++ px ++ cs in
  chars m p txt → Z.of_nat (length txt) ≤ n → (length txt < fuel)%nat →
  (n = Z.of_nat (length txt) ∨ digitval (ldc m (p + Z.of_nat (length txt))) < 0) →
  strntoumax fuel m p b n =
    Ok (u64 (if minus then - value B ds else value B ds), p + Z.of_nat (length txt)).
Proof. apply strntoumax_spec. Qed.

(** " -0x1F;" *)
Definition hex_text : list Z := [32; 45; 48; 120; 49; 70; 59].

Lemma strntoumax_reads_witness : strntoumax 20 (mem_at 5 hex_text) 5 0 100 = Ok (2 ^ 64 - 31, 11).
Proof.
  rewrite (strntoumax_reads 20 (mem_at 5 hex_text) 5 0 100 [32] true [45] 16 [48; 120] [49; 70] [1; 15]).
  - reflexivity.
  - by repeat constructor.
  - done.
  - apply written_hex; by left.
  - by repeat constructor.
  - done.
  - lia.
  - intros i c Hi. do 6 (destruct i as [|i]; [by simplify_eq/=|]). done.
  - simpl. lia.
  - simpl. lia.
  - right. vm_compute. done.
Defined.

(** C38: the division of 64 bit numbers by shifting and subtracting, which ends
    after at most 64 steps of each of its loops, gives the quotient and the
    remainder, and traps for the denominator 0. *)
Theorem udivmoddi4_divides num den :
  0 ≤ num < 2 ^ 64 → 0 ≤ den < 2 ^ 64 →
  __udivmoddi4 num den = if decide (den = 0) then Fault else Ok (num / den, num `mod` den).
Proof.
  intros Hn Hd. case_decide as E; [by rewrite E|]. apply udivmoddi4_spec; lia.
Qed.

Lemma udivmoddi4_divides_witness : __udivmoddi4 (2 ^ 63 + 5) 10 = Ok (922337203685477581, 3).
Proof. rewrite (udivmoddi4_divides (2 ^ 63 + 5) 10) by lia. reflexivity. Defined.

(** Without digits the answer should be the address it was given; here it is
    the one after the sign, and after the x of a prefix without digits. *)
Example strtol_no_digits :
  strtol 10 (mem_at 1 [45; 120; 0]) 1 10 = Ok (0, 2) ∧ strtol 10 (mem_at 1 [48; 120; 103; 0]) 1 16 = Ok (0, 3).
Proof. by vm_compute. Qed.

(** Numbers that do not fit wrap around: "4294967297" reads as 1. *)
Example strtoul_wraps :
  strtoul 20 (mem_at 1 [52; 50; 57; 52; 57; 54; 55; 50; 57; 55; 0]) 1 10 = Ok (1, 11).
Proof. by vm_compute. Qed.
