(* ===== verification/Uprintf.v ===== *)
(** * Formatted output in user programs (usr/klibc/vsnprintf.c, snprintf.c, sprintf.c)

    [step] is the state machine over the characters of the format: it consumes
    arguments and answers what is to be printed.  [vsnprintf] performs that on
    the buffer, counting every character and storing those that fit.  The
    arguments on the stack are 32 bit words. *)

From S2P Require Import Prelude Klib Ustring Unum.

(** ** Flags and ranks *)

(* usr/klibc/vsnprintf.c:15-24 flags *)
Definition FL_ZERO : Z := 0x01.
Definition FL_MINUS : Z := 0x02.
Definition FL_PLUS : Z := 0x04.
Definition FL_TICK : Z := 0x08.
Definition FL_SPACE : Z := 0x10.
Definition FL_HASH : Z := 0x20.
Definition FL_SIGNED : Z := 0x40.
Definition FL_UPPER : Z := 0x80.

(* usr/klibc/vsnprintf.c:27-33 ranks *)
Definition rank_char : Z := -2.
Definition rank_short : Z := -1.
Definition rank_int : Z := 0.
Definition rank_long : Z := 1.
Definition rank_longlong : Z := 2.

(* usr/klibc/vsnprintf.c:35-40 MIN_RANK *)
Definition MIN_RANK : Z := rank_char.
Definition MAX_RANK : Z := rank_longlong.
Definition INTMAX_RANK : Z := rank_longlong.
Definition SIZE_T_RANK : Z := rank_long.
Definition PTRDIFF_T_RANK : Z := rank_long.

Definition fl (flags f : Z) : bool := bool_decide (Z.land flags f ≠ 0).

(** ** Storing characters *)

(** The variables [q] and [o] and the memory. *)
Record est := Est { e_q : Z; e_o : Z; e_m : memory }.

(* usr/klibc/vsnprintf.c:42-42 EMIT *)
Definition EMIT (n x : Z) (e : est) : est :=
  if decide (e_o e < n) then Est (e_q e + 1) (e_o e + 1) (mset (e_m e) (e_q e) x)
  else Est (e_q e) (e_o e + 1) (e_m e).

Fixpoint emit_times (k : nat) (n x : Z) (e : est) : est :=
  match k with O => e | S k => emit_times k n x (EMIT n x e) end.

(** ** Integers *)

Definition lcdigit (d : Z) : Z := if decide (d < 10) then c_0 + d else c_a + (d - 10).
Definition ucdigit (d : Z) : Z := if decide (d < 10) then c_0 + d else c_A + (d - 10).
Definition c_tick : Z := 95.

(** The count of digits (vsnprintf.c:67-72). *)
Fixpoint count_digits (fuel : nat) (tmpval base ndigits : Z) : outcome Z :=
  match fuel with
  | O => Hang
  | S f => if decide (tmpval ≠ 0) then count_digits f (tmpval / base) base (ndigits + 1) else Ok ndigits
  end.

(** The number from right to left (vsnprintf.c:142-157). *)
Fixpoint gen_number (fuel : nat) (n tickskip base : Z) (digit : Z → Z) (ndigits b4tick qq oo val : Z) (m : memory) :
    outcome memory :=
  match fuel with
  | O => Hang
  | S f =>
      if decide (0 < ndigits) then
        let '(qq, oo, ndigits, b4tick, m) :=
          if decide (b4tick = 0) then
            (qq - 1, oo - 1, ndigits - 1, tickskip - 1,
             if decide (oo - 1 < n) then mset m (qq - 1) c_tick else m)
          else (qq, oo, ndigits, b4tick - 1, m) in
        let qq := qq - 1 in
        let oo := oo - 1 in
        let m := if decide (oo < n) then mset m qq (digit (val `mod` base)) else m in
        gen_number f n tickskip base digit (ndigits - 1) b4tick qq oo (val / base) m
      else Ok m
  end.

(* usr/klibc/vsnprintf.c:44-166 format_int *)
Definition format_int (q n val flags base width prec : Z) (m : memory) : outcome (Z * memory) :=
  let digit := if fl flags FL_UPPER then ucdigit else lcdigit in
  let minus := fl flags FL_SIGNED && bool_decide (s64_of val < 0) in
  let val := if minus then u64 (- val) else val in
  ndigits ← count_digits 65 val base 0;
  let prec := if fl flags FL_HASH && bool_decide (base = 8) && bool_decide (prec < ndigits + 1)
              then ndigits + 1 else prec in
  let ndigits := if decide (ndigits < prec) then prec else if decide (val = 0) then 1 else ndigits in
  let tickskip := if fl flags FL_TICK then (if decide (base = 16) then 4 else 3) else ndigits in
  let ndigits := ndigits + (ndigits - 1) / tickskip in
  let nchars := ndigits in
  let nchars := if minus || fl flags (Z.lor FL_PLUS FL_SPACE) then nchars + 1 else nchars in
  let nchars := if fl flags FL_HASH && bool_decide (base = 16) then nchars + 2 else nchars in
  let e := Est q 0 m in
  let '(e, width) :=
    if negb (fl flags (Z.lor FL_MINUS FL_ZERO)) && bool_decide (nchars < width)
    then (emit_times (Z.to_nat (width - nchars)) n c_space e, nchars) else (e, width) in
  let e := if minus then EMIT n c_minus e
           else if fl flags FL_PLUS then EMIT n c_plus e
           else if fl flags FL_SPACE then EMIT n c_space e else e in
  let e := if fl flags FL_HASH && bool_decide (base = 16)
           then EMIT n (if fl flags FL_UPPER then c_X else c_x) (EMIT n c_0 e) else e in
  let '(e, width) :=
    if bool_decide (Z.land flags (Z.lor FL_MINUS FL_ZERO) = FL_ZERO) && bool_decide (ndigits < width)
    then (emit_times (Z.to_nat (width - nchars)) n c_0 e, Z.min width nchars) else (e, width) in
  let q := e_q e + ndigits in
  let o := e_o e + ndigits in
  m ← gen_number (S (Z.to_nat ndigits)) n tickskip base digit ndigits tickskip q o val (e_m e);
  let e := Est q o m in
  let e := if fl flags FL_MINUS then emit_times (Z.to_nat (width - nchars)) n c_space e else e in
  Ok (e_o e, e_m e).

(** ** The state machine over the format *)

(* usr/klibc/vsnprintf.c:181-187 st_normal *)
Inductive pstate := st_normal | st_flags | st_width | st_prec | st_modifiers.

Record pst := Pst { p_state : pstate; p_flags : Z; p_rank : Z; p_width : Z; p_prec : Z }.

(** The printing a character of the format asks for. *)
Inductive action :=
  | ANone
  | AChar (ch : Z)
  | AInt (val flags base width prec : Z)
  | AStr (lit : option (list Z)) (sarg flags width prec : Z)
  | ACount (rank ptr : Z).

(** [va_arg] of an int or a pointer, and of a long long. *)
Definition va_arg (ap : list Z) : outcome (Z * list Z) :=
  match ap with x :: ap => Ok (x, ap) | [] => Fault end.
Definition va_arg64 (ap : list Z) : outcome (Z * list Z) :=
  match ap with lo :: hi :: ap => Ok (lo + 2 ^ 32 * hi, ap) | _ => Fault end.

Definition s8_of (x : Z) : Z := let y := x `mod` 2 ^ 8 in if decide (y < 2 ^ 7) then y else y - 2 ^ 8.
Definition s16_of (x : Z) : Z := let y := x `mod` 2 ^ 16 in if decide (y < 2 ^ 15) then y else y - 2 ^ 16.

(** The signed argument (vsnprintf.c:314-340) and the unsigned one (356-384). *)
Definition signed_arg (rank : Z) (ap : list Z) : outcome (Z * list Z) :=
  if decide (rank = rank_longlong) then '(x, ap) ← va_arg64 ap; Ok (u64 x, ap)
  else
    '(x, ap) ← va_arg ap;
    Ok (u64 (if decide (rank = rank_char) then s8_of x
             else if decide (rank = rank_short) then s16_of x else s32_of x), ap).
Definition unsigned_arg (rank : Z) (ap : list Z) : outcome (Z * list Z) :=
  if decide (rank = rank_longlong) then '(x, ap) ← va_arg64 ap; Ok (u64 x, ap)
  else
    '(x, ap) ← va_arg ap;
    Ok (if decide (rank = rank_char) then u8 x
        else if decide (rank = rank_short) then x `mod` 2 ^ 16 else u32 x, ap).

Definition null_text : list Z := [40; 110; 117; 108; 108; 41].

(** The answer of a step: what to print, the new state, the arguments left, and
    whether the character is looked at again. *)
Definition answer : Type := action * pst * list Z * bool.

Definition with_state (st : pstate) (s : pst) : pst := Pst st (p_flags s) (p_rank s) (p_width s) (p_prec s).
Definition add_flag (f : Z) (s : pst) : pst :=
  Pst (p_state s) (Z.lor (p_flags s) f) (p_rank s) (p_width s) (p_prec s).
Definition set_rank (r : Z) (s : pst) : pst := Pst (p_state s) (p_flags s) r (p_width s) (p_prec s).
Definition set_width (w : Z) (s : pst) : pst := Pst (p_state s) (p_flags s) (p_rank s) w (p_prec s).
Definition set_prec (k : Z) (s : pst) : pst := Pst (p_state s) (p_flags s) (p_rank s) (p_width s) k.

(* usr/klibc/vsnprintf.c:194-204 st_normal *)
Definition step_normal (ch : Z) (s : pst) (ap : list Z) : outcome answer :=
  if decide (ch = 37) then Ok (ANone, Pst st_flags 0 rank_int 0 (-1), ap, false)
  else Ok (AChar ch, s, ap, false).

(* usr/klibc/vsnprintf.c:206-231 st_flags *)
Definition step_flags (ch : Z) (s : pst) (ap : list Z) : outcome answer :=
  if decide (ch = c_minus) then Ok (ANone, add_flag FL_MINUS s, ap, false)
  else if decide (ch = c_plus) then Ok (ANone, add_flag FL_PLUS s, ap, false)
  else if decide (ch = 39) then Ok (ANone, add_flag FL_TICK s, ap, false)
  else if decide (ch = c_space) then Ok (ANone, add_flag FL_SPACE s, ap, false)
  else if decide (ch = 35) then Ok (ANone, add_flag FL_HASH s, ap, false)
  else if decide (ch = c_0) then Ok (ANone, add_flag FL_ZERO s, ap, false)
  else Ok (ANone, with_state st_width s, ap, true).

(* usr/klibc/vsnprintf.c:233-249 st_width *)
Definition step_width (ch : Z) (s : pst) (ap : list Z) : outcome answer :=
  if decide (c_0 ≤ ch ≤ c_9) then Ok (ANone, set_width (p_width s * 10 + (ch - c_0)) s, ap, false)
  else if decide (ch = 42) then
    '(x, ap) ← va_arg ap;
    let width := s32_of x in
    if decide (width < 0) then Ok (ANone, add_flag FL_MINUS (set_width (- width) s), ap, false)
    else Ok (ANone, set_width width s, ap, false)
  else if decide (ch = 46) then Ok (ANone, with_state st_prec (set_prec 0 s), ap, false)
  else Ok (ANone, with_state st_modifiers s, ap, true).

(* usr/klibc/vsnprintf.c:251-262 st_prec *)
Definition step_prec (ch : Z) (s : pst) (ap : list Z) : outcome answer :=
  if decide (c_0 ≤ ch ≤ c_9) then Ok (ANone, set_prec (p_prec s * 10 + (ch - c_0)) s, ap, false)
  else if decide (ch = 42) then
    '(x, ap) ← va_arg ap;
    let prec := s32_of x in
    Ok (ANone, set_prec (if decide (prec < 0) then -1 else prec) s, ap, false)
  else Ok (ANone, with_state st_modifiers s, ap, true).

(** The conversions, the rank being canonical and the next state normal. *)
Definition convert (ch : Z) (s : pst) (ap : list Z) : outcome (action * list Z) :=
  let flags := p_flags s in
  let int '(val, ap) flags base := Ok (AInt val flags base (p_width s) (p_prec s), ap) in
  if decide (ch = 80 ∨ ch = 112) then
    let flags := if decide (ch = 80) then Z.lor flags FL_UPPER else flags in
    '(x, ap) ← va_arg ap;
    Ok (AInt (u32 x) (Z.lor flags FL_HASH) 16 (p_width s) 8, ap)
  else if decide (ch = 100 ∨ ch = 105) then
    a ← signed_arg (p_rank s) ap; int a (Z.lor flags FL_SIGNED) 10
  else if decide (ch = 111) then a ← unsigned_arg (p_rank s) ap; int a flags 8
  else if decide (ch = 117) then a ← unsigned_arg (p_rank s) ap; int a flags 10
  else if decide (ch = 88) then a ← unsigned_arg (p_rank s) ap; int a (Z.lor flags FL_UPPER) 16
  else if decide (ch = 120) then a ← unsigned_arg (p_rank s) ap; int a flags 16
  else if decide (ch = 99) then
    '(x, ap) ← va_arg ap; Ok (AStr (Some [u8 x]) 0 flags (p_width s) (p_prec s), ap)
  else if decide (ch = 115) then
    '(x, ap) ← va_arg ap;
    Ok (AStr (if decide (x = 0) then Some null_text else None) x flags (p_width s) (p_prec s), ap)
  else if decide (ch = 110) then '(x, ap) ← va_arg ap; Ok (ACount (p_rank s) x, ap)
  else Ok (AChar ch, ap).

(* usr/klibc/vsnprintf.c:264-477 st_modifiers *)
Definition step_modifiers (ch : Z) (s : pst) (ap : list Z) : outcome answer :=
  if decide (ch = 104) then Ok (ANone, set_rank (p_rank s - 1) s, ap, false)
  else if decide (ch = 108) then Ok (ANone, set_rank (p_rank s + 1) s, ap, false)
  else if decide (ch = 106) then Ok (ANone, set_rank INTMAX_RANK s, ap, false)
  else if decide (ch = 122) then Ok (ANone, set_rank SIZE_T_RANK s, ap, false)
  else if decide (ch = 116) then Ok (ANone, set_rank PTRDIFF_T_RANK s, ap, false)
  else if decide (ch = 76 ∨ ch = 113) then Ok (ANone, set_rank (p_rank s + 2) s, ap, false)
  else
    let s := with_state st_normal s in
    let s := set_rank (Z.min MAX_RANK (Z.max MIN_RANK (p_rank s))) s in
    '(a, ap) ← convert ch s ap; Ok (a, s, ap, false).

(** The switch over the state (vsnprintf.c:193). *)
Definition step (ch : Z) (s : pst) (ap : list Z) : outcome answer :=
  match p_state s with
  | st_normal => step_normal ch s ap
  | st_flags => step_flags ch s ap
  | st_width => step_width ch s ap
  | st_prec => step_prec ch s ap
  | st_modifiers => step_modifiers ch s ap
  end.

(** ** Printing into the buffer *)

(** The characters of a string argument (vsnprintf.c:424-427). *)
Fixpoint emit_chars (k : nat) (n sarg : Z) (e : est) : est :=
  match k with
  | O => e
  | S k => emit_chars k n (sarg + 1) (EMIT n (ldc (e_m e) sarg) e)
  end.

(* usr/klibc/vsnprintf.c:406-436 is_string *)
Definition emit_string (fuel : nat) (n : Z) (lit : option (list Z)) (sarg flags width prec : Z) (e : est) : outcome est :=
  slen ← match lit with Some l => Ok (Z.of_nat (length l)) | None => strlen fuel (e_m e) sarg end;
  let slen := if decide (prec ≠ -1 ∧ prec < slen) then prec else slen in
  if decide (slen < 0) then Fault (* the loop below counts down from it *) else
  let '(e, width) :=
    if bool_decide (slen < width) && negb (fl flags FL_MINUS)
    then (emit_times (Z.to_nat (width - slen)) n (if fl flags FL_ZERO then c_0 else c_space) e, slen)
    else (e, width) in
  let e := match lit with
           | Some l => foldl (λ e x, EMIT n x e) e (take (Z.to_nat slen) l)
           | None => emit_chars (Z.to_nat slen) n sarg e
           end in
  Ok (if bool_decide (slen < width) && fl flags FL_MINUS
      then emit_times (Z.to_nat (width - slen)) n c_space e else e).

(** The bytes of the count, least significant first. *)
Fixpoint store_bytes (k : nat) (a v : Z) (m : memory) : memory :=
  match k with O => m | S k => store_bytes k (a + 1) (v / 256) (mset m a (u8 v)) end.

(* usr/klibc/vsnprintf.c:438-471 n *)
Definition store_count (rank ptr o : Z) (m : memory) : memory :=
  store_bytes (if decide (rank = rank_char) then 1 else if decide (rank = rank_short) then 2
               else if decide (rank = rank_longlong) then 8 else 4)%nat ptr o m.

Definition perform (fuel : nat) (n : Z) (a : action) (e : est) : outcome est :=
  match a with
  | ANone => Ok e
  | AChar ch => Ok (EMIT n ch e)
  | AInt val flags base width prec =>
      '(sz, m) ← format_int (e_q e) (if decide (e_o e < n) then n - e_o e else 0) val flags base width prec (e_m e);
      Ok (Est (e_q e + sz) (e_o e + sz) m)
  | AStr lit sarg flags width prec => emit_string fuel n lit sarg flags width prec e
  | ACount rank ptr => Ok (Est (e_q e) (e_o e) (store_count rank ptr (e_o e) (e_m e)))
  end.

Fixpoint vsnprintf_loop (fuel : nat) (n p : Z) (s : pst) (ap : list Z) (e : est) : outcome est :=
  match fuel with
  | O => Hang
  | S f =>
      let ch := ldc (e_m e) p in
      if decide (ch ≠ 0) then
        '(a, s, ap, back) ← step ch s ap;
        e ← perform fuel n a e;
        vsnprintf_loop f n (if (back : bool) then p else p + 1) s ap e
      else Ok e
  end.

(* usr/klibc/vsnprintf.c:168-488 vsnprintf *)
Definition vsnprintf (fuel : nat) (buffer n format : Z) (ap : list Z) (m : memory) : outcome (Z * memory) :=
  e ← vsnprintf_loop fuel n format (Pst st_normal 0 rank_int 0 (-1)) ap (Est buffer 0 m);
  Ok (e_o e,
      if decide (e_o e < n) then mset (e_m e) (e_q e) 0
      else if decide (0 < n) then mset (e_m e) (buffer + n - 1) 0 else e_m e).

(* usr/klibc/snprintf.c:7-16 snprintf *)
Definition snprintf (fuel : nat) (buffer n format : Z) (ap : list Z) (m : memory) : outcome (Z * memory) :=
  vsnprintf fuel buffer n format ap m.

(* usr/klibc/sprintf.c:8-18 sprintf *)
Definition sprintf (fuel : nat) (buffer format : Z) (ap : list Z) (m : memory) : outcome (Z * memory) :=
  vsnprintf fuel buffer (2 ^ 32 - 1) format ap m.

(** ** What is to be printed *)

Fixpoint digit_count (fuel : nat) (base v : Z) : Z :=
  match fuel with
  | O => 0
  | S f => if decide (v = 0) then 0 else 1 + digit_count f base (v / base)
  end.

(** The last [D] digits of a number from right to left, with a tick after every
    [ts] digits, the first one after [b4]. *)
Fixpoint rtl (D : nat) (ts b4 base : Z) (digit : Z → Z) (v : Z) : list Z :=
  match D with
  | O => []
  | S D =>
      (if decide (b4 = 0) then [c_tick] else []) ++ digit (v `mod` base) ::
      rtl D ts (if decide (b4 = 0) then ts - 1 else b4 - 1) base digit (v / base)
  end.

Definition spaces (k : Z) : list Z := replicate (Z.to_nat k) c_space.
Definition zeros (k : Z) : list Z := replicate (Z.to_nat k) c_0.

(** The digits of a number, of at least [prec] of them. *)
Definition number_text (a flags base prec : Z) : list Z :=
  let nd := digit_count 64 base a in
  let prec := if fl flags FL_HASH && bool_decide (base = 8) then Z.max prec (nd + 1) else prec in
  let D := Z.max nd (Z.max prec (if decide (a = 0) then 1 else 0)) in
  let ts := if fl flags FL_TICK then (if decide (base = 16) then 4 else 3) else D in
  reverse (rtl (Z.to_nat D) ts ts base (if fl flags FL_UPPER then ucdigit else lcdigit) a).

(** The sign and the prefix. *)
Definition lead_text (minus : bool) (flags base : Z) : list Z :=
  (if minus then [c_minus] else if fl flags FL_PLUS then [c_plus]
   else if fl flags FL_SPACE then [c_space] else []) ++
  (if fl flags FL_HASH && bool_decide (base = 16) then [c_0; if fl flags FL_UPPER then c_X else c_x] else []).

Definition int_text (val flags base width prec : Z) : list Z :=
  let minus := fl flags FL_SIGNED && bool_decide (s64_of val < 0) in
  let lead := lead_text minus flags base in
  let num := number_text (if minus then u64 (- val) else val) flags base prec in
  let pad := width - Z.of_nat (length lead + length num) in
  if fl flags FL_MINUS then lead ++ num ++ spaces pad
  else if fl flags FL_ZERO then lead ++ zeros pad ++ num
  else spaces pad ++ lead ++ num.

Definition str_text (l : list Z) (flags width prec : Z) : list Z :=
  let l := if decide (prec = -1) then l else take (Z.to_nat prec) l in
  let pad := width - Z.of_nat (length l) in
  if fl flags FL_MINUS then l ++ spaces pad
  else (if fl flags FL_ZERO then zeros pad else spaces pad) ++ l.

(** *** The characters stored so far *)

(** [out] has been emitted to a buffer of [n] bytes at [b]. *)
Definition emitted (m0 : memory) (b n : Z) (out : list Z) (e : est) : Prop :=
  e_o e = Z.of_nat (length out) ∧ (e_o e ≤ n → e_q e = b + e_o e) ∧
  ∀ a, e_m e a = if decide (b ≤ a < b + Z.min n (Z.of_nat (length out)))
                 then out !!! Z.to_nat (a - b) else m0 a.

Lemma emitted_nil m b n : 0 ≤ n → emitted m b n [] (Est b 0 m).
Proof.
  intros Hn. split_and!; [done|simpl; lia|]. intros a. simpl. by rewrite decide_False by lia.
Qed.

Lemma EMIT_spec m0 b n out e x :
  emitted m0 b n out e → emitted m0 b n (out ++ [x]) (EMIT n x e).
Proof.
  intros (Ho & Hq & Hm). unfold EMIT, emitted. rewrite length_app. simpl.
  destruct (decide (e_o e < n)) as [Hn|Hn]; simpl.
  - rewrite Hq by lia. split_and!; [lia|lia|]. intros a. rewrite mset_at, Hm.
    destruct (decide (a = b + e_o e)) as [->|].
    + rewrite decide_True by lia. replace (Z.to_nat (b + e_o e - b)) with (length out) by lia.
      rewrite lookup_total_app_r, Nat.sub_diag by lia. done.
    + case_decide as Hd; [|by rewrite decide_False by lia]. rewrite decide_True by lia.
      by rewrite lookup_total_app_l by lia.
  - split_and!; [lia|lia|]. intros a. rewrite Hm. case_decide as Hd; [|by rewrite decide_False by lia].
    rewrite decide_True by lia. by rewrite lookup_total_app_l by lia.
Qed.

Lemma emit_times_spec m0 b n out e k x :
  emitted m0 b n out e → emitted m0 b n (out ++ replicate k x) (emit_times k n x e).
Proof.
  revert out e. induction k as [|k IH]; intros out e He; simpl; [by rewrite app_nil_r|].
  rewrite cons_middle, app_assoc. apply IH. by apply EMIT_spec.
Qed.

Lemma emit_list_spec m0 b n out e l :
  emitted m0 b n out e → emitted m0 b n (out ++ l) (foldl (λ e x, EMIT n x e) e l).
Proof.
  revert out e. induction l as [|x l IH]; intros out e He; simpl; [by rewrite app_nil_r|].
  rewrite cons_middle, app_assoc. apply IH. by apply EMIT_spec.
Qed.

(** *** Numbers *)

Lemma rtl_length D ts b4 base digit v :
  1 ≤ ts → 0 ≤ b4 ≤ ts →
  Z.of_nat (length (rtl D ts b4 base digit v)) =
    Z.of_nat D + (if decide (Z.of_nat D ≤ b4) then 0 else (Z.of_nat D - b4 - 1) / ts + 1).
Proof.
  intros Hts. revert b4 v. induction D as [|D IH]; intros b4 v Hb; cbn [rtl length]; [by rewrite decide_True by lia|].
  rewrite length_app. cbn [length]. rewrite Nat2Z.inj_add, Nat2Z.inj_succ, IH by (case_decide; lia).
  destruct (decide (b4 = 0)) as [->|Hb0]; cbn [length].
  - rewrite (decide_False (P := Z.of_nat (S D) ≤ 0)) by lia. case_decide as Hd.
    + rewrite Z.div_small by lia. lia.
    + replace (Z.of_nat (S D) - 0 - 1) with (Z.of_nat D - (ts - 1) - 1 + 1 * ts) by lia.
      rewrite Z.div_add by lia. lia.
  - case_decide; [rewrite decide_True by lia; lia|]. rewrite decide_False by lia.
    replace (Z.of_nat (S D) - b4 - 1) with (Z.of_nat D - (b4 - 1) - 1) by lia. lia.
Qed.

(** Storing a list from right to left, from position [oo] down. *)
Fixpoint rput (n c oo : Z) (l : list Z) (m : memory) : memory :=
  match l with
  | [] => m
  | x :: l => rput n c (oo - 1) l (if decide (oo - 1 < n) then mset m (c + oo - 1) x else m)
  end.

Lemma rput_at n c oo l m a :
  rput n c oo l m a =
    if decide (oo - Z.of_nat (length l) ≤ a - c < Z.min oo n) then l !!! Z.to_nat (oo - 1 - (a - c)) else m a.
Proof.
  revert oo m. induction l as [|x l IH]; intros oo m; cbn [rput length]; [by rewrite decide_False by lia|].
  rewrite IH. destruct (decide (oo - 1 - _ ≤ a - c < _)) as [Hd|Hd].
  - rewrite decide_True by lia. replace (Z.to_nat (oo - 1 - (a - c))) with (S (Z.to_nat (oo - 1 - 1 - (a - c)))) by lia.
    done.
  - destruct (decide (oo - 1 < n)) as [Hn|Hn].
    + rewrite mset_at. destruct (decide (a = c + oo - 1)) as [->|].
      * rewrite decide_True by lia. by replace (Z.to_nat _) with 0%nat by lia.
      * by rewrite decide_False by lia.
    + by rewrite decide_False by lia.
Qed.

Lemma gen_number_spec fuel n ts base digit D b4 c oo v m :
  (D < fuel)%nat →
  let t := rtl D ts b4 base digit v in
  gen_number fuel n ts base digit (Z.of_nat (length t)) b4 (c + oo) oo v m = Ok (rput n c oo t m).
Proof.
  revert fuel b4 oo v m. induction D as [|D IH]; intros fuel b4 oo v m Hf; cbv zeta;
    (destruct fuel as [|fuel]; [lia|]); cbn [rtl gen_number]; [done|].
  set (t := rtl D ts _ base digit (v / base)).
  rewrite length_app. cbn [length]. rewrite decide_True by lia. destruct (decide (b4 = 0)) as [Hb|Hb]; cbn [length app rput].
  - replace (c + oo - 1 - 1) with (c + (oo - 1 - 1)) by lia.
    replace (Z.of_nat (1 + S (length t)) - 1 - 1) with (Z.of_nat (length t)) by lia.
    unfold t. rewrite IH by lia. do 2 f_equal. by replace (c + (oo - 1 - 1)) with (c + (oo - 1) - 1) by lia.
  - replace (c + oo - 1) with (c + (oo - 1)) by lia.
    replace (Z.of_nat (0 + S (length t)) - 1) with (Z.of_nat (length t)) by lia.
    unfold t. by rewrite IH by lia.
Qed.

(** Behind [out], a list stored from right to left reads from left to right. *)
Lemma rput_emitted m0 b n out e t :
  emitted m0 b n out e →
  let k := Z.of_nat (length t) in
  emitted m0 b n (out ++ reverse t) (Est (e_q e + k) (e_o e + k) (rput n (e_q e - e_o e) (e_o e + k) t (e_m e))).
Proof.
  intros (Ho & Hq & Hm) k. unfold emitted. rewrite length_app, length_reverse. simpl. split_and!; [lia| |].
  { intros H. rewrite Hq by lia. lia. }
  intros a. rewrite rput_at, Hm. fold k. destruct (decide (e_o e ≤ n)) as [Hn|Hn].
  - rewrite (Hq Hn). replace (a - (b + e_o e - e_o e)) with (a - b) by lia.
    destruct (decide (_ ≤ a - b < _)) as [Hd|Hd].
    + rewrite decide_True by lia. rewrite lookup_total_app_r by lia. symmetry.
      apply list_lookup_total_correct. rewrite reverse_lookup by lia.
      rewrite <- list_lookup_lookup_total_lt by lia. f_equal. lia.
    + case_decide as Hd2; [|by rewrite decide_False by lia]. rewrite decide_True by lia.
      by rewrite lookup_total_app_l by lia.
  - rewrite decide_False by lia. case_decide as Hd2; [|by rewrite decide_False by lia].
    rewrite decide_True by lia. by rewrite lookup_total_app_l by lia.
Qed.

Lemma count_digits_spec fuel base v k :
  2 ≤ base → 0 ≤ v < 2 ^ Z.of_nat fuel → count_digits (S fuel) v base k = Ok (k + digit_count fuel base v).
Proof.
  intros Hb. revert v k. induction fuel as [|fuel IH]; intros v k Hv.
  - assert (v = 0) as -> by (change (2 ^ Z.of_nat 0) with 1 in Hv; lia). simpl. f_equal. lia.
  - rewrite Nat2Z.inj_succ, Z.pow_succ_r in Hv by lia. remember (S fuel) as f eqn:Ef.
    cbn [count_digits]. subst f. cbn [digit_count]. destruct (decide (v = 0)) as [->|Hv0].
    + rewrite decide_False by lia. f_equal. lia.
    + rewrite decide_True by done. rewrite IH; [f_equal; lia|]. split; [apply Z.div_pos; lia|].
      apply Z.div_lt_upper_bound; [lia|]. nia.
Qed.

(** *** Flags *)

Lemma fl_lor flags a b : fl flags (Z.lor a b) = fl flags a || fl flags b.
Proof.
  unfold fl. rewrite Z.land_lor_distr_r. rewrite <- bool_decide_or. apply bool_decide_ext.
  rewrite Z.lor_eq_0_iff. destruct (decide (Z.land flags a = 0)); tauto.
Qed.

Lemma fl_zero_only flags :
  bool_decide (Z.land flags (Z.lor FL_MINUS FL_ZERO) = FL_ZERO) = negb (fl flags FL_MINUS) && fl flags FL_ZERO.
Proof.
  unfold fl. change (Z.lor FL_MINUS FL_ZERO) with (Z.ones 2).
  assert (Z.land flags FL_MINUS = Z.land (Z.land flags (Z.ones 2)) FL_MINUS) as -> by (by rewrite <- Z.land_assoc).
  assert (Z.land flags FL_ZERO = Z.land (Z.land flags (Z.ones 2)) FL_ZERO) as -> by (by rewrite <- Z.land_assoc).
  rewrite Z.land_ones by lia. pose proof (Z.mod_pos_bound flags (2 ^ 2) ltac:(lia)) as Hr.
  set (r := flags `mod` 2 ^ 2) in *. clearbody r. change (2 ^ 2) with 4 in Hr.
  assert (r = 0 ∨ r = 1 ∨ r = 2 ∨ r = 3) as [-> | [-> | [-> | ->]]] by lia; done.
Qed.

Lemma digit_count_nonneg fuel base v : 0 ≤ digit_count fuel base v.
Proof. revert v. induction fuel as [|fuel IH]; intros v; simpl; [lia|]. case_decide; [lia|]. specialize (IH (v / base)). lia. Qed.

Lemma digit_count_pos fuel base v : (0 < fuel)%nat → v ≠ 0 → 1 ≤ digit_count fuel base v.
Proof.
  intros Hf Hv. destruct fuel; [lia|]. simpl. rewrite decide_False by done.
  pose proof (digit_count_nonneg fuel base (v / base)). lia.
Qed.

(** The number of characters [format_int] computes. *)
Lemma number_text_length a flags base prec :
  let nd := digit_count 64 base a in
  let prec' := if fl flags FL_HASH && bool_decide (base = 8) && bool_decide (prec < nd + 1) then nd + 1 else prec in
  let D := if decide (nd < prec') then prec' else if decide (a = 0) then 1 else nd in
  let ts := if fl flags FL_TICK then (if decide (base = 16) then 4 else 3) else D in
  1 ≤ D ∧ 1 ≤ ts ∧ D + (D - 1) / ts = Z.of_nat (length (number_text a flags base prec)) ∧
  number_text a flags base prec =
    reverse (rtl (Z.to_nat D) ts ts base (if fl flags FL_UPPER then ucdigit else lcdigit) a).
Proof.
  intros nd prec' D ts.
  assert (D = Z.max nd (Z.max (if fl flags FL_HASH && bool_decide (base = 8) then Z.max prec (nd + 1) else prec)
                             (if decide (a = 0) then 1 else 0))) as ED.
  { unfold D, prec'. pose proof (digit_count_nonneg 64 base a) as Hnd. fold nd in Hnd.
    assert (a ≠ 0 → 1 ≤ nd) by (intros; by apply digit_count_pos; [lia|]).
    assert (a = 0 → nd = 0) by (unfold nd; by intros ->).
    destruct (fl flags FL_HASH && bool_decide (base = 8)); simpl; [destruct (bool_decide_reflect (prec < nd + 1))|];
      repeat case_decide; lia. }
  assert (1 ≤ D) as HD.
  { rewrite ED. case_decide; [lia|]. assert (1 ≤ nd) by (apply digit_count_pos; [lia|done]). lia. }
  assert (1 ≤ ts) as Hts by (unfold ts; destruct (fl flags FL_TICK); [destruct (decide (base = 16)); lia|lia]).
  assert (number_text a flags base prec =
    reverse (rtl (Z.to_nat D) ts ts base (if fl flags FL_UPPER then ucdigit else lcdigit) a)) as En.
  { unfold number_text. fold nd. by rewrite <- ED. }
  split_and!; [done|done| |done]. rewrite En, length_reverse, rtl_length by lia. rewrite Z2Nat.id by lia.
  clear En ED. clearbody ts. clearbody D. destruct (decide (D ≤ ts)) as [Hd|Hd].
  - rewrite Z.div_small by lia. lia.
  - replace (D - 1) with (D - ts - 1 + 1 * ts) by lia. rewrite Z.div_add by lia. lia.
Qed.

Lemma emit_lead m0 b n out e (minus : bool) flags base :
  emitted m0 b n out e →
  let e1 := if minus then EMIT n c_minus e
            else if fl flags FL_PLUS then EMIT n c_plus e
            else if fl flags FL_SPACE then EMIT n c_space e else e in
  let e2 := if fl flags FL_HASH && bool_decide (base = 16)
            then EMIT n (if fl flags FL_UPPER then c_X else c_x) (EMIT n c_0 e1) else e1 in
  emitted m0 b n (out ++ lead_text minus flags base) e2.
Proof.
  intros He e1 e2. unfold lead_text. rewrite app_assoc.
  assert (emitted m0 b n (out ++ if minus then [c_minus] else if fl flags FL_PLUS then [c_plus]
    else if fl flags FL_SPACE then [c_space] else []) e1) as H1.
  { unfold e1. destruct minus; [by apply EMIT_spec|]. destruct (fl flags FL_PLUS); [by apply EMIT_spec|].
    destruct (fl flags FL_SPACE); [by apply EMIT_spec|]. by rewrite app_nil_r. }
  unfold e2. destruct (fl flags FL_HASH && bool_decide (base = 16)); [|by rewrite app_nil_r].
  set (x := if fl flags FL_UPPER then c_X else c_x). change [c_0; x] with ([c_0] ++ [x]). rewrite app_assoc.
  by do 2 apply EMIT_spec.
Qed.

Lemma lead_length (minus : bool) flags base k :
  (if fl flags FL_HASH && bool_decide (base = 16)
   then (if minus || fl flags (Z.lor FL_PLUS FL_SPACE) then k + 1 else k) + 2
   else if minus || fl flags (Z.lor FL_PLUS FL_SPACE) then k + 1 else k) =
  Z.of_nat (length (lead_text minus flags base)) + k.
Proof.
  unfold lead_text. rewrite fl_lor, length_app.
  destruct minus, (fl flags FL_PLUS), (fl flags FL_SPACE), (fl flags FL_HASH && bool_decide (base = 16)); simpl; lia.
Qed.

Lemma spaces_nonpos k : k ≤ 0 → spaces k = [].
Proof. intros. unfold spaces. by replace (Z.to_nat k) with 0%nat by lia. Qed.
Lemma zeros_nonpos k : k ≤ 0 → zeros k = [].
Proof. intros. unfold zeros. by replace (Z.to_nat k) with 0%nat by lia. Qed.

Lemma gen_emitted m0 b n out e D ts base digit a :
  emitted m0 b n out e →
  let t := rtl D ts ts base digit a in
  let L := Z.of_nat (length (reverse t)) in
  (D ≤ length t)%nat →
  ∃ m', gen_number (S (Z.to_nat L)) n ts base digit L ts (e_q e + L) (e_o e + L) a (e_m e) = Ok m' ∧
    emitted m0 b n (out ++ reverse t) (Est (e_q e + L) (e_o e + L) m').
Proof.
  intros He t L HD. unfold L. rewrite length_reverse.
  eexists. split; [|by apply rput_emitted].
  replace (e_q e + Z.of_nat (length t)) with (e_q e - e_o e + (e_o e + Z.of_nat (length t))) by lia.
  apply gen_number_spec. lia.
Qed.

Lemma format_int_spec q n val flags base width prec m :
  0 ≤ n → 2 ≤ base → 0 ≤ val < 2 ^ 64 →
  ∃ e, format_int q n val flags base width prec m = Ok (e_o e, e_m e) ∧
       emitted m q n (int_text val flags base width prec) e.
Proof.
  intros Hn Hb Hv. unfold format_int, int_text.
  set (minus := fl flags FL_SIGNED && bool_decide (s64_of val < 0)).
  set (a := if minus then u64 (- val) else val).
  assert (0 ≤ a < 2 ^ 64) as Ha.
  { unfold a. destruct minus; [|done]. unfold u64. apply Z.mod_pos_bound. lia. }
  rewrite (count_digits_spec 64) by done. cbn [mbind outcome_bind]. rewrite Z.add_0_l.
  destruct (number_text_length a flags base prec) as (HD & Hts & HL & En).
  set (nd := digit_count 64 base a) in *.
  set (prec' := if _ && bool_decide (prec < nd + 1) then nd + 1 else prec) in *.
  set (D := if decide (nd < prec') then prec' else _) in *.
  set (ts := if fl flags FL_TICK then _ else D) in *.
  rewrite HL, En. set (digit := if fl flags FL_UPPER then ucdigit else lcdigit) in *.
  set (t := rtl (Z.to_nat D) ts ts base digit a) in *.
  assert (Z.to_nat D ≤ length t)%nat as HDt.
  { rewrite En, length_reverse in HL. pose proof (Z.div_pos (D - 1) ts ltac:(lia) ltac:(lia)). lia. }
  clear HL En HD Hts. unfold t in *. clearbody ts. clearbody D. clear nd prec'. clearbody a minus. fold t in HDt |- *.
  rewrite lead_length. set (num := reverse t) in *.
  set (L := Z.of_nat (length num)). rewrite fl_zero_only, fl_lor.
  pose proof (emitted_nil m q n Hn) as He0.
  set (lead := lead_text minus flags base).
  replace (Z.of_nat (length lead) + L) with (Z.of_nat (length lead + length num)) by lia.
  set (pad := width - Z.of_nat (length lead + length num)).
  destruct (fl flags FL_MINUS) eqn:EM; [|destruct (fl flags FL_ZERO) eqn:EZ]; cbn [negb andb orb]; cbv beta iota zeta.
  - pose proof (emit_lead _ _ _ _ _ minus flags base He0) as He1. cbv zeta in He1. fold lead in He1.
    destruct (gen_emitted _ _ _ _ _ (Z.to_nat D) ts base digit a He1 HDt) as (m' & Hg & He2). fold t num L in Hg, He2.
    rewrite Hg. cbn [mbind outcome_bind]. eexists. split; [done|].
    apply (emit_times_spec _ _ _ _ _ (Z.to_nat pad) c_space) in He2. rewrite <- app_assoc in He2. exact He2.
  - pose proof (emit_lead _ _ _ _ _ minus flags base He0) as He1. cbv zeta in He1. fold lead in He1.
    destruct (bool_decide_reflect (L < width)) as [Hw|Hw]; cbv beta iota zeta; fold pad.
    + apply (emit_times_spec _ _ _ _ _ (Z.to_nat pad) c_0) in He1.
      destruct (gen_emitted _ _ _ _ _ (Z.to_nat D) ts base digit a He1 HDt) as (m' & Hg & He2). fold t num L in Hg, He2.
      rewrite Hg. eexists (Est _ _ m'). split; [done|]. rewrite <- app_assoc in He2. exact He2.
    + rewrite zeros_nonpos by lia.
      destruct (gen_emitted _ _ _ _ _ (Z.to_nat D) ts base digit a He1 HDt) as (m' & Hg & He2). fold t num L in Hg, He2.
      rewrite Hg. by eexists (Est _ _ m').
  - destruct (bool_decide_reflect (Z.of_nat (length lead + length num) < width)) as [Hw|Hw]; cbv beta iota zeta; fold pad.
    + apply (emit_times_spec _ _ _ _ _ (Z.to_nat pad) c_space) in He0.
      pose proof (emit_lead _ _ _ _ _ minus flags base He0) as He1. cbv zeta in He1. fold lead in He1.
      destruct (gen_emitted _ _ _ _ _ (Z.to_nat D) ts base digit a He1 HDt) as (m' & Hg & He2). fold t num L in Hg, He2.
      rewrite Hg. eexists (Est _ _ m'). split; [done|]. rewrite <- app_assoc in He2. exact He2.
    + rewrite spaces_nonpos by lia.
      pose proof (emit_lead _ _ _ _ _ minus flags base He0) as He1. cbv zeta in He1. fold lead in He1.
      destruct (gen_emitted _ _ _ _ _ (Z.to_nat D) ts base digit a He1 HDt) as (m' & Hg & He2). fold t num L in Hg, He2.
      rewrite Hg. by eexists (Est _ _ m').
Qed.

(** *** Strings and the loop *)

(** Memory that may be read: all but the buffer. *)
Definition outside_buf (b n : Z) (m : memory) (a : Z) : outcome Z :=
  if decide (b ≤ a < b + n) then Fault else Ok (ldc m a).

Section render.
Context (rd : Z → outcome Z).

Fixpoint read_str (fuel : nat) (p : Z) : outcome (list Z) :=
  match fuel with
  | O => Hang
  | S f => c ← rd p; if decide (c ≠ 0) then l ← read_str f (p + 1); Ok (c :: l) else Ok []
  end.

Definition action_text (fuel : nat) (a : action) : outcome (list Z) :=
  match a with
  | ANone => Ok []
  | AChar ch => Ok [ch]
  | AInt val flags base width prec => Ok (int_text val flags base width prec)
  | AStr lit sarg flags width prec =>
      l ← match lit with Some l => Ok l | None => read_str fuel sarg end;
      if decide (prec < -1) then Fault else Ok (str_text l flags width prec)
  | ACount _ _ => Fault
  end.

(** The whole text a format stands for. *)
Fixpoint render (fuel : nat) (p : Z) (s : pst) (ap : list Z) : outcome (list Z) :=
  match fuel with
  | O => Hang
  | S f =>
      ch ← rd p;
      if decide (ch ≠ 0) then
        '(a, s, ap, back) ← step ch s ap;
        t ← action_text fuel a;
        r ← render f (if (back : bool) then p else p + 1) s ap;
        Ok (t ++ r)
      else Ok []
  end.
End render.

Lemma emitted_ldc m0 b n out e a c :
  emitted m0 b n out e → outside_buf b n m0 a = Ok c → ldc (e_m e) a = c.
Proof.
  intros (_ & _ & Hm). unfold outside_buf. case_decide; [done|]. intros [= <-].
  unfold ldc. rewrite Hm. by rewrite decide_False by lia.
Qed.

Lemma read_str_strlen m0 b n out e fuel p l :
  emitted m0 b n out e → read_str (outside_buf b n m0) fuel p = Ok l →
  strlen fuel (e_m e) p = Ok (Z.of_nat (length l)).
Proof.
  intros He. unfold strlen. enough (∀ p l, read_str (outside_buf b n m0) fuel p = Ok l →
    nul_at fuel (e_m e) p = Ok (p + Z.of_nat (length l))) as H.
  { intros Hr. rewrite (H _ _ Hr). cbn. f_equal. lia. }
  clear p l. induction fuel as [|fuel IH]; intros p l Hr; [done|]. cbn [read_str] in Hr.
  bind_inv Hr as c Hc. cbn [nul_at]. rewrite (emitted_ldc _ _ _ _ _ _ _ He Hc).
  case_decide; [|injection Hr as <-; f_equal; simpl; lia].
  bind_inv Hr as l' Hl. injection Hr as <-. rewrite (IH _ _ Hl). f_equal. simpl. lia.
Qed.

Lemma emit_chars_spec m0 b n out e fuel p l k :
  emitted m0 b n out e → read_str (outside_buf b n m0) fuel p = Ok l → (k ≤ length l)%nat →
  emitted m0 b n (out ++ take k l) (emit_chars k n p e).
Proof.
  revert out e fuel p l. induction k as [|k IH]; intros out e fuel p l He Hr Hk; cbn [emit_chars].
  { by rewrite take_0, app_nil_r. }
  destruct fuel as [|fuel]; [done|]. cbn [read_str] in Hr. bind_inv Hr as c Hc.
  case_decide; [|injection Hr as <-; simpl in Hk; lia]. bind_inv Hr as l' Hl. injection Hr as <-.
  rewrite (emitted_ldc _ _ _ _ _ _ _ He Hc). cbn [take]. rewrite cons_middle, app_assoc.
  simpl in Hk. eapply IH; [by apply EMIT_spec|done|lia].
Qed.

Lemma emit_string_spec m0 b n out e fuel lit sarg flags width prec l :
  emitted m0 b n out e → -1 ≤ prec →
  match lit with Some l' => Ok l' | None => read_str (outside_buf b n m0) fuel sarg end = Ok l →
  ∃ e', emit_string fuel n lit sarg flags width prec e = Ok e' ∧
        emitted m0 b n (out ++ str_text l flags width prec) e'.
Proof.
  intros He Hp Hl. unfold emit_string, str_text.
  assert (match lit with Some l0 => Ok (Z.of_nat (length l0)) | None => strlen fuel (e_m e) sarg end =
          Ok (Z.of_nat (length l))) as ->.
  { destruct lit as [l'|]; [by injection Hl as <-|]. by eapply read_str_strlen. }
  cbn [mbind outcome_bind].
  set (k := if decide (prec ≠ -1 ∧ prec < Z.of_nat (length l)) then prec else Z.of_nat (length l)).
  set (l2 := if decide (prec = -1) then l else take (Z.to_nat prec) l).
  assert (0 ≤ k ≤ Z.of_nat (length l)) as Hk by (unfold k; case_decide; lia).
  assert (l2 = take (Z.to_nat k) l) as El.
  { unfold l2, k. destruct (decide (prec = -1)).
    - rewrite decide_False by lia. by rewrite Nat2Z.id, firstn_all.
    - case_decide; [done|]. rewrite Nat2Z.id, firstn_all. apply take_ge. lia. }
  assert (Z.of_nat (length l2) = k) as Ek by (rewrite El, length_take; lia).
  rewrite Ek, El. clear l2 El Ek. clearbody k. rewrite decide_False by lia.
  assert (∀ out e, emitted m0 b n out e → emitted m0 b n (out ++ take (Z.to_nat k) l)
    match lit with
    | Some l => foldl (λ e x, EMIT n x e) e (take (Z.to_nat k) l)
    | None => emit_chars (Z.to_nat k) n sarg e
    end) as Hbody.
  { intros out' e' He'. destruct lit as [l'|].
    - injection Hl as ->. by apply emit_list_spec.
    - eapply emit_chars_spec; [done..|lia]. }
  destruct (fl flags FL_MINUS); destruct (bool_decide_reflect (k < width)) as [Hw|Hw];
    cbn [negb andb]; cbv beta iota zeta.
  - rewrite bool_decide_true by lia. eexists. split; [done|]. rewrite app_assoc. by apply emit_times_spec, Hbody.
  - rewrite bool_decide_false by lia. eexists. split; [done|].
    rewrite spaces_nonpos by lia. rewrite app_nil_r. by apply Hbody.
  - rewrite bool_decide_false by lia. eexists. split; [done|]. rewrite app_assoc. apply Hbody.
    destruct (fl flags FL_ZERO); by apply emit_times_spec.
  - rewrite bool_decide_false by lia. eexists. split; [done|].
    rewrite zeros_nonpos, spaces_nonpos by lia. destruct (fl flags FL_ZERO); by apply Hbody.
Qed.

(** Integer conversions are asked for with 64 bit values. *)
Definition action_ok (a : action) : Prop :=
  match a with AInt val _ base _ _ => 0 ≤ val < 2 ^ 64 ∧ 2 ≤ base | _ => True end.

Lemma signed_arg_range rank ap v ap' : signed_arg rank ap = Ok (v, ap') → 0 ≤ v < 2 ^ 64.
Proof.
  unfold signed_arg. intros H. case_decide; bind_inv H as x Hx; destruct x; injection H as <- _;
    unfold u64; apply Z.mod_pos_bound; lia.
Qed.
Lemma unsigned_arg_range rank ap v ap' : unsigned_arg rank ap = Ok (v, ap') → 0 ≤ v < 2 ^ 64.
Proof.
  unfold unsigned_arg. intros H. case_decide; bind_inv H as x Hx; destruct x as [x ?]; injection H as <- _.
  - unfold u64. apply Z.mod_pos_bound. lia.
  - pose proof (Z.mod_pos_bound x (2 ^ 8)). pose proof (Z.mod_pos_bound x (2 ^ 16)).
    pose proof (Z.mod_pos_bound x (2 ^ 32)). unfold u8, u32. repeat case_decide; lia.
Qed.

Lemma convert_ok ch s ap a ap' : convert ch s ap = Ok (a, ap') → action_ok a.
Proof.
  unfold convert. intros H. cbv zeta in H.
  repeat (case_decide; [bind_inv H as x Hx; destruct x as [v ap1]; cbv beta iota in H; injection H as <- _; simpl;
    try done; (split; [|lia]);
    first [eapply signed_arg_range, Hx | eapply unsigned_arg_range, Hx
          | unfold u32; pose proof (Z.mod_pos_bound v (2 ^ 32)); lia]|]).
  by injection H as <- _.
Qed.

Lemma step_ok ch s ap a s' ap' back : step ch s ap = Ok (a, s', ap', back) → action_ok a.
Proof.
  unfold step. intros H. destruct (p_state s).
  - unfold step_normal in H. by case_decide; injection H as <- _ _ _.
  - unfold step_flags in H. by repeat case_decide; injection H as <- _ _ _.
  - unfold step_width in H. repeat case_decide; try (by injection H as <- _ _ _).
    bind_inv H as x Hx. destruct x. by case_decide; injection H as <- _ _ _.
  - unfold step_prec in H. repeat case_decide; try (by injection H as <- _ _ _).
    bind_inv H as x Hx. destruct x. by injection H as <- _ _ _.
  - unfold step_modifiers in H. repeat (case_decide; [by injection H as <- _ _ _|]).
    bind_inv H as x Hx. destruct x as [a' ap1]. injection H as <- _ _ _. by eapply convert_ok.
Qed.

Lemma perform_spec m0 b n out e fuel a t :
  0 ≤ n → emitted m0 b n out e → action_ok a → action_text (outside_buf b n m0) fuel a = Ok t →
  ∃ e', perform fuel n a e = Ok e' ∧ emitted m0 b n (out ++ t) e'.
Proof.
  intros Hn He Ha Ht. destruct a as [|ch|val flags base width prec|lit sarg flags width prec|rank ptr]; simpl in Ht |- *.
  - injection Ht as <-. rewrite app_nil_r. eauto.
  - injection Ht as <-. eexists. split; [done|]. by apply EMIT_spec.
  - injection Ht as <-. destruct Ha as [Hv Hb].
    set (k := if decide (e_o e < n) then n - e_o e else 0).
    destruct (format_int_spec (e_q e) k val flags base width prec (e_m e)) as (e1 & -> & Ho1 & _ & Hm1);
      [unfold k; case_decide; lia|done|done|].
    cbn [mbind outcome_bind]. eexists. split; [done|]. set (t := int_text val flags base width prec) in *. clearbody t.
    destruct He as (Ho & Hq & Hm). unfold emitted. rewrite length_app. simpl. rewrite Ho1.
    split_and!; [lia|intros; rewrite Hq by lia; lia|]. intros a. rewrite Hm1. unfold k in *.
    destruct (decide (e_o e < n)) as [Ho2|Ho2].
    + rewrite Hq by lia. case_decide as Hd.
      * rewrite decide_True by lia. rewrite lookup_total_app_r by lia. f_equal. lia.
      * rewrite Hm. case_decide as Hd2; [|by rewrite decide_False by lia].
        rewrite decide_True by lia. by rewrite lookup_total_app_l by lia.
    + rewrite decide_False by lia. rewrite Hm. case_decide as Hd2; [|by rewrite decide_False by lia].
      rewrite decide_True by lia. by rewrite lookup_total_app_l by lia.
  - bind_inv Ht as l Hl. case_decide; [done|]. injection Ht as <-. eapply emit_string_spec; [done|lia|done].
  - done.
Qed.

Lemma vsnprintf_loop_spec m0 b n out e fuel p s ap t :
  0 ≤ n → emitted m0 b n out e → render (outside_buf b n m0) fuel p s ap = Ok t →
  ∃ e', vsnprintf_loop fuel n p s ap e = Ok e' ∧ emitted m0 b n (out ++ t) e'.
Proof.
  intros Hn. revert out e p s ap t. induction fuel as [|fuel IH]; intros out e p s ap t He Hr; [done|].
  cbn [render] in Hr. bind_inv Hr as ch Hc. cbn [vsnprintf_loop]. rewrite (emitted_ldc _ _ _ _ _ _ _ He Hc).
  case_decide; [|injection Hr as <-; exists e; by rewrite app_nil_r].
  bind_inv Hr as x Hs. destruct x as [[[a s'] ap'] back]. rewrite Hs. cbn [mbind outcome_bind].
  bind_inv Hr as t1 Ht. bind_inv Hr as r Hr'. injection Hr as <-.
  destruct (perform_spec m0 b n out e (S fuel) a t1) as (e1 & -> & He1); [done|done|by eapply step_ok|done|].
  cbn [mbind outcome_bind]. rewrite app_assoc. by eapply IH.
Qed.

(** ** Printing and reading back *)

Fixpoint lsd (D : nat) (base v : Z) : list Z :=
  match D with O => [] | S D => v `mod` base :: lsd D base (v / base) end.

Lemma rtl_plain D ts b4 base digit v :
  Z.of_nat D ≤ b4 → rtl D ts b4 base digit v = digit <$> lsd D base v.
Proof.
  revert b4 v. induction D as [|D IH]; intros b4 v Hb; [done|]. cbn [rtl lsd fmap list_fmap].
  rewrite !(decide_False (P := b4 = 0)) by lia. simpl. f_equal. apply IH. lia.
Qed.

Lemma lsd_value D base v : 2 ≤ base → 0 ≤ v < base ^ Z.of_nat D → value base (reverse (lsd D base v)) = v.
Proof.
  intros Hb. revert v. induction D as [|D IH]; intros v Hv.
  - change (base ^ Z.of_nat 0) with 1 in Hv. simpl. unfold value. simpl. lia.
  - rewrite Nat2Z.inj_succ, Z.pow_succ_r in Hv by lia. cbn [lsd]. rewrite reverse_cons. unfold value.
    rewrite foldl_app. simpl. fold (value base (reverse (lsd D base (v / base)))). rewrite IH.
    + pose proof (Z.div_mod v base ltac:(lia)). lia.
    + split; [apply Z.div_pos; lia|apply Z.div_lt_upper_bound; lia].
Qed.

Lemma digit_count_bound fuel base v :
  2 ≤ base → 0 ≤ v < 2 ^ Z.of_nat fuel → v < base ^ digit_count fuel base v.
Proof.
  intros Hb. revert v. induction fuel as [|fuel IH]; intros v Hv; cbn [digit_count].
  - change (2 ^ Z.of_nat 0) with 1 in Hv. lia.
  - rewrite Nat2Z.inj_succ, Z.pow_succ_r in Hv by lia. case_decide as Hv0; [subst; lia|].
    rewrite Z.pow_add_r by (pose proof (digit_count_nonneg fuel base (v / base)); lia). rewrite Z.pow_1_r.
    assert (v / base < base ^ digit_count fuel base (v / base)) as H.
    { apply IH. split; [apply Z.div_pos; lia|]. apply Z.div_lt_upper_bound; [lia|]. nia. }
    pose proof (Z.div_mod v base ltac:(lia)). pose proof (Z.mod_pos_bound v base ltac:(lia)). nia.
Qed.

Lemma lcdigit_val d : 0 ≤ d < 36 → digitval (lcdigit d) = d.
Proof. unfold lcdigit, digitval, c_0, c_a. intros. repeat case_decide; lia. Qed.

(** The plain text of a number is a numeral for it. *)
Lemma number_text_digits v base :
  2 ≤ base ≤ 36 → 0 ≤ v < 2 ^ 64 →
  ∃ ds, digits base (number_text v 0 base (-1)) ds ∧ value base ds = v ∧ number_text v 0 base (-1) ≠ [].
Proof.
  intros Hb Hv. destruct (number_text_length v 0 base (-1)) as (HD & Hts & HL & ->).
  change (fl 0 FL_TICK) with false in *. change (fl 0 FL_UPPER) with false. cbv beta iota zeta in *.
  change (fl 0 FL_HASH) with false in *. simpl andb in *. cbv beta iota in *.
  set (nd := digit_count 64 base v) in *.
  set (D := if decide (nd < -1) then -1 else if decide (v = 0) then 1 else nd) in *.
  rewrite rtl_plain by lia. exists (reverse (lsd (Z.to_nat D) base v)). split_and!.
  - rewrite <- fmap_reverse. unfold digits. apply Forall2_fmap_l, Forall_Forall2_diag, Forall_reverse.
    assert (Forall (λ d, 0 ≤ d < base) (lsd (Z.to_nat D) base v)) as Hall.
    { generalize (Z.to_nat D). intros k. revert v Hv nd D HD Hts HL. clear - Hb. intros v _ _ _ _ _ _. revert v.
      induction k as [|k IH]; intros v; constructor; [apply Z.mod_pos_bound; lia|apply IH]. }
    eapply Forall_impl; [exact Hall|]. intros d Hd. simpl in Hd |- *. split; [apply lcdigit_val; lia|done].
  - apply lsd_value; [lia|]. rewrite Z2Nat.id by lia. pose proof (digit_count_nonneg 64 base v) as Hnn. fold nd in Hnn.
    pose proof (digit_count_bound 64 base v ltac:(lia) ltac:(change (Z.of_nat 64) with 64; lia)) as Hbd. fold nd in Hbd.
    unfold D. rewrite decide_False by lia. destruct (decide (v = 0)); [rewrite Z.pow_1_r|]; lia.
  - intros E. apply (f_equal length) in E. rewrite length_reverse, length_fmap in E.
    assert (∀ k v, length (lsd k base v) = k) as Hlen by (intros k; induction k; simpl; congruence).
    rewrite Hlen in E. simpl in E. lia.
Qed.

Lemma uvsnprintf_spec fuel buffer n format ap m t :
  0 ≤ n →
  render (outside_buf buffer n m) fuel format (Pst st_normal 0 rank_int 0 (-1)) ap = Ok t →
  let k := Z.min (Z.of_nat (length t)) (n - 1) in
  ∃ m', vsnprintf fuel buffer n format ap m = Ok (Z.of_nat (length t), m') ∧
    ∀ a, m' a = if decide (buffer ≤ a < buffer + k) then t !!! Z.to_nat (a - buffer)
                else if decide (0 < n ∧ a = buffer + k) then 0 else m a.
Proof.
  intros Hn Hr k. unfold vsnprintf.
  destruct (vsnprintf_loop_spec _ _ _ _ _ _ _ _ _ _ Hn (emitted_nil m buffer n Hn) Hr) as (e & -> & Ho & Hq & Hm).
  cbn [mbind outcome_bind]. simpl in Ho, Hm. rewrite Ho in *. eexists. split; [done|]. unfold k. intros a.
  destruct (decide (Z.of_nat (length t) < n)) as [Hl|Hl].
  - rewrite Hq by lia. rewrite mset_at, Hm. replace (Z.min (Z.of_nat (length t)) (n - 1)) with (Z.of_nat (length t)) by lia.
    replace (Z.min n (Z.of_nat (length t))) with (Z.of_nat (length t)) by lia.
    destruct (decide (a = buffer + Z.of_nat (length t))) as [->|].
    + rewrite decide_False by lia. by rewrite decide_True by lia.
    + case_decide; [done|]. by rewrite decide_False by lia.
  - replace (Z.min (Z.of_nat (length t)) (n - 1)) with (n - 1) by lia.
    destruct (decide (0 < n)) as [Hn0|Hn0].
    + rewrite mset_at, Hm. replace (Z.min n (Z.of_nat (length t))) with n by lia.
      destruct (decide (a = buffer + n - 1)) as [->|].
      * rewrite decide_False by lia. by rewrite decide_True by lia.
      * case_decide as Hd; [by rewrite decide_True by lia|]. by rewrite !decide_False by lia.
    + rewrite Hm. by rewrite !decide_False by lia.
Qed.

Lemma render_step rd f p s ap ch a s' ap' (back : bool) t r :
  rd p = Ok ch → ch ≠ 0 → step ch s ap = Ok (a, s', ap', back) → action_text rd (S f) a = Ok t →
  render rd f (if back then p else p + 1) s' ap' = Ok r → render rd (S f) p s ap = Ok (t ++ r).
Proof.
  intros Hc H0 Hs Ht Hr. cbn [render]. rewrite Hc. cbn [mbind outcome_bind]. rewrite decide_True by done.
  rewrite Hs. cbn [mbind outcome_bind]. rewrite Ht. cbn [mbind outcome_bind]. by rewrite Hr.
Qed.

(** The text of "%llu", "%llo" and "%llx". *)
Lemma render_llu b n m format c base v fuel :
  (c = 117 ∧ base = 10 ∨ c = 111 ∧ base = 8 ∨ c = 120 ∧ base = 16) → 0 ≤ v < 2 ^ 64 →
  cstr m format [37; 108; 108; c] → (format + 4 < b ∨ b + n ≤ format) → (8 ≤ fuel)%nat →
  render (outside_buf b n m) fuel format (Pst st_normal 0 rank_int 0 (-1)) [v `mod` 2 ^ 32; v / 2 ^ 32] =
    Ok (int_text v 0 base 0 (-1)).
Proof.
  intros Hc Hv Hf Hd Hfu.
  destruct Hf as (M0 & _ & M1 & _ & M2 & _ & M3 & Hc3 & M4).
  assert (∀ a x, format ≤ a ≤ format + 4 → m a = x → 0 ≤ x < 256 → outside_buf b n m a = Ok x) as Hrd.
  { intros a x Ha Hx Hx2. unfold outside_buf, ldc. by rewrite decide_False, Hx, u8_small by lia. }
  pose proof (Hrd format 37 ltac:(lia) M0 ltac:(lia)) as R0.
  pose proof (Hrd (format + 1) 108 ltac:(lia) M1 ltac:(lia)) as R1.
  pose proof (Hrd (format + 1 + 1) 108 ltac:(lia) M2 ltac:(lia)) as R2.
  pose proof (Hrd (format + 1 + 1 + 1) c ltac:(lia) M3 ltac:(lia)) as R3.
  pose proof (Hrd (format + 1 + 1 + 1 + 1) 0 ltac:(lia) M4 ltac:(lia)) as R4. clear Hrd.
  do 8 (destruct fuel as [|fuel]; [lia|]).
  assert (u64 (v `mod` 2 ^ 32 + 2 ^ 32 * (v / 2 ^ 32)) = v) as Ev.
  { pose proof (Z.div_mod v (2 ^ 32) ltac:(lia)). unfold u64. rewrite Z.mod_small; lia. }
  assert (∀ f, convert c (Pst st_normal f 2 0 (-1)) [v `mod` 2 ^ 32; v / 2 ^ 32] = Ok (AInt v f base 0 (-1), [])) as Hconv.
  { intros f. destruct Hc as [[-> ->]|[[-> ->]|[-> ->]]]; unfold convert; simpl; by rewrite Ev. }
  assert (step c (Pst st_modifiers 0 2 0 (-1)) [v `mod` 2 ^ 32; v / 2 ^ 32] =
          Ok (AInt v 0 base 0 (-1), Pst st_normal 0 2 0 (-1), [], false)) as Hs.
  { unfold step, step_modifiers. cbn [p_state]. rewrite !decide_False by lia. cbv zeta.
    change (set_rank _ _) with (Pst st_normal 0 2 0 (-1)). by rewrite Hconv. }
  change (int_text v 0 base 0 (-1)) with ([] ++ [] ++ [] ++ [] ++ [] ++ int_text v 0 base 0 (-1)).
  eapply render_step; [exact R0|done|done|done|].
  eapply render_step; [exact R1|done|done|done|].
  eapply render_step; [exact R1|done|done|done|].
  eapply render_step; [exact R1|done|done|done|].
  eapply render_step; [exact R2|done|done|done|].
  rewrite <- (app_nil_r (int_text v 0 base 0 (-1))).
  eapply render_step; [exact R3|lia|exact Hs|done|].
  cbn [render]. rewrite R4. done.
Qed.

Lemma digit_count_le fuel base v (k : nat) :
  2 ≤ base → 0 ≤ v < base ^ Z.of_nat k → digit_count fuel base v ≤ Z.of_nat k.
Proof.
  intros Hb. revert fuel v. induction k as [|k IH]; intros fuel v Hv.
  - change (base ^ Z.of_nat 0) with 1 in Hv. assert (v = 0) as -> by lia. by destruct fuel.
  - rewrite Nat2Z.inj_succ, Z.pow_succ_r in Hv by lia. destruct fuel as [|fuel]; simpl; [lia|].
    case_decide; [lia|]. enough (digit_count fuel base (v / base) ≤ Z.of_nat k) by lia.
    apply IH. split; [apply Z.div_pos; lia|apply Z.div_lt_upper_bound; lia].
Qed.

Lemma int_text_plain v base : int_text v 0 base 0 (-1) = number_text v 0 base (-1).
Proof.
  unfold int_text. change (fl 0 FL_SIGNED) with false. change (fl 0 FL_MINUS) with false.
  change (fl 0 FL_ZERO) with false. simpl andb. cbv iota zeta. change (lead_text false 0 base) with (@nil Z).
  rewrite spaces_nonpos by lia. done.
Qed.

Lemma number_text_short v base :
  8 ≤ base → 0 ≤ v < 2 ^ 64 → (length (number_text v 0 base (-1)) ≤ 22)%nat.
Proof.
  intros Hb Hv. destruct (number_text_length v 0 base (-1)) as (HD & _ & HL & _).
  change (fl 0 FL_TICK) with false in HL. change (fl 0 FL_HASH) with false in *. simpl andb in *. cbv iota zeta in *.
  set (nd := digit_count 64 base v) in *. rewrite Z.div_small in HL by lia.
  assert (nd ≤ 22) as Hnd.
  { apply (digit_count_le 64 base v 22); [lia|]. assert (8 ^ 22 ≤ base ^ Z.of_nat 22) by (apply Z.pow_le_mono_l; lia). lia. }
  pose proof (digit_count_nonneg 64 base v) as Hnn. fold nd in Hnn. rewrite decide_False in HL by lia.
  destruct (decide (v = 0)); lia.
Qed.

(** A text that fits is in the buffer, with its end. *)
Lemma buffer_text m m' buffer n t :
  (∀ a, m' a = let k := Z.min (Z.of_nat (length t)) (n - 1) in
      if decide (buffer ≤ a < buffer + k) then t !!! Z.to_nat (a - buffer)
      else if decide (0 < n ∧ a = buffer + k) then 0 else m a) →
  Z.of_nat (length t) < n → Forall (λ c, 0 ≤ c < 256) t →
  chars m' buffer t ∧ ldc m' (buffer + Z.of_nat (length t)) = 0.
Proof.
  intros Ha Hn Ht. unfold ldc. split.
  - intros i x Hi. pose proof (lookup_lt_Some _ _ _ Hi). unfold ldc. rewrite Ha, decide_True by lia.
    replace (Z.to_nat (buffer + Z.of_nat i - buffer)) with i by lia. rewrite (list_lookup_total_correct _ _ _ Hi).
    by apply u8_small, (Forall_lookup_1 _ _ _ _ Ht Hi).
  - rewrite Ha. cbv zeta. by rewrite decide_False, decide_True by lia.
Qed.

Lemma digits_bytes base t ds : digits base t ds → Forall (λ c, 0 ≤ c < 256) t.
Proof.
  intros Hd. eapply Forall2_Forall_l; [exact Hd|]. apply Forall_true. intros d c [Hdv Hd0].
  unfold digitval in Hdv. repeat case_decide; lia.
Qed.

(** The text of "%d". *)
Lemma render_d b n m format x fuel :
  cstr m format [37; 100] → (format + 2 < b ∨ b + n ≤ format) → (5 ≤ fuel)%nat →
  render (outside_buf b n m) fuel format (Pst st_normal 0 rank_int 0 (-1)) [x] =
    Ok (int_text (u64 (s32_of x)) FL_SIGNED 10 0 (-1)).
Proof.
  intros (M0 & _ & M1 & _ & M2) Hd Hfu.
  assert (∀ a y, format ≤ a ≤ format + 2 → m a = y → 0 ≤ y < 256 → outside_buf b n m a = Ok y) as Hrd.
  { intros a y Ha Hy Hy2. unfold outside_buf, ldc. by rewrite decide_False, Hy, u8_small by lia. }
  pose proof (Hrd format 37 ltac:(lia) M0 ltac:(lia)) as R0.
  pose proof (Hrd (format + 1) 100 ltac:(lia) M1 ltac:(lia)) as R1.
  pose proof (Hrd (format + 1 + 1) 0 ltac:(lia) M2 ltac:(lia)) as R2. clear Hrd.
  do 5 (destruct fuel as [|fuel]; [lia|]).
  assert (step 100 (Pst st_modifiers 0 rank_int 0 (-1)) [x] =
          Ok (AInt (u64 (s32_of x)) FL_SIGNED 10 0 (-1), Pst st_normal 0 rank_int 0 (-1), [], false)) as Hs by reflexivity.
  set (t := int_text _ _ _ _ _). trans (Ok ([] ++ [] ++ [] ++ t ++ [])); [|by rewrite app_nil_r].
  eapply render_step; [exact R0|done|done|done|].
  eapply render_step; [exact R1|done|done|done|].
  eapply render_step; [exact R1|done|done|done|].
  eapply render_step; [exact R1|done|exact Hs|reflexivity|].
  cbn [render]. by rewrite R2.
Qed.

Lemma int_text_signed v :
  0 ≤ v < 2 ^ 64 →
  int_text v FL_SIGNED 10 0 (-1) =
    (if decide (s64_of v < 0) then c_minus :: number_text (u64 (- v)) 0 10 (-1) else number_text v 0 10 (-1)).
Proof.
  intros Hv. unfold int_text. change (fl FL_SIGNED FL_SIGNED) with true. change (fl FL_SIGNED FL_MINUS) with false.
  change (fl FL_SIGNED FL_ZERO) with false. cbv iota zeta. rewrite andb_true_l.
  destruct (decide (s64_of v < 0)).
  - rewrite bool_decide_true by done. rewrite spaces_nonpos by lia. reflexivity.
  - rewrite bool_decide_false by done. rewrite spaces_nonpos by lia. reflexivity.
Qed.

(** ** Properties *)


(** "%+05d|%-4s|" at 1 and "ab" at 20. *)
Definition fmt_mem : memory := λ a,
  if decide (20 ≤ a) then mem_at 20 [97; 98; 0] a else mem_at 1 [37; 43; 48; 53; 100; 124; 37; 45; 52; 115; 124; 0] a.


(** A 64 bit number printed with %llu, %llo or %llx and read back with
    [strtoull] in the same base is the same number. *)
Theorem snprintf_strtoull_roundtrip fuel buffer n format c base v m :
  (c = 117 ∧ base = 10 ∨ c = 111 ∧ base = 8 ∨ c = 120 ∧ base = 16) → 0 ≤ v < 2 ^ 64 → 24 ≤ n →
  cstr m format [37; 108; 108; c] → format + 4 < buffer ∨ buffer + n ≤ format → (30 ≤ fuel)%nat →
  ∃ k m', snprintf fuel buffer n format [v `mod` 2 ^ 32; v / 2 ^ 32] m = Ok (k, m') ∧
          strtoull fuel m' buffer base = Ok (v, buffer + k).
Proof.
  intros Hc Hv Hn Hf Hd Hfu.
  assert (8 ≤ base ≤ 16) as Hb by lia.
  destruct (uvsnprintf_spec fuel buffer n format [v `mod` 2 ^ 32; v / 2 ^ 32] m (int_text v 0 base 0 (-1)))
    as (m' & Hm & Ha); [lia|by apply (render_llu _ _ _ _ c); [..|lia]|].
  rewrite int_text_plain in *. pose proof (number_text_short v base ltac:(lia) Hv) as Hlen.
  destruct (number_text_digits v base ltac:(lia) Hv) as (ds & Hds & Hval & Hne).
  set (t := number_text v 0 base (-1)) in *. eexists _, m'. split; [exact Hm|].
  destruct (buffer_text m m' buffer n t Ha ltac:(lia) (digits_bytes _ _ _ Hds)) as [Hch Hend].
  unfold strtoull, strtox.
  rewrite (strntoumax_spec fuel m' buffer base (2 ^ 32 - 1) [] false [] base [] t ds); cbn [app mbind outcome_bind].
  - rewrite Hval. unfold u64. by rewrite !(Z.mod_small v) by lia.
  - constructor.
  - by left.
  - constructor. lia.
  - done.
  - done.
  - lia.
  - done.
  - lia.
  - lia.
  - right. by rewrite Hend.
Qed.

(** "%llx" at 1. *)
Lemma snprintf_strtoull_roundtrip_witness :
  ∃ k m', snprintf 30 100 24 1 [0x89abcdef; 0x01234567] (mem_at 1 [37; 108; 108; 120; 0]) = Ok (k, m') ∧
          strtoull 30 m' 100 16 = Ok (0x0123456789abcdef, 100 + k).
Proof.
  apply (snprintf_strtoull_roundtrip 30 100 24 1 120 16 0x0123456789abcdef (mem_at 1 [37; 108; 108; 120; 0])).
  - right. by right.
  - lia.
  - lia.
  - by repeat split.
  - left. lia.
  - lia.
Defined.

(** Where the C standard says otherwise: a precision turns the flag 0 off
    ("%05.3d" of 7 is "  007"), zero has no prefix ("%#x") and no digits with
    precision 0 ("%.0d"), and unsigned numbers no sign ("%+u"). *)
Example int_text_deviations :
  int_text 7 (Z.lor FL_SIGNED FL_ZERO) 10 5 3 = [48; 48; 48; 48; 55] ∧
  int_text 0 FL_HASH 16 0 (-1) = [48; 120; 48] ∧
  int_text 0 FL_SIGNED 10 0 0 = [48] ∧
  int_text 5 FL_PLUS 10 0 (-1) = [43; 53].
Proof. by vm_compute. Qed.
