(* ===== verification/Uscanf.v ===== *)
(** * Formatted input in user programs (usr/klibc/vsscanf.c)

    The state machine over the characters of the format, with the input at [q]
    and the addresses to store to among the arguments. *)

From S2P Require Import Prelude Klib Ustring Unum Uprintf.

(* usr/klibc/vsscanf.c:20-25 flags *)
Definition FL_SPLAT : Z := 0x01.
Definition FL_INV : Z := 0x02.
Definition FL_WIDTH : Z := 0x04.
Definition FL_MINUS : Z := 0x08.

(* usr/klibc/vsscanf.c:33-33 rank_ptr *)
Definition rank_ptr : Z := 2 ^ 31 - 1.

(* usr/klibc/vsscanf.c:43-47 bail *)
Inductive bail := bail_none | bail_eof | bail_err.
#[global] Instance bail_eq_dec : EqDecision bail.
Proof. solve_decision. Defined.

(* usr/klibc/vsscanf.c:80-88 st_normal *)
Inductive sstate := ss_normal | ss_flags | ss_width | ss_modifiers | ss_match_init | ss_match | ss_match_range.

(** The local variables of [vsscanf] that live from one character to the next. *)
Record sst := Sst {
  s_state : sstate; s_flags : Z; s_rank : Z; s_width : Z;
  s_map : Z → bool; s_inv : bool; s_range : Z; s_sarg : Z;
  s_q : Z; s_bail : bail; s_conv : Z; s_ap : list Z; s_m : memory }.

Definition to_state (x : sstate) (s : sst) : sst :=
  Sst x (s_flags s) (s_rank s) (s_width s) (s_map s) (s_inv s) (s_range s) (s_sarg s) (s_q s) (s_bail s) (s_conv s) (s_ap s) (s_m s).
Definition add_sflag (f : Z) (s : sst) : sst :=
  Sst (s_state s) (Z.lor (s_flags s) f) (s_rank s) (s_width s) (s_map s) (s_inv s) (s_range s) (s_sarg s) (s_q s) (s_bail s) (s_conv s) (s_ap s) (s_m s).
Definition to_rank (r : Z) (s : sst) : sst :=
  Sst (s_state s) (s_flags s) r (s_width s) (s_map s) (s_inv s) (s_range s) (s_sarg s) (s_q s) (s_bail s) (s_conv s) (s_ap s) (s_m s).
Definition to_width (w : Z) (s : sst) : sst :=
  Sst (s_state s) (s_flags s) (s_rank s) w (s_map s) (s_inv s) (s_range s) (s_sarg s) (s_q s) (s_bail s) (s_conv s) (s_ap s) (s_m s).
Definition to_map (f : Z → bool) (s : sst) : sst :=
  Sst (s_state s) (s_flags s) (s_rank s) (s_width s) f (s_inv s) (s_range s) (s_sarg s) (s_q s) (s_bail s) (s_conv s) (s_ap s) (s_m s).
Definition to_inv (b : bool) (s : sst) : sst :=
  Sst (s_state s) (s_flags s) (s_rank s) (s_width s) (s_map s) b (s_range s) (s_sarg s) (s_q s) (s_bail s) (s_conv s) (s_ap s) (s_m s).
Definition to_range (r : Z) (s : sst) : sst :=
  Sst (s_state s) (s_flags s) (s_rank s) (s_width s) (s_map s) (s_inv s) r (s_sarg s) (s_q s) (s_bail s) (s_conv s) (s_ap s) (s_m s).
Definition to_sarg (a : Z) (s : sst) : sst :=
  Sst (s_state s) (s_flags s) (s_rank s) (s_width s) (s_map s) (s_inv s) (s_range s) a (s_q s) (s_bail s) (s_conv s) (s_ap s) (s_m s).
Definition to_q (q : Z) (s : sst) : sst :=
  Sst (s_state s) (s_flags s) (s_rank s) (s_width s) (s_map s) (s_inv s) (s_range s) (s_sarg s) q (s_bail s) (s_conv s) (s_ap s) (s_m s).
Definition to_bail (b : bail) (s : sst) : sst :=
  Sst (s_state s) (s_flags s) (s_rank s) (s_width s) (s_map s) (s_inv s) (s_range s) (s_sarg s) (s_q s) b (s_conv s) (s_ap s) (s_m s).
Definition converted (s : sst) : sst :=
  Sst (s_state s) (s_flags s) (s_rank s) (s_width s) (s_map s) (s_inv s) (s_range s) (s_sarg s) (s_q s) (s_bail s) (s_conv s + 1) (s_ap s) (s_m s).
Definition to_ap (ap : list Z) (s : sst) : sst :=
  Sst (s_state s) (s_flags s) (s_rank s) (s_width s) (s_map s) (s_inv s) (s_range s) (s_sarg s) (s_q s) (s_bail s) (s_conv s) ap (s_m s).
Definition to_mem (m : memory) (s : sst) : sst :=
  Sst (s_state s) (s_flags s) (s_rank s) (s_width s) (s_map s) (s_inv s) (s_range s) (s_sarg s) (s_q s) (s_bail s) (s_conv s) (s_ap s) m.

(* usr/klibc/vsscanf.c:49-54 skipspace *)
Fixpoint skipspace (fuel : nat) (m : memory) (p : Z) : outcome Z :=
  match fuel with
  | O => Hang
  | S f => if __ctype_isspace (ldc m p) then skipspace f m (p + 1) else Ok p
  end.

(* usr/klibc/vsscanf.c:57-60 set_bit *)
Definition set_bit (bit : Z) (map : Z → bool) : Z → bool := λ b, if decide (b = bit) then true else map b.

Definition splat (s : sst) : bool := fl (s_flags s) FL_SPLAT.

(* usr/klibc/vsscanf.c:231-266 set_integer *)
Definition set_integer (val : Z) (s : sst) : outcome sst :=
  if splat s then Ok s
  else
    '(a, ap) ← va_arg (s_ap s);
    let k := (if decide (s_rank s = rank_char) then 1 else if decide (s_rank s = rank_short) then 2
              else if decide (s_rank s = rank_longlong) then 8 else 4)%nat in
    Ok (to_ap ap (to_mem (store_bytes k a val (s_m s)) s)).

(* usr/klibc/vsscanf.c:213-229 scan_int *)
Definition scan_int (fuel : nat) (base : Z) (s : sst) : outcome sst :=
  q ← skipspace fuel (s_m s) (s_q s);
  let s := to_q q s in
  if decide (ldc (s_m s) q = 0) then Ok (to_bail bail_eof s)
  else
    '(val, qq) ← strntoumax fuel (s_m s) q base (s_width s);
    if decide (qq = q) then Ok (to_bail bail_err s)
    else
      let s := to_q qq s in
      let s := if splat s then s else converted s in
      set_integer val s.

(** [%c] with an argument copies (vsscanf.c:280-286); without, it only looks
    for the end (272-277). *)
Fixpoint copy_c (width : nat) (sarg : Z) (s : sst) : sst :=
  match width with
  | O => s
  | S w =>
      let c := ldc (s_m s) (s_q s) in
      if decide (c = 0) then to_bail bail_eof s
      else copy_c w (sarg + 1) (to_q (s_q s + 1) (to_mem (mset (s_m s) sarg c) s))
  end.

(* usr/klibc/vsscanf.c:268-290 c *)
Definition scan_c (s : sst) : outcome sst :=
  let width := if fl (s_flags s) FL_WIDTH then s_width s else 1 in
  if splat s then
    Ok (if decide (width ≠ 0 ∧ ldc (s_m s) (s_q s) = 0) then to_bail bail_eof s else s)
  else
    '(sarg, ap) ← va_arg (s_ap s);
    let s := copy_c (Z.to_nat width) sarg (to_ap ap s) in
    Ok (if decide (s_bail s = bail_none) then converted s else s).

(** The loops of [%s]: the last character looked at (1 when none was), the
    input, and the address after the stored characters. *)
Fixpoint copy_s (fuel : nat) (width : Z) (store : bool) (uc sp q : Z) (m : memory) : outcome (Z * Z * Z * memory) :=
  match fuel with
  | O => Hang
  | S f =>
      if decide (width = 0) then Ok (uc, sp, q, m)
      else
        let uc := ldc m q in
        if decide (uc ≠ 0 ∧ __ctype_isspace uc = false) then
          copy_s f (width - 1) store uc (sp + 1) (q + 1) (if store then mset m sp uc else m)
        else Ok (uc, sp, q, m)
  end.

(* usr/klibc/vsscanf.c:292-315 s *)
Definition scan_s (fuel : nat) (s : sst) : outcome sst :=
  if splat s then
    '(uc, _, q, _) ← copy_s fuel (s_width s) false 1 0 (s_q s) (s_m s);
    let s := to_q q s in
    Ok (if decide (uc = 0) then to_bail bail_eof s else s)
  else
    '(sarg, ap) ← va_arg (s_ap s);
    '(uc, sp, q, m) ← copy_s fuel (s_width s) true 1 sarg (s_q s) (s_m s);
    let s := to_ap ap (to_q q (to_mem m (to_sarg sarg s))) in
    let s := if decide (sarg ≠ sp) then converted (to_mem (mset m sp 0) s) else s in
    Ok (if decide (uc = 0) then to_bail bail_eof s else s).

(* usr/klibc/vsscanf.c:317-323 match *)
Definition scan_set (s : sst) : outcome sst :=
  '(sarg, ap) ← (if splat s then Ok (0, s_ap s) else va_arg (s_ap s));
  Ok (to_state ss_match_init (to_inv false (to_map (λ _, false) (to_ap ap (to_sarg sarg s))))).

(** The conversions, the rank being canonical and the next state normal. *)
Definition sconvert (fuel : nat) (buffer ch : Z) (s : sst) : outcome sst :=
  if decide (ch = 80 ∨ ch = 112) then scan_int fuel 0 (to_rank rank_ptr s)
  else if decide (ch = 105) then scan_int fuel 0 s
  else if decide (ch = 100) then scan_int fuel 10 s
  else if decide (ch = 111) then scan_int fuel 8 s
  else if decide (ch = 117) then scan_int fuel 10 s
  else if decide (ch = 120 ∨ ch = 88) then scan_int fuel 16 s
  else if decide (ch = 110) then set_integer (s_q s - buffer) s
  else if decide (ch = 99) then scan_c s
  else if decide (ch = 115) then scan_s fuel s
  else if decide (ch = 91) then scan_set s
  else if decide (ch = 37) then
    Ok (if decide (ldc (s_m s) (s_q s) = 37) then to_q (s_q s + 1) s else to_bail bail_err s)
  else Ok (to_bail bail_err s).

(* usr/klibc/vsscanf.c:99-113 st_normal *)
Definition sstep_normal (fuel : nat) (ch : Z) (s : sst) : outcome sst :=
  if decide (ch = 37) then Ok (to_state ss_flags (to_width (2 ^ 32 - 1) (to_rank rank_int
      (Sst (s_state s) 0 (s_rank s) (s_width s) (s_map s) (s_inv s) (s_range s) (s_sarg s) (s_q s) (s_bail s) (s_conv s) (s_ap s) (s_m s)))))
  else if __ctype_isspace ch then q ← skipspace fuel (s_m s) (s_q s); Ok (to_q q s)
  else Ok (if decide (ldc (s_m s) (s_q s) = ch) then to_q (s_q s + 1) s else to_bail bail_err s).

(** The answers of the other states: the new one, and whether the character is
    looked at again. *)
(* usr/klibc/vsscanf.c:115-130 st_flags *)
Definition sstep_flags (ch : Z) (s : sst) : sst * bool :=
  if decide (ch = 42) then (add_sflag FL_SPLAT s, false)
  else if decide (c_0 ≤ ch ≤ c_9) then (add_sflag FL_WIDTH (to_state ss_width (to_width (ch - c_0) s)), false)
  else (to_state ss_modifiers s, true).

(* usr/klibc/vsscanf.c:132-139 st_width *)
Definition sstep_width (ch : Z) (s : sst) : sst * bool :=
  if decide (c_0 ≤ ch ≤ c_9) then (to_width (u32 (s_width s * 10 + (ch - c_0))) s, false)
  else (to_state ss_modifiers s, true).

(* usr/klibc/vsscanf.c:141-338 st_modifiers *)
Definition sstep_modifiers (fuel : nat) (buffer ch : Z) (s : sst) : outcome sst :=
  if decide (ch = 104) then Ok (to_rank (s_rank s - 1) s)
  else if decide (ch = 108) then Ok (to_rank (s_rank s + 1) s)
  else if decide (ch = 106) then Ok (to_rank INTMAX_RANK s)
  else if decide (ch = 122) then Ok (to_rank SIZE_T_RANK s)
  else if decide (ch = 116) then Ok (to_rank PTRDIFF_T_RANK s)
  else if decide (ch = 76 ∨ ch = 113) then Ok (to_rank rank_longlong s)
  else sconvert fuel buffer ch (to_rank (Z.min MAX_RANK (Z.max MIN_RANK (s_rank s))) (to_state ss_normal s)).

(** The loop of a character set, which leaves the width alone. *)
Fixpoint run_set (fuel : nat) (uc : Z) (s : sst) : outcome (Z * sst) :=
  match fuel with
  | O => Hang
  | S f =>
      if decide (s_width s = 0) then Ok (uc, s)
      else
        let uc := ldc (s_m s) (s_q s) in
        if decide (uc ≠ 0 ∧ xorb (s_map s uc) (s_inv s) = true) then
          let s := if decide (s_sarg s ≠ 0) then to_sarg (s_sarg s + 1) (to_mem (mset (s_m s) (s_sarg s) uc) s) else s in
          run_set f uc (to_q (s_q s + 1) s)
        else Ok (uc, s)
  end.

(* usr/klibc/vsscanf.c:374-391 match_run *)
Definition match_run (fuel : nat) (s : sst) : outcome sst :=
  let qq := s_q s in
  '(uc, s) ← run_set fuel 1 s;
  let s := if decide (s_q s ≠ qq ∧ s_sarg s ≠ 0) then converted (to_mem (mset (s_m s) (s_sarg s) 0) s)
           else to_bail bail_err s in
  Ok (if decide (uc = 0) then to_bail bail_eof s else s).

(* usr/klibc/vsscanf.c:340-347 st_match_init *)
Definition sstep_match_init (ch : Z) (s : sst) : sst :=
  if decide (ch = 94 ∧ fl (s_flags s) FL_INV = false) then to_inv true s
  else to_state ss_match (to_map (set_bit ch (s_map s)) s).

(* usr/klibc/vsscanf.c:349-358 st_match *)
Definition sstep_match (fuel : nat) (ch : Z) (s : sst) : outcome sst :=
  if decide (ch = 93) then match_run fuel s
  else if decide (ch = c_minus) then Ok (to_state ss_match_range (to_range ch s))
  else Ok (to_map (set_bit ch (s_map s)) s).

(* usr/klibc/vsscanf.c:360-372 st_match_range *)
Definition sstep_match_range (fuel : nat) (ch : Z) (s : sst) : outcome sst :=
  if decide (ch = 93) then match_run fuel (to_map (set_bit c_minus (s_map s)) s)
  else Ok (to_state ss_match (to_map (λ b, if decide (s_range s ≤ b < ch) then true else s_map s b) s)).

Definition sstep (fuel : nat) (buffer ch : Z) (s : sst) : outcome (sst * bool) :=
  let go (o : outcome sst) := s ← o; Ok (s, false) in
  match s_state s with
  | ss_normal => go (sstep_normal fuel ch s)
  | ss_flags => Ok (sstep_flags ch s)
  | ss_width => Ok (sstep_width ch s)
  | ss_modifiers => go (sstep_modifiers fuel buffer ch s)
  | ss_match_init => Ok (sstep_match_init ch s, false)
  | ss_match => go (sstep_match fuel ch s)
  | ss_match_range => go (sstep_match_range fuel ch s)
  end.

Fixpoint vsscanf_loop (fuel : nat) (buffer p : Z) (s : sst) : outcome sst :=
  match fuel with
  | O => Hang
  | S f =>
      let ch := ldc (s_m s) p in
      if decide (ch ≠ 0 ∧ s_bail s = bail_none) then
        '(s, back) ← sstep fuel buffer ch s;
        vsscanf_loop f buffer (if (back : bool) then p else p + 1) s
      else Ok s
  end.

Definition sst0 (buffer : Z) (ap : list Z) (m : memory) : sst :=
  Sst ss_normal 0 rank_int (2 ^ 32 - 1) (λ _, false) false 0 0 buffer bail_none 0 ap m.

(* usr/klibc/vsscanf.c:68-399 vsscanf *)
Definition vsscanf (fuel : nat) (buffer format : Z) (ap : list Z) (m : memory) : outcome (Z * memory) :=
  s ← vsscanf_loop fuel buffer format (sst0 buffer ap m);
  Ok (if decide (s_bail s = bail_eof ∧ s_conv s = 0) then -1 else s_conv s, s_m s).

(** ** Integers read *)

Lemma skipspace_spec fuel m p ws :
  chars m p ws → Forall (λ c, __ctype_isspace c = true) ws → (length ws < fuel)%nat →
  __ctype_isspace (ldc m (p + Z.of_nat (length ws))) = false →
  skipspace fuel m p = Ok (p + Z.of_nat (length ws)).
Proof.
  intros Hc Hb. revert p fuel Hc. induction Hb as [|c ws Hs _ IH]; intros p fuel Hc Hf Hend;
    (destruct fuel as [|fuel]; [simpl in Hf; lia|]); cbn [skipspace].
  - simpl in Hend. rewrite Z.add_0_r in Hend. rewrite Hend. f_equal. simpl. lia.
  - apply chars_cons in Hc as [-> Hc]. rewrite Hs. simpl in Hf, Hend.
    rewrite IH; [f_equal; simpl; lia|done|lia|]. rewrite <- Hend. do 2 f_equal. lia.
Qed.

Lemma store_bytes_out k a v m x : ¬ (a ≤ x < a + Z.of_nat k) → store_bytes k a v m x = m x.
Proof.
  revert a v m. induction k as [|k IH]; intros a v m Hx; cbn [store_bytes]; [done|].
  rewrite IH by lia. rewrite mset_at. by rewrite decide_False by lia.
Qed.

Lemma ld32_store a v m : ld32 (store_bytes 4 a v m) a = u32 v.
Proof.
  unfold ld32, ldc. cbn [store_bytes]. rewrite !mset_at.
  repeat first [rewrite decide_True by lia | rewrite decide_False by lia].
  unfold u8, u32. Z.div_mod_to_equations. lia.
Qed.

(** The conversions of integers and the base they read. *)
Definition int_conv (c b : Z) : Prop :=
  c = 100 ∧ b = 10 ∨ c = 117 ∧ b = 10 ∨ c = 105 ∧ b = 0 ∨ c = 111 ∧ b = 8 ∨ c = 120 ∧ b = 16 ∨ c = 88 ∧ b = 16.

Lemma sstep_normal_percent fuel s :
  sstep_normal fuel 37 s = Ok (Sst ss_flags 0 rank_int (2 ^ 32 - 1) (s_map s) (s_inv s) (s_range s) (s_sarg s)
                                 (s_q s) (s_bail s) (s_conv s) (s_ap s) (s_m s)).
Proof. done. Qed.

Lemma int_step fuel buffer c b s :
  int_conv c b → s_rank s = rank_int →
  sstep_modifiers fuel buffer c s = scan_int fuel b (to_state ss_normal s).
Proof.
  intros Hc Hr. destruct s; simpl in Hr; subst. by destruct Hc as [[-> ->]|[[-> ->]|[[-> ->]|[[-> ->]|[[-> ->]|[-> ->]]]]]].
Qed.

Lemma scan_int_spec fuel b a ap s ws minus sg B px cs ds :
  s_flags s = 0 → s_rank s = rank_int → s_width s = 2 ^ 32 - 1 → s_ap s = a :: ap →
  Forall (λ c, __ctype_isspace c = true) ws → signs minus sg → written b B px cs → digits B cs ds → cs ≠ [] →
  B ≤ 32 → let txt := ws ++ sg ++ px ++ cs in
  chars (s_m s) (s_q s) txt → Z.of_nat (length txt) < 2 ^ 32 - 1 → (length txt < fuel)%nat →
  digitval (ldc (s_m s) (s_q s + Z.of_nat (length txt))) < 0 →
  scan_int fuel b s =
    Ok (to_ap ap (to_mem (store_bytes 4 a (u64 (if minus then - value B ds else value B ds)) (s_m s))
          (converted (to_q (s_q s + Z.of_nat (length txt)) s)))).
Proof.
  destruct s as [st flags rank width map inv range sarg q bl conv ap0 m]. cbn -[Z.pow Z.of_nat length app].
  intros -> -> -> -> Hws Hsg Hw Hd Hne HB Hc Hn Hf Hend. rewrite length_app in Hn, Hf, Hend.
  apply chars_app in Hc as [Hcw Hc].
  destruct (numeral_head _ _ _ _ _ Hw Hd Hne) as (c & r & Hcr & Hc0).
  destruct (digit_not_space _ Hc0) as [Hns Hnsg].
  assert (∃ h t, sg ++ px ++ cs = h :: t ∧ __ctype_isspace h = false ∧ h ≠ 0) as (h & t & Et & Hh & H0).
  { rewrite Hcr. destruct minus; simpl in Hsg; [subst sg|destruct Hsg as [-> | ->]]; eexists _, _; split_and!; try done.
    intros ->. done. }
  unfold scan_int. cbn [s_m s_q]. pose proof Hc as Hhd. rewrite Et in Hhd. apply chars_cons in Hhd as [Hhd _].
  rewrite (skipspace_spec _ _ _ ws); [|done|done|lia|by rewrite Hhd]. cbn [mbind outcome_bind s_m to_q].
  rewrite Hhd, decide_False by done. unfold to_q at 1. cbn [s_width].
  rewrite (strntoumax_spec fuel m _ b _ [] minus sg B px cs ds); [|constructor|done..|simpl; lia|simpl; lia|].
  2:{ right. simpl app. by rewrite <- Z.add_assoc, <- Nat2Z.inj_add. }
  cbn [mbind outcome_bind app]. rewrite decide_False.
  2:{ rewrite Et. simpl. lia. }
  unfold set_integer, splat. unfold converted, to_q. cbn [s_flags s_rank s_ap s_m].
  change (fl 0 FL_SPLAT) with false. cbv iota. cbn [s_flags s_rank s_ap s_m va_arg mbind outcome_bind].
  by rewrite <- Z.add_assoc, <- Nat2Z.inj_add, <- length_app.
Qed.

Lemma loop_step f buffer p s ch s' (back : bool) :
  ldc (s_m s) p = ch → ch ≠ 0 → s_bail s = bail_none → sstep (S f) buffer ch s = Ok (s', back) →
  vsscanf_loop (S f) buffer p s = vsscanf_loop f buffer (if back then p else p + 1) s'.
Proof. intros Hc H0 Hb Hs. cbn [vsscanf_loop]. by rewrite Hc, decide_True, Hs. Qed.

Lemma loop_end f buffer p s : ldc (s_m s) p = 0 → vsscanf_loop (S f) buffer p s = Ok s.
Proof. intros H. cbn [vsscanf_loop]. rewrite decide_False; [done|]. by intros [? _]. Qed.

(** One conversion of an integer. *)
Lemma vsscanf_int_spec fuel buffer format c b a m ws minus sg B px cs ds :
  int_conv c b → cstr m format [37; c] → (a + 4 ≤ format + 2 ∨ format + 2 < a) →
  Forall (λ c, __ctype_isspace c = true) ws → signs minus sg → written b B px cs → digits B cs ds → cs ≠ [] →
  B ≤ 32 → let txt := ws ++ sg ++ px ++ cs in
  chars m buffer txt → Z.of_nat (length txt) < 2 ^ 32 - 1 → (length txt + 4 ≤ fuel)%nat →
  digitval (ldc m (buffer + Z.of_nat (length txt))) < 0 →
  vsscanf fuel buffer format [a] m =
    Ok (1, store_bytes 4 a (u64 (if minus then - value B ds else value B ds)) m).
Proof.
  intros Hc (M0 & _ & M1 & Hc1 & M2) Ha Hws Hsg Hw Hd Hne HB txt Ht Hn Hf Hend.
  assert (c ≠ 0 ∧ c < 256 ∧ c ≠ 42 ∧ ¬ (c_0 ≤ c ≤ c_9)) as (Hc0 & Hc2 & Hc3 & Hc4)
    by (unfold int_conv, c_0, c_9 in *; lia).
  assert (ldc m (format + 1) = c) as Hl by (unfold ldc; rewrite M1; apply u8_small; lia).
  unfold vsscanf. do 4 (destruct fuel as [|fuel]; [lia|]).
  erewrite (loop_step _ _ _ _ 37 _ false); [|by unfold ldc; simpl; rewrite M0|done..].
  rewrite (loop_step _ _ _ _ c (Sst ss_modifiers 0 rank_int (2 ^ 32 - 1) (λ _, false) false 0 0 buffer bail_none 0 [a] m) true);
    [|done..|by unfold sstep, sstep_flags; simpl; rewrite !decide_False].
  erewrite (loop_step _ _ _ _ c); [|done..|].
  2:{ cbn [sstep s_state]. rewrite (int_step _ _ c b) by done.
      rewrite (scan_int_spec _ b a [] _ ws minus sg B px cs ds); try done. fold txt; lia. }
  fold txt. rewrite loop_end; [done|].
  unfold ldc. cbn [to_ap to_mem s_m]. cbn [to_state s_m]. rewrite store_bytes_out by lia. by rewrite M2.
Qed.

(* usr/klibc/sscanf.c:7-17 sscanf *)
Definition sscanf (fuel : nat) (str format : Z) (ap : list Z) (m : memory) : outcome (Z * memory) :=
  vsscanf fuel str format ap m.

Lemma s64_u64 x : - 2 ^ 63 ≤ x < 2 ^ 63 → s64_of (u64 x) = x.
Proof.
  intros. unfold s64_of, u64. rewrite Z.mod_mod by lia. cbv zeta. case_decide; Z.div_mod_to_equations; lia.
Qed.

Lemma s32_u32_u64 x : - 2 ^ 31 ≤ x < 2 ^ 31 → s32_of (u32 (u64 x)) = x.
Proof.
  intros. unfold s32_of, u32, u64. rewrite Z.mod_mod, Z.mod_mod_divide by (lia || by exists (2 ^ 32)).
  cbv zeta. case_decide; Z.div_mod_to_equations; lia.
Qed.

(** ** Properties *)

(** One conversion of an integer (%d, %u, %i, %o, %x) reads blanks, a sign,
    the prefix of the base and digits up to a character that is none, stores
    the number cut to 32 bits at the argument, and nothing else, and answers
    1. *)
Theorem vsscanf_int fuel buffer format c b a m ws minus sg B px cs ds :
  int_conv c b → cstr m format [37; c] → (a + 4 ≤ format + 2 ∨ format + 2 < a) →
  Forall (λ c, __ctype_isspace c = true) ws → signs minus sg → written b B px cs → digits B cs ds → cs ≠ [] →
  B ≤ 32 → let txt := ws ++ sg ++ px ++ cs in
  chars m buffer txt → Z.of_nat (length txt) < 2 ^ 32 - 1 → (length txt + 4 ≤ fuel)%nat →
  digitval (ldc m (buffer + Z.of_nat (length txt))) < 0 →
  ∃ m', vsscanf fuel buffer format [a] m = Ok (1, m') ∧
        ld32 m' a = u32 (if minus then - value B ds else value B ds) ∧
        ∀ x, ¬ (a ≤ x < a + 4) → m' x = m x.
Proof.
  intros. eexists. split_and!.
  - by eapply vsscanf_int_spec.
  - rewrite ld32_store. unfold u32, u64. apply Z.mod_mod_divide. by exists (2 ^ 32).
  - intros. by apply store_bytes_out.
Qed.

Lemma vsscanf_int_witness :
  ∃ m', vsscanf 30 5 200 [300] (λ a, if decide (a < 100) then mem_at 5 hex_text a else mem_at 200 [37; 105; 0] a) = Ok (1, m') ∧
        ld32 m' 300 = 2 ^ 32 - 31.
Proof.
  destruct (vsscanf_int 30 5 200 105 0 300 (λ a, if decide (a < 100) then mem_at 5 hex_text a else mem_at 200 [37; 105; 0] a)
    [32] true [45] 16 [48; 120] [49; 70] [1; 15]) as (m' & ? & ? & _).
  - right. right. by left.
  - by repeat split.
  - right. lia.
  - by repeat constructor.
  - done.
  - apply written_hex; by left.
  - by repeat constructor.
  - done.
  - lia.
  - intros i c Hi. do 6 (destruct i as [|i]; [by simplify_eq/=|]). done.
  - simpl. lia.
  - simpl. lia.
  - vm_compute. done.
  - by exists m'.
Defined.

(** C35: an int printed with %d and read back with %d is the same int. *)
Theorem snprintf_sscanf_roundtrip fuel buffer n format a x m :
  - 2 ^ 31 ≤ x < 2 ^ 31 → 24 ≤ n → cstr m format [37; 100] →
  format + 2 < buffer ∨ buffer + n ≤ format → a + 4 ≤ format + 2 ∨ format + 2 < a → (30 ≤ fuel)%nat →
  ∃ k m' m'', snprintf fuel buffer n format [u32 x] m = Ok (k, m') ∧
    sscanf fuel buffer format [a] m' = Ok (1, m'') ∧ s32_of (ld32 m'' a) = x.
Proof.
  intros Hx Hn Hf Hd Hda Hfu.
  assert (s32_of (u32 x) = x) as Es by (unfold s32_of, u32; case_decide; Z.div_mod_to_equations; lia).
  destruct (uvsnprintf_spec fuel buffer n format [u32 x] m (int_text (u64 (s32_of (u32 x))) FL_SIGNED 10 0 (-1)))
    as (m' & Hm & Ha); [lia|by apply render_d; [..|lia]|].
  rewrite Es, int_text_signed in * by (unfold u64; apply Z.mod_pos_bound; lia).
  pose proof (s64_u64 x ltac:(lia)) as Hsg.
  rewrite Hsg in *. clear Hsg.
  destruct (number_text_digits (Z.abs x) 10 ltac:(lia) ltac:(lia)) as (ds & Hds & Hval & Hne).
  pose proof (number_text_short (Z.abs x) 10 ltac:(lia) ltac:(lia)) as Hlen.
  set (t := number_text (Z.abs x) 0 10 (-1)) in *.
  set (sg := if decide (x < 0) then [c_minus] else []).
  replace (if decide (x < 0) then _ else _) with (sg ++ t) in *.
  2:{ unfold sg, t, u64. destruct (decide (x < 0)); simpl app; [f_equal|].
      - f_equal. Z.div_mod_to_equations. lia.
      - f_equal. rewrite Z.mod_small by lia. lia. }
  assert (length sg ≤ 1)%nat as Hsl by (unfold sg; destruct (decide (x < 0)); simpl; lia).
  assert (cstr m' format [37; 100]) as Hf'.
  { eapply cstr_frame, Hf. intros y Hy. simpl in Hy. rewrite Ha. rewrite length_app. by rewrite !decide_False by lia. }
  destruct (buffer_text m m' buffer n (sg ++ t) Ha) as [Hch Hend]; [rewrite length_app; lia| |].
  { apply Forall_app; split; [|by eapply digits_bytes]. unfold sg. destruct (decide (x < 0)); [|constructor]. apply Forall_singleton. unfold c_minus. lia. }
  eexists _, m', _. split_and!; [exact Hm| |].
  - unfold sscanf. apply (vsscanf_int_spec fuel buffer format 100 10 a m' [] (bool_decide (x < 0)) sg 10 [] t ds); try done.
    + by left.
    + unfold signs, sg. destruct (decide (x < 0)); [rewrite bool_decide_true|rewrite bool_decide_false]; auto.
    + constructor. lia.
    + simpl. rewrite length_app. lia.
    + simpl. rewrite length_app. lia.
    + simpl. by rewrite Hend.
  - rewrite ld32_store, Hval. trans (s32_of (u32 (u64 x))); [|by apply s32_u32_u64].
    do 3 f_equal. case_bool_decide; lia.
Qed.

Lemma snprintf_sscanf_roundtrip_witness :
  ∃ k m' m'', snprintf 30 100 24 1 [u32 (-2147483648)] (mem_at 1 [37; 100; 0]) = Ok (k, m') ∧
    sscanf 30 100 1 [300] m' = Ok (1, m'') ∧ s32_of (ld32 m'' 300) = -2147483648.
Proof.
  apply (snprintf_sscanf_roundtrip 30 100 24 1 300 (-2147483648) (mem_at 1 [37; 100; 0])).
  - lia.
  - lia.
  - by repeat split.
  - left. lia.
  - right. lia.
  - lia.
Defined.

(** ** Where character sets go wrong *)

(** The input at 1, the format at 100, an argument at 200. *)
Definition scan_mem (input format : list Z) : memory :=
  λ a, if decide (a < 100) then mem_at 1 (input ++ [0]) a else mem_at 100 (format ++ [0]) a.
Definition scan_answer (input format : list Z) (ap : list Z) : option (Z * list Z) :=
  match vsscanf 60 1 100 ap (scan_mem input format) with
  | Ok (k, m) => Some (k, (λ i, ldc m (200 + i)) <$> seqZ 0 3)
  | _ => None
  end.

(** After "%[a]" the state stays that of a set: the d of "%[a]%d" joins the set
    and nothing is converted any more ("a5", with arguments at 200 and 300). *)
Example set_not_left : scan_answer [97; 53] [37; 91; 97; 93; 37; 100] [200; 300] = Some (1, [97; 0; 0]).
Proof. vm_compute. reflexivity. Qed.

(** "%[a-c]" takes a and the characters from '-' to 'b': the c of "abc" is left,
    and the . of "b.c" is taken. *)
Example set_range_wrong :
  scan_answer [97; 98; 99] [37; 91; 97; 45; 99; 93] [200] = Some (1, [97; 98; 0]) ∧
  scan_answer [98; 46; 99] [37; 91; 97; 45; 99; 93] [200] = Some (1, [98; 46; 0]).
Proof. split; vm_compute; reflexivity. Qed.

(** "%1[a]" stores the whole run; "%*[a]b" stops although the run matches. *)
Example set_width_ignored :
  scan_answer [97; 97] [37; 49; 91; 97; 93] [200] = Some (1, [97; 97; 0]) ∧
  scan_answer [97; 98; 53] [37; 42; 91; 97; 93; 98; 37; 100] [200] = Some (0, [0; 0; 0]).
Proof. split; vm_compute; reflexivity. Qed.

(** "%s" stops at a leading blank with nothing read; "%*c%c" does not step over
    the first character ("xy"). *)
Example s_keeps_blanks :
  scan_answer [32; 97] [37; 115] [200] = Some (0, [0; 0; 0]) ∧
  scan_answer [120; 121] [37; 42; 99; 37; 99] [200] = Some (1, [120; 0; 0]).
Proof. split; vm_compute; reflexivity. Qed.
