(* ===== verification/Zcheck.v ===== *)
(** * Check sums of compressed data (usr/klibc/zlib/adler32.c, crc32.c, crc32.h)

    The Adler-32 sum with its delayed reduction, and the CRC-32 with its eight
    tables, a byte and four bytes at a time, for both byte orders; and the sums
    of two pieces of data put together.  The reference definitions take a byte,
    for the CRC a bit, at a time. *)

From S2P Require Import Prelude Klib.

(** ** The tables

    As the source has them; crc32.h is made by [make_crc_table]. *)

(* usr/klibc/zlib/crc32.h:8-59 crc_table *)
Definition crc_table_0 : list Z :=
  [0x00000000; 0x77073096; 0xee0e612c; 0x990951ba; 0x076dc419; 0x706af48f; 0xe963a535; 0x9e6495a3; 0x0edb8832; 0x79dcb8a4;
   0xe0d5e91e; 0x97d2d988; 0x09b64c2b; 0x7eb17cbd; 0xe7b82d07; 0x90bf1d91; 0x1db71064; 0x6ab020f2; 0xf3b97148; 0x84be41de;
   0x1adad47d; 0x6ddde4eb; 0xf4d4b551; 0x83d385c7; 0x136c9856; 0x646ba8c0; 0xfd62f97a; 0x8a65c9ec; 0x14015c4f; 0x63066cd9;
   0xfa0f3d63; 0x8d080df5; 0x3b6e20c8; 0x4c69105e; 0xd56041e4; 0xa2677172; 0x3c03e4d1; 0x4b04d447; 0xd20d85fd; 0xa50ab56b;
   0x35b5a8fa; 0x42b2986c; 0xdbbbc9d6; 0xacbcf940; 0x32d86ce3; 0x45df5c75; 0xdcd60dcf; 0xabd13d59; 0x26d930ac; 0x51de003a;
   0xc8d75180; 0xbfd06116; 0x21b4f4b5; 0x56b3c423; 0xcfba9599; 0xb8bda50f; 0x2802b89e; 0x5f058808; 0xc60cd9b2; 0xb10be924;
   0x2f6f7c87; 0x58684c11; 0xc1611dab; 0xb6662d3d; 0x76dc4190; 0x01db7106; 0x98d220bc; 0xefd5102a; 0x71b18589; 0x06b6b51f;
   0x9fbfe4a5; 0xe8b8d433; 0x7807c9a2; 0x0f00f934; 0x9609a88e; 0xe10e9818; 0x7f6a0dbb; 0x086d3d2d; 0x91646c97; 0xe6635c01;
   0x6b6b51f4; 0x1c6c6162; 0x856530d8; 0xf262004e; 0x6c0695ed; 0x1b01a57b; 0x8208f4c1; 0xf50fc457; 0x65b0d9c6; 0x12b7e950;
   0x8bbeb8ea; 0xfcb9887c; 0x62dd1ddf; 0x15da2d49; 0x8cd37cf3; 0xfbd44c65; 0x4db26158; 0x3ab551ce; 0xa3bc0074; 0xd4bb30e2;
   0x4adfa541; 0x3dd895d7; 0xa4d1c46d; 0xd3d6f4fb; 0x4369e96a; 0x346ed9fc; 0xad678846; 0xda60b8d0; 0x44042d73; 0x33031de5;
   0xaa0a4c5f; 0xdd0d7cc9; 0x5005713c; 0x270241aa; 0xbe0b1010; 0xc90c2086; 0x5768b525; 0x206f85b3; 0xb966d409; 0xce61e49f;
   0x5edef90e; 0x29d9c998; 0xb0d09822; 0xc7d7a8b4; 0x59b33d17; 0x2eb40d81; 0xb7bd5c3b; 0xc0ba6cad; 0xedb88320; 0x9abfb3b6;
   0x03b6e20c; 0x74b1d29a; 0xead54739; 0x9dd277af; 0x04db2615; 0x73dc1683; 0xe3630b12; 0x94643b84; 0x0d6d6a3e; 0x7a6a5aa8;
   0xe40ecf0b; 0x9309ff9d; 0x0a00ae27; 0x7d079eb1; 0xf00f9344; 0x8708a3d2; 0x1e01f268; 0x6906c2fe; 0xf762575d; 0x806567cb;
   0x196c3671; 0x6e6b06e7; 0xfed41b76; 0x89d32be0; 0x10da7a5a; 0x67dd4acc; 0xf9b9df6f; 0x8ebeeff9; 0x17b7be43; 0x60b08ed5;
   0xd6d6a3e8; 0xa1d1937e; 0x38d8c2c4; 0x4fdff252; 0xd1bb67f1; 0xa6bc5767; 0x3fb506dd; 0x48b2364b; 0xd80d2bda; 0xaf0a1b4c;
   0x36034af6; 0x41047a60; 0xdf60efc3; 0xa867df55; 0x316e8eef; 0x4669be79; 0xcb61b38c; 0xbc66831a; 0x256fd2a0; 0x5268e236;
   0xcc0c7795; 0xbb0b4703; 0x220216b9; 0x5505262f; 0xc5ba3bbe; 0xb2bd0b28; 0x2bb45a92; 0x5cb36a04; 0xc2d7ffa7; 0xb5d0cf31;
   0x2cd99e8b; 0x5bdeae1d; 0x9b64c2b0; 0xec63f226; 0x756aa39c; 0x026d930a; 0x9c0906a9; 0xeb0e363f; 0x72076785; 0x05005713;
   0x95bf4a82; 0xe2b87a14; 0x7bb12bae; 0x0cb61b38; 0x92d28e9b; 0xe5d5be0d; 0x7cdcefb7; 0x0bdbdf21; 0x86d3d2d4; 0xf1d4e242;
   0x68ddb3f8; 0x1fda836e; 0x81be16cd; 0xf6b9265b; 0x6fb077e1; 0x18b74777; 0x88085ae6; 0xff0f6a70; 0x66063bca; 0x11010b5c;
   0x8f659eff; 0xf862ae69; 0x616bffd3; 0x166ccf45; 0xa00ae278; 0xd70dd2ee; 0x4e048354; 0x3903b3c2; 0xa7672661; 0xd06016f7;
   0x4969474d; 0x3e6e77db; 0xaed16a4a; 0xd9d65adc; 0x40df0b66; 0x37d83bf0; 0xa9bcae53; 0xdebb9ec5; 0x47b2cf7f; 0x30b5ffe9;
   0xbdbdf21c; 0xcabac28a; 0x53b39330; 0x24b4a3a6; 0xbad03605; 0xcdd70693; 0x54de5729; 0x23d967bf; 0xb3667a2e; 0xc4614ab8;
   0x5d681b02; 0x2a6f2b94; 0xb40bbe37; 0xc30c8ea1; 0x5a05df1b; 0x2d02ef8d].
(* usr/klibc/zlib/crc32.h:63-114 crc_table *)
Definition crc_table_1 : list Z :=
  [0x00000000; 0x191b3141; 0x32366282; 0x2b2d53c3; 0x646cc504; 0x7d77f445; 0x565aa786; 0x4f4196c7; 0xc8d98a08; 0xd1c2bb49;
   0xfaefe88a; 0xe3f4d9cb; 0xacb54f0c; 0xb5ae7e4d; 0x9e832d8e; 0x87981ccf; 0x4ac21251; 0x53d92310; 0x78f470d3; 0x61ef4192;
   0x2eaed755; 0x37b5e614; 0x1c98b5d7; 0x05838496; 0x821b9859; 0x9b00a918; 0xb02dfadb; 0xa936cb9a; 0xe6775d5d; 0xff6c6c1c;
   0xd4413fdf; 0xcd5a0e9e; 0x958424a2; 0x8c9f15e3; 0xa7b24620; 0xbea97761; 0xf1e8e1a6; 0xe8f3d0e7; 0xc3de8324; 0xdac5b265;
   0x5d5daeaa; 0x44469feb; 0x6f6bcc28; 0x7670fd69; 0x39316bae; 0x202a5aef; 0x0b07092c; 0x121c386d; 0xdf4636f3; 0xc65d07b2;
   0xed705471; 0xf46b6530; 0xbb2af3f7; 0xa231c2b6; 0x891c9175; 0x9007a034; 0x179fbcfb; 0x0e848dba; 0x25a9de79; 0x3cb2ef38;
   0x73f379ff; 0x6ae848be; 0x41c51b7d; 0x58de2a3c; 0xf0794f05; 0xe9627e44; 0xc24f2d87; 0xdb541cc6; 0x94158a01; 0x8d0ebb40;
   0xa623e883; 0xbf38d9c2; 0x38a0c50d; 0x21bbf44c; 0x0a96a78f; 0x138d96ce; 0x5ccc0009; 0x45d73148; 0x6efa628b; 0x77e153ca;
   0xbabb5d54; 0xa3a06c15; 0x888d3fd6; 0x91960e97; 0xded79850; 0xc7cca911; 0xece1fad2; 0xf5facb93; 0x7262d75c; 0x6b79e61d;
   0x4054b5de; 0x594f849f; 0x160e1258; 0x0f152319; 0x243870da; 0x3d23419b; 0x65fd6ba7; 0x7ce65ae6; 0x57cb0925; 0x4ed03864;
   0x0191aea3; 0x188a9fe2; 0x33a7cc21; 0x2abcfd60; 0xad24e1af; 0xb43fd0ee; 0x9f12832d; 0x8609b26c; 0xc94824ab; 0xd05315ea;
   0xfb7e4629; 0xe2657768; 0x2f3f79f6; 0x362448b7; 0x1d091b74; 0x04122a35; 0x4b53bcf2; 0x52488db3; 0x7965de70; 0x607eef31;
   0xe7e6f3fe; 0xfefdc2bf; 0xd5d0917c; 0xcccba03d; 0x838a36fa; 0x9a9107bb; 0xb1bc5478; 0xa8a76539; 0x3b83984b; 0x2298a90a;
   0x09b5fac9; 0x10aecb88; 0x5fef5d4f; 0x46f46c0e; 0x6dd93fcd; 0x74c20e8c; 0xf35a1243; 0xea412302; 0xc16c70c1; 0xd8774180;
   0x9736d747; 0x8e2de606; 0xa500b5c5; 0xbc1b8484; 0x71418a1a; 0x685abb5b; 0x4377e898; 0x5a6cd9d9; 0x152d4f1e; 0x0c367e5f;
   0x271b2d9c; 0x3e001cdd; 0xb9980012; 0xa0833153; 0x8bae6290; 0x92b553d1; 0xddf4c516; 0xc4eff457; 0xefc2a794; 0xf6d996d5;
   0xae07bce9; 0xb71c8da8; 0x9c31de6b; 0x852aef2a; 0xca6b79ed; 0xd37048ac; 0xf85d1b6f; 0xe1462a2e; 0x66de36e1; 0x7fc507a0;
   0x54e85463; 0x4df36522; 0x02b2f3e5; 0x1ba9c2a4; 0x30849167; 0x299fa026; 0xe4c5aeb8; 0xfdde9ff9; 0xd6f3cc3a; 0xcfe8fd7b;
   0x80a96bbc; 0x99b25afd; 0xb29f093e; 0xab84387f; 0x2c1c24b0; 0x350715f1; 0x1e2a4632; 0x07317773; 0x4870e1b4; 0x516bd0f5;
   0x7a468336; 0x635db277; 0xcbfad74e; 0xd2e1e60f; 0xf9ccb5cc; 0xe0d7848d; 0xaf96124a; 0xb68d230b; 0x9da070c8; 0x84bb4189;
   0x03235d46; 0x1a386c07; 0x31153fc4; 0x280e0e85; 0x674f9842; 0x7e54a903; 0x5579fac0; 0x4c62cb81; 0x8138c51f; 0x9823f45e;
   0xb30ea79d; 0xaa1596dc; 0xe554001b; 0xfc4f315a; 0xd7626299; 0xce7953d8; 0x49e14f17; 0x50fa7e56; 0x7bd72d95; 0x62cc1cd4;
   0x2d8d8a13; 0x3496bb52; 0x1fbbe891; 0x06a0d9d0; 0x5e7ef3ec; 0x4765c2ad; 0x6c48916e; 0x7553a02f; 0x3a1236e8; 0x230907a9;
   0x0824546a; 0x113f652b; 0x96a779e4; 0x8fbc48a5; 0xa4911b66; 0xbd8a2a27; 0xf2cbbce0; 0xebd08da1; 0xc0fdde62; 0xd9e6ef23;
   0x14bce1bd; 0x0da7d0fc; 0x268a833f; 0x3f91b27e; 0x70d024b9; 0x69cb15f8; 0x42e6463b; 0x5bfd777a; 0xdc656bb5; 0xc57e5af4;
   0xee530937; 0xf7483876; 0xb809aeb1; 0xa1129ff0; 0x8a3fcc33; 0x9324fd72].
(* usr/klibc/zlib/crc32.h:117-168 crc_table *)
Definition crc_table_2 : list Z :=
  [0x00000000; 0x01c26a37; 0x0384d46e; 0x0246be59; 0x0709a8dc; 0x06cbc2eb; 0x048d7cb2; 0x054f1685; 0x0e1351b8; 0x0fd13b8f;
   0x0d9785d6; 0x0c55efe1; 0x091af964; 0x08d89353; 0x0a9e2d0a; 0x0b5c473d; 0x1c26a370; 0x1de4c947; 0x1fa2771e; 0x1e601d29;
   0x1b2f0bac; 0x1aed619b; 0x18abdfc2; 0x1969b5f5; 0x1235f2c8; 0x13f798ff; 0x11b126a6; 0x10734c91; 0x153c5a14; 0x14fe3023;
   0x16b88e7a; 0x177ae44d; 0x384d46e0; 0x398f2cd7; 0x3bc9928e; 0x3a0bf8b9; 0x3f44ee3c; 0x3e86840b; 0x3cc03a52; 0x3d025065;
   0x365e1758; 0x379c7d6f; 0x35dac336; 0x3418a901; 0x3157bf84; 0x3095d5b3; 0x32d36bea; 0x331101dd; 0x246be590; 0x25a98fa7;
   0x27ef31fe; 0x262d5bc9; 0x23624d4c; 0x22a0277b; 0x20e69922; 0x2124f315; 0x2a78b428; 0x2bbade1f; 0x29fc6046; 0x283e0a71;
   0x2d711cf4; 0x2cb376c3; 0x2ef5c89a; 0x2f37a2ad; 0x709a8dc0; 0x7158e7f7; 0x731e59ae; 0x72dc3399; 0x7793251c; 0x76514f2b;
   0x7417f172; 0x75d59b45; 0x7e89dc78; 0x7f4bb64f; 0x7d0d0816; 0x7ccf6221; 0x798074a4; 0x78421e93; 0x7a04a0ca; 0x7bc6cafd;
   0x6cbc2eb0; 0x6d7e4487; 0x6f38fade; 0x6efa90e9; 0x6bb5866c; 0x6a77ec5b; 0x68315202; 0x69f33835; 0x62af7f08; 0x636d153f;
   0x612bab66; 0x60e9c151; 0x65a6d7d4; 0x6464bde3; 0x662203ba; 0x67e0698d; 0x48d7cb20; 0x4915a117; 0x4b531f4e; 0x4a917579;
   0x4fde63fc; 0x4e1c09cb; 0x4c5ab792; 0x4d98dda5; 0x46c49a98; 0x4706f0af; 0x45404ef6; 0x448224c1; 0x41cd3244; 0x400f5873;
   0x4249e62a; 0x438b8c1d; 0x54f16850; 0x55330267; 0x5775bc3e; 0x56b7d609; 0x53f8c08c; 0x523aaabb; 0x507c14e2; 0x51be7ed5;
   0x5ae239e8; 0x5b2053df; 0x5966ed86; 0x58a487b1; 0x5deb9134; 0x5c29fb03; 0x5e6f455a; 0x5fad2f6d; 0xe1351b80; 0xe0f771b7;
   0xe2b1cfee; 0xe373a5d9; 0xe63cb35c; 0xe7fed96b; 0xe5b86732; 0xe47a0d05; 0xef264a38; 0xeee4200f; 0xeca29e56; 0xed60f461;
   0xe82fe2e4; 0xe9ed88d3; 0xebab368a; 0xea695cbd; 0xfd13b8f0; 0xfcd1d2c7; 0xfe976c9e; 0xff5506a9; 0xfa1a102c; 0xfbd87a1b;
   0xf99ec442; 0xf85cae75; 0xf300e948; 0xf2c2837f; 0xf0843d26; 0xf1465711; 0xf4094194; 0xf5cb2ba3; 0xf78d95fa; 0xf64fffcd;
   0xd9785d60; 0xd8ba3757; 0xdafc890e; 0xdb3ee339; 0xde71f5bc; 0xdfb39f8b; 0xddf521d2; 0xdc374be5; 0xd76b0cd8; 0xd6a966ef;
   0xd4efd8b6; 0xd52db281; 0xd062a404; 0xd1a0ce33; 0xd3e6706a; 0xd2241a5d; 0xc55efe10; 0xc49c9427; 0xc6da2a7e; 0xc7184049;
   0xc25756cc; 0xc3953cfb; 0xc1d382a2; 0xc011e895; 0xcb4dafa8; 0xca8fc59f; 0xc8c97bc6; 0xc90b11f1; 0xcc440774; 0xcd866d43;
   0xcfc0d31a; 0xce02b92d; 0x91af9640; 0x906dfc77; 0x922b422e; 0x93e92819; 0x96a63e9c; 0x976454ab; 0x9522eaf2; 0x94e080c5;
   0x9fbcc7f8; 0x9e7eadcf; 0x9c381396; 0x9dfa79a1; 0x98b56f24; 0x99770513; 0x9b31bb4a; 0x9af3d17d; 0x8d893530; 0x8c4b5f07;
   0x8e0de15e; 0x8fcf8b69; 0x8a809dec; 0x8b42f7db; 0x89044982; 0x88c623b5; 0x839a6488; 0x82580ebf; 0x801eb0e6; 0x81dcdad1;
   0x8493cc54; 0x8551a663; 0x8717183a; 0x86d5720d; 0xa9e2d0a0; 0xa820ba97; 0xaa6604ce; 0xaba46ef9; 0xaeeb787c; 0xaf29124b;
   0xad6fac12; 0xacadc625; 0xa7f18118; 0xa633eb2f; 0xa4755576; 0xa5b73f41; 0xa0f829c4; 0xa13a43f3; 0xa37cfdaa; 0xa2be979d;
   0xb5c473d0; 0xb40619e7; 0xb640a7be; 0xb782cd89; 0xb2cddb0c; 0xb30fb13b; 0xb1490f62; 0xb08b6555; 0xbbd72268; 0xba15485f;
   0xb853f606; 0xb9919c31; 0xbcde8ab4; 0xbd1ce083; 0xbf5a5eda; 0xbe9834ed].
(* usr/klibc/zlib/crc32.h:171-222 crc_table *)
Definition crc_table_3 : list Z :=
  [0x00000000; 0xb8bc6765; 0xaa09c88b; 0x12b5afee; 0x8f629757; 0x37def032; 0x256b5fdc; 0x9dd738b9; 0xc5b428ef; 0x7d084f8a;
   0x6fbde064; 0xd7018701; 0x4ad6bfb8; 0xf26ad8dd; 0xe0df7733; 0x58631056; 0x5019579f; 0xe8a530fa; 0xfa109f14; 0x42acf871;
   0xdf7bc0c8; 0x67c7a7ad; 0x75720843; 0xcdce6f26; 0x95ad7f70; 0x2d111815; 0x3fa4b7fb; 0x8718d09e; 0x1acfe827; 0xa2738f42;
   0xb0c620ac; 0x087a47c9; 0xa032af3e; 0x188ec85b; 0x0a3b67b5; 0xb28700d0; 0x2f503869; 0x97ec5f0c; 0x8559f0e2; 0x3de59787;
   0x658687d1; 0xdd3ae0b4; 0xcf8f4f5a; 0x7733283f; 0xeae41086; 0x525877e3; 0x40edd80d; 0xf851bf68; 0xf02bf8a1; 0x48979fc4;
   0x5a22302a; 0xe29e574f; 0x7f496ff6; 0xc7f50893; 0xd540a77d; 0x6dfcc018; 0x359fd04e; 0x8d23b72b; 0x9f9618c5; 0x272a7fa0;
   0xbafd4719; 0x0241207c; 0x10f48f92; 0xa848e8f7; 0x9b14583d; 0x23a83f58; 0x311d90b6; 0x89a1f7d3; 0x1476cf6a; 0xaccaa80f;
   0xbe7f07e1; 0x06c36084; 0x5ea070d2; 0xe61c17b7; 0xf4a9b859; 0x4c15df3c; 0xd1c2e785; 0x697e80e0; 0x7bcb2f0e; 0xc377486b;
   0xcb0d0fa2; 0x73b168c7; 0x6104c729; 0xd9b8a04c; 0x446f98f5; 0xfcd3ff90; 0xee66507e; 0x56da371b; 0x0eb9274d; 0xb6054028;
   0xa4b0efc6; 0x1c0c88a3; 0x81dbb01a; 0x3967d77f; 0x2bd27891; 0x936e1ff4; 0x3b26f703; 0x839a9066; 0x912f3f88; 0x299358ed;
   0xb4446054; 0x0cf80731; 0x1e4da8df; 0xa6f1cfba; 0xfe92dfec; 0x462eb889; 0x549b1767; 0xec277002; 0x71f048bb; 0xc94c2fde;
   0xdbf98030; 0x6345e755; 0x6b3fa09c; 0xd383c7f9; 0xc1366817; 0x798a0f72; 0xe45d37cb; 0x5ce150ae; 0x4e54ff40; 0xf6e89825;
   0xae8b8873; 0x1637ef16; 0x048240f8; 0xbc3e279d; 0x21e91f24; 0x99557841; 0x8be0d7af; 0x335cb0ca; 0xed59b63b; 0x55e5d15e;
   0x47507eb0; 0xffec19d5; 0x623b216c; 0xda874609; 0xc832e9e7; 0x708e8e82; 0x28ed9ed4; 0x9051f9b1; 0x82e4565f; 0x3a58313a;
   0xa78f0983; 0x1f336ee6; 0x0d86c108; 0xb53aa66d; 0xbd40e1a4; 0x05fc86c1; 0x1749292f; 0xaff54e4a; 0x322276f3; 0x8a9e1196;
   0x982bbe78; 0x2097d91d; 0x78f4c94b; 0xc048ae2e; 0xd2fd01c0; 0x6a4166a5; 0xf7965e1c; 0x4f2a3979; 0x5d9f9697; 0xe523f1f2;
   0x4d6b1905; 0xf5d77e60; 0xe762d18e; 0x5fdeb6eb; 0xc2098e52; 0x7ab5e937; 0x680046d9; 0xd0bc21bc; 0x88df31ea; 0x3063568f;
   0x22d6f961; 0x9a6a9e04; 0x07bda6bd; 0xbf01c1d8; 0xadb46e36; 0x15080953; 0x1d724e9a; 0xa5ce29ff; 0xb77b8611; 0x0fc7e174;
   0x9210d9cd; 0x2aacbea8; 0x38191146; 0x80a57623; 0xd8c66675; 0x607a0110; 0x72cfaefe; 0xca73c99b; 0x57a4f122; 0xef189647;
   0xfdad39a9; 0x45115ecc; 0x764dee06; 0xcef18963; 0xdc44268d; 0x64f841e8; 0xf92f7951; 0x41931e34; 0x5326b1da; 0xeb9ad6bf;
   0xb3f9c6e9; 0x0b45a18c; 0x19f00e62; 0xa14c6907; 0x3c9b51be; 0x842736db; 0x96929935; 0x2e2efe50; 0x2654b999; 0x9ee8defc;
   0x8c5d7112; 0x34e11677; 0xa9362ece; 0x118a49ab; 0x033fe645; 0xbb838120; 0xe3e09176; 0x5b5cf613; 0x49e959fd; 0xf1553e98;
   0x6c820621; 0xd43e6144; 0xc68bceaa; 0x7e37a9cf; 0xd67f4138; 0x6ec3265d; 0x7c7689b3; 0xc4caeed6; 0x591dd66f; 0xe1a1b10a;
   0xf3141ee4; 0x4ba87981; 0x13cb69d7; 0xab770eb2; 0xb9c2a15c; 0x017ec639; 0x9ca9fe80; 0x241599e5; 0x36a0360b; 0x8e1c516e;
   0x866616a7; 0x3eda71c2; 0x2c6fde2c; 0x94d3b949; 0x090481f0; 0xb1b8e695; 0xa30d497b; 0x1bb12e1e; 0x43d23e48; 0xfb6e592d;
   0xe9dbf6c3; 0x516791a6; 0xccb0a91f; 0x740cce7a; 0x66b96194; 0xde0506f1].
(* usr/klibc/zlib/crc32.h:225-276 crc_table *)
Definition crc_table_4 : list Z :=
  [0x00000000; 0x96300777; 0x2c610eee; 0xba510999; 0x19c46d07; 0x8ff46a70; 0x35a563e9; 0xa395649e; 0x3288db0e; 0xa4b8dc79;
   0x1ee9d5e0; 0x88d9d297; 0x2b4cb609; 0xbd7cb17e; 0x072db8e7; 0x911dbf90; 0x6410b71d; 0xf220b06a; 0x4871b9f3; 0xde41be84;
   0x7dd4da1a; 0xebe4dd6d; 0x51b5d4f4; 0xc785d383; 0x56986c13; 0xc0a86b64; 0x7af962fd; 0xecc9658a; 0x4f5c0114; 0xd96c0663;
   0x633d0ffa; 0xf50d088d; 0xc8206e3b; 0x5e10694c; 0xe44160d5; 0x727167a2; 0xd1e4033c; 0x47d4044b; 0xfd850dd2; 0x6bb50aa5;
   0xfaa8b535; 0x6c98b242; 0xd6c9bbdb; 0x40f9bcac; 0xe36cd832; 0x755cdf45; 0xcf0dd6dc; 0x593dd1ab; 0xac30d926; 0x3a00de51;
   0x8051d7c8; 0x1661d0bf; 0xb5f4b421; 0x23c4b356; 0x9995bacf; 0x0fa5bdb8; 0x9eb80228; 0x0888055f; 0xb2d90cc6; 0x24e90bb1;
   0x877c6f2f; 0x114c6858; 0xab1d61c1; 0x3d2d66b6; 0x9041dc76; 0x0671db01; 0xbc20d298; 0x2a10d5ef; 0x8985b171; 0x1fb5b606;
   0xa5e4bf9f; 0x33d4b8e8; 0xa2c90778; 0x34f9000f; 0x8ea80996; 0x18980ee1; 0xbb0d6a7f; 0x2d3d6d08; 0x976c6491; 0x015c63e6;
   0xf4516b6b; 0x62616c1c; 0xd8306585; 0x4e0062f2; 0xed95066c; 0x7ba5011b; 0xc1f40882; 0x57c40ff5; 0xc6d9b065; 0x50e9b712;
   0xeab8be8b; 0x7c88b9fc; 0xdf1ddd62; 0x492dda15; 0xf37cd38c; 0x654cd4fb; 0x5861b24d; 0xce51b53a; 0x7400bca3; 0xe230bbd4;
   0x41a5df4a; 0xd795d83d; 0x6dc4d1a4; 0xfbf4d6d3; 0x6ae96943; 0xfcd96e34; 0x468867ad; 0xd0b860da; 0x732d0444; 0xe51d0333;
   0x5f4c0aaa; 0xc97c0ddd; 0x3c710550; 0xaa410227; 0x10100bbe; 0x86200cc9; 0x25b56857; 0xb3856f20; 0x09d466b9; 0x9fe461ce;
   0x0ef9de5e; 0x98c9d929; 0x2298d0b0; 0xb4a8d7c7; 0x173db359; 0x810db42e; 0x3b5cbdb7; 0xad6cbac0; 0x2083b8ed; 0xb6b3bf9a;
   0x0ce2b603; 0x9ad2b174; 0x3947d5ea; 0xaf77d29d; 0x1526db04; 0x8316dc73; 0x120b63e3; 0x843b6494; 0x3e6a6d0d; 0xa85a6a7a;
   0x0bcf0ee4; 0x9dff0993; 0x27ae000a; 0xb19e077d; 0x44930ff0; 0xd2a30887; 0x68f2011e; 0xfec20669; 0x5d5762f7; 0xcb676580;
   0x71366c19; 0xe7066b6e; 0x761bd4fe; 0xe02bd389; 0x5a7ada10; 0xcc4add67; 0x6fdfb9f9; 0xf9efbe8e; 0x43beb717; 0xd58eb060;
   0xe8a3d6d6; 0x7e93d1a1; 0xc4c2d838; 0x52f2df4f; 0xf167bbd1; 0x6757bca6; 0xdd06b53f; 0x4b36b248; 0xda2b0dd8; 0x4c1b0aaf;
   0xf64a0336; 0x607a0441; 0xc3ef60df; 0x55df67a8; 0xef8e6e31; 0x79be6946; 0x8cb361cb; 0x1a8366bc; 0xa0d26f25; 0x36e26852;
   0x95770ccc; 0x03470bbb; 0xb9160222; 0x2f260555; 0xbe3bbac5; 0x280bbdb2; 0x925ab42b; 0x046ab35c; 0xa7ffd7c2; 0x31cfd0b5;
   0x8b9ed92c; 0x1daede5b; 0xb0c2649b; 0x26f263ec; 0x9ca36a75; 0x0a936d02; 0xa906099c; 0x3f360eeb; 0x85670772; 0x13570005;
   0x824abf95; 0x147ab8e2; 0xae2bb17b; 0x381bb60c; 0x9b8ed292; 0x0dbed5e5; 0xb7efdc7c; 0x21dfdb0b; 0xd4d2d386; 0x42e2d4f1;
   0xf8b3dd68; 0x6e83da1f; 0xcd16be81; 0x5b26b9f6; 0xe177b06f; 0x7747b718; 0xe65a0888; 0x706a0fff; 0xca3b0666; 0x5c0b0111;
   0xff9e658f; 0x69ae62f8; 0xd3ff6b61; 0x45cf6c16; 0x78e20aa0; 0xeed20dd7; 0x5483044e; 0xc2b30339; 0x612667a7; 0xf71660d0;
   0x4d476949; 0xdb776e3e; 0x4a6ad1ae; 0xdc5ad6d9; 0x660bdf40; 0xf03bd837; 0x53aebca9; 0xc59ebbde; 0x7fcfb247; 0xe9ffb530;
   0x1cf2bdbd; 0x8ac2baca; 0x3093b353; 0xa6a3b424; 0x0536d0ba; 0x9306d7cd; 0x2957de54; 0xbf67d923; 0x2e7a66b3; 0xb84a61c4;
   0x021b685d; 0x942b6f2a; 0x37be0bb4; 0xa18e0cc3; 0x1bdf055a; 0x8def022d].
(* usr/klibc/zlib/crc32.h:279-330 crc_table *)
Definition crc_table_5 : list Z :=
  [0x00000000; 0x41311b19; 0x82623632; 0xc3532d2b; 0x04c56c64; 0x45f4777d; 0x86a75a56; 0xc796414f; 0x088ad9c8; 0x49bbc2d1;
   0x8ae8effa; 0xcbd9f4e3; 0x0c4fb5ac; 0x4d7eaeb5; 0x8e2d839e; 0xcf1c9887; 0x5112c24a; 0x1023d953; 0xd370f478; 0x9241ef61;
   0x55d7ae2e; 0x14e6b537; 0xd7b5981c; 0x96848305; 0x59981b82; 0x18a9009b; 0xdbfa2db0; 0x9acb36a9; 0x5d5d77e6; 0x1c6c6cff;
   0xdf3f41d4; 0x9e0e5acd; 0xa2248495; 0xe3159f8c; 0x2046b2a7; 0x6177a9be; 0xa6e1e8f1; 0xe7d0f3e8; 0x2483dec3; 0x65b2c5da;
   0xaaae5d5d; 0xeb9f4644; 0x28cc6b6f; 0x69fd7076; 0xae6b3139; 0xef5a2a20; 0x2c09070b; 0x6d381c12; 0xf33646df; 0xb2075dc6;
   0x715470ed; 0x30656bf4; 0xf7f32abb; 0xb6c231a2; 0x75911c89; 0x34a00790; 0xfbbc9f17; 0xba8d840e; 0x79dea925; 0x38efb23c;
   0xff79f373; 0xbe48e86a; 0x7d1bc541; 0x3c2ade58; 0x054f79f0; 0x447e62e9; 0x872d4fc2; 0xc61c54db; 0x018a1594; 0x40bb0e8d;
   0x83e823a6; 0xc2d938bf; 0x0dc5a038; 0x4cf4bb21; 0x8fa7960a; 0xce968d13; 0x0900cc5c; 0x4831d745; 0x8b62fa6e; 0xca53e177;
   0x545dbbba; 0x156ca0a3; 0xd63f8d88; 0x970e9691; 0x5098d7de; 0x11a9ccc7; 0xd2fae1ec; 0x93cbfaf5; 0x5cd76272; 0x1de6796b;
   0xdeb55440; 0x9f844f59; 0x58120e16; 0x1923150f; 0xda703824; 0x9b41233d; 0xa76bfd65; 0xe65ae67c; 0x2509cb57; 0x6438d04e;
   0xa3ae9101; 0xe29f8a18; 0x21cca733; 0x60fdbc2a; 0xafe124ad; 0xeed03fb4; 0x2d83129f; 0x6cb20986; 0xab2448c9; 0xea1553d0;
   0x29467efb; 0x687765e2; 0xf6793f2f; 0xb7482436; 0x741b091d; 0x352a1204; 0xf2bc534b; 0xb38d4852; 0x70de6579; 0x31ef7e60;
   0xfef3e6e7; 0xbfc2fdfe; 0x7c91d0d5; 0x3da0cbcc; 0xfa368a83; 0xbb07919a; 0x7854bcb1; 0x3965a7a8; 0x4b98833b; 0x0aa99822;
   0xc9fab509; 0x88cbae10; 0x4f5def5f; 0x0e6cf446; 0xcd3fd96d; 0x8c0ec274; 0x43125af3; 0x022341ea; 0xc1706cc1; 0x804177d8;
   0x47d73697; 0x06e62d8e; 0xc5b500a5; 0x84841bbc; 0x1a8a4171; 0x5bbb5a68; 0x98e87743; 0xd9d96c5a; 0x1e4f2d15; 0x5f7e360c;
   0x9c2d1b27; 0xdd1c003e; 0x120098b9; 0x533183a0; 0x9062ae8b; 0xd153b592; 0x16c5f4dd; 0x57f4efc4; 0x94a7c2ef; 0xd596d9f6;
   0xe9bc07ae; 0xa88d1cb7; 0x6bde319c; 0x2aef2a85; 0xed796bca; 0xac4870d3; 0x6f1b5df8; 0x2e2a46e1; 0xe136de66; 0xa007c57f;
   0x6354e854; 0x2265f34d; 0xe5f3b202; 0xa4c2a91b; 0x67918430; 0x26a09f29; 0xb8aec5e4; 0xf99fdefd; 0x3accf3d6; 0x7bfde8cf;
   0xbc6ba980; 0xfd5ab299; 0x3e099fb2; 0x7f3884ab; 0xb0241c2c; 0xf1150735; 0x32462a1e; 0x73773107; 0xb4e17048; 0xf5d06b51;
   0x3683467a; 0x77b25d63; 0x4ed7facb; 0x0fe6e1d2; 0xccb5ccf9; 0x8d84d7e0; 0x4a1296af; 0x0b238db6; 0xc870a09d; 0x8941bb84;
   0x465d2303; 0x076c381a; 0xc43f1531; 0x850e0e28; 0x42984f67; 0x03a9547e; 0xc0fa7955; 0x81cb624c; 0x1fc53881; 0x5ef42398;
   0x9da70eb3; 0xdc9615aa; 0x1b0054e5; 0x5a314ffc; 0x996262d7; 0xd85379ce; 0x174fe149; 0x567efa50; 0x952dd77b; 0xd41ccc62;
   0x138a8d2d; 0x52bb9634; 0x91e8bb1f; 0xd0d9a006; 0xecf37e5e; 0xadc26547; 0x6e91486c; 0x2fa05375; 0xe836123a; 0xa9070923;
   0x6a542408; 0x2b653f11; 0xe479a796; 0xa548bc8f; 0x661b91a4; 0x272a8abd; 0xe0bccbf2; 0xa18dd0eb; 0x62defdc0; 0x23efe6d9;
   0xbde1bc14; 0xfcd0a70d; 0x3f838a26; 0x7eb2913f; 0xb924d070; 0xf815cb69; 0x3b46e642; 0x7a77fd5b; 0xb56b65dc; 0xf45a7ec5;
   0x370953ee; 0x763848f7; 0xb1ae09b8; 0xf09f12a1; 0x33cc3f8a; 0x72fd2493].
(* usr/klibc/zlib/crc32.h:333-384 crc_table *)
Definition crc_table_6 : list Z :=
  [0x00000000; 0x376ac201; 0x6ed48403; 0x59be4602; 0xdca80907; 0xebc2cb06; 0xb27c8d04; 0x85164f05; 0xb851130e; 0x8f3bd10f;
   0xd685970d; 0xe1ef550c; 0x64f91a09; 0x5393d808; 0x0a2d9e0a; 0x3d475c0b; 0x70a3261c; 0x47c9e41d; 0x1e77a21f; 0x291d601e;
   0xac0b2f1b; 0x9b61ed1a; 0xc2dfab18; 0xf5b56919; 0xc8f23512; 0xff98f713; 0xa626b111; 0x914c7310; 0x145a3c15; 0x2330fe14;
   0x7a8eb816; 0x4de47a17; 0xe0464d38; 0xd72c8f39; 0x8e92c93b; 0xb9f80b3a; 0x3cee443f; 0x0b84863e; 0x523ac03c; 0x6550023d;
   0x58175e36; 0x6f7d9c37; 0x36c3da35; 0x01a91834; 0x84bf5731; 0xb3d59530; 0xea6bd332; 0xdd011133; 0x90e56b24; 0xa78fa925;
   0xfe31ef27; 0xc95b2d26; 0x4c4d6223; 0x7b27a022; 0x2299e620; 0x15f32421; 0x28b4782a; 0x1fdeba2b; 0x4660fc29; 0x710a3e28;
   0xf41c712d; 0xc376b32c; 0x9ac8f52e; 0xada2372f; 0xc08d9a70; 0xf7e75871; 0xae591e73; 0x9933dc72; 0x1c259377; 0x2b4f5176;
   0x72f11774; 0x459bd575; 0x78dc897e; 0x4fb64b7f; 0x16080d7d; 0x2162cf7c; 0xa4748079; 0x931e4278; 0xcaa0047a; 0xfdcac67b;
   0xb02ebc6c; 0x87447e6d; 0xdefa386f; 0xe990fa6e; 0x6c86b56b; 0x5bec776a; 0x02523168; 0x3538f369; 0x087faf62; 0x3f156d63;
   0x66ab2b61; 0x51c1e960; 0xd4d7a665; 0xe3bd6464; 0xba032266; 0x8d69e067; 0x20cbd748; 0x17a11549; 0x4e1f534b; 0x7975914a;
   0xfc63de4f; 0xcb091c4e; 0x92b75a4c; 0xa5dd984d; 0x989ac446; 0xaff00647; 0xf64e4045; 0xc1248244; 0x4432cd41; 0x73580f40;
   0x2ae64942; 0x1d8c8b43; 0x5068f154; 0x67023355; 0x3ebc7557; 0x09d6b756; 0x8cc0f853; 0xbbaa3a52; 0xe2147c50; 0xd57ebe51;
   0xe839e25a; 0xdf53205b; 0x86ed6659; 0xb187a458; 0x3491eb5d; 0x03fb295c; 0x5a456f5e; 0x6d2fad5f; 0x801b35e1; 0xb771f7e0;
   0xeecfb1e2; 0xd9a573e3; 0x5cb33ce6; 0x6bd9fee7; 0x3267b8e5; 0x050d7ae4; 0x384a26ef; 0x0f20e4ee; 0x569ea2ec; 0x61f460ed;
   0xe4e22fe8; 0xd388ede9; 0x8a36abeb; 0xbd5c69ea; 0xf0b813fd; 0xc7d2d1fc; 0x9e6c97fe; 0xa90655ff; 0x2c101afa; 0x1b7ad8fb;
   0x42c49ef9; 0x75ae5cf8; 0x48e900f3; 0x7f83c2f2; 0x263d84f0; 0x115746f1; 0x944109f4; 0xa32bcbf5; 0xfa958df7; 0xcdff4ff6;
   0x605d78d9; 0x5737bad8; 0x0e89fcda; 0x39e33edb; 0xbcf571de; 0x8b9fb3df; 0xd221f5dd; 0xe54b37dc; 0xd80c6bd7; 0xef66a9d6;
   0xb6d8efd4; 0x81b22dd5; 0x04a462d0; 0x33cea0d1; 0x6a70e6d3; 0x5d1a24d2; 0x10fe5ec5; 0x27949cc4; 0x7e2adac6; 0x494018c7;
   0xcc5657c2; 0xfb3c95c3; 0xa282d3c1; 0x95e811c0; 0xa8af4dcb; 0x9fc58fca; 0xc67bc9c8; 0xf1110bc9; 0x740744cc; 0x436d86cd;
   0x1ad3c0cf; 0x2db902ce; 0x4096af91; 0x77fc6d90; 0x2e422b92; 0x1928e993; 0x9c3ea696; 0xab546497; 0xf2ea2295; 0xc580e094;
   0xf8c7bc9f; 0xcfad7e9e; 0x9613389c; 0xa179fa9d; 0x246fb598; 0x13057799; 0x4abb319b; 0x7dd1f39a; 0x3035898d; 0x075f4b8c;
   0x5ee10d8e; 0x698bcf8f; 0xec9d808a; 0xdbf7428b; 0x82490489; 0xb523c688; 0x88649a83; 0xbf0e5882; 0xe6b01e80; 0xd1dadc81;
   0x54cc9384; 0x63a65185; 0x3a181787; 0x0d72d586; 0xa0d0e2a9; 0x97ba20a8; 0xce0466aa; 0xf96ea4ab; 0x7c78ebae; 0x4b1229af;
   0x12ac6fad; 0x25c6adac; 0x1881f1a7; 0x2feb33a6; 0x765575a4; 0x413fb7a5; 0xc429f8a0; 0xf3433aa1; 0xaafd7ca3; 0x9d97bea2;
   0xd073c4b5; 0xe71906b4; 0xbea740b6; 0x89cd82b7; 0x0cdbcdb2; 0x3bb10fb3; 0x620f49b1; 0x55658bb0; 0x6822d7bb; 0x5f4815ba;
   0x06f653b8; 0x319c91b9; 0xb48adebc; 0x83e01cbd; 0xda5e5abf; 0xed3498be].
(* usr/klibc/zlib/crc32.h:387-438 crc_table *)
Definition crc_table_7 : list Z :=
  [0x00000000; 0x6567bcb8; 0x8bc809aa; 0xeeafb512; 0x5797628f; 0x32f0de37; 0xdc5f6b25; 0xb938d79d; 0xef28b4c5; 0x8a4f087d;
   0x64e0bd6f; 0x018701d7; 0xb8bfd64a; 0xddd86af2; 0x3377dfe0; 0x56106358; 0x9f571950; 0xfa30a5e8; 0x149f10fa; 0x71f8ac42;
   0xc8c07bdf; 0xada7c767; 0x43087275; 0x266fcecd; 0x707fad95; 0x1518112d; 0xfbb7a43f; 0x9ed01887; 0x27e8cf1a; 0x428f73a2;
   0xac20c6b0; 0xc9477a08; 0x3eaf32a0; 0x5bc88e18; 0xb5673b0a; 0xd00087b2; 0x6938502f; 0x0c5fec97; 0xe2f05985; 0x8797e53d;
   0xd1878665; 0xb4e03add; 0x5a4f8fcf; 0x3f283377; 0x8610e4ea; 0xe3775852; 0x0dd8ed40; 0x68bf51f8; 0xa1f82bf0; 0xc49f9748;
   0x2a30225a; 0x4f579ee2; 0xf66f497f; 0x9308f5c7; 0x7da740d5; 0x18c0fc6d; 0x4ed09f35; 0x2bb7238d; 0xc518969f; 0xa07f2a27;
   0x1947fdba; 0x7c204102; 0x928ff410; 0xf7e848a8; 0x3d58149b; 0x583fa823; 0xb6901d31; 0xd3f7a189; 0x6acf7614; 0x0fa8caac;
   0xe1077fbe; 0x8460c306; 0xd270a05e; 0xb7171ce6; 0x59b8a9f4; 0x3cdf154c; 0x85e7c2d1; 0xe0807e69; 0x0e2fcb7b; 0x6b4877c3;
   0xa20f0dcb; 0xc768b173; 0x29c70461; 0x4ca0b8d9; 0xf5986f44; 0x90ffd3fc; 0x7e5066ee; 0x1b37da56; 0x4d27b90e; 0x284005b6;
   0xc6efb0a4; 0xa3880c1c; 0x1ab0db81; 0x7fd76739; 0x9178d22b; 0xf41f6e93; 0x03f7263b; 0x66909a83; 0x883f2f91; 0xed589329;
   0x546044b4; 0x3107f80c; 0xdfa84d1e; 0xbacff1a6; 0xecdf92fe; 0x89b82e46; 0x67179b54; 0x027027ec; 0xbb48f071; 0xde2f4cc9;
   0x3080f9db; 0x55e74563; 0x9ca03f6b; 0xf9c783d3; 0x176836c1; 0x720f8a79; 0xcb375de4; 0xae50e15c; 0x40ff544e; 0x2598e8f6;
   0x73888bae; 0x16ef3716; 0xf8408204; 0x9d273ebc; 0x241fe921; 0x41785599; 0xafd7e08b; 0xcab05c33; 0x3bb659ed; 0x5ed1e555;
   0xb07e5047; 0xd519ecff; 0x6c213b62; 0x094687da; 0xe7e932c8; 0x828e8e70; 0xd49eed28; 0xb1f95190; 0x5f56e482; 0x3a31583a;
   0x83098fa7; 0xe66e331f; 0x08c1860d; 0x6da63ab5; 0xa4e140bd; 0xc186fc05; 0x2f294917; 0x4a4ef5af; 0xf3762232; 0x96119e8a;
   0x78be2b98; 0x1dd99720; 0x4bc9f478; 0x2eae48c0; 0xc001fdd2; 0xa566416a; 0x1c5e96f7; 0x79392a4f; 0x97969f5d; 0xf2f123e5;
   0x05196b4d; 0x607ed7f5; 0x8ed162e7; 0xebb6de5f; 0x528e09c2; 0x37e9b57a; 0xd9460068; 0xbc21bcd0; 0xea31df88; 0x8f566330;
   0x61f9d622; 0x049e6a9a; 0xbda6bd07; 0xd8c101bf; 0x366eb4ad; 0x53090815; 0x9a4e721d; 0xff29cea5; 0x11867bb7; 0x74e1c70f;
   0xcdd91092; 0xa8beac2a; 0x46111938; 0x2376a580; 0x7566c6d8; 0x10017a60; 0xfeaecf72; 0x9bc973ca; 0x22f1a457; 0x479618ef;
   0xa939adfd; 0xcc5e1145; 0x06ee4d76; 0x6389f1ce; 0x8d2644dc; 0xe841f864; 0x51792ff9; 0x341e9341; 0xdab12653; 0xbfd69aeb;
   0xe9c6f9b3; 0x8ca1450b; 0x620ef019; 0x07694ca1; 0xbe519b3c; 0xdb362784; 0x35999296; 0x50fe2e2e; 0x99b95426; 0xfcdee89e;
   0x12715d8c; 0x7716e134; 0xce2e36a9; 0xab498a11; 0x45e63f03; 0x208183bb; 0x7691e0e3; 0x13f65c5b; 0xfd59e949; 0x983e55f1;
   0x2106826c; 0x44613ed4; 0xaace8bc6; 0xcfa9377e; 0x38417fd6; 0x5d26c36e; 0xb389767c; 0xd6eecac4; 0x6fd61d59; 0x0ab1a1e1;
   0xe41e14f3; 0x8179a84b; 0xd769cb13; 0xb20e77ab; 0x5ca1c2b9; 0x39c67e01; 0x80fea99c; 0xe5991524; 0x0b36a036; 0x6e511c8e;
   0xa7166686; 0xc271da3e; 0x2cde6f2c; 0x49b9d394; 0xf0810409; 0x95e6b8b1; 0x7b490da3; 0x1e2eb11b; 0x483ed243; 0x2d596efb;
   0xc3f6dbe9; 0xa6916751; 0x1fa9b0cc; 0x7ace0c74; 0x9461b966; 0xf10605de].
(* usr/klibc/zlib/crc32.h:5-441 crc_table *)
Definition crc_table : list (list Z) :=
  [crc_table_0; crc_table_1; crc_table_2; crc_table_3; crc_table_4; crc_table_5; crc_table_6; crc_table_7].
Definition tbl (k : nat) (n : Z) : Z := nth (Z.to_nat n) (nth k crc_table []) 0.

(** A value of n bits complemented. *)
Definition not32 (c : Z) : Z := u32 (Z.lnot c).

(* usr/klibc/zlib/crc32.c:56-57 REV *)
Definition REV (w : Z) : Z :=
  u32 (Z.shiftr w 24 + Z.land (Z.shiftr w 8) 0xff00 + Z.shiftl (Z.land w 0xff00) 8 + Z.shiftl (Z.land w 0xff) 24).

(** The terms of the polynomial, and the pattern made of them. *)
Definition poly_terms : list Z := [0; 1; 2; 4; 5; 7; 8; 10; 11; 12; 16; 22; 23; 26].
Definition poly : Z := foldl (λ w p, Z.lor w (Z.shiftl 1 (31 - p))) 0 poly_terms.

(** One bit of the shift register. *)
Definition crc_bit (c : Z) : Z := if Z.odd c then Z.lxor poly (Z.shiftr c 1) else Z.shiftr c 1.

(* usr/klibc/zlib/crc32.c:121-146 poly *)
Definition make_crc_table : list (list Z) :=
  let t0 := (λ n, Nat.iter 8 crc_bit n) <$> seqZ 0 256 in
  let next c := Z.lxor (nth (Z.to_nat (Z.land c 0xff)) t0 0) (Z.shiftr c 8) in
  let t1 := next <$> t0 in
  let t2 := next <$> t1 in
  let t3 := next <$> t2 in
  [t0; t1; t2; t3; REV <$> t0; REV <$> t1; REV <$> t2; REV <$> t3].

(** ** CRC-32 *)

(** One byte, in the register of either byte order (crc32.c:273 and 313). *)
Definition do_little (m : memory) (buf c : Z) : Z :=
  Z.lxor (tbl 0 (Z.land (Z.lxor c (ldc m buf)) 0xff)) (Z.shiftr c 8).
Definition do_big (m : memory) (buf c : Z) : Z :=
  Z.lxor (tbl 4 (Z.lxor (Z.shiftr c 24) (ldc m buf))) (u32 (Z.shiftl c 8)).

(* usr/klibc/zlib/crc32.c:256-258 DOLIT4 *)
Definition DOLIT4 (w c : Z) : Z :=
  let c := Z.lxor c w in
  Z.lxor (Z.lxor (Z.lxor (tbl 3 (Z.land c 0xff)) (tbl 2 (Z.land (Z.shiftr c 8) 0xff)))
    (tbl 1 (Z.land (Z.shiftr c 16) 0xff))) (tbl 0 (Z.shiftr c 24)).
(* usr/klibc/zlib/crc32.c:296-298 DOBIG4 *)
Definition DOBIG4 (w c : Z) : Z :=
  let c := Z.lxor c w in
  Z.lxor (Z.lxor (Z.lxor (tbl 4 (Z.land c 0xff)) (tbl 5 (Z.land (Z.shiftr c 8) 0xff)))
    (tbl 6 (Z.land (Z.shiftr c 16) 0xff))) (tbl 7 (Z.shiftr c 24)).

(** The loops, which are the same for both byte orders: bytes up to a multiple
    of four, eight words at a time, words, bytes.  [do1] takes a byte and [do4]
    a word, loaded by [ld]. *)
Section loops.
Context (m : memory) (do1 : Z → Z → Z) (do4 : Z → Z → Z) (ld : Z → Z).

Fixpoint to_aligned (fuel : nat) (c buf len : Z) : Z * Z * Z :=
  match fuel with
  | O => (c, buf, len)
  | S f => if decide (len ≠ 0 ∧ Z.land buf 3 ≠ 0) then to_aligned f (do1 buf c) (buf + 1) (len - 1) else (c, buf, len)
  end.
Fixpoint do_words (n : nat) (c buf : Z) : Z :=
  match n with O => c | S n => do_words n (do4 (ld buf) c) (buf + 4) end.
Definition do_32 (c buf : Z) : Z := do_words 8 c buf.
Fixpoint do_blocks (n : nat) (c buf : Z) : Z :=
  match n with O => c | S n => do_blocks n (do_32 c buf) (buf + 32) end.
Fixpoint do_bytes (n : nat) (c buf : Z) : Z :=
  match n with O => c | S n => do_bytes n (do1 buf c) (buf + 1) end.

Definition crc_run (c buf len : Z) : Z :=
  let '(c, buf, len) := to_aligned 4 c buf len in
  let c := do_blocks (Z.to_nat (len / 32)) c buf in
  let '(buf, len) := (buf + 32 * (len / 32), len `mod` 32) in
  let c := do_words (Z.to_nat (len / 4)) c buf in
  let '(buf, len) := (buf + 4 * (len / 4), len `mod` 4) in
  do_bytes (Z.to_nat len) c buf.
End loops.

(* usr/klibc/zlib/crc32.c:262-293 crc32_little *)
Definition crc32_little (m : memory) (crc buf len : Z) : Z :=
  not32 (crc_run (do_little m) DOLIT4 (ld32 m) (not32 crc) buf len).

(** A word as a machine of the other byte order loads it. *)
Definition ldbe (m : memory) (a : Z) : Z :=
  ldc m (a + 3) + 256 * ldc m (a + 2) + 65536 * ldc m (a + 1) + 16777216 * ldc m a.
(* usr/klibc/zlib/crc32.c:302-335 crc32_big *)
Definition crc32_big (m : memory) (crc buf len : Z) : Z :=
  REV (not32 (crc_run (do_big m) DOBIG4 (ldbe m) (not32 (REV crc)) buf len)).

(* usr/klibc/zlib/crc32.c:219-251 crc32 *)
Definition crc32 (m : memory) (crc buf len : Z) : Z :=
  if decide (buf = 0) then 0 else crc32_little m crc buf len.

(* usr/klibc/zlib/crc32.c:339-339 GF2_DIM *)
Definition GF2_DIM : Z := 32.

(** A product reads a row for every bit up to the highest one of the vector. *)
Fixpoint matrix_times (mat : list Z) (vec sum : Z) : outcome Z :=
  if decide (vec = 0) then Ok sum
  else match mat with
       | [] => Fault
       | row :: mat => matrix_times mat (Z.shiftr vec 1) (if Z.odd vec then Z.lxor sum row else sum)
       end.
(* usr/klibc/zlib/crc32.c:342-356 gf2_matrix_times *)
Definition gf2_matrix_times (mat : list Z) (vec : Z) : outcome Z := matrix_times mat vec 0.

Fixpoint square_rows (rows mat : list Z) : outcome (list Z) :=
  match rows with
  | [] => Ok []
  | r :: rows => v ← gf2_matrix_times mat r; sq ← square_rows rows mat; Ok (v :: sq)
  end.
(* usr/klibc/zlib/crc32.c:359-367 gf2_matrix_square *)
Definition gf2_matrix_square (mat : list Z) : outcome (list Z) := square_rows mat mat.

(** The loop (crc32.c:400-418); two rounds of it are one of the source. *)
Fixpoint combine_loop (fuel : nat) (op : list Z) (crc1 len2 : Z) : outcome Z :=
  match fuel with
  | O => Hang
  | S f =>
      op ← gf2_matrix_square op;
      crc1 ← (if Z.odd len2 then gf2_matrix_times op crc1 else Ok crc1);
      let len2 := Z.shiftr len2 1 in
      if decide (len2 = 0) then Ok crc1 else combine_loop f op crc1 len2
  end.

(* usr/klibc/zlib/crc32.c:370-423 crc32_combine *)
Definition crc32_combine (fuel : nat) (crc1 crc2 len2 : Z) : outcome Z :=
  if decide (len2 = 0) then Ok crc1
  else
    let odd := 0xedb88320 :: ((λ n, Z.shiftl 1 n) <$> seqZ 0 31) in
    even ← gf2_matrix_square odd;
    odd ← gf2_matrix_square even;
    crc1 ← combine_loop fuel odd crc1 len2;
    Ok (Z.lxor crc1 crc2).

(** ** Adler-32 *)

(* usr/klibc/zlib/adler32.c:11-12 BASE *)
Definition BASE : Z := 65521.
Definition NMAX : Z := 5552.

(** The sums [adler] and [sum2]. *)
Definition sums : Type := Z * Z.
(* usr/klibc/zlib/adler32.c:15-15 DO1 *)
Definition DO1 (m : memory) (buf i : Z) (s : sums) : sums :=
  let adler := u32 (s.1 + ldc m (buf + i)) in (adler, u32 (s.2 + adler)).
(* usr/klibc/zlib/adler32.c:16-16 DO2 *)
Definition DO2 (m : memory) (buf i : Z) (s : sums) : sums := DO1 m buf (i + 1) (DO1 m buf i s).
(* usr/klibc/zlib/adler32.c:17-17 DO4 *)
Definition DO4 (m : memory) (buf i : Z) (s : sums) : sums := DO2 m buf (i + 2) (DO2 m buf i s).
(* usr/klibc/zlib/adler32.c:18-18 DO8 *)
Definition DO8 (m : memory) (buf i : Z) (s : sums) : sums := DO4 m buf (i + 4) (DO4 m buf i s).
(* usr/klibc/zlib/adler32.c:19-19 DO16 *)
Definition DO16 (m : memory) (buf : Z) (s : sums) : sums := DO8 m buf 8 (DO8 m buf 0 s).

(* usr/klibc/zlib/adler32.c:52-53 MOD *)
Definition MOD (a : Z) : Z := a `mod` BASE.
Definition MOD4 (a : Z) : Z := a `mod` BASE.

Definition pack (adler sum2 : Z) : Z := Z.lor adler (u32 (Z.shiftl sum2 16)).
Definition less_base (a : Z) : Z := if decide (BASE ≤ a) then a - BASE else a.

Fixpoint sum_bytes (n : nat) (m : memory) (buf : Z) (s : sums) : sums :=
  match n with O => s | S n => sum_bytes n m (buf + 1) (DO1 m buf 0 s) end.
Fixpoint sum_16s (n : nat) (m : memory) (buf : Z) (s : sums) : sums :=
  match n with O => s | S n => sum_16s n m (buf + 16) (DO16 m buf s) end.
(** Blocks of [NMAX] bytes (adler32.c:97-106), [n] of them. *)
Fixpoint sum_blocks (n : nat) (m : memory) (buf : Z) (s : sums) : sums :=
  match n with
  | O => s
  | S n => let s := sum_16s (Z.to_nat (NMAX / 16)) m buf s in sum_blocks n m (buf + NMAX) (MOD s.1, MOD s.2)
  end.

(* usr/klibc/zlib/adler32.c:57-125 adler32 *)
Definition adler32 (m : memory) (adler buf len : Z) : Z :=
  let sum2 := Z.land (Z.shiftr adler 16) 0xffff in
  let adler := Z.land adler 0xffff in
  if decide (len = 1) then
    let adler := less_base (u32 (adler + ldc m buf)) in
    let sum2 := less_base (u32 (sum2 + adler)) in
    pack adler sum2
  else if decide (buf = 0) then 1
  else if decide (len < 16) then
    let s := sum_bytes (Z.to_nat len) m buf (adler, sum2) in
    pack (less_base s.1) (MOD4 s.2)
  else
    let s := sum_blocks (Z.to_nat (len / NMAX)) m buf (adler, sum2) in
    let '(buf, len) := (buf + NMAX * (len / NMAX), len `mod` NMAX) in
    let s :=
      if decide (len ≠ 0) then
        let s := sum_16s (Z.to_nat (len / 16)) m buf s in
        let s := sum_bytes (Z.to_nat (len `mod` 16)) m (buf + 16 * (len / 16)) s in
        (MOD s.1, MOD s.2)
      else s in
    pack s.1 s.2.

(* usr/klibc/zlib/adler32.c:128-149 adler32_combine *)
Definition adler32_combine (adler1 adler2 len2 : Z) : Z :=
  let rem := len2 `mod` BASE in
  let sum1 := Z.land adler1 0xffff in
  let sum2 := MOD (u32 (rem * sum1)) in
  let sum1 := u32 (sum1 + Z.land adler2 0xffff + BASE - 1) in
  let sum2 := u32 (sum2 + Z.land (Z.shiftr adler1 16) 0xffff + Z.land (Z.shiftr adler2 16) 0xffff + BASE - rem) in
  let sum1 := if decide (BASE < sum1) then sum1 - BASE else sum1 in
  let sum1 := if decide (BASE < sum1) then sum1 - BASE else sum1 in
  let sum2 := if decide (Z.shiftl BASE 1 < sum2) then sum2 - Z.shiftl BASE 1 else sum2 in
  let sum2 := if decide (BASE < sum2) then sum2 - BASE else sum2 in
  pack sum1 sum2.

(** ** Linearity of the register *)

Lemma lxor_ACA a b c d : Z.lxor (Z.lxor a b) (Z.lxor c d) = Z.lxor (Z.lxor a c) (Z.lxor b d).
Proof. rewrite !Z.lxor_assoc. f_equal. rewrite <- !Z.lxor_assoc. f_equal. apply Z.lxor_comm. Qed.

Lemma odd_lxor a b : Z.odd (Z.lxor a b) = xorb (Z.odd a) (Z.odd b).
Proof. rewrite <- !Z.bit0_odd. apply Z.lxor_spec. Qed.

Lemma crc_bit_lxor a b : crc_bit (Z.lxor a b) = Z.lxor (crc_bit a) (crc_bit b).
Proof.
  unfold crc_bit. rewrite odd_lxor, Z.shiftr_lxor. destruct (Z.odd a), (Z.odd b); cbn [xorb].
  - by rewrite lxor_ACA, Z.lxor_nilpotent, Z.lxor_0_l.
  - by rewrite Z.lxor_assoc.
  - by rewrite <- !Z.lxor_assoc, (Z.lxor_comm poly).
  - done.
Qed.

(** The register shifted by [n] zero bits. *)
Definition crc_zeros (n : nat) (c : Z) : Z := Nat.iter n crc_bit c.
#[global] Strategy 100 [crc_zeros].
#[global] Arguments crc_zeros : simpl never.

Lemma crc_zeros_lxor n a b : crc_zeros n (Z.lxor a b) = Z.lxor (crc_zeros n a) (crc_zeros n b).
Proof. unfold crc_zeros. induction n as [|n IH]; simpl; [done|]. by rewrite IH, crc_bit_lxor. Qed.
Lemma crc_zeros_add n k c : crc_zeros (n + k) c = crc_zeros n (crc_zeros k c).
Proof. unfold crc_zeros. induction n as [|n IH]; simpl; [done|]. by rewrite IH. Qed.
Lemma crc_zeros_0 n : crc_zeros n 0 = 0.
Proof. unfold crc_zeros. induction n as [|n IH]; simpl; [done|]. by rewrite IH. Qed.

Lemma crc_zeros_shiftl n c : crc_zeros n (Z.shiftl c (Z.of_nat n)) = c.
Proof.
  revert c. induction n as [|n IH]; intros c; [apply Z.shiftl_0_r|].
  replace (S n) with (n + 1)%nat by lia. rewrite crc_zeros_add.
  replace (Z.shiftl c (Z.of_nat (n + 1))) with (2 * Z.shiftl c (Z.of_nat n)).
  - unfold crc_zeros at 2. simpl. unfold crc_bit. rewrite Z.odd_mul. simpl.
    rewrite Z.shiftr_div_pow2 by lia. change (2 ^ 1) with 2. rewrite Z.mul_comm, Z.div_mul by lia. apply IH.
  - rewrite !Z.shiftl_mul_pow2, Nat2Z.inj_add, Z.pow_add_r by lia. lia.
Qed.

(** A number is its low bits and the others. *)
Lemma lxor_split c k : 0 ≤ k → c = Z.lxor (Z.land c (Z.ones k)) (Z.shiftl (Z.shiftr c k) k).
Proof.
  intros Hk. apply Z.bits_inj'. intros i Hi.
  rewrite Z.lxor_spec, Z.land_spec, Z.shiftl_spec by done.
  destruct (decide (i < k)).
  - rewrite Z.ones_spec_low, (Z.testbit_neg_r _ (i - k)) by lia. by rewrite andb_true_r, xorb_false_r.
  - rewrite Z.ones_spec_high, Z.shiftr_spec by lia. rewrite andb_false_r, xorb_false_l. f_equal. lia.
Qed.

Lemma crc_zeros_split n c :
  crc_zeros n c = Z.lxor (crc_zeros n (Z.land c (Z.ones (Z.of_nat n)))) (Z.shiftr c (Z.of_nat n)).
Proof.
  rewrite (lxor_split c (Z.of_nat n)) at 1 by lia. by rewrite crc_zeros_lxor, crc_zeros_shiftl.
Qed.

Abbreviation word a := (0 ≤ a < 2 ^ 32).

Lemma poly_word : word poly.
Proof. by vm_compute. Qed.
Lemma crc_bit_word c : word c → word (crc_bit c).
Proof.
  intros Hc. unfold crc_bit. assert (word (Z.shiftr c 1)).
  { pose proof (shiftr_bound 32 1 c ltac:(lia) Hc). lia. }
  destruct (Z.odd c); [apply lxor_bound; try done; apply poly_word|done].
Qed.
Lemma crc_zeros_word n c : word c → word (crc_zeros n c).
Proof. intros Hc. unfold crc_zeros. induction n as [|n IH]; simpl; [done|]. by apply crc_bit_word. Qed.

(** ** The tables are what they should be *)

Lemma crc_table_made : crc_table = make_crc_table.
Proof. vm_compute. reflexivity. Qed.

Lemma tbl_little k n : (k < 4)%nat → 0 ≤ n < 256 → tbl k n = crc_zeros (8 * (k + 1)) n.
Proof.
  intros Hk Hn. apply Z.eqb_eq.
  revert n Hn. apply (range_check (λ n, tbl k n =? crc_zeros (8 * (k + 1)) n)).
  do 4 (destruct k as [|k]; [vm_compute; reflexivity|]). lia.
Qed.
Lemma tbl_big k n : (k < 4)%nat → 0 ≤ n < 256 → tbl (k + 4) n = REV (tbl k n).
Proof.
  intros Hk Hn. apply Z.eqb_eq.
  revert n Hn. apply (range_check (λ n, tbl (k + 4) n =? REV (tbl k n))).
  do 4 (destruct k as [|k]; [vm_compute; reflexivity|]). lia.
Qed.

(** ** A byte and a word at a time *)

Definition crc_byte (c b : Z) : Z := crc_zeros 8 (Z.lxor c b).

Lemma ldc_byte m a : 0 ≤ ldc m a < 256.
Proof. by apply Z.mod_pos_bound. Qed.

Lemma land_ff_byte c : 0 ≤ Z.land c 0xff < 256.
Proof. change 0xff with (Z.ones 8). rewrite Z.land_ones by lia. by apply Z.mod_pos_bound. Qed.

Lemma shiftr_byte b k : 0 ≤ b < 2 ^ k → 0 ≤ k → Z.shiftr b k = 0.
Proof. intros Hb Hk. rewrite Z.shiftr_div_pow2 by lia. by apply Z.div_small. Qed.

Lemma do_little_byte m buf c : do_little m buf c = crc_byte c (ldc m buf).
Proof.
  pose proof (ldc_byte m buf) as Hb. unfold do_little, crc_byte.
  rewrite tbl_little by (lia || apply land_ff_byte). rewrite (crc_zeros_split 8 (Z.lxor c (ldc m buf))). f_equal.
  change (Z.of_nat 8) with 8. rewrite Z.shiftr_lxor, (shiftr_byte (ldc m buf)) by lia. by rewrite Z.lxor_0_r.
Qed.

(** The bytes of a word. *)
Lemma word_split w :
  w = Z.lxor (Z.land w 0xff) (Z.lxor (Z.shiftl (Z.land (Z.shiftr w 8) 0xff) 8)
    (Z.lxor (Z.shiftl (Z.land (Z.shiftr w 16) 0xff) 16) (Z.shiftl (Z.shiftr w 24) 24))).
Proof.
  rewrite (lxor_split w 8) at 1 by lia. change (Z.ones 8) with 0xff. f_equal.
  rewrite (lxor_split (Z.shiftr w 8) 8) at 1 by lia. change (Z.ones 8) with 0xff.
  rewrite Z.shiftl_lxor. f_equal. rewrite Z.shiftl_shiftl, Z.shiftr_shiftr by lia. change (8 + 8) with 16.
  rewrite (lxor_split (Z.shiftr w 16) 8) at 1 by lia. change (Z.ones 8) with 0xff.
  rewrite Z.shiftl_lxor. by f_equal.
Qed.

Lemma crc_zeros_shift n k b : crc_zeros (n + k) (Z.shiftl b (Z.of_nat k)) = crc_zeros n b.
Proof. by rewrite crc_zeros_add, crc_zeros_shiftl. Qed.

Lemma DOLIT4_word w c : word (Z.lxor c w) → DOLIT4 w c = crc_zeros 32 (Z.lxor c w).
Proof.
  intros Hx. unfold DOLIT4. set (x := Z.lxor c w) in *. cbv zeta.
  assert (0 ≤ Z.shiftr x 24 < 256) by (by apply (shiftr_bound 32 24)).
  rewrite !tbl_little by (lia || apply land_ff_byte). simpl Nat.mul.
  rewrite (word_split x) at 5. rewrite !crc_zeros_lxor.
  rewrite (crc_zeros_shift 24 8), (crc_zeros_shift 16 16), (crc_zeros_shift 8 24).
  by rewrite !Z.lxor_assoc.
Qed.

(** The bytes of a block. *)
Definition data (m : memory) (a n : Z) : list Z := u8 <$> bytes m a n.

Lemma data_app m a n k : 0 ≤ n → 0 ≤ k → data m a (n + k) = data m a n ++ data m (a + n) k.
Proof. intros. unfold data. by rewrite bytes_app, fmap_app. Qed.
Lemma data_1 m a : data m a 1 = [ldc m a].
Proof. unfold data, bytes, ldc. simpl. by rewrite Z.add_0_r. Qed.
Lemma data_4 m a : data m a 4 = [ldc m a; ldc m (a + 1); ldc m (a + 2); ldc m (a + 3)].
Proof. unfold data, bytes, ldc. simpl. by rewrite Z.add_0_r. Qed.
Lemma data_byte m a n : Forall (λ b, 0 ≤ b < 256) (data m a n).
Proof. apply Forall_fmap, Forall_true. intros. by apply Z.mod_pos_bound. Qed.
Lemma data_length m a n : 0 ≤ n → length (data m a n) = Z.to_nat n.
Proof. intros. unfold data, bytes. by rewrite !length_fmap, length_seqZ. Qed.

(** Four bytes put together are a word of the register. *)
Lemma lxor_bytes b0 b1 b2 b3 :
  0 ≤ b0 < 256 → 0 ≤ b1 < 256 → 0 ≤ b2 < 256 → 0 ≤ b3 < 256 →
  b0 + 256 * b1 + 65536 * b2 + 16777216 * b3 =
    Z.lxor b0 (Z.lxor (Z.shiftl b1 8) (Z.lxor (Z.shiftl b2 16) (Z.shiftl b3 24))).
Proof.
  intros. trans (b0 + 2 ^ 8 * (b1 + 2 ^ 8 * (b2 + 2 ^ 8 * b3))); [lia|].
  rewrite (lxor_add b2 b3), (lxor_add b1), (lxor_add b0) by lia. by rewrite !Z.shiftl_lxor.
Qed.

Lemma crc_four c b0 b1 b2 b3 :
  foldl crc_byte c [b0; b1; b2; b3] =
    crc_zeros 32 (Z.lxor c (Z.lxor b0 (Z.lxor (Z.shiftl b1 8) (Z.lxor (Z.shiftl b2 16) (Z.shiftl b3 24))))).
Proof.
  unfold foldl, crc_byte. rewrite !crc_zeros_lxor, <- !crc_zeros_add.
  pose proof (crc_zeros_shift 24 8 b1) as H1. pose proof (crc_zeros_shift 16 16 b2) as H2.
  pose proof (crc_zeros_shift 8 24 b3) as H3. simpl Nat.add in *.
  change (Z.of_nat 8) with 8 in H1. change (Z.of_nat 16) with 16 in H2. change (Z.of_nat 24) with 24 in H3.
  by rewrite H1, H2, H3, !Z.lxor_assoc.
Qed.

Lemma ld32_word m a : word (ld32 m a).
Proof.
  unfold ld32. pose proof (ldc_byte m a). pose proof (ldc_byte m (a + 1)). pose proof (ldc_byte m (a + 2)).
  pose proof (ldc_byte m (a + 3)). unfold ldc in *. lia.
Qed.
Lemma ldbe_word m a : word (ldbe m a).
Proof.
  unfold ldbe. pose proof (ldc_byte m a). pose proof (ldc_byte m (a + 1)). pose proof (ldc_byte m (a + 2)).
  pose proof (ldc_byte m (a + 3)). lia.
Qed.

Lemma crc_fold_word c l : word c → Forall (λ b, 0 ≤ b < 256) l → word (foldl crc_byte c l).
Proof.
  intros Hc Hl. revert c Hc. induction Hl as [|b l Hb _ IH]; intros c Hc; [done|]. apply IH.
  apply crc_zeros_word, lxor_bound; lia.
Qed.

Lemma crc_data_word m a n c : word c → word (foldl crc_byte c (data m a n)).
Proof. intros. by apply crc_fold_word, data_byte. Qed.
Lemma crc_byte_word m a c : word c → word (crc_byte c (ldc m a)).
Proof. intros. apply crc_zeros_word, lxor_bound; pose proof (ldc_byte m a); lia. Qed.
#[local] Hint Resolve crc_data_word crc_byte_word : core.

Lemma DOLIT4_four m a c : word c → DOLIT4 (ld32 m a) c = foldl crc_byte c (data m a 4).
Proof.
  intros Hc. rewrite DOLIT4_word by (apply lxor_bound; try lia; apply ld32_word).
  rewrite data_4, crc_four. unfold ld32. rewrite lxor_bytes by apply ldc_byte. reflexivity.
Qed.

(** ** The loops *)

(** The register of the loops is [R] of the reference one. *)
Section loops_spec.
Context (m : memory) (do1 : Z → Z → Z) (do4 : Z → Z → Z) (ld : Z → Z) (R : Z → Z).
Context (Hdo1 : ∀ a c, word c → do1 a (R c) = R (crc_byte c (ldc m a))).
Context (Hdo4 : ∀ a c, word c → do4 (ld a) (R c) = R (foldl crc_byte c (data m a 4))).

Lemma do_bytes_spec n c a : word c → do_bytes do1 n (R c) a = R (foldl crc_byte c (data m a (Z.of_nat n))).
Proof using Hdo1.
  revert c a. induction n as [|n IH]; intros c a Hc; [done|].
  replace (Z.of_nat (S n)) with (1 + Z.of_nat n) by lia. rewrite data_app, foldl_app, data_1 by lia.
  cbn [do_bytes foldl]. rewrite Hdo1, IH by auto. done.
Qed.
Lemma do_words_spec n c a : word c → do_words do4 ld n (R c) a = R (foldl crc_byte c (data m a (4 * Z.of_nat n))).
Proof using Hdo4.
  revert c a. induction n as [|n IH]; intros c a Hc; [done|].
  replace (4 * Z.of_nat (S n)) with (4 + 4 * Z.of_nat n) by lia. rewrite data_app, foldl_app by lia.
  cbn [do_words]. rewrite Hdo4, IH by auto. done.
Qed.
Lemma do_blocks_spec n c a : word c → do_blocks do4 ld n (R c) a = R (foldl crc_byte c (data m a (32 * Z.of_nat n))).
Proof using Hdo4.
  revert c a. induction n as [|n IH]; intros c a Hc; [done|].
  replace (32 * Z.of_nat (S n)) with (32 + 32 * Z.of_nat n) by lia. rewrite data_app, foldl_app by lia.
  cbn [do_blocks]. unfold do_32. rewrite (do_words_spec 8) by done. change (4 * Z.of_nat 8) with 32.
  rewrite IH by auto. done.
Qed.

Lemma to_aligned_spec fuel c a n :
  word c → 0 ≤ n → ∃ k, 0 ≤ k ≤ n ∧ to_aligned do1 fuel (R c) a n = (R (foldl crc_byte c (data m a k)), a + k, n - k).
Proof using Hdo1.
  revert c a n. induction fuel as [|fuel IH]; intros c a n Hc Hn; cbn [to_aligned].
  - exists 0. split; [lia|]. by rewrite Z.add_0_r, Z.sub_0_r.
  - case_decide as Hd.
    + rewrite Hdo1 by done. destruct (IH (crc_byte c (ldc m a)) (a + 1) (n - 1)) as (k & Hk & ->).
      { auto. }
      { lia. }
      exists (1 + k). split; [lia|]. rewrite data_app, foldl_app, data_1 by lia. f_equal; [f_equal|]; lia.
    + exists 0. split; [lia|]. by rewrite Z.add_0_r, Z.sub_0_r.
Qed.

(** However the bytes are divided among the loops. *)
Lemma crc_run_spec c a n : word c → 0 ≤ n → crc_run do1 do4 ld (R c) a n = R (foldl crc_byte c (data m a n)).
Proof using Hdo1 Hdo4.
  intros Hc Hn. unfold crc_run. destruct (to_aligned_spec 4 c a n Hc Hn) as (k & Hk & ->).
  set (c1 := foldl crc_byte c (data m a k)). assert (word c1) by (unfold c1; auto).
  set (l := n - k). assert (0 ≤ l / 32) by (apply Z.div_pos; lia).
  pose proof (Z.mod_pos_bound l 32). rewrite do_blocks_spec by done. rewrite Z2Nat.id by done.
  set (c2 := foldl crc_byte c1 _). assert (word c2) by (unfold c2; auto).
  set (r := l `mod` 32) in *. assert (0 ≤ r / 4) by (apply Z.div_pos; lia). pose proof (Z.mod_pos_bound r 4).
  rewrite do_words_spec by done. rewrite Z2Nat.id by done.
  rewrite do_bytes_spec by auto. rewrite Z2Nat.id by lia. f_equal.
  unfold c2, c1. rewrite <- !foldl_app. f_equal.
  replace n with (k + (32 * (l / 32) + (4 * (r / 4) + r `mod` 4))) at 1.
  - by rewrite !data_app by lia.
  - pose proof (Z.div_mod r 4). pose proof (Z.div_mod l 32). lia.
Qed.
End loops_spec.

(** ** Both byte orders give the reference sum *)

(** The CRC of a list of bytes, from the value [crc] of what came before. *)
Definition crc_of (crc : Z) (l : list Z) : Z := not32 (foldl crc_byte (not32 crc) l).

Lemma not32_lxor c : word c → not32 c = Z.lxor c (2 ^ 32 - 1).
Proof.
  intros Hc. unfold not32, u32. apply Z.bits_inj'. intros i Hi.
  change (2 ^ 32 - 1) with (Z.ones 32). rewrite Z.lxor_spec. destruct (decide (i < 32)).
  - rewrite Z.mod_pow2_bits_low, Z.lnot_spec, Z.ones_spec_low by lia. by rewrite xorb_true_r.
  - rewrite Z.mod_pow2_bits_high, Z.ones_spec_high by lia. rewrite bound_bits in Hc by lia. by rewrite Hc by lia.
Qed.
Lemma not32_word c : word (not32 c).
Proof. by apply u32_range. Qed.

Lemma crc32_little_spec m crc buf len :
  0 ≤ len → crc32_little m crc buf len = crc_of crc (data m buf len).
Proof.
  intros Hn. unfold crc32_little, crc_of. f_equal.
  apply (crc_run_spec m (do_little m) DOLIT4 (ld32 m) id).
  - intros a c _. apply do_little_byte.
  - intros a c Hc. by apply DOLIT4_four.
  - apply not32_word.
  - done.
Qed.

(** [REV] takes the bytes in the other order. *)
Definition REVx (w : Z) : Z :=
  Z.lxor (Z.shiftr w 24) (Z.lxor (Z.shiftl (Z.land (Z.shiftr w 16) 0xff) 8)
    (Z.lxor (Z.shiftl (Z.land (Z.shiftr w 8) 0xff) 16) (Z.shiftl (Z.land w 0xff) 24))).

Lemma land_shift w k : 0 ≤ k → Z.land w (Z.shiftl 0xff k) = Z.shiftl (Z.land (Z.shiftr w k) 0xff) k.
Proof.
  intros Hk. apply Z.bits_inj'. intros i Hi. rewrite Z.land_spec, !Z.shiftl_spec by lia.
  destruct (decide (i < k)); [by rewrite !(Z.testbit_neg_r _ (i - k)), andb_false_r by lia|].
  rewrite Z.land_spec, Z.shiftr_spec by lia. do 2 f_equal. lia.
Qed.

Lemma land_ff w : Z.land w 0xff = w `mod` 256.
Proof. by apply (Z.land_ones w 8). Qed.

(** A word made of four bytes. *)
Definition mk (b0 b1 b2 b3 : Z) : Z := b0 + 256 * b1 + 65536 * b2 + 16777216 * b3.
Abbreviation byte b := (0 ≤ b < 256).

Lemma mk_parts b0 b1 b2 b3 (x := mk b0 b1 b2 b3) :
  byte b0 → byte b1 → byte b2 → byte b3 →
  Z.land x 0xff = b0 ∧ Z.land (Z.shiftr x 8) 0xff = b1 ∧ Z.land (Z.shiftr x 16) 0xff = b2 ∧ Z.shiftr x 24 = b3 ∧
  Z.shiftr x 8 = mk b1 b2 b3 0 ∧ word x.
Proof.
  unfold x, mk. intros. rewrite !land_ff, !Z.shiftr_div_pow2 by lia. split_and!; [| | | | |lia..].
  - symmetry. apply (Z.mod_unique_pos _ 256 (b1 + 256 * b2 + 65536 * b3)); lia.
  - symmetry. rewrite <- (Z.div_unique_pos _ (2 ^ 8) (b1 + 256 * b2 + 65536 * b3) b0) by lia.
    apply (Z.mod_unique_pos _ 256 (b2 + 256 * b3)); lia.
  - symmetry. rewrite <- (Z.div_unique_pos _ (2 ^ 16) (b2 + 256 * b3) (b0 + 256 * b1)) by lia.
    apply (Z.mod_unique_pos _ 256 b3); lia.
  - symmetry. apply (Z.div_unique_pos _ (2 ^ 24) b3 (b0 + 256 * b1 + 65536 * b2)); lia.
  - symmetry. apply (Z.div_unique_pos _ (2 ^ 8) _ b0); lia.
Qed.

Lemma mk_of w :
  word w → w = mk (Z.land w 0xff) (Z.land (Z.shiftr w 8) 0xff) (Z.land (Z.shiftr w 16) 0xff) (Z.shiftr w 24) ∧
           byte (Z.shiftr w 24).
Proof.
  intros Hw. assert (byte (Z.shiftr w 24)) by (by apply (shiftr_bound 32 24)). split; [|done].
  unfold mk. rewrite lxor_bytes by (done || apply land_ff_byte). apply word_split.
Qed.

Lemma REV_mk b0 b1 b2 b3 :
  byte b0 → byte b1 → byte b2 → byte b3 → REV (mk b0 b1 b2 b3) = mk b3 b2 b1 b0.
Proof.
  intros H0 H1 H2 H3. destruct (mk_parts b0 b1 b2 b3 H0 H1 H2 H3) as (P0 & P1 & P2 & P3 & _).
  unfold REV. change 0xff00 with (Z.shiftl 0xff 8). rewrite !land_shift, Z.shiftr_shiftr by lia.
  change (8 + 8) with 16. rewrite P0, P1, P2, P3, !Z.shiftl_mul_pow2 by lia. unfold mk.
  rewrite u32_small; [lia|unfold is_u32; lia].
Qed.

Lemma REV_lxor w : word w → REV w = REVx w.
Proof.
  intros Hw. destruct (mk_of w Hw) as [E H3]. rewrite E at 1. rewrite REV_mk by (done || apply land_ff_byte).
  unfold mk, REVx. by rewrite lxor_bytes by (done || apply land_ff_byte).
Qed.
Lemma REV_word w : word w → word (REV w).
Proof. intros. apply u32_range. Qed.

Lemma land_lxor a b c : Z.land (Z.lxor a b) c = Z.lxor (Z.land a c) (Z.land b c).
Proof.
  apply Z.bits_inj'. intros i _. rewrite Z.land_spec, !Z.lxor_spec, !Z.land_spec.
  by destruct (Z.testbit a i), (Z.testbit b i), (Z.testbit c i).
Qed.

Lemma REV_linear a b : word a → word b → REV (Z.lxor a b) = Z.lxor (REV a) (REV b).
Proof.
  intros Ha Hb. rewrite !REV_lxor by (done || by apply lxor_bound). unfold REVx.
  rewrite !Z.shiftr_lxor, !land_lxor, !Z.shiftl_lxor.
  symmetry. rewrite (lxor_ACA (Z.shiftr a 24) _ (Z.shiftr b 24)). f_equal.
  rewrite lxor_ACA. f_equal. apply lxor_ACA.
Qed.

Lemma REV_bytes w :
  word w → Z.land (REV w) 0xff = Z.shiftr w 24 ∧ Z.land (Z.shiftr (REV w) 8) 0xff = Z.land (Z.shiftr w 16) 0xff ∧
    Z.land (Z.shiftr (REV w) 16) 0xff = Z.land (Z.shiftr w 8) 0xff ∧ Z.shiftr (REV w) 24 = Z.land w 0xff.
Proof.
  intros Hw. destruct (mk_of w Hw) as [E H3]. rewrite E at 1 3 5 7.
  rewrite REV_mk by (done || apply land_ff_byte).
  destruct (mk_parts (Z.shiftr w 24) (Z.land (Z.shiftr w 16) 0xff) (Z.land (Z.shiftr w 8) 0xff) (Z.land w 0xff))
    as (P0 & P1 & P2 & P3 & _); [done|apply land_ff_byte..|]. done.
Qed.

Lemma REV_shift c : word c → REV (Z.shiftr c 8) = u32 (Z.shiftl (REV c) 8).
Proof.
  intros Hc. destruct (mk_of c Hc) as [E H3]. set (b3 := Z.shiftr c 24) in *.
  pose proof (land_ff_byte c) as H0. pose proof (land_ff_byte (Z.shiftr c 8)) as H1.
  pose proof (land_ff_byte (Z.shiftr c 16)) as H2. rewrite E.
  clear E. revert H0 H1 H2 H3. generalize (Z.land c 0xff), (Z.land (Z.shiftr c 8) 0xff), (Z.land (Z.shiftr c 16) 0xff), b3.
  clear. intros b0 b1 b2 b3 H0 H1 H2 H3.
  destruct (mk_parts b0 b1 b2 b3) as (_ & _ & _ & _ & -> & _); [done..|]. rewrite !REV_mk by lia.
  rewrite Z.shiftl_mul_pow2 by lia. unfold mk, u32. apply (Z.mod_unique_pos _ _ b0); lia.
Qed.

Lemma land_ff_small b : 0 ≤ b < 256 → Z.land b 0xff = b.
Proof. intros. rewrite land_ff. by apply Z.mod_small. Qed.

Lemma tbl_word k n : (k < 4)%nat → 0 ≤ n < 256 → word (tbl k n).
Proof. intros. rewrite tbl_little by done. apply crc_zeros_word. lia. Qed.

Lemma do_big_byte m buf c : word c → do_big m buf (REV c) = REV (crc_byte c (ldc m buf)).
Proof.
  intros Hc. pose proof (ldc_byte m buf) as Hb. destruct (REV_bytes c Hc) as (_ & _ & _ & H24).
  rewrite <- do_little_byte. unfold do_big, do_little.
  pose proof (shiftr_bound 32 8 c ltac:(lia) Hc).
  rewrite REV_linear by (lia || (apply tbl_word; [lia|apply land_ff_byte])).
  rewrite REV_shift by done. f_equal. rewrite land_lxor, (land_ff_small (ldc m buf)) by done. rewrite H24.
  apply (tbl_big 0); [lia|]. apply (lxor_bound 8); [lia|apply land_ff_byte|lia].
Qed.

Lemma ldbe_REV m a : ldbe m a = REV (ld32 m a).
Proof.
  symmetry. apply (REV_mk (ldc m a) (ldc m (a + 1)) (ldc m (a + 2)) (ldc m (a + 3))); apply ldc_byte.
Qed.

Lemma DOBIG4_REV w c : word w → word c → DOBIG4 (REV w) (REV c) = REV (DOLIT4 w c).
Proof.
  intros Hw Hc. unfold DOBIG4, DOLIT4. rewrite <- REV_linear by done.
  assert (word (Z.lxor c w)) as Hx by (by apply lxor_bound). set (x := Z.lxor c w) in *. cbv zeta.
  destruct (REV_bytes x Hx) as (-> & -> & -> & ->).
  assert (0 ≤ Z.shiftr x 24 < 256) by (by apply (shiftr_bound 32 24)).
  pose proof (land_ff_byte x). pose proof (land_ff_byte (Z.shiftr x 8)). pose proof (land_ff_byte (Z.shiftr x 16)).
  assert (∀ k n, (k < 4)%nat → 0 ≤ n < 256 → word (tbl k n)) as Ht by apply tbl_word.
  rewrite !REV_linear by (repeat first [apply lxor_bound|apply Ht|lia]).
  rewrite (tbl_big 0), (tbl_big 1), (tbl_big 2), (tbl_big 3) by lia.
  rewrite (Z.lxor_comm (Z.lxor _ _) (REV (tbl 0 _))), (Z.lxor_comm (Z.lxor _ _) (REV (tbl 1 _))).
  rewrite (Z.lxor_comm (REV (tbl 3 _))). by rewrite !Z.lxor_assoc.
Qed.

Lemma REV_not c : word c → REV (not32 c) = not32 (REV c).
Proof.
  intros Hc. rewrite !not32_lxor by (done || by apply REV_word). by rewrite REV_linear by done.
Qed.
Lemma REV_REV c : word c → REV (REV c) = c.
Proof.
  intros Hc. destruct (mk_of c Hc) as [E H3]. rewrite E at 1. rewrite !REV_mk by (done || apply land_ff_byte). done.
Qed.

Lemma crc32_big_spec m crc buf len :
  word crc → 0 ≤ len → crc32_big m crc buf len = crc_of crc (data m buf len).
Proof.
  intros Hc Hn. unfold crc32_big, crc_of. rewrite <- REV_not by done.
  rewrite (crc_run_spec m (do_big m) DOBIG4 (ldbe m) REV).
  - rewrite <- REV_not by (apply crc_data_word, not32_word). apply REV_REV, not32_word.
  - intros a c ?. by apply do_big_byte.
  - intros a c ?. rewrite ldbe_REV, DOBIG4_REV by (done || apply ld32_word). by rewrite DOLIT4_four.
  - apply not32_word.
  - done.
Qed.

(** ** Data put together *)

(** The matrix of a function: its values at the powers of two. *)
Definition rows_of (f : Z → Z) (k : Z) (n : nat) : list Z := (λ i, f (2 ^ (k + Z.of_nat i))) <$> seq 0 n.
Definition matrix_of (f : Z → Z) : list Z := rows_of f 0 32.
Definition linear (f : Z → Z) : Prop := ∀ a b, f (Z.lxor a b) = Z.lxor (f a) (f b).

Lemma linear_0 f : linear f → f 0 = 0.
Proof. intros H. pose proof (H 0 0) as E. rewrite (Z.lxor_nilpotent (f 0)) in E. by rewrite Z.lxor_0_l in E. Qed.

Lemma rows_of_S f k n : rows_of f k (S n) = f (2 ^ k) :: rows_of f (k + 1) n.
Proof.
  unfold rows_of. rewrite <- cons_seq, fmap_cons, Z.add_0_r, <- fmap_S_seq, <- list_fmap_compose. f_equal.
  apply list_fmap_ext. intros j i _. simpl. do 2 f_equal. lia.
Qed.

Lemma matrix_times_spec f n k vec sum :
  linear f → 0 ≤ k → 0 ≤ vec < 2 ^ Z.of_nat n →
  matrix_times (rows_of f k n) vec sum = Ok (Z.lxor sum (f (Z.shiftl vec k))).
Proof.
  intros Hf. revert k vec sum. induction n as [|n IH]; intros k vec sum Hk Hv.
  - assert (vec = 0) as -> by (simpl in Hv; lia). by rewrite Z.shiftl_0_l, linear_0, Z.lxor_0_r.
  - rewrite rows_of_S. cbn [matrix_times]. destruct (decide (vec = 0)) as [->|Hz].
    + by rewrite Z.shiftl_0_l, linear_0, Z.lxor_0_r.
    + pose proof (shiftr_bound (Z.of_nat (S n)) 1 vec ltac:(lia) Hv) as Hs.
      replace (Z.of_nat (S n) - 1) with (Z.of_nat n) in Hs by lia. rewrite IH by lia. f_equal.
      rewrite (lxor_split vec 1) at 3 by lia. rewrite Z.shiftl_lxor, Z.shiftl_shiftl, (Z.add_comm 1 k), Hf by lia.
      rewrite <- Z.lxor_assoc. f_equal. rewrite Z.land_ones by lia. change (2 ^ 1) with 2. rewrite Zmod_odd.
      destruct (Z.odd vec).
      * by rewrite Z.shiftl_mul_pow2, Z.mul_1_l by lia.
      * by rewrite Z.shiftl_0_l, linear_0, Z.lxor_0_r.
Qed.

Lemma gf2_times f vec : linear f → word vec → gf2_matrix_times (matrix_of f) vec = Ok (f vec).
Proof.
  intros Hf Hv. unfold gf2_matrix_times, matrix_of. rewrite (matrix_times_spec f 32) by done.
  by rewrite Z.lxor_0_l, Z.shiftl_0_r.
Qed.

Lemma gf2_square f :
  linear f → (∀ v, word v → word (f v)) → gf2_matrix_square (matrix_of f) = Ok (matrix_of (λ v, f (f v))).
Proof.
  intros Hf Hw. unfold gf2_matrix_square.
  assert (∀ k n, 0 ≤ k → k + Z.of_nat n ≤ 32 →
    square_rows (rows_of f k n) (matrix_of f) = Ok (rows_of (λ v, f (f v)) k n)) as H.
  { intros k n. revert k. induction n as [|n IH]; intros k Hk Hn; [done|]. rewrite !rows_of_S. cbn [square_rows].
    rewrite gf2_times; [|done|apply Hw; split; [|apply Z.pow_lt_mono_r]; lia].
    cbn [mbind outcome_bind]. rewrite IH by lia. done. }
  by apply H.
Qed.

(** The operator of [k] zero bits. *)
Definition zeros_op (k : nat) : list Z := matrix_of (crc_zeros k).

Lemma zeros_op_square k : gf2_matrix_square (zeros_op k) = Ok (zeros_op (k + k)).
Proof.
  unfold zeros_op. rewrite gf2_square; [|intros a b; apply crc_zeros_lxor|apply crc_zeros_word].
  f_equal. unfold matrix_of, rows_of. apply list_fmap_ext. intros j i _. by rewrite crc_zeros_add.
Qed.

Lemma combine_loop_spec fuel k crc len :
  word crc → 0 < len < 2 ^ Z.of_nat fuel →
  combine_loop fuel (zeros_op k) crc len = Ok (crc_zeros ((k + k) * Z.to_nat len) crc).
Proof.
  revert k crc len. induction fuel as [|fuel IH]; intros k crc len Hc Hl; [simpl in Hl; lia|].
  cbn [combine_loop]. rewrite zeros_op_square. cbn [mbind outcome_bind].
  assert (Z.to_nat len = 2 * Z.to_nat (Z.shiftr len 1) + if Z.odd len then 1 else 0)%nat as El.
  { rewrite Z.shiftr_div_pow2 by lia. change (2 ^ 1) with 2. pose proof (Zmod_odd len). destruct (Z.odd len);
      pose proof (Z.div_mod len 2); lia. }
  assert ((if Z.odd len then gf2_matrix_times (zeros_op (k + k)) crc else Ok crc) =
          Ok (crc_zeros ((k + k) * if Z.odd len then 1 else 0) crc)) as ->.
  { destruct (Z.odd len); [|by rewrite Nat.mul_0_r]. unfold zeros_op.
    rewrite gf2_times; [by rewrite Nat.mul_1_r|intros a b; apply crc_zeros_lxor|done]. }
  cbn [mbind outcome_bind]. case_decide as Hz.
  - rewrite Hz in El. simpl in El. by rewrite El.
  - pose proof (shiftr_bound (Z.of_nat (S fuel)) 1 len ltac:(lia) ltac:(lia)) as Hs.
    replace (Z.of_nat (S fuel) - 1) with (Z.of_nat fuel) in Hs by lia.
    rewrite IH by (apply crc_zeros_word || idtac; done || lia). f_equal. rewrite <- crc_zeros_add. f_equal.
    rewrite El. lia.
Qed.

Lemma ok_bind {A B} (a : A) (f : A → outcome B) : Ok a ≫= f = f a.
Proof. done. Qed.

Lemma zeros_op_1 : 0xedb88320 :: ((λ n, Z.shiftl 1 n) <$> seqZ 0 31) = zeros_op 1.
Proof. vm_compute. reflexivity. Qed.

Lemma crc32_combine_zeros fuel crc1 crc2 len :
  word crc1 → 0 < len < 2 ^ Z.of_nat fuel →
  crc32_combine fuel crc1 crc2 len = Ok (Z.lxor (crc_zeros (8 * Z.to_nat len) crc1) crc2).
Proof.
  intros Hc Hl. unfold crc32_combine. rewrite decide_False by lia. rewrite zeros_op_1.
  pose proof (combine_loop_spec fuel 4 crc1 len Hc Hl) as H. change (4 + 4)%nat with 8%nat in H.
  pose proof (zeros_op_square 1) as H1. pose proof (zeros_op_square 2) as H2.
  change (1 + 1)%nat with 2%nat in H1. change (2 + 2)%nat with 4%nat in H2.
  cbv zeta. rewrite H1, ok_bind, H2, ok_bind, H, ok_bind. reflexivity.
Qed.

(** The register is linear in register and data together. *)
Lemma crc_fold_split c l :
  foldl crc_byte c l = Z.lxor (crc_zeros (8 * length l) c) (foldl crc_byte 0 l).
Proof.
  revert c. induction l as [|b l IH]; intros c; [by rewrite Z.lxor_0_r|].
  cbn [foldl length]. rewrite IH, (IH (crc_byte 0 b)). unfold crc_byte. rewrite Z.lxor_0_l, !crc_zeros_lxor.
  rewrite <- !crc_zeros_add, Z.lxor_assoc. do 2 f_equal. lia.
Qed.

Lemma not32_not32 c : word c → not32 (not32 c) = c.
Proof.
  intros Hc. rewrite (not32_lxor (not32 c)) by apply not32_word. rewrite not32_lxor by done.
  by rewrite Z.lxor_assoc, Z.lxor_nilpotent, Z.lxor_0_r.
Qed.

Lemma crc_of_app crc l1 l2 :
  Forall (λ b, byte b) l1 → crc_of crc (l1 ++ l2) = crc_of (crc_of crc l1) l2.
Proof.
  intros Hl. unfold crc_of. rewrite foldl_app, not32_not32; [done|]. apply crc_fold_word; [apply not32_word|done].
Qed.

Lemma crc_of_combine l1 l2 :
  Forall (λ b, byte b) l1 → Forall (λ b, byte b) l2 →
  Z.lxor (crc_zeros (8 * length l2) (crc_of 0 l1)) (crc_of 0 l2) = crc_of 0 (l1 ++ l2).
Proof.
  intros H1 H2. rewrite crc_of_app by done. unfold crc_of at 2 3. 
  assert (word (crc_of 0 l1)) as Hw by apply not32_word. generalize dependent (crc_of 0 l1). intros c Hc.
  rewrite !not32_lxor by (try apply crc_fold_word; try done; apply not32_word).
  rewrite Z.lxor_0_l, <- Z.lxor_assoc. f_equal.
  rewrite (crc_fold_split (2 ^ 32 - 1)), (crc_fold_split (Z.lxor c _)), crc_zeros_lxor. by rewrite Z.lxor_assoc.
Qed.

(** ** The Adler sums *)

(** A byte at a time, reduced at once. *)
Definition adler_byte (s : sums) (b : Z) : sums :=
  let a := (s.1 + b) `mod` BASE in (a, (s.2 + a) `mod` BASE).
(** Without any reduction. *)
Definition raw_byte (s : sums) (b : Z) : sums := (s.1 + b, s.2 + (s.1 + b)).

Definition congr (s t : sums) : Prop := s.1 `mod` BASE = t.1 `mod` BASE ∧ s.2 `mod` BASE = t.2 `mod` BASE.

Lemma raw_adler_byte s t b : congr s t → congr (raw_byte s b) (adler_byte t b).
Proof.
  intros [H1 H2]. unfold congr, raw_byte, adler_byte. cbn [fst snd]. rewrite !Z.mod_mod by done.
  assert ((s.1 + b) `mod` BASE = (t.1 + b) `mod` BASE) as E.
  { by rewrite Z.add_mod, H1, <- Z.add_mod by done. }
  split; [done|]. rewrite Z.add_mod_idemp_r by done. by rewrite Z.add_mod, H2, E, <- Z.add_mod by done.
Qed.
Lemma raw_adler s t l : congr s t → congr (foldl raw_byte s l) (foldl adler_byte t l).
Proof. revert s t. induction l as [|b l IH]; intros s t H; [done|]. by apply IH, raw_adler_byte. Qed.

(** Within [NMAX] bytes nothing overflows, so the loops add as the integers do. *)
Lemma DO1_raw m buf i s :
  word (s.1 + ldc m (buf + i)) → word (s.2 + (s.1 + ldc m (buf + i))) → DO1 m buf i s = raw_byte s (ldc m (buf + i)).
Proof. intros H1 H2. unfold DO1, raw_byte. by rewrite !u32_small. Qed.

Definition fits (s : sums) (n : Z) : Prop :=
  0 ≤ s.1 ∧ 0 ≤ s.2 ∧ 2 * s.2 + 2 * n * s.1 + 255 * n * (n + 1) < 2 ^ 33 ∧ s.1 + 255 * n < 2 ^ 32.

Lemma fits_step s n b : fits s (n + 1) → 0 ≤ n → byte b → fits (raw_byte s b) n ∧ word (s.1 + b) ∧ word (s.2 + (s.1 + b)).
Proof. unfold fits, raw_byte. simpl. intros (H1 & H2 & H3 & H4) Hn Hb. split_and!; nia. Qed.

Lemma DO1_fits m buf i s n :
  fits s (n + 1) → 0 ≤ n → DO1 m buf i s = raw_byte s (ldc m (buf + i)) ∧ fits (raw_byte s (ldc m (buf + i))) n.
Proof.
  intros Hf Hn. destruct (fits_step s n (ldc m (buf + i)) Hf Hn (ldc_byte _ _)) as (? & ? & ?).
  split; [by apply DO1_raw|done].
Qed.

Lemma sum_bytes_raw m n buf s k :
  fits s (Z.of_nat n + k) → 0 ≤ k →
  sum_bytes n m buf s = foldl raw_byte s (data m buf (Z.of_nat n)) ∧ fits (sum_bytes n m buf s) k.
Proof.
  revert buf s. induction n as [|n IH]; intros buf s Hf Hk; [done|].
  destruct (DO1_fits m buf 0 s (Z.of_nat n + k)) as [E Hf']; [|lia|].
  { by replace (Z.of_nat n + k + 1) with (Z.of_nat (S n) + k) by lia. }
  cbn [sum_bytes]. rewrite E. replace (Z.of_nat (S n)) with (1 + Z.of_nat n) by lia.
  rewrite data_app, foldl_app, data_1 by lia. rewrite Z.add_0_r in *. by apply IH.
Qed.

Lemma DO16_bytes m buf s : DO16 m buf s = sum_bytes 16 m buf s.
Proof.
  assert (∀ n i s, sum_bytes n m (buf + i) s = foldl (λ s j, DO1 m buf j s) s (seqZ i (Z.of_nat n))) as E.
  { intros n. induction n as [|n IH]; intros i s'; [done|]. rewrite seqZ_cons by lia. cbn [sum_bytes foldl].
    replace (Z.pred (Z.of_nat (S n))) with (Z.of_nat n) by lia. change (Z.succ i) with (i + 1).
    rewrite <- IH, <- Z.add_assoc. f_equal. unfold DO1. by rewrite Z.add_0_r. }
  rewrite <- (Z.add_0_r buf) at 2. by rewrite E.
Qed.

Lemma sum_bytes_add m k n buf s : sum_bytes (k + n) m buf s = sum_bytes n m (buf + Z.of_nat k) (sum_bytes k m buf s).
Proof.
  revert buf s. induction k as [|k IH]; intros b s; cbn [Nat.add sum_bytes]; [by rewrite Z.add_0_r|].
  rewrite IH. f_equal. lia.
Qed.

Lemma sum_16s_bytes m n buf s : sum_16s n m buf s = sum_bytes (16 * n) m buf s.
Proof.
  revert buf s. induction n as [|n IH]; intros buf s; [done|]. cbn [sum_16s]. rewrite IH, DO16_bytes.
  replace (16 * S n)%nat with (16 + 16 * n)%nat by lia.
  by rewrite sum_bytes_add.
Qed.

(** Sums below [BASE] fit for [NMAX] bytes. *)
Definition reduced (s : sums) : Prop := 0 ≤ s.1 < BASE ∧ 0 ≤ s.2 < BASE.
Lemma reduced_fits s n : reduced s → 0 ≤ n ≤ NMAX → fits s n.
Proof. unfold reduced, fits, BASE, NMAX. intros [? ?] ?. split_and!; [lia|lia|nia|lia]. Qed.

Definition reduce (s : sums) : sums := (MOD s.1, MOD s.2).
Lemma reduce_reduced s : reduced (reduce s).
Proof. split; by apply Z.mod_pos_bound. Qed.
Lemma reduce_congr s t : congr s t → reduced t → reduce s = t.
Proof.
  intros [H1 H2] [R1 R2]. destruct t as [a b]. unfold reduce, MOD. simpl in *. rewrite H1, H2.
  by rewrite !Z.mod_small by done.
Qed.
Lemma adler_reduced s l : reduced s → reduced (foldl adler_byte s l).
Proof.
  revert s. induction l as [|b l IH]; intros s H; [done|]. apply IH. split; by apply Z.mod_pos_bound.
Qed.

Lemma sum_reduce m n buf s :
  reduced s → Z.of_nat n ≤ NMAX → reduce (sum_bytes n m buf s) = foldl adler_byte s (data m buf (Z.of_nat n)).
Proof.
  intros Hr Hn. destruct (sum_bytes_raw m n buf s 0) as [-> _]; [apply reduced_fits; [done|lia]|lia|].
  apply reduce_congr; [by apply raw_adler|by apply adler_reduced].
Qed.

Lemma sum_blocks_spec m n buf s :
  reduced s → sum_blocks n m buf s = foldl adler_byte s (data m buf (NMAX * Z.of_nat n)).
Proof.
  revert buf s. induction n as [|n IH]; intros buf s Hr; [done|]. cbn [sum_blocks]. cbv zeta.
  rewrite sum_16s_bytes. change (16 * Z.to_nat (NMAX / 16))%nat with (Z.to_nat NMAX).
  fold (reduce (sum_bytes (Z.to_nat NMAX) m buf s)). rewrite sum_reduce by (done || (rewrite Z2Nat.id; by vm_compute)).
  rewrite Z2Nat.id by (by vm_compute). rewrite IH by (by apply adler_reduced).
  rewrite <- foldl_app, <- data_app by (unfold NMAX; lia). do 2 f_equal. unfold NMAX. lia.
Qed.

Definition adler_value (s : sums) : Z := s.1 + 65536 * s.2.

Lemma pack_value a b : 0 ≤ a < 65536 → 0 ≤ b < 65536 → pack a b = adler_value (a, b).
Proof.
  intros Ha Hb. unfold pack, adler_value. rewrite Z.shiftl_mul_pow2 by lia. rewrite u32_small by (unfold is_u32; lia).
  rewrite <- Z.shiftl_mul_pow2, Z.lor_comm, lor_shiftl by lia. simpl. lia.
Qed.
Lemma value_parts a b :
  0 ≤ a < 65536 → 0 ≤ b < 65536 →
  Z.land (adler_value (a, b)) 0xffff = a ∧ Z.land (Z.shiftr (adler_value (a, b)) 16) 0xffff = b.
Proof.
  intros Ha Hb. unfold adler_value. simpl fst. simpl snd. change 0xffff with (Z.ones 16).
  rewrite !Z.land_ones, Z.shiftr_div_pow2 by lia. split.
  - symmetry. apply (Z.mod_unique_pos _ _ b); lia.
  - rewrite <- (Z.div_unique_pos (a + 65536 * b) (2 ^ 16) b a) by lia. by apply Z.mod_small.
Qed.

Lemma less_base_mod a : 0 ≤ a < 2 * BASE → less_base a = a `mod` BASE.
Proof.
  unfold less_base. intros Ha. case_decide.
  - apply (Z.mod_unique_pos _ _ 1); unfold BASE in *; lia.
  - symmetry. apply Z.mod_small. lia.
Qed.

Lemma pack_reduced t : reduced t → pack t.1 t.2 = adler_value t.
Proof.
  destruct t as [a b]. intros [Ha Hb]. simpl in *. apply pack_value; unfold BASE in *; lia.
Qed.

Lemma raw_first_sum l s :
  Forall (λ b, byte b) l → 0 ≤ s.1 → 0 ≤ (foldl raw_byte s l).1 ≤ s.1 + 255 * Z.of_nat (length l).
Proof.
  revert s. induction l as [|x l IH]; intros s Hx Hs; [simpl; lia|]. apply Forall_cons in Hx as [Hx Hl].
  cbn [foldl length]. destruct (IH (raw_byte s x) Hl); unfold raw_byte in *; cbn [fst] in *; lia.
Qed.

(** Fewer than 16 bytes need only one subtraction for the first sum. *)
Lemma sum_short m s buf len :
  reduced s → 0 ≤ len < 16 →
  let t := sum_bytes (Z.to_nat len) m buf s in
  pack (less_base t.1) (MOD4 t.2) = adler_value (foldl adler_byte s (data m buf len)).
Proof.
  intros Hr Hl t. destruct (sum_bytes_raw m (Z.to_nat len) buf s 0) as [E _].
  { apply reduced_fits; [done|unfold NMAX; lia]. }
  { lia. }
  pose proof (sum_reduce m (Z.to_nat len) buf s Hr) as Hs. rewrite Z2Nat.id in * by lia.
  rewrite <- pack_reduced by (by apply adler_reduced). rewrite <- Hs by (unfold NMAX; lia).
  unfold reduce, t. cbn [fst snd]. f_equal. apply less_base_mod. rewrite E.
  destruct Hr as [? _]. pose proof (raw_first_sum (data m buf len) s (data_byte _ _ _) ltac:(lia)) as Hg.
  rewrite data_length in Hg by lia. unfold BASE in *. lia.
Qed.

Lemma sum_tail m s buf r :
  reduced s → 0 ≤ r < NMAX →
  (if decide (r ≠ 0) then
     reduce (sum_bytes (Z.to_nat (r `mod` 16)) m (buf + 16 * (r / 16)) (sum_16s (Z.to_nat (r / 16)) m buf s))
   else s) = foldl adler_byte s (data m buf r).
Proof.
  intros Hr Hn. case_decide as H0; [|by assert (r = 0) as -> by lia].
  assert (0 ≤ r / 16) by (apply Z.div_pos; lia). pose proof (Z.mod_pos_bound r 16 ltac:(lia)).
  pose proof (Z.div_mod r 16 ltac:(lia)). rewrite sum_16s_bytes.
  replace (buf + 16 * (r / 16)) with (buf + Z.of_nat (16 * Z.to_nat (r / 16))) by lia. rewrite <- sum_bytes_add.
  rewrite sum_reduce by (done || lia). do 2 f_equal. lia.
Qed.

Lemma adler32_spec m s buf len :
  reduced s → 0 ≤ len → buf ≠ 0 ∨ len = 1 →
  adler32 m (adler_value s) buf len = adler_value (foldl adler_byte s (data m buf len)).
Proof.
  intros Hr Hl Hb. destruct s as [a b]. pose proof Hr as [Ha Hb2]. simpl in Ha, Hb2.
  assert (BASE = 65521) as HB by done. rewrite HB in Ha, Hb2.
  unfold adler32. destruct (value_parts a b) as [-> ->]; [lia..|].
  destruct (decide (len = 1)) as [->|H1].
  - pose proof (ldc_byte m buf). rewrite data_1, <- pack_reduced by (by apply adler_reduced).
    unfold foldl, adler_byte. cbn [fst snd].
    rewrite (u32_small (a + _)) by (unfold is_u32; lia). rewrite (less_base_mod (a + _)) by lia.
    pose proof (Z.mod_pos_bound (a + ldc m buf) BASE ltac:(lia)).
    rewrite u32_small by (unfold is_u32; lia). by rewrite less_base_mod by lia.
  - destruct Hb as [Hb|?]; [|done]. rewrite decide_False by done. case_decide as H16; [by apply sum_short|].
    assert (0 ≤ len / NMAX) by (apply Z.div_pos; unfold NMAX; lia).
    pose proof (Z.mod_pos_bound len NMAX ltac:(by vm_compute)) as Hm.
    pose proof (Z.div_mod len NMAX ltac:(by vm_compute)) as Hd. cbv beta iota zeta.
    rewrite sum_blocks_spec, Z2Nat.id by done.
    assert (data m buf len = data m buf (NMAX * (len / NMAX)) ++ data m (buf + NMAX * (len / NMAX)) (len `mod` NMAX)) as ->.
    { rewrite <- data_app by (unfold NMAX in *; lia). by rewrite <- Hd. }
    rewrite foldl_app.
    rewrite <- (sum_tail m _ _ (len `mod` NMAX)) by (done || by apply adler_reduced).
    apply pack_reduced. case_decide; [apply reduce_reduced|by apply adler_reduced].
Qed.

(** ** Adler sums put together *)

Lemma raw_split s l :
  foldl raw_byte s l =
    (s.1 + (foldl raw_byte (0, 0) l).1, s.2 + Z.of_nat (length l) * s.1 + (foldl raw_byte (0, 0) l).2).
Proof.
  revert s. induction l as [|b l IH]; intros s; [destruct s; simpl; f_equal; lia|].
  cbn [foldl]. rewrite IH, (IH (raw_byte (0, 0) b)). unfold raw_byte. cbn [fst snd length]. f_equal; lia.
Qed.

Lemma sub_base_congr x c : c = BASE ∨ c = 2 * BASE → (if decide (c < x) then x - c else x) `mod` BASE = x `mod` BASE.
Proof.
  intros Hc. case_decide; [|done]. destruct Hc as [-> | ->].
  - replace (x - BASE) with (x + (-1) * BASE) by lia. by apply Z.mod_add.
  - replace (x - 2 * BASE) with (x + (-2) * BASE) by lia. by apply Z.mod_add.
Qed.

Lemma mod_base_eq a b k : a = b + k * BASE → a `mod` BASE = b `mod` BASE.
Proof. intros ->. by apply Z.mod_add. Qed.
Lemma mod_base_inv a b : a `mod` BASE = b `mod` BASE → ∃ k, a = b + k * BASE.
Proof.
  intros H. exists (a / BASE - b / BASE). pose proof (Z.div_mod a BASE ltac:(done)). pose proof (Z.div_mod b BASE ltac:(done)). lia.
Qed.

Lemma adler32_combine_spec l1 l2 :
  let s1 := foldl adler_byte (1, 0) l1 in
  let s2 := foldl adler_byte (1, 0) l2 in
  ∃ t, adler32_combine (adler_value s1) (adler_value s2) (Z.of_nat (length l2)) = adler_value t ∧
       0 ≤ t.1 ≤ BASE ∧ 0 ≤ t.2 ≤ BASE ∧ congr t (foldl adler_byte (1, 0) (l1 ++ l2)).
Proof.
  intros s1 s2. set (n := Z.of_nat (length l2)).
  assert (reduced s1) as [Ra1 Rb1] by (by apply adler_reduced).
  assert (reduced s2) as [Ra2 Rb2] by (by apply adler_reduced).
  assert (congr (foldl raw_byte s1 l2) (foldl adler_byte (1, 0) (l1 ++ l2))) as [C1 C2].
  { rewrite foldl_app. by apply raw_adler. }
  assert (congr (foldl raw_byte (1, 0) l2) s2) as [D1 D2] by (by apply raw_adler).
  rewrite raw_split in C1, C2, D1, D2. cbn [fst snd] in *. fold n in C2, D2.
  set (S1 := (foldl raw_byte (0, 0) l2).1) in *. set (S2 := (foldl raw_byte (0, 0) l2).2) in *.
  destruct s1 as [a1 b1], s2 as [a2 b2]. cbn [fst snd] in *. clearbody S1 S2.
  assert (BASE = 65521) as HB by done. pose proof (Z.mod_pos_bound n BASE ltac:(lia)) as Hrem.
  unfold adler32_combine. destruct (value_parts a1 b1) as [-> ->]; [lia..|]. destruct (value_parts a2 b2) as [-> ->]; [lia..|].
  set (rem := n `mod` BASE) in *. rewrite (u32_small (rem * a1)) by (unfold is_u32; nia).
  pose proof (Z.mod_pos_bound (rem * a1) BASE ltac:(lia)) as Hm. fold (MOD (rem * a1)) in Hm.
  change (Z.shiftl BASE 1) with (2 * BASE). cbv zeta.
  rewrite (u32_small (a1 + a2 + BASE - 1)), (u32_small (MOD (rem * a1) + b1 + b2 + BASE - rem)) by (unfold is_u32; lia).
  set (x := a1 + a2 + BASE - 1). set (y := MOD (rem * a1) + b1 + b2 + BASE - rem).
  set (X1 := if decide (BASE < x) then x - BASE else x). set (X2 := if decide (BASE < X1) then X1 - BASE else X1).
  set (Y1 := if decide (2 * BASE < y) then y - 2 * BASE else y). set (Y2 := if decide (BASE < Y1) then Y1 - BASE else Y1).
  assert (0 ≤ X2 ≤ BASE) by (unfold X2, X1, x; repeat case_decide; lia).
  assert (0 ≤ Y2 ≤ BASE) by (unfold Y2, Y1, y; repeat case_decide; lia).
  exists (X2, Y2). split_and!; [apply pack_value|..]; cbn [fst snd]; try lia.
  apply mod_base_inv in D1 as [k1 D1]. apply mod_base_inv in D2 as [k2 D2].
  split; cbn [fst snd].
  - rewrite <- C1. unfold X2, X1. rewrite !sub_base_congr by auto. apply (mod_base_eq _ _ (1 - k1)). unfold x. lia.
  - rewrite <- C2. unfold Y2, Y1. rewrite !sub_base_congr by auto.
    pose proof (Z.div_mod n BASE ltac:(done)) as En. pose proof (Z.div_mod (rem * a1) BASE ltac:(done)) as Em.
    fold (MOD (rem * a1)) in Em. fold rem in En.
    apply (mod_base_eq _ _ (1 - k2 + n / BASE - rem * a1 / BASE - n / BASE * a1)). unfold y. nia.
Qed.

(** ** Properties *)

(** C30: [crc32] of a buffer at any address is, bit for bit, the register of the
    polynomial shifted through the bytes: the tables, the four bytes at a time
    and the alignment of the buffer make no difference.  The routine for the
    other byte order gives the same sum there. *)
Theorem crc32_reference m crc buf len :
  word crc → 0 ≤ len < 2 ^ 32 →
  (buf ≠ 0 → crc32 m crc buf len = crc_of crc (data m buf len)) ∧
  crc32_big m crc buf len = crc_of crc (data m buf len).
Proof.
  intros Hc Hl. split; [|apply crc32_big_spec; lia]. intros Hb. unfold crc32. rewrite decide_False by done.
  apply crc32_little_spec. lia.
Qed.

Lemma crc32_reference_witness :
  crc32 (mem_at 5 [49; 50; 51; 52; 53; 54; 55; 56; 57]) 0 5 9 = 0xcbf43926.
Proof.
  destruct (crc32_reference (mem_at 5 [49; 50; 51; 52; 53; 54; 55; 56; 57]) 0 5 9) as [H _]; [lia|lia|].
  rewrite H by lia. vm_compute. reflexivity.
Defined.

(** C31: [crc32_combine] of the sums of two pieces of data is the sum of both
    together. *)
Theorem crc32_combine_joins l1 l2 fuel :
  Forall (λ b, byte b) l1 → Forall (λ b, byte b) l2 → Z.of_nat (length l2) < 2 ^ Z.of_nat fuel →
  crc32_combine fuel (crc_of 0 l1) (crc_of 0 l2) (Z.of_nat (length l2)) = Ok (crc_of 0 (l1 ++ l2)).
Proof.
  intros H1 H2 Hf. destruct l2 as [|b l2].
  - rewrite app_nil_r. done.
  - rewrite crc32_combine_zeros by (apply not32_word || (cbn [length] in *; lia)).
    by rewrite Nat2Z.id, crc_of_combine.
Qed.

Lemma crc32_combine_joins_witness :
  crc32_combine 31 (crc_of 0 [49; 50; 51]) (crc_of 0 [52; 53]) 2 = Ok (crc_of 0 [49; 50; 51; 52; 53]).
Proof.
  apply (crc32_combine_joins [49; 50; 51] [52; 53] 31); [by repeat constructor..|]. simpl. lia.
Defined.

(** C32: [adler32], which reduces its sums only every [NMAX] bytes, never
    overflows and continues a reduced sum as adding and reducing byte by byte
    does. *)
Theorem adler32_reference m s buf len :
  reduced s → 0 ≤ len < 2 ^ 32 → buf ≠ 0 ∨ len = 1 →
  adler32 m (adler_value s) buf len = adler_value (foldl adler_byte s (data m buf len)).
Proof. intros Hs Hl Hb. apply adler32_spec; [done|lia|done]. Qed.

Lemma adler32_reference_witness :
  adler32 (mem_at 5 [49; 50; 51]) 1 5 3 = 0x012d0097.
Proof.
  change 1 with (adler_value (1, 0)).
  rewrite (adler32_reference (mem_at 5 [49; 50; 51]) (1, 0) 5 3); [vm_compute; reflexivity|split; by vm_compute|lia|lia].
Defined.

(** [adler32_combine] compares with > instead of >=: a sum that should be 0
    stays [BASE], here when nothing is appended to data of the sum 0. *)
Example adler32_combine_base : adler32_combine (adler_value (0, 7)) 1 0 = adler_value (BASE, 7).
Proof. vm_compute. reflexivity. Qed.
