(* ===== verification/Inftrees.v ===== *)
(** * Decoding tables of compressed data (usr/klibc/zlib/inftrees.c, inftrees.h, inffixed.h)

    [inflate_table] turns the lengths of a Huffman code into tables that are
    indexed with the next bits of the input.  An array is a list; an access
    outside of it is a [Fault]. *)

From S2P Require Import Prelude Klib.

(** ** Arrays *)

Definition aget {A} (l : list A) (i : Z) : outcome A :=
  if decide (0 ≤ i) then match l !! Z.to_nat i with Some x => Ok x | None => Fault end else Fault.
Definition aset {A} (l : list A) (i : Z) (x : A) : outcome (list A) :=
  if decide (0 ≤ i < Z.of_nat (length l)) then Ok (<[Z.to_nat i := x]> l) else Fault.

(** ** Data *)

(* usr/klibc/zlib/inftrees.h:24-28 code *)
Record code := Code { c_op : Z; c_bits : Z; c_val : Z }.
#[global] Instance code_eq_dec : EqDecision code.
Proof. solve_decision. Defined.

(* usr/klibc/zlib/inftrees.h:43-44 ENOUGH *)
Definition ENOUGH : Z := 2048.
Definition MAXD : Z := 592.

(* usr/klibc/zlib/inftrees.h:47-51 codetype *)
Inductive codetype := CODES | LENS | DISTS.
#[global] Instance codetype_eq_dec : EqDecision codetype.
Proof. solve_decision. Defined.

(* usr/klibc/zlib/inftrees.c:9-9 MAXBITS *)
Definition MAXBITS : Z := 15.
(* usr/klibc/zlib/inftrees.c:60-62 lbase *)
Definition lbase : list Z :=
  [3; 4; 5; 6; 7; 8; 9; 10; 11; 13; 15; 17; 19; 23; 27; 31;
   35; 43; 51; 59; 67; 83; 99; 115; 131; 163; 195; 227; 258; 0; 0].
(* usr/klibc/zlib/inftrees.c:63-65 lext *)
Definition lext : list Z :=
  [16; 16; 16; 16; 16; 16; 16; 16; 17; 17; 17; 17; 18; 18; 18; 18;
   19; 19; 19; 19; 20; 20; 20; 20; 21; 21; 21; 21; 16; 201; 196].
(* usr/klibc/zlib/inftrees.c:66-69 dbase *)
Definition dbase : list Z :=
  [1; 2; 3; 4; 5; 7; 9; 13; 17; 25; 33; 49; 65; 97; 129; 193;
   257; 385; 513; 769; 1025; 1537; 2049; 3073; 4097; 6145;
   8193; 12289; 16385; 24577; 0; 0].
(* usr/klibc/zlib/inftrees.c:70-73 dext *)
Definition dext : list Z :=
  [16; 16; 16; 16; 17; 17; 18; 18; 19; 19; 20; 20; 21; 21; 22; 22;
   23; 23; 24; 24; 25; 25; 26; 26; 27; 27;
   28; 28; 29; 29; 64; 64].

(** ** Counting and sorting the symbols *)

(* usr/klibc/zlib/inftrees.c:107-110 count *)
Fixpoint count_lengths (lens : list Z) (count : list Z) : outcome (list Z) :=
  match lens with
  | [] => Ok count
  | l :: lens => c ← aget count l; count ← aset count l (u16 (c + 1)); count_lengths lens count
  end.

(** The greatest length in use from [k] down, 0 when there is none, and the
    least one from [len] up, [n] of them left to look at. *)
(* usr/klibc/zlib/inftrees.c:114-115 max *)
Fixpoint max_length (k : nat) (count : list Z) : Z :=
  match k with
  | O => 0
  | S j => if decide (nth k count 0 ≠ 0) then Z.of_nat k else max_length j count
  end.
(* usr/klibc/zlib/inftrees.c:126-127 min *)
Fixpoint min_length (n : nat) (len : Z) (count : list Z) : Z :=
  match n with
  | O => len
  | S n => if decide (nth (Z.to_nat len) count 0 ≠ 0) then len else min_length n (len + 1) count
  end.

(** The codes left over after each length (131-136): negative when there are
    too many. *)
Fixpoint codes_left (count : list Z) (left : Z) : option Z :=
  match count with
  | [] => Some left
  | c :: count => let left := 2 * left - c in if decide (left < 0) then None else codes_left count left
  end.

(** The offset of each length, the first one being that of 1 (141-143). *)
Fixpoint offsets (counts : list Z) (off : Z) : list Z :=
  match counts with [] => [] | c :: counts => off :: offsets counts (u16 (off + c)) end.

(** The symbols in order of length (146-147); [offs] starts with length 0. *)
Fixpoint sort_symbols (lens : list Z) (sym : Z) (offs work : list Z) : outcome (list Z) :=
  match lens with
  | [] => Ok work
  | l :: lens =>
      if decide (l ≠ 0) then
        o ← aget offs l;
        work ← aset work o (u16 sym);
        offs ← aset offs l (u16 (o + 1));
        sort_symbols lens (sym + 1) offs work
      else sort_symbols lens (sym + 1) offs work
  end.

(** ** Filling the tables *)

(** The entry of symbol [s] of [n] bits (218-230). *)
Definition entry_of (type : codetype) (s n : Z) : outcome code :=
  let '(base, extra, first, en) :=
    match type with
    | CODES => ([], [], 0, 19)
    | LENS => (lbase, lext, 257, 256)
    | DISTS => (dbase, dext, 0, -1)
    end in
  if decide (s < en) then Ok (Code 0 (u8 n) s)
  else if decide (en < s) then
    e ← aget extra (s - first); b ← aget base (s - first); Ok (Code (u8 e) (u8 n) b)
  else Ok (Code (32 + 64) (u8 n) 0).

(** The copies of an entry (236-239). *)
Fixpoint replicate_entry (fuel : nat) (tab : list code) (at_ fill incr : Z) (this : code) : outcome (list code) :=
  match fuel with
  | O => Hang
  | S f =>
      let fill := u32 (fill - incr) in
      tab ← aset tab (at_ + fill) this;
      if decide (fill = 0) then Ok tab else replicate_entry f tab at_ fill incr this
  end.

(** The backwards increment (242-250, 314-322). *)
Fixpoint free_bit (fuel : nat) (huff incr : Z) : Z :=
  match fuel with
  | O => incr
  | S f => if decide (Z.land huff incr ≠ 0) then free_bit f huff (Z.shiftr incr 1) else incr
  end.
Definition next_huff (huff len : Z) : Z :=
  let incr := free_bit (Z.to_nat len) huff (Z.shiftl 1 (len - 1)) in
  if decide (incr ≠ 0) then Z.land huff (incr - 1) + incr else 0.

(** The size of a new sub-table (269-276). *)
Fixpoint grow_table (fuel : nat) (count : list Z) (drop max curr left : Z) : outcome Z :=
  match fuel with
  | O => Hang
  | S f =>
      if decide (curr + drop < max) then
        c ← aget count (curr + drop);
        let left := left - c in
        if decide (left ≤ 0) then Ok curr else grow_table f count drop max (curr + 1) (Z.shiftl left 1)
      else Ok curr
  end.

(** The variables of the loop.  [tab] is the array of entries and [next] the
    index in it of the table that is being filled. *)
Record tst := Tst {
  t_huff : Z; t_sym : Z; t_len : Z; t_next : Z; t_curr : Z; t_drop : Z; t_low : Z; t_used : Z;
  t_count : list Z; t_tab : list code }.

Section table.
Context (type : codetype) (lens work : list Z) (table max root : Z).

Definition mask : Z := Z.shiftl 1 root - 1.

(** How the loop goes on after a code. *)
Inductive turn := More | Done | Full.

(** Starting a sub-table (260-288), unless there is no room. *)
Definition new_subtable (s : tst) : outcome (tst * turn) :=
  if decide (root < t_len s ∧ Z.land (t_huff s) mask ≠ t_low s) then
    let drop := if decide (t_drop s = 0) then root else t_drop s in
    let next := t_next s + Z.shiftl 1 (t_curr s) in
    let curr := t_len s - drop in
    curr ← grow_table 16 (t_count s) drop max curr (Z.shiftl 1 curr);
    let used := t_used s + Z.shiftl 1 curr in
    if decide (type = LENS ∧ ENOUGH - MAXD ≤ used) then
      Ok (Tst (t_huff s) (t_sym s) (t_len s) next curr drop (t_low s) used (t_count s) (t_tab s), Full)
    else
      let low := Z.land (t_huff s) mask in
      tab ← aset (t_tab s) (table + low) (Code (u8 curr) (u8 root) (u16 (next - table)));
      Ok (Tst (t_huff s) (t_sym s) (t_len s) next curr drop low used (t_count s) tab, More)
  else Ok (s, More).

Definition process_code (s : tst) : outcome (tst * turn) :=
  w ← aget work (t_sym s);
  this ← entry_of type w (t_len s - t_drop s);
  tab ← replicate_entry (Z.to_nat (Z.shiftl 1 (t_curr s))) (t_tab s) (t_next s + Z.shiftr (t_huff s) (t_drop s))
          (Z.shiftl 1 (t_curr s)) (Z.shiftl 1 (t_len s - t_drop s)) this;
  let huff := next_huff (t_huff s) (t_len s) in
  let sym := t_sym s + 1 in
  c ← aget (t_count s) (t_len s);
  let c := u16 (c - 1) in
  count ← aset (t_count s) (t_len s) c;
  if decide (c = 0 ∧ t_len s = max) then
    Ok (Tst huff sym (t_len s) (t_next s) (t_curr s) (t_drop s) (t_low s) (t_used s) count tab, Done)
  else
    len ← (if decide (c = 0) then w ← aget work sym; aget lens w else Ok (t_len s));
    new_subtable (Tst huff sym len (t_next s) (t_curr s) (t_drop s) (t_low s) (t_used s) count tab).

(* usr/klibc/zlib/inftrees.c:216-289 sym *)
Fixpoint process_codes (fuel : nat) (s : tst) : outcome (tst * bool) :=
  match fuel with
  | O => Hang
  | S f =>
      '(s, t) ← process_code s;
      match t with More => process_codes f s | Done => Ok (s, true) | Full => Ok (s, false) end
  end.

(** The entries no code has (298-323). *)
(* usr/klibc/zlib/inftrees.c:298-323 huff *)
Fixpoint fill_rest (fuel : nat) (huff len next drop low : Z) (bits : Z) (tab : list code) : outcome (list code) :=
  match fuel with
  | O => Hang
  | S f =>
      if decide (huff ≠ 0) then
        let back := bool_decide (drop ≠ 0 ∧ Z.land huff mask ≠ low) in
        let '(drop, len, next, bits) := if back then (0, root, table, root) else (drop, len, next, bits) in
        tab ← aset tab (next + Z.shiftr huff drop) (Code 64 (u8 bits) 0);
        fill_rest f (next_huff huff len) len next drop low bits tab
      else Ok tab
  end.
End table.

(** The result: the return value, the array of entries, the index of the next
    one available, the bits of the index, and the work area. *)
(* usr/klibc/zlib/inftrees.c:32-329 inflate_table *)
Definition inflate_table (type : codetype) (lens : list Z) (tab : list code) (table bits : Z) (work : list Z) :
    outcome (Z * list code * Z * Z * list Z) :=
  count ← count_lengths lens (replicate 16 0);
  let max := max_length 15 count in
  let root := if decide (max < bits) then max else bits in
  if decide (max = 0) then
    tab ← aset tab table (Code 64 1 0);
    tab ← aset tab (table + 1) (Code 64 1 0);
    Ok (0, tab, table + 2, 1, work)
  else
    let min := min_length 15 1 count in
    let root := if decide (root < min) then min else root in
    match codes_left (tail count) 1 with
    | None => Ok (-1, tab, table, bits, work)
    | Some rest =>
        if decide (0 < rest ∧ (type = CODES ∨ max ≠ 1)) then Ok (-1, tab, table, bits, work)
        else
          work ← sort_symbols lens 0 (0 :: offsets (tail count) 0) work;
          let used := Z.shiftl 1 root in
          if decide (type = LENS ∧ ENOUGH - MAXD ≤ used) then Ok (1, tab, table, bits, work)
          else
            '(s, room) ← process_codes type lens work table max root (length lens + 1)
                           (Tst 0 0 min table root 0 (2 ^ 32 - 1) used count tab);
            if (room : bool) then
              tab ← fill_rest table root (Z.to_nat (2 ^ t_len s)) (t_huff s) (t_len s) (t_next s) (t_drop s) (t_low s)
                      (t_len s - t_drop s) (t_tab s);
              Ok (0, tab, table + t_used s, root, work)
            else Ok (1, t_tab s, table, bits, work)
    end.

(** ** The tables of the fixed code *)

Definition codes_of (l : list (Z * Z * Z)) : list code := (λ '(op, bits, val), Code op bits val) <$> l.

(* usr/klibc/zlib/inffixed.h:10-85 lenfix *)
Definition lenfix : list code := codes_of
  [(96, 7, 0); (0, 8, 80); (0, 8, 16); (20, 8, 115); (18, 7, 31); (0, 8, 112); (0, 8, 48); (0, 9, 192);
   (16, 7, 10); (0, 8, 96); (0, 8, 32); (0, 9, 160); (0, 8, 0); (0, 8, 128); (0, 8, 64); (0, 9, 224);
   (16, 7, 6); (0, 8, 88); (0, 8, 24); (0, 9, 144); (19, 7, 59); (0, 8, 120); (0, 8, 56); (0, 9, 208);
   (17, 7, 17); (0, 8, 104); (0, 8, 40); (0, 9, 176); (0, 8, 8); (0, 8, 136); (0, 8, 72); (0, 9, 240);
   (16, 7, 4); (0, 8, 84); (0, 8, 20); (21, 8, 227); (19, 7, 43); (0, 8, 116); (0, 8, 52); (0, 9, 200);
   (17, 7, 13); (0, 8, 100); (0, 8, 36); (0, 9, 168); (0, 8, 4); (0, 8, 132); (0, 8, 68); (0, 9, 232);
   (16, 7, 8); (0, 8, 92); (0, 8, 28); (0, 9, 152); (20, 7, 83); (0, 8, 124); (0, 8, 60); (0, 9, 216);
   (18, 7, 23); (0, 8, 108); (0, 8, 44); (0, 9, 184); (0, 8, 12); (0, 8, 140); (0, 8, 76); (0, 9, 248);
   (16, 7, 3); (0, 8, 82); (0, 8, 18); (21, 8, 163); (19, 7, 35); (0, 8, 114); (0, 8, 50); (0, 9, 196);
   (17, 7, 11); (0, 8, 98); (0, 8, 34); (0, 9, 164); (0, 8, 2); (0, 8, 130); (0, 8, 66); (0, 9, 228);
   (16, 7, 7); (0, 8, 90); (0, 8, 26); (0, 9, 148); (20, 7, 67); (0, 8, 122); (0, 8, 58); (0, 9, 212);
   (18, 7, 19); (0, 8, 106); (0, 8, 42); (0, 9, 180); (0, 8, 10); (0, 8, 138); (0, 8, 74); (0, 9, 244);
   (16, 7, 5); (0, 8, 86); (0, 8, 22); (64, 8, 0); (19, 7, 51); (0, 8, 118); (0, 8, 54); (0, 9, 204);
   (17, 7, 15); (0, 8, 102); (0, 8, 38); (0, 9, 172); (0, 8, 6); (0, 8, 134); (0, 8, 70); (0, 9, 236);
   (16, 7, 9); (0, 8, 94); (0, 8, 30); (0, 9, 156); (20, 7, 99); (0, 8, 126); (0, 8, 62); (0, 9, 220);
   (18, 7, 27); (0, 8, 110); (0, 8, 46); (0, 9, 188); (0, 8, 14); (0, 8, 142); (0, 8, 78); (0, 9, 252);
   (96, 7, 0); (0, 8, 81); (0, 8, 17); (21, 8, 131); (18, 7, 31); (0, 8, 113); (0, 8, 49); (0, 9, 194);
   (16, 7, 10); (0, 8, 97); (0, 8, 33); (0, 9, 162); (0, 8, 1); (0, 8, 129); (0, 8, 65); (0, 9, 226);
   (16, 7, 6); (0, 8, 89); (0, 8, 25); (0, 9, 146); (19, 7, 59); (0, 8, 121); (0, 8, 57); (0, 9, 210);
   (17, 7, 17); (0, 8, 105); (0, 8, 41); (0, 9, 178); (0, 8, 9); (0, 8, 137); (0, 8, 73); (0, 9, 242);
   (16, 7, 4); (0, 8, 85); (0, 8, 21); (16, 8, 258); (19, 7, 43); (0, 8, 117); (0, 8, 53); (0, 9, 202);
   (17, 7, 13); (0, 8, 101); (0, 8, 37); (0, 9, 170); (0, 8, 5); (0, 8, 133); (0, 8, 69); (0, 9, 234);
   (16, 7, 8); (0, 8, 93); (0, 8, 29); (0, 9, 154); (20, 7, 83); (0, 8, 125); (0, 8, 61); (0, 9, 218);
   (18, 7, 23); (0, 8, 109); (0, 8, 45); (0, 9, 186); (0, 8, 13); (0, 8, 141); (0, 8, 77); (0, 9, 250);
   (16, 7, 3); (0, 8, 83); (0, 8, 19); (21, 8, 195); (19, 7, 35); (0, 8, 115); (0, 8, 51); (0, 9, 198);
   (17, 7, 11); (0, 8, 99); (0, 8, 35); (0, 9, 166); (0, 8, 3); (0, 8, 131); (0, 8, 67); (0, 9, 230);
   (16, 7, 7); (0, 8, 91); (0, 8, 27); (0, 9, 150); (20, 7, 67); (0, 8, 123); (0, 8, 59); (0, 9, 214);
   (18, 7, 19); (0, 8, 107); (0, 8, 43); (0, 9, 182); (0, 8, 11); (0, 8, 139); (0, 8, 75); (0, 9, 246);
   (16, 7, 5); (0, 8, 87); (0, 8, 23); (64, 8, 0); (19, 7, 51); (0, 8, 119); (0, 8, 55); (0, 9, 206);
   (17, 7, 15); (0, 8, 103); (0, 8, 39); (0, 9, 174); (0, 8, 7); (0, 8, 135); (0, 8, 71); (0, 9, 238);
   (16, 7, 9); (0, 8, 95); (0, 8, 31); (0, 9, 158); (20, 7, 99); (0, 8, 127); (0, 8, 63); (0, 9, 222);
   (18, 7, 27); (0, 8, 111); (0, 8, 47); (0, 9, 190); (0, 8, 15); (0, 8, 143); (0, 8, 79); (0, 9, 254);
   (96, 7, 0); (0, 8, 80); (0, 8, 16); (20, 8, 115); (18, 7, 31); (0, 8, 112); (0, 8, 48); (0, 9, 193);
   (16, 7, 10); (0, 8, 96); (0, 8, 32); (0, 9, 161); (0, 8, 0); (0, 8, 128); (0, 8, 64); (0, 9, 225);
   (16, 7, 6); (0, 8, 88); (0, 8, 24); (0, 9, 145); (19, 7, 59); (0, 8, 120); (0, 8, 56); (0, 9, 209);
   (17, 7, 17); (0, 8, 104); (0, 8, 40); (0, 9, 177); (0, 8, 8); (0, 8, 136); (0, 8, 72); (0, 9, 241);
   (16, 7, 4); (0, 8, 84); (0, 8, 20); (21, 8, 227); (19, 7, 43); (0, 8, 116); (0, 8, 52); (0, 9, 201);
   (17, 7, 13); (0, 8, 100); (0, 8, 36); (0, 9, 169); (0, 8, 4); (0, 8, 132); (0, 8, 68); (0, 9, 233);
   (16, 7, 8); (0, 8, 92); (0, 8, 28); (0, 9, 153); (20, 7, 83); (0, 8, 124); (0, 8, 60); (0, 9, 217);
   (18, 7, 23); (0, 8, 108); (0, 8, 44); (0, 9, 185); (0, 8, 12); (0, 8, 140); (0, 8, 76); (0, 9, 249);
   (16, 7, 3); (0, 8, 82); (0, 8, 18); (21, 8, 163); (19, 7, 35); (0, 8, 114); (0, 8, 50); (0, 9, 197);
   (17, 7, 11); (0, 8, 98); (0, 8, 34); (0, 9, 165); (0, 8, 2); (0, 8, 130); (0, 8, 66); (0, 9, 229);
   (16, 7, 7); (0, 8, 90); (0, 8, 26); (0, 9, 149); (20, 7, 67); (0, 8, 122); (0, 8, 58); (0, 9, 213);
   (18, 7, 19); (0, 8, 106); (0, 8, 42); (0, 9, 181); (0, 8, 10); (0, 8, 138); (0, 8, 74); (0, 9, 245);
   (16, 7, 5); (0, 8, 86); (0, 8, 22); (64, 8, 0); (19, 7, 51); (0, 8, 118); (0, 8, 54); (0, 9, 205);
   (17, 7, 15); (0, 8, 102); (0, 8, 38); (0, 9, 173); (0, 8, 6); (0, 8, 134); (0, 8, 70); (0, 9, 237);
   (16, 7, 9); (0, 8, 94); (0, 8, 30); (0, 9, 157); (20, 7, 99); (0, 8, 126); (0, 8, 62); (0, 9, 221);
   (18, 7, 27); (0, 8, 110); (0, 8, 46); (0, 9, 189); (0, 8, 14); (0, 8, 142); (0, 8, 78); (0, 9, 253);
   (96, 7, 0); (0, 8, 81); (0, 8, 17); (21, 8, 131); (18, 7, 31); (0, 8, 113); (0, 8, 49); (0, 9, 195);
   (16, 7, 10); (0, 8, 97); (0, 8, 33); (0, 9, 163); (0, 8, 1); (0, 8, 129); (0, 8, 65); (0, 9, 227);
   (16, 7, 6); (0, 8, 89); (0, 8, 25); (0, 9, 147); (19, 7, 59); (0, 8, 121); (0, 8, 57); (0, 9, 211);
   (17, 7, 17); (0, 8, 105); (0, 8, 41); (0, 9, 179); (0, 8, 9); (0, 8, 137); (0, 8, 73); (0, 9, 243);
   (16, 7, 4); (0, 8, 85); (0, 8, 21); (16, 8, 258); (19, 7, 43); (0, 8, 117); (0, 8, 53); (0, 9, 203);
   (17, 7, 13); (0, 8, 101); (0, 8, 37); (0, 9, 171); (0, 8, 5); (0, 8, 133); (0, 8, 69); (0, 9, 235);
   (16, 7, 8); (0, 8, 93); (0, 8, 29); (0, 9, 155); (20, 7, 83); (0, 8, 125); (0, 8, 61); (0, 9, 219);
   (18, 7, 23); (0, 8, 109); (0, 8, 45); (0, 9, 187); (0, 8, 13); (0, 8, 141); (0, 8, 77); (0, 9, 251);
   (16, 7, 3); (0, 8, 83); (0, 8, 19); (21, 8, 195); (19, 7, 35); (0, 8, 115); (0, 8, 51); (0, 9, 199);
   (17, 7, 11); (0, 8, 99); (0, 8, 35); (0, 9, 167); (0, 8, 3); (0, 8, 131); (0, 8, 67); (0, 9, 231);
   (16, 7, 7); (0, 8, 91); (0, 8, 27); (0, 9, 151); (20, 7, 67); (0, 8, 123); (0, 8, 59); (0, 9, 215);
   (18, 7, 19); (0, 8, 107); (0, 8, 43); (0, 9, 183); (0, 8, 11); (0, 8, 139); (0, 8, 75); (0, 9, 247);
   (16, 7, 5); (0, 8, 87); (0, 8, 23); (64, 8, 0); (19, 7, 51); (0, 8, 119); (0, 8, 55); (0, 9, 207);
   (17, 7, 15); (0, 8, 103); (0, 8, 39); (0, 9, 175); (0, 8, 7); (0, 8, 135); (0, 8, 71); (0, 9, 239);
   (16, 7, 9); (0, 8, 95); (0, 8, 31); (0, 9, 159); (20, 7, 99); (0, 8, 127); (0, 8, 63); (0, 9, 223);
   (18, 7, 27); (0, 8, 111); (0, 8, 47); (0, 9, 191); (0, 8, 15); (0, 8, 143); (0, 8, 79); (0, 9, 255)].
(* usr/klibc/zlib/inffixed.h:87-94 distfix *)
Definition distfix : list code := codes_of
  [(16, 5, 1); (23, 5, 257); (19, 5, 17); (27, 5, 4097); (17, 5, 5); (25, 5, 1025); (21, 5, 65); (29, 5, 16385);
   (16, 5, 3); (24, 5, 513); (20, 5, 33); (28, 5, 8193); (18, 5, 9); (26, 5, 2049); (22, 5, 129); (64, 5, 0);
   (16, 5, 2); (23, 5, 385); (19, 5, 25); (27, 5, 6145); (17, 5, 7); (25, 5, 1537); (21, 5, 97); (29, 5, 24577);
   (16, 5, 4); (24, 5, 769); (20, 5, 49); (28, 5, 12289); (18, 5, 13); (26, 5, 3073); (22, 5, 193); (64, 5, 0)].

(** The lengths of the fixed code (inflate.c:219-223, 230-231). *)
Definition fixed_lens : list Z := replicate 144 8 ++ replicate 112 9 ++ replicate 24 7 ++ replicate 8 8.
Definition blank_tab (n : nat) : list code := replicate n (Code 0 0 0).

(** An entry without a code has bit 6 of [op] set and bit 5 clear. *)
Definition invalid (c : code) : bool := Z.testbit (c_op c) 6 && negb (Z.testbit (c_op c) 5).
Definition normal (c : code) : code := if invalid c then Code 64 (c_bits c) (c_val c) else c.

(** The tables of inffixed.h are the ones [inflate_table] builds, but for the
    marks of the two unused length codes, 201 and 196 there and 64 here. *)
Lemma fixed_tables_built :
  (λ x, match x with Ok (ret, tab, next, bits, _) => Some (ret, normal <$> tab, next, bits) | _ => None end)
    ('(_, tab, next, _, work) ← inflate_table LENS fixed_lens (blank_tab 544) 0 9 (replicate 288 0);
     inflate_table DISTS (replicate 32 5) tab next 5 work) =
  Some (0, lenfix ++ distfix, 544, 5).
Proof. vm_compute. reflexivity. Qed.
