(* ===== verification/Huffman.v ===== *)
(** * The decoding tables decode (usr/klibc/zlib/inftrees.c)

    The theory of canonical codes and the proof that the tables of
    [inflate_table] decode them.  A code word of [l] bits is the interval of
    the 15 bit numbers that begin with it: it starts at a multiple of
    2^(15-l), and the words in order of length follow each other without gaps.
    The table is indexed with the bits in the other order, [rev]. *)

From Stdlib Require Import Sorted.
From S2P Require Import Prelude Klib Inftrees.

(** ** Bits in the other order *)

Fixpoint rev (n : nat) (x : Z) : Z :=
  match n with O => 0 | S n => rev n (x / 2) + 2 ^ Z.of_nat n * (x `mod` 2) end.

Lemma rev_bound n x : 0 ≤ rev n x < 2 ^ Z.of_nat n.
Proof.
  revert x. induction n as [|n IH]; intros x; [simpl; lia|]. cbn [rev]. specialize (IH (x / 2)).
  pose proof (Z.mod_pos_bound x 2). replace (Z.of_nat (S n)) with (Z.of_nat n + 1) by lia.
  rewrite Z.pow_add_r by lia. nia.
Qed.

Lemma add_pow2_testbit a b k i :
  0 ≤ k → 0 ≤ a < 2 ^ k → 0 ≤ i → Z.testbit (a + 2 ^ k * b) i = if decide (i < k) then Z.testbit a i else Z.testbit b (i - k).
Proof.
  intros Hk Ha Hi. rewrite lxor_add, Z.lxor_spec by done. case_decide.
  - by rewrite Z.shiftl_spec_low, xorb_false_r by done.
  - rewrite (proj1 (bound_bits k a Hk) Ha) by lia. by rewrite Z.shiftl_spec by lia.
Qed.

Lemma rev_testbit n x i :
  0 ≤ i → Z.testbit (rev n x) i = if decide (i < Z.of_nat n) then Z.testbit x (Z.of_nat n - 1 - i) else false.
Proof.
  intros Hi. revert x. induction n as [|n IH]; intros x.
  - simpl. rewrite decide_False by lia. apply Z.bits_0.
  - cbn [rev]. rewrite add_pow2_testbit by (done || apply rev_bound || lia). rewrite IH.
    destruct (decide (i < Z.of_nat n)).
    + rewrite decide_True, Z.div2_bits by lia. f_equal. lia.
    + destruct (decide (i = Z.of_nat n)) as [->|].
      * rewrite decide_True by lia. replace (Z.of_nat n - Z.of_nat n) with 0 by lia.
        replace (Z.of_nat (S n) - 1 - Z.of_nat n) with 0 by lia. rewrite Zmod_odd, !Z.bit0_odd. by destruct (Z.odd x).
      * rewrite decide_False by lia. apply (bound_bits 1); [lia| |lia]. pose proof (Z.mod_pos_bound x 2). lia.
Qed.

Lemma rev_rev n x : 0 ≤ x < 2 ^ Z.of_nat n → rev n (rev n x) = x.
Proof.
  intros Hx. apply Z.bits_inj'. intros i Hi. rewrite rev_testbit by done. case_decide.
  - rewrite rev_testbit by lia. rewrite decide_True by lia. f_equal. lia.
  - symmetry. apply (bound_bits (Z.of_nat n)); [lia|done|lia].
Qed.
Lemma rev_inj n x y : 0 ≤ x < 2 ^ Z.of_nat n → 0 ≤ y < 2 ^ Z.of_nat n → rev n x = rev n y → x = y.
Proof. intros Hx Hy E. by rewrite <- (rev_rev n x), E, rev_rev. Qed.

(** The low bits of the turned number come from the high bits. *)
Lemma rev_low n k x : (k ≤ n)%nat → rev n x `mod` 2 ^ Z.of_nat k = rev k (x / 2 ^ Z.of_nat (n - k)).
Proof.
  intros Hk. apply Z.bits_inj'. intros i Hi. rewrite rev_testbit by done. case_decide.
  - rewrite Z.mod_pow2_bits_low, rev_testbit by lia. rewrite decide_True by lia.
    rewrite <- Z.shiftr_div_pow2, Z.shiftr_spec by lia. f_equal. lia.
  - by rewrite Z.mod_pow2_bits_high by lia.
Qed.
(** Zeros at the low end become zeros at the high end. *)
Lemma rev_aligned n k x : (k ≤ n)%nat → (2 ^ Z.of_nat (n - k) | x) → rev n x = rev k (x / 2 ^ Z.of_nat (n - k)).
Proof.
  intros Hk [c ->]. apply Z.bits_inj'. intros i Hi. rewrite !rev_testbit by done.
  rewrite Z.div_mul by (apply Z.pow_nonzero; lia). rewrite <- Z.shiftl_mul_pow2 by lia.
  repeat case_decide; try lia.
  - rewrite Z.shiftl_spec by lia. f_equal. lia.
  - rewrite Z.shiftl_spec_low by lia. done.
Qed.

(** ** The backwards increment *)

Lemma land_pow2_nonzero x n : 0 ≤ n → Z.land x (2 ^ n) ≠ 0 ↔ Z.testbit x n = true.
Proof.
  intros Hn. rewrite land_pow2 by done. pose proof (Z.pow_pos_nonneg 2 n). destruct (Z.testbit x n); split; lia || done.
Qed.

(** The increment by the bits below [n], the bits from [n] on being set. *)
Lemma free_bit_spec n huff :
  let incr := free_bit n huff (2 ^ Z.of_nat n / 2) in
  (incr = 0 ∧ ∀ i, 0 ≤ i < Z.of_nat n → Z.testbit huff i = true) ∨
  (∃ j, 0 ≤ j < Z.of_nat n ∧ incr = 2 ^ j ∧ Z.testbit huff j = false ∧ ∀ i, j < i < Z.of_nat n → Z.testbit huff i = true).
Proof.
  induction n as [|n IH].
  - simpl. left. split; [done|lia].
  - assert (2 ^ Z.of_nat (S n) / 2 = 2 ^ Z.of_nat n) as E.
    { replace (Z.of_nat (S n)) with (Z.of_nat n + 1) by lia. rewrite Z.pow_add_r by lia. by apply Z.div_mul. }
    cbn [free_bit]. rewrite E. pose proof (land_pow2_nonzero huff (Z.of_nat n) ltac:(lia)) as Hl.
    destruct (decide (Z.land huff (2 ^ Z.of_nat n) ≠ 0)) as [Hd|Hd].
    + apply Hl in Hd. rewrite Z.shiftr_div_pow2 by lia. change (2 ^ 1) with 2.
      destruct IH as [[-> H]|(j & Hj & -> & H0 & H1)].
      * left. split; [done|]. intros i Hi. destruct (decide (i = Z.of_nat n)) as [->|]; [done|]. apply H. lia.
      * right. exists j. split_and!; [lia..|done|]. intros i Hi. destruct (decide (i = Z.of_nat n)) as [->|]; [done|].
        apply H1. lia.
    + right. exists (Z.of_nat n). split_and!; [lia..|done| |intros; lia].
      destruct (Z.testbit huff (Z.of_nat n)) eqn:E2; [|done]. exfalso. tauto.
Qed.

(** A number whose bits below [m] are set and whose bit [m] is clear. *)
Lemma succ_testbit c m i :
  0 ≤ m → 0 ≤ i → (∀ k, 0 ≤ k < m → Z.testbit c k = true) → Z.testbit c m = false →
  Z.testbit (c + 1) i = if decide (i < m) then false else if decide (i = m) then true else Z.testbit c i.
Proof.
  intros Hm Hi H1 H0. set (h := c / 2 ^ (m + 1)).
  assert (c `mod` 2 ^ (m + 1) = 2 ^ m - 1) as E.
  { apply Z.bits_inj'. intros k Hk.  replace (2 ^ m - 1) with (Z.ones m) by (rewrite Z.ones_equiv; lia). destruct (decide (k < m)).
    - rewrite Z.mod_pow2_bits_low, Z.ones_spec_low by lia. apply H1. lia.
    - rewrite Z.ones_spec_high by lia. destruct (decide (k = m)) as [->|].
      + by rewrite Z.mod_pow2_bits_low by lia.
      + by rewrite Z.mod_pow2_bits_high by lia. }
  assert (0 < 2 ^ m) by (apply Z.pow_pos_nonneg; lia).
  assert (2 ^ (m + 1) = 2 * 2 ^ m) as E2 by (rewrite Z.pow_add_r by lia; lia).
  assert (c = (2 ^ m - 1) + 2 ^ (m + 1) * h) as Ec.
  { rewrite <- E. unfold h. rewrite Z.add_comm. apply Z.div_mod. lia. }
  assert (c + 1 = 2 ^ m + 2 ^ (m + 1) * h) as Ec1 by lia.
  rewrite Ec1, add_pow2_testbit by lia. destruct (decide (i < m)).
  - rewrite decide_True by lia. apply Z.pow2_bits_false. lia.
  - destruct (decide (i = m)) as [->|].
    + rewrite decide_True by lia. by apply Z.pow2_bits_true.
    + rewrite decide_False by lia. rewrite Ec, add_pow2_testbit by lia. by rewrite decide_False by lia.
Qed.

Lemma next_huff_rev n c :
  0 ≤ c < 2 ^ Z.of_nat n → next_huff (rev n c) (Z.of_nat n) = rev n ((c + 1) `mod` 2 ^ Z.of_nat n).
Proof.
  intros Hc. unfold next_huff. rewrite Nat2Z.id.
  assert (Z.shiftl 1 (Z.of_nat n - 1) = 2 ^ Z.of_nat n / 2) as ->.
  { destruct n as [|n]; [done|]. rewrite Z.shiftl_mul_pow2 by lia.
    replace (Z.of_nat (S n)) with (Z.of_nat n + 1) by lia. rewrite Z.pow_add_r by lia. rewrite Z.div_mul by done.
    rewrite Z.mul_1_l. f_equal. lia. }
  destruct (free_bit_spec n (rev n c)) as [[-> H1]|(j & Hj & -> & H0 & H1)].
  - rewrite decide_False by (by intros H). assert (c = 2 ^ Z.of_nat n - 1) as ->.
    { apply Z.bits_inj'. intros i Hi.  replace (2 ^ Z.of_nat n - 1) with (Z.ones (Z.of_nat n)) by (rewrite Z.ones_equiv; lia).
      destruct (decide (i < Z.of_nat n)).
      - rewrite Z.ones_spec_low by lia. specialize (H1 (Z.of_nat n - 1 - i) ltac:(lia)).
        rewrite rev_testbit, decide_True in H1 by lia. rewrite <- H1. f_equal. lia.
      - rewrite Z.ones_spec_high by lia. apply (bound_bits (Z.of_nat n)); [lia|done|lia]. }
    replace (2 ^ Z.of_nat n - 1 + 1) with (2 ^ Z.of_nat n) by lia. rewrite Z.mod_same by (apply Z.pow_nonzero; lia).
    apply Z.bits_inj'. intros i Hi. rewrite rev_testbit, !Z.bits_0 by done. by case_decide.
  - rewrite decide_True by (apply Z.pow_nonzero; lia). set (m := Z.of_nat n - 1 - j).
    assert (0 < 2 ^ j) by (apply Z.pow_pos_nonneg; lia).
    rewrite rev_testbit, decide_True in H0 by lia.
    assert (∀ k, 0 ≤ k < m → Z.testbit c k = true) as Hk.
    { intros k Hk. specialize (H1 (Z.of_nat n - 1 - k) ltac:(lia)). rewrite rev_testbit, decide_True in H1 by lia.
      rewrite <- H1. f_equal. lia. }
    replace (2 ^ j - 1) with (Z.ones j) by (rewrite Z.ones_equiv; lia). rewrite Z.land_ones by lia.
    apply Z.bits_inj'. intros i Hi.
    replace (rev n c `mod` 2 ^ j + 2 ^ j) with (rev n c `mod` 2 ^ j + 2 ^ j * 1) by lia.
    rewrite add_pow2_testbit by (try apply Z.mod_pos_bound; lia). rewrite rev_testbit by done.
    destruct (decide (i < Z.of_nat n)) as [Hin|Hin].
    + rewrite (Z.mod_pow2_bits_low (c + 1)) by lia. rewrite (succ_testbit c m) by (done || lia).
      destruct (decide (i < j)).
      * rewrite decide_False, decide_False by lia. rewrite Z.mod_pow2_bits_low, rev_testbit by lia. by rewrite decide_True by lia.
      * destruct (decide (i = j)) as [->|].
        -- rewrite decide_False, decide_True by lia. by rewrite Z.sub_diag.
        -- rewrite decide_True by lia. apply (bound_bits 1); lia.
    + rewrite decide_False by lia. apply (bound_bits 1); lia.
Qed.

(** ** Arrays as functions *)

Definition arr {A} (n : Z) (f : Z → A) : list A := f <$> seqZ 0 n.
Definition upd {A} (f : Z → A) (i : Z) (x : A) : Z → A := λ j, if decide (j = i) then x else f j.

Lemma arr_length {A} n (f : Z → A) : length (arr n f) = Z.to_nat n.
Proof. unfold arr. by rewrite length_fmap, length_seqZ. Qed.
Lemma arr_lookup {A} n (f : Z → A) (i : nat) : Z.of_nat i < n → arr n f !! i = Some (f (Z.of_nat i)).
Proof. intros Hi. unfold arr. rewrite list_lookup_fmap, lookup_seqZ_lt by lia. by rewrite Z.add_0_l. Qed.
Lemma arr_ext {A} n (f g : Z → A) : (∀ i, 0 ≤ i < n → f i = g i) → arr n f = arr n g.
Proof. intros H. unfold arr. apply list_fmap_ext. intros j i Hi%lookup_seqZ. apply H. lia. Qed.
Lemma arr_of {A} `{Inhabited A} (l : list A) : l = arr (Z.of_nat (length l)) (λ i, l !!! Z.to_nat i).
Proof.
  apply list_eq. intros i. destruct (decide (i < length l)%nat) as [Hi|Hi].
  - rewrite arr_lookup by lia. rewrite Nat2Z.id. destruct (lookup_lt_is_Some_2 l i Hi) as [x Hx].
    by rewrite Hx, (list_lookup_total_correct _ _ _ Hx).
  - rewrite !lookup_ge_None_2; [done|rewrite arr_length; lia|lia].
Qed.

Lemma aget_arr {A} n (f : Z → A) i : 0 ≤ i < n → aget (arr n f) i = Ok (f i).
Proof. intros Hi. unfold aget. rewrite decide_True, arr_lookup by lia. by rewrite Z2Nat.id by lia. Qed.
Lemma aset_arr {A} n (f : Z → A) i x : 0 ≤ i < n → aset (arr n f) i x = Ok (arr n (upd f i x)).
Proof.
  intros Hi. unfold aset. rewrite decide_True by (rewrite arr_length; lia). f_equal. apply list_eq. intros j.
  destruct (decide (Z.of_nat j < n)).
  - rewrite (arr_lookup _ (upd _ _ _)) by done. unfold upd. destruct (decide (Z.of_nat j = i)) as [<-|].
    + rewrite Nat2Z.id. apply list_lookup_insert_eq. rewrite arr_length. lia.
    + rewrite list_lookup_insert_ne by lia. by apply arr_lookup.
  - rewrite !lookup_ge_None_2; [done|rewrite arr_length; lia|rewrite length_insert, arr_length; lia].
Qed.
Lemma upd_same {A} (f : Z → A) i x : upd f i x i = x.
Proof. unfold upd. by rewrite decide_True. Qed.
Lemma upd_other {A} (f : Z → A) i j x : j ≠ i → upd f i x j = f j.
Proof. intros. unfold upd. by rewrite decide_False. Qed.

(** ** Counting and sorting *)

(** How often a length occurs. *)
Definition cnt (ls : list Z) (l : Z) : Z := Z.of_nat (length (filter (λ x, x = l) ls)).

Lemma cnt_cons l0 ls l : cnt (l0 :: ls) l = (if decide (l0 = l) then 1 else 0) + cnt ls l.
Proof. unfold cnt. rewrite filter_cons. case_decide; simpl; lia. Qed.
Lemma cnt_range ls l : 0 ≤ cnt ls l ≤ Z.of_nat (length ls).
Proof. unfold cnt. pose proof (length_filter (λ x, x = l) ls). lia. Qed.

Definition lengths_ok (ls : list Z) : Prop := Forall (λ l, 0 ≤ l ≤ 15) ls.

Lemma count_lengths_spec ls f :
  lengths_ok ls → (∀ l, 0 ≤ f l ∧ f l + Z.of_nat (length ls) < 65536) →
  count_lengths ls (arr 16 f) = Ok (arr 16 (λ l, f l + cnt ls l)).
Proof.
  intros Hl. revert f. induction Hl as [|l ls Hl Hls IH]; intros f Hf; cbn [count_lengths].
  - f_equal. apply arr_ext. intros i _. unfold cnt. simpl. lia.
  - rewrite aget_arr by lia. cbn [mbind outcome_bind]. rewrite aset_arr by lia. cbn [mbind outcome_bind].
    simpl length in Hf. unfold u16. rewrite Z.mod_small by (specialize (Hf l); lia).
    rewrite IH.
    + f_equal. apply arr_ext. intros i _. rewrite cnt_cons. unfold upd.
      destruct (decide (i = l)) as [->|]; [rewrite decide_True by done|rewrite decide_False by congruence]; lia.
    + intros i. specialize (Hf i). unfold upd. case_decide; [subst|]; lia.
Qed.

(** The symbols of length [l] from the number [s] on, in order. *)
Fixpoint syms (ls : list Z) (s l : Z) : list Z :=
  match ls with [] => [] | x :: ls => (if decide (x = l) then [s] else []) ++ syms ls (s + 1) l end.

Lemma syms_length ls s l : Z.of_nat (length (syms ls s l)) = cnt ls l.
Proof.
  revert s. induction ls as [|x ls IH]; intros s; [done|]. cbn [syms]. rewrite length_app, cnt_cons, Nat2Z.inj_add, IH.
  by case_decide.
Qed.

(** The places of the lengths are disjoint and inside the array. *)
Definition places (ls : list Z) (O : Z → Z) (n : Z) : Prop :=
  (∀ l, 1 ≤ l ≤ 15 → 0 ≤ O l ∧ O l + cnt ls l ≤ n) ∧
  (∀ l l', 1 ≤ l ≤ 15 → 1 ≤ l' ≤ 15 → l < l' → O l + cnt ls l ≤ O l').

Lemma sort_symbols_spec ls s O n m W :
  lengths_ok ls → m < 65536 → m ≤ n → 0 ≤ s → s + Z.of_nat (length ls) < 65536 → places ls O m →
  ∃ W', sort_symbols ls s (arr 16 O) (arr n W) = Ok (arr n W') ∧
    (∀ l k x, 1 ≤ l ≤ 15 → syms ls s l !! k = Some x → W' (O l + Z.of_nat k) = x) ∧
    (∀ i, (∀ l, 1 ≤ l ≤ 15 → ¬ (O l ≤ i < O l + cnt ls l)) → W' i = W i).
Proof.
  intros Hl Hm65 Hn. revert s O W. induction Hl as [|l0 ls Hl0 Hls IH]; intros s O W Hs Hm [P1 P2].
  - exists W. split_and!; [done|by intros ? [|]|done].
  - cbn [sort_symbols length] in *. assert (∀ l, cnt (l0 :: ls) l = (if decide (l0 = l) then 1 else 0) + cnt ls l) as Hc by apply cnt_cons.
    destruct (decide (l0 ≠ 0)) as [H0|H0].
    + rewrite aget_arr by lia. cbn [mbind outcome_bind]. destruct (P1 l0 ltac:(lia)) as [Q1 Q2].
      rewrite Hc, decide_True in Q2 by done. pose proof (cnt_range ls l0).
      rewrite aset_arr by lia. cbn [mbind outcome_bind]. rewrite aset_arr by lia. cbn [mbind outcome_bind].
      unfold u16. rewrite !Z.mod_small by lia.
      destruct (IH (s + 1) (upd O l0 (O l0 + 1)) (upd W (O l0) s)) as (W' & -> & H1 & H2); [lia|lia| |].
      { split.
        - intros l Hl'. destruct (P1 l Hl'). rewrite Hc in *. unfold upd. case_decide; [subst|]; repeat case_decide; lia || congruence.
        - intros l l' Hl' Hl'' Hlt. pose proof (P2 l l' Hl' Hl'' Hlt). rewrite Hc in *.
          unfold upd. repeat case_decide; subst; lia. }
      exists W'. split_and!; [done| |].
      * intros l k x Hl' Hk. cbn [syms] in Hk. destruct (decide (l0 = l)) as [<-|Hne].
        -- destruct k as [|k]; simpl in Hk.
           ++ injection Hk as <-. rewrite Z.add_0_r, H2; [apply upd_same|].
              intros l Hl1. unfold upd. destruct (decide (l = l0)) as [->|]; [lia|].
              pose proof (P2 l l0 Hl1 ltac:(lia)) as Q. pose proof (P2 l0 l ltac:(lia) Hl1) as Q'. rewrite Hc in Q, Q'.
              rewrite decide_False in Q by congruence. rewrite decide_True in Q' by done. pose proof (cnt_range ls l). lia.
           ++ rewrite <- (H1 l0 k x Hl' Hk), upd_same. f_equal. lia.
        -- simpl in Hk. rewrite <- (H1 l k x Hl' Hk), upd_other by congruence. done.
      * intros i Hi. rewrite H2.
        -- apply upd_other. intros ->. apply (Hi l0 ltac:(lia)). rewrite Hc, decide_True by done. lia.
        -- intros l Hl' Hx. apply (Hi l Hl'). rewrite Hc. unfold upd in Hx. repeat case_decide; subst; lia || congruence.
    + apply dec_stable in H0 as ->. destruct (IH (s + 1) O W) as (W' & -> & H1 & H2); [lia|lia| |].
      { split; [intros l Hl'; destruct (P1 l Hl')|intros l l' Hl' Hl'' Hlt; pose proof (P2 l l' Hl' Hl'' Hlt)];
          rewrite Hc in *; rewrite decide_False in * by lia; lia. }
      exists W'. split_and!; [done| |].
      * intros l k x Hl' Hk. cbn [syms] in Hk. rewrite decide_False in Hk by lia. by apply H1.
      * intros i Hi. apply H2. intros l Hl' Hx. apply (Hi l Hl'). rewrite Hc, decide_False by lia. lia.
Qed.

(** ** Code words as intervals *)

(** The 15 bits of a number in the other order. *)
Abbreviation R := (rev 15).

Lemma rev_mod n x : rev n (x `mod` 2 ^ Z.of_nat n) = rev n x.
Proof.
  apply Z.bits_inj'. intros i Hi. rewrite !rev_testbit by done. case_decide; [|done].
  by rewrite Z.mod_pow2_bits_low by lia.
Qed.
Lemma R_bound p : 0 ≤ R p < 2 ^ 15.
Proof. apply (rev_bound 15). Qed.
Lemma R_low k p : 0 ≤ k ≤ 15 → R p `mod` 2 ^ k = rev (Z.to_nat k) (p / 2 ^ (15 - k)).
Proof.
  intros Hk. pose proof (rev_low 15 (Z.to_nat k) p ltac:(lia)) as H. rewrite Z2Nat.id in H by lia. rewrite H.
  do 3 f_equal. lia.
Qed.
Lemma R_same k p q :
  0 ≤ k ≤ 15 → 0 ≤ p < 2 ^ 15 → 0 ≤ q < 2 ^ 15 →
  R p `mod` 2 ^ k = R q `mod` 2 ^ k ↔ p / 2 ^ (15 - k) = q / 2 ^ (15 - k).
Proof.
  intros Hk Hp Hq. rewrite !R_low by done. split; [|by intros ->].
  assert (2 ^ 15 = 2 ^ (15 - k) * 2 ^ k) as E by (rewrite <- Z.pow_add_r by lia; f_equal; lia).
  assert (0 < 2 ^ (15 - k)) by (apply Z.pow_pos_nonneg; lia).
  intros HR. eapply rev_inj; [..|exact HR]; rewrite Z2Nat.id by lia;
    (split; [apply Z.div_pos; lia|apply Z.div_lt_upper_bound; lia]).
Qed.
Lemma R_aligned l p : 0 ≤ l ≤ 15 → (2 ^ (15 - l) | p) → R p = rev (Z.to_nat l) (p / 2 ^ (15 - l)).
Proof.
  intros Hl Hd. assert (Z.of_nat (15 - Z.to_nat l) = 15 - l) as E by lia.
  rewrite (rev_aligned 15 (Z.to_nat l)) by (rewrite ?E; done || lia). by rewrite E.
Qed.
Lemma R_small l p : 0 ≤ l ≤ 15 → (2 ^ (15 - l) | p) → 0 ≤ R p < 2 ^ l.
Proof.
  intros Hl Hd. rewrite (R_aligned l) by done. pose proof (rev_bound (Z.to_nat l) (p / 2 ^ (15 - l))) as H.
  by rewrite Z2Nat.id in H by lia.
Qed.

(** The next code word. *)
Lemma next_huff_R l p :
  0 ≤ l ≤ 15 → (2 ^ (15 - l) | p) → 0 ≤ p < 2 ^ 15 → next_huff (R p) l = R (p + 2 ^ (15 - l)).
Proof.
  intros Hl Hd Hp. assert (0 < 2 ^ (15 - l)) by (apply Z.pow_pos_nonneg; lia).
  assert (2 ^ 15 = 2 ^ (15 - l) * 2 ^ l) as E by (rewrite <- Z.pow_add_r by lia; f_equal; lia).
  assert (2 ^ (15 - l) | p + 2 ^ (15 - l)) by (apply Z.divide_add_r; [done|apply Z.divide_refl]).
  rewrite (R_aligned l p), (R_aligned l (p + _)) by done.
  assert (l = Z.of_nat (Z.to_nat l)) as El by lia. rewrite El at 3. rewrite next_huff_rev.
  - rewrite rev_mod. f_equal. rewrite <- (Z.mul_1_l (2 ^ (15 - l))) at 2. by rewrite Z.div_add by lia.
  - rewrite <- El. split; [apply Z.div_pos; lia|apply Z.div_lt_upper_bound; lia].
Qed.

(** Being in the interval of a code word. *)
Lemma in_word l p q :
  0 ≤ l ≤ 15 → (2 ^ (15 - l) | p) → 0 ≤ p < 2 ^ 15 → 0 ≤ q < 2 ^ 15 →
  R q `mod` 2 ^ l = R p ↔ p ≤ q < p + 2 ^ (15 - l).
Proof.
  intros Hl [c ->] Hp Hq. assert (0 < 2 ^ (15 - l)) by (apply Z.pow_pos_nonneg; lia).
  assert (R (c * 2 ^ (15 - l)) = R (c * 2 ^ (15 - l)) `mod` 2 ^ l) as ->.
  { symmetry. apply Z.mod_small, R_small; [done|apply Z.divide_factor_r]. }
  rewrite R_same by done. rewrite Z.div_mul by lia. split.
  - intros E. pose proof (Z.mul_div_le q (2 ^ (15 - l))). pose proof (Z.mul_succ_div_gt q (2 ^ (15 - l))). nia.
  - intros H1. symmetry. apply (Z.div_unique_pos _ _ _ (q - c * 2 ^ (15 - l))); lia.
Qed.

(** ** Copies of an entry *)

Lemma replicate_entry_spec fuel n F b r fill incr this :
  0 < incr → 0 ≤ r < incr → (incr | fill) → 0 < fill < 2 ^ 32 → fill ≤ Z.of_nat fuel * incr →
  0 ≤ b → b + fill ≤ n →
  replicate_entry fuel (arr n F) (b + r) fill incr this =
  Ok (arr n (λ i, if decide (0 ≤ i - b < fill ∧ (i - b) `mod` incr = r) then this else F i)).
Proof.
  intros Hi Hr Hd Hf Hfu Hb Hn. revert F fill Hd Hf Hfu Hn. induction fuel as [|fuel IH]; intros F fill Hd Hf Hfu Hn; [lia|].
  cbn [replicate_entry]. pose proof Hd as [k Hk]. assert (0 < k) by nia.
  assert (0 ≤ fill - incr) by nia. unfold u32. rewrite Z.mod_small by lia.
  rewrite aset_arr by lia. cbn [mbind outcome_bind].
  assert (∀ i, 0 ≤ i - b < fill ∧ (i - b) `mod` incr = r ↔
             i = b + r + (fill - incr) ∨ (0 ≤ i - b < fill - incr ∧ (i - b) `mod` incr = r)) as Hcell.
  { intros i. split.
    - intros [H1 H2]. destruct (decide (i - b < fill - incr)); [right; lia|]. left.
      assert (i - b - (fill - incr) = r); [|lia]. rewrite <- H2.
      rewrite <- (Z.mod_small (i - b - (fill - incr)) incr) by lia.
      replace (i - b - (fill - incr)) with (i - b + (1 - k) * incr) by nia. by rewrite Z.mod_add by lia.
    - intros [->|[H1 H2]]; [|lia]. split; [nia|]. replace (b + r + (fill - incr) - b) with (r + (k - 1) * incr) by nia.
      rewrite Z.mod_add by lia. by apply Z.mod_small. }
  destruct (decide (fill - incr = 0)) as [E|E].
  - f_equal. apply arr_ext. intros i _. unfold upd.
    destruct (decide (i = b + r + (fill - incr))) as [Ei|Ei].
    + by rewrite decide_True by (apply Hcell; auto).
    + rewrite decide_False; [done|]. rewrite Hcell. lia.
  - replace (b + r + (fill - incr)) with (b + r + (fill - incr)) by done.
    rewrite IH; [|by apply Z.divide_sub_r; [|apply Z.divide_refl]|lia|nia|lia].
    f_equal. apply arr_ext. intros i _. unfold upd.
    destruct (decide (0 ≤ i - b < fill - incr ∧ (i - b) `mod` incr = r)).
    + by rewrite decide_True by (apply Hcell; auto).
    + destruct (decide (i = b + r + (fill - incr))) as [Ei|Ei].
      * by rewrite decide_True by (apply Hcell; auto).
      * rewrite decide_False; [done|]. rewrite Hcell. tauto.
Qed.

(** ** Sums of a sorted list of lengths *)

(** The numbers of 15 bits that begin with one of the code words. *)
Definition ksum (ls : list Z) : Z := foldr (λ l a, 2 ^ (15 - l) + a) 0 ls.

Lemma ksum_app a b : ksum (a ++ b) = ksum a + ksum b.
Proof. unfold ksum. induction a as [|x a IH]; simpl; [done|]. rewrite IH. lia. Qed.
Lemma ksum_cons x a : ksum (x :: a) = 2 ^ (15 - x) + ksum a.
Proof. done. Qed.
Lemma word_pos l : l ≤ 15 → 0 < 2 ^ (15 - l).
Proof. intros. apply Z.pow_pos_nonneg; lia. Qed.
Lemma word_end l p : 0 ≤ l ≤ 15 → (2 ^ (15 - l) | p) → p < 2 ^ 15 → p + 2 ^ (15 - l) ≤ 2 ^ 15.
Proof.
  intros Hl [c ->] Hp. pose proof (word_pos l ltac:(lia)).
  assert (2 ^ 15 = 2 ^ l * 2 ^ (15 - l)) as E by (rewrite <- Z.pow_add_r by lia; f_equal; lia).
  rewrite E in Hp |- *. apply Z.mul_lt_mono_pos_r in Hp; [|done]. nia.
Qed.
Lemma ksum_nonneg ls : 0 ≤ ksum ls.
Proof. induction ls as [|x ls IH]; simpl; [done|]. pose proof (Z.pow_nonneg 2 (15 - x)). lia. Qed.
Lemma ksum_pos ls : Forall (λ l, l ≤ 15) ls → ls ≠ [] → 0 < ksum ls.
Proof.
  intros H Hne. destruct H as [|x ls Hx H]; [done|]. simpl. pose proof (ksum_nonneg ls). pose proof (word_pos x Hx). lia.
Qed.
Lemma ksum_divide m ls : 0 ≤ m ≤ 15 → Forall (λ l, l ≤ m) ls → (2 ^ (15 - m) | ksum ls).
Proof.
  intros Hm. induction 1 as [|x ls Hx _ IH]; [apply Z.divide_0_r|]. simpl. apply Z.divide_add_r; [|done].
  exists (2 ^ (m - x)). rewrite <- Z.pow_add_r by lia. f_equal. lia.
Qed.

Abbreviation sorted := (StronglySorted Z.le).

Lemma sorted_app a b : sorted (a ++ b) ↔ sorted a ∧ sorted b ∧ ∀ x y, x ∈ a → y ∈ b → x ≤ y.
Proof.
  induction a as [|x a IH]; simpl.
  - split; [intros; split_and!; [constructor|done|set_solver]|tauto].
  - split.
    + intros H. inversion H as [|? ? Ha Hx]; subst. apply IH in Ha as (Ha & Hb & Hab). apply Forall_app in Hx as [Hxa Hxb].
      rewrite Forall_forall in Hxb. split_and!; [by constructor|done|]. intros u v [->|Hu]%elem_of_cons Hv; auto.
    + intros (Ha & Hb & Hab). inversion Ha as [|? ? Ha' Hx]; subst. constructor.
      * apply IH. split_and!; [done..|]. intros u v Hu Hv. apply Hab; [by constructor|done].
      * apply Forall_app. split; [done|]. rewrite Forall_forall. intros v Hv. apply Hab; [constructor|done].
Qed.

Lemma sorted_filter a m : sorted a → sorted (filter (λ x, x ≠ m) a).
Proof.
  induction 1 as [|x a Ha IH Hx]; [constructor|]. rewrite filter_cons. destruct (decide (x = m)).
  - by rewrite decide_False by auto.
  - rewrite decide_True by done. constructor; [done|]. rewrite Forall_forall in *. intros y [_ Hy]%list_elem_of_filter. auto.
Qed.

Lemma cnt_app a b l : cnt (a ++ b) l = cnt a l + cnt b l.
Proof. unfold cnt. rewrite filter_app, length_app. lia. Qed.
Lemma cnt_zero ls l : cnt ls l = 0 ↔ l ∉ ls.
Proof.
  unfold cnt. split.
  - intros H Hin. assert (filter (λ x, x = l) ls = []) as E by (apply nil_length_inv; lia).
    assert (l ∈ filter (λ x, x = l) ls) as Hf by (by apply list_elem_of_filter). rewrite E in Hf. set_solver.
  - induction ls as [|x ls IH]; intros H; [done|]. rewrite filter_cons, decide_False by set_solver. apply IH. set_solver.
Qed.
Lemma cnt_others ls l k : k ≠ l → cnt (filter (λ x, x ≠ l) ls) k = cnt ls k.
Proof.
  intros Hk. induction ls as [|x ls IH]; [done|]. rewrite filter_cons, cnt_cons. destruct (decide (x = l)) as [->|H].
  - rewrite decide_False by auto. rewrite decide_False by congruence. lia.
  - rewrite decide_True by done. by rewrite cnt_cons, IH.
Qed.
Lemma others_length ls l : Z.of_nat (length ls) = cnt ls l + Z.of_nat (length (filter (λ x, x ≠ l) ls)).
Proof.
  induction ls as [|x ls IH]; [done|]. rewrite filter_cons, cnt_cons. simpl length.
  destruct (decide (x = l)); [rewrite decide_False by auto|rewrite decide_True by done; simpl length]; lia.
Qed.
Lemma others_ksum ls l : ksum ls = cnt ls l * 2 ^ (15 - l) + ksum (filter (λ x, x ≠ l) ls).
Proof.
  induction ls as [|x ls IH]; [done|]. rewrite filter_cons, cnt_cons, ksum_cons, IH.
  destruct (decide (x = l)) as [->|]; [rewrite decide_False by auto|rewrite decide_True by done; rewrite ksum_cons]; lia.
Qed.

(** The words from an aligned start on fill a bucket exactly. *)
Lemma split_exact ls t :
  sorted ls → Forall (λ l, 0 ≤ l ≤ 15) ls → 0 ≤ t ≤ ksum ls → (∀ x, head ls = Some x → (2 ^ (15 - x) | t)) →
  ∃ a b, ls = a ++ b ∧ ksum a = t.
Proof.
  revert t. induction ls as [|x ls IH]; intros t Hs Hf Ht Hd.
  - exists [], []. simpl in *. split; [done|lia].
  - destruct (decide (t = 0)) as [->|]; [by exists [], (x :: ls)|].
    inversion Hs as [|? ? Hs' Hx]; inversion Hf as [|? ? Hx' Hf']; subst. rewrite ksum_cons in Ht.
    pose proof (Hd x eq_refl) as Hdx. pose proof (Z.divide_pos_le _ t ltac:(lia) Hdx).
    destruct (IH (t - 2 ^ (15 - x))) as (a & b & -> & Ha); [done|done|lia| |].
    + intros y Hy. destruct ls as [|z ls]; [done|]. injection Hy as ->.
      inversion Hx as [|? ? Hxy]; inversion Hf' as [|? ? Hy']; subst.
      assert (2 ^ (15 - y) | 2 ^ (15 - x)) as Hyx.
      { exists (2 ^ (y - x)). rewrite <- Z.pow_add_r by lia. f_equal. lia. }
      apply Z.divide_sub_r; [by etrans|done].
    + exists (x :: a), b. split; [done|]. rewrite ksum_cons. lia.
Qed.

(** One level of a bucket [a]: its words of [m] bits, and the others below. *)
Lemma level_last m left a :
  m ≤ 15 → 1 ≤ left → ksum a = left * 2 ^ (15 - m) → filter (λ x, x ≠ m) a = [] →
  m ∈ a ∧ Forall (λ l, l ≤ m) a ∧ cnt a m = left ∧ left = Z.of_nat (length a).
Proof.
  intros Hm Hl Hk E. pose proof (others_ksum a m) as Hks. pose proof (others_length a m) as Hlen. rewrite E in Hks, Hlen.
  pose proof (word_pos m Hm). simpl in Hks, Hlen. assert (cnt a m = left) as Ec by nia. split_and!; [| |done|lia].
  - destruct (decide (m ∈ a)) as [|Hn]; [done|]. apply cnt_zero in Hn. lia.
  - rewrite Forall_forall. intros x Hx. destruct (decide (x = m)); [lia|].
    assert (x ∈ filter (λ x, x ≠ m) a) as Hx' by (by apply list_elem_of_filter). rewrite E in Hx'. set_solver.
Qed.
Lemma level_below m max a b :
  sorted (a ++ b) → Forall (λ l, m ≤ l ≤ max) a → max ≤ 15 → filter (λ x, x ≠ m) a ≠ [] →
  let a' := filter (λ x, x ≠ m) a in
  sorted (a' ++ b) ∧ Forall (λ l, m + 1 ≤ l ≤ max) a' ∧ m < max ∧ 0 < ksum a' ∧ cnt (a ++ b) m = cnt a m ∧
  (∀ k, k ≠ m → cnt (a' ++ b) k = cnt (a ++ b) k).
Proof.
  intros Hs Ha Hm Hne. cbn zeta. set (a' := filter _ _) in *.
  assert (Forall (λ l, m + 1 ≤ l ≤ max) a') as Ha'.
  { rewrite Forall_forall in *. intros x [Hx1 Hx2]%list_elem_of_filter. specialize (Ha x Hx2). simpl in *. lia. }
  assert (∃ y, y ∈ a') as [y Hy].
  { destruct a' as [|y l]; [done|]. exists y. constructor. }
  pose proof Hy as [Hy1 Hy2]%list_elem_of_filter. rewrite !Forall_forall in *. pose proof (Ha' _ Hy) as Hy3. simpl in Hy3.
  pose proof Hs as (Hsa & Hsb & Hsab)%sorted_app. split_and!; [|done|lia| | |].
  - apply sorted_app. split_and!; [|done|].
    + by apply sorted_filter.
    + intros u v [_ Hu]%list_elem_of_filter Hv. by apply Hsab.
  - apply ksum_pos; [|done]. apply Forall_forall. intros u Hu. specialize (Ha' u Hu). simpl in Ha'. lia.
  - rewrite cnt_app. assert (cnt b m = 0) as ->; [|lia]. apply cnt_zero. intros Hb. pose proof (Hsab _ _ Hy2 Hb). lia.
  - intros k Hk. rewrite !cnt_app. unfold a'. by rewrite cnt_others.
Qed.

(** The size of a sub-table is the depth of its bucket [a], which has at least
    one word more for every level below its first. *)
Lemma grow_bucket fuel f root max curr left a b :
  0 ≤ root → 0 ≤ curr → curr + root ≤ max → max ≤ 15 → max - root - curr < Z.of_nat fuel →
  sorted (a ++ b) → Forall (λ l, curr + root ≤ l ≤ max) a → 1 ≤ left → ksum a = left * 2 ^ (15 - (curr + root)) →
  (∀ k, curr + root ≤ k ≤ 15 → f k = cnt (a ++ b) k) →
  ∃ c, grow_table fuel (arr 16 f) root max curr left = Ok c ∧ curr ≤ c ∧ c + root ≤ max ∧
       Forall (λ l, l ≤ c + root) a ∧ c + root ∈ a ∧ left + (c - curr) ≤ Z.of_nat (length a).
Proof.
  intros Hr. revert curr left a. induction fuel as [|fuel IH]; intros curr left a Hc Hcm Hm Hfu Hs Ha Hl Hk Hf; [lia|].
  cbn [grow_table]. destruct (decide (filter (λ x, x ≠ curr + root) a = [])) as [E|E].
  - destruct (level_last (curr + root) left a) as (H1 & H2 & H3 & H4); [lia|done..|].
    exists curr. split_and!; [|lia|lia|done|done|lia]. case_decide; [|done].
    rewrite aget_arr by lia. cbn [mbind outcome_bind]. rewrite Hf, cnt_app by lia. pose proof (cnt_range b (curr + root)).
    by rewrite decide_True by lia.
  - destruct (level_below (curr + root) max a b) as (H1 & H2 & H3 & H4 & H5 & H6); [done..|].
    rewrite decide_True, aget_arr by lia. cbn [mbind outcome_bind]. rewrite Hf, H5 by lia.
    pose proof (others_ksum a (curr + root)) as Hks. pose proof (others_length a (curr + root)) as Hlen.
    set (a' := filter _ _) in *. pose proof (word_pos (curr + root) ltac:(lia)).
    assert (2 ^ (15 - (curr + root)) = 2 * 2 ^ (15 - (curr + 1 + root))) as E2
      by (rewrite <- Z.pow_succ_r by lia; f_equal; lia).
    rewrite decide_False by nia. rewrite Z.shiftl_mul_pow2 by lia. change (2 ^ 1) with 2.
    destruct (IH (curr + 1) ((left - cnt a (curr + root)) * 2) a') as (c & -> & I1 & I2 & I3 & I4 & I5);
      [lia|lia|lia|lia|done| |nia|nia| |].
    + eapply Forall_impl; [done|]. simpl. lia.
    + intros k Hk'. rewrite Hf by lia. symmetry. apply H6. lia.
    + exists c. split_and!; [done|lia|lia| | |nia].
      * rewrite Forall_forall in *. intros x Hx. destruct (decide (x = curr + root)); [lia|]. apply I3.
        by apply list_elem_of_filter.
      * by apply list_elem_of_filter in I4 as [_ ?].
Qed.
