(* ===== verification/Hufftab.v ===== *)
(** * The loop that fills the decoding tables (usr/klibc/zlib/inftrees.c)

    The invariant of the large loop of [inflate_table] for a complete code:
    every number of 15 bits that begins with a code word already processed is
    decoded by the tables, and the space for the sub-tables is bounded by a
    potential of the words that are left. *)

From Stdlib Require Import Sorted.
From S2P Require Import Prelude Klib Inftrees Huffman.

(** ** Bits of an index *)

Lemma land_mask x k : 0 ≤ k → Z.land x (Z.shiftl 1 k - 1) = x `mod` 2 ^ k.
Proof. intros Hk. rewrite Z.shiftl_1_l, <- Z.land_ones by done. by rewrite Z.ones_equiv, <- Z.sub_1_r. Qed.

(** The index in a sub-table, cut down to the bits of a code word. *)
Lemma sub_index x r c l : 0 ≤ r → r ≤ l ≤ r + c → (x `mod` 2 ^ (r + c) / 2 ^ r) `mod` 2 ^ (l - r) = x `mod` 2 ^ l / 2 ^ r.
Proof.
  intros Hr Hl. apply Z.bits_inj'. intros i Hi. rewrite <- !Z.shiftr_div_pow2 by lia. rewrite Z.shiftr_spec by done.
  destruct (decide (i < l - r)).
  - rewrite Z.mod_pow2_bits_low by lia. rewrite Z.shiftr_spec by done. by rewrite !Z.mod_pow2_bits_low by lia.
  - rewrite Z.mod_pow2_bits_high by lia. by rewrite Z.mod_pow2_bits_high by lia.
Qed.
Lemma sub_index_bound x r c : 0 ≤ r → 0 ≤ c → 0 ≤ x `mod` 2 ^ (r + c) / 2 ^ r < 2 ^ c.
Proof.
  intros Hr Hc. assert (0 < 2 ^ r) by (apply Z.pow_pos_nonneg; lia).
  pose proof (Z.mod_pos_bound x (2 ^ (r + c)) ltac:(apply Z.pow_pos_nonneg; lia)) as H1.
  assert (2 ^ (r + c) = 2 ^ r * 2 ^ c) as E by (by rewrite Z.pow_add_r by lia).
  split; [apply Z.div_pos; lia|apply Z.div_lt_upper_bound; lia].
Qed.
Lemma mod_le_pow x a b : 0 ≤ a ≤ b → (x `mod` 2 ^ b) `mod` 2 ^ a = x `mod` 2 ^ a.
Proof.
  intros H. symmetry. rewrite (Z.mod_mod_divide x); [done|]. exists (2 ^ (b - a)). rewrite <- Z.pow_add_r by lia. f_equal. lia.
Qed.

(** ** The room for the sub-tables

    [room m k d] bounds the entries of the sub-tables for [k] words, when no
    bucket is less than [d] or more than [m] deep.  A bucket that begins at
    depth [d'] and ends at depth [D] has at least 2^d' + (D - d') words and
    gets a table of 2^D entries: it takes 2^D - D - (2^d' - d') more entries
    than words.  As no bucket begins above the depth the last one ended at,
    the sum of these telescopes; and as every size is even, so is the total. *)

Definition room (m k d : Z) : Z := let v := k + (2 ^ m - m) - (2 ^ d - d) in Z.max 0 (v - v `mod` 2).

Lemma gap_mono a b : 0 ≤ a ≤ b → 2 ^ a - a ≤ 2 ^ b - b.
Proof.
  intros [Ha Hab]. revert b Hab. apply Zlt_lower_bound_ind. intros b IH Hab. destruct (decide (b = a)) as [->|]; [lia|].
  specialize (IH (b - 1) ltac:(lia)). assert (2 ^ b = 2 * 2 ^ (b - 1)) by (rewrite <- Z.pow_succ_r by lia; f_equal; lia).
  assert (0 < 2 ^ (b - 1)) by (apply Z.pow_pos_nonneg; lia). lia.
Qed.
Lemma room_nonneg m k d : 0 ≤ room m k d.
Proof. unfold room. lia. Qed.
Lemma room_step m k k' d d' D :
  1 ≤ d → d ≤ d' ≤ D → D ≤ m → 0 ≤ k' ≤ k - (2 ^ d' + (D - d')) → 2 ^ D + room m k' D ≤ room m k d.
Proof.
  intros Hd Hd' HD Hk. pose proof (gap_mono d d' ltac:(lia)) as H1. pose proof (gap_mono D m ltac:(lia)) as H2.
  assert (2 ^ D = 2 * 2 ^ (D - 1)) as E by (rewrite <- Z.pow_succ_r by lia; f_equal; lia).
  unfold room. cbn zeta. set (u := k' + _ - _). set (v := k + _ - _).
  assert (0 ≤ u ∧ u + 2 ^ D ≤ v) as [Hu Huv] by (unfold u, v; lia).
  pose proof (Z.div_mod u 2 ltac:(lia)). pose proof (Z.div_mod v 2 ltac:(lia)).
  pose proof (Z.mod_pos_bound u 2 ltac:(lia)). pose proof (Z.mod_pos_bound v 2 ltac:(lia)). lia.
Qed.
Lemma room_even m k d n : Z.even n = true → k + (2 ^ m - m) - (2 ^ d - d) ≤ n + 1 → 0 ≤ n → room m k d ≤ n.
Proof.
  intros [c ->]%Zeven_bool_iff%Zeven_ex Hn H0. unfold room. cbn zeta. set (v := k + _ - _) in *.
  pose proof (Z.div_mod v 2 ltac:(lia)). pose proof (Z.mod_pos_bound v 2 ltac:(lia)). lia.
Qed.

#[local] Arguments rev : simpl never.
#[local] Arguments Z.pow : simpl never.
#[local] Opaque rev.
Ltac tst := cbn [t_huff t_sym t_len t_next t_curr t_drop t_low t_used t_count t_tab].

Section tables.
Context (type : codetype) (lens : list Z) (ent : Z → Z → code) (M table root : Z).

(** The length of a symbol, and the 15 bit numbers with the words of some. *)
Definition ln (s : Z) : Z := lens !!! Z.to_nat s.
Definition ks (ws : list Z) : Z := ksum (ln <$> ws).

Lemma ks_app a b : ks (a ++ b) = ks a + ks b.
Proof. unfold ks. by rewrite fmap_app, ksum_app. Qed.
Lemma ks_nonneg a : 0 ≤ ks a.
Proof. apply ksum_nonneg. Qed.
Lemma ks_one x : ks [x] = 2 ^ (15 - ln x).
Proof. unfold ks. simpl. lia. Qed.

(** The number [q] of 15 bits is decoded to [x]: by the entry in the root
    table, or by a sub-table, either the current one or one before [nx0]. *)
Definition decoded (U : Z) (F : Z → code) (low nx0 q x : Z) : Prop :=
  (ln x ≤ root ∧ F (table + R q `mod` 2 ^ root) = ent x (ln x)) ∨
  (root < ln x ∧ ∃ c nx, F (table + R q `mod` 2 ^ root) = Code c root nx ∧ ln x - root ≤ c ≤ 15 - root ∧
     2 ^ root ≤ nx ∧ nx + 2 ^ c ≤ U ∧ (R q `mod` 2 ^ root = low ∨ nx + 2 ^ c ≤ nx0) ∧
     F (table + nx + R q `mod` 2 ^ (root + c) / 2 ^ root) = ent x (ln x - root)).

Definition all_decoded (U : Z) (F : Z → code) (low nx0 : Z) (ws : list Z) : Prop :=
  ∀ a x b, ws = a ++ x :: b → ∀ q, ks a ≤ q < ks a + 2 ^ (15 - ln x) → decoded U F low nx0 q x.

Lemma snoc_split {A} (l a b : list A) x y :
  l ++ [x] = a ++ y :: b → (a = l ∧ y = x ∧ b = []) ∨ ∃ b', b = b' ++ [x] ∧ l = a ++ y :: b'.
Proof.
  intros E. destruct b as [|z b _] using rev_ind.
  - left. by apply app_inj_tail in E as [-> ->].
  - right. exists b. replace (a ++ y :: b ++ [z]) with ((a ++ y :: b) ++ [z]) in E by (by rewrite <- app_assoc).
    by apply app_inj_tail in E as [-> ->].
Qed.

Lemma all_decoded_snoc U F F' low nx0 ws x :
  all_decoded U F low nx0 ws →
  (∀ q, ks ws ≤ q < ks ws + 2 ^ (15 - ln x) → decoded U F' low nx0 q x) →
  (∀ q y, y ∈ ws → 0 ≤ q < ks ws → decoded U F low nx0 q y → decoded U F' low nx0 q y) →
  all_decoded U F' low nx0 (ws ++ [x]).
Proof.
  intros Ho Hn Hk a y b E q Hq. apply snoc_split in E as [(-> & -> & ->)|(b' & -> & E)]; [by apply Hn|].
  apply Hk; [rewrite E; apply elem_of_app; right; constructor| |by eapply Ho].
  rewrite E, ks_app. pose proof (ks_nonneg a). pose proof (ks_nonneg b'). unfold ks at 2. rewrite fmap_cons, ksum_cons.
  fold (ks b'). lia.
Qed.

Context (Hroot : 1 ≤ root ≤ 15) (Htable : 0 ≤ table).

(** Entering a word in the root table. *)
Lemma fill_root_decoded U F low nx0 ws x :
  1 ≤ ln x ≤ root → (2 ^ (15 - ln x) | ks ws) → ks ws < 2 ^ 15 → all_decoded U F low nx0 ws →
  all_decoded U (λ i, if decide (0 ≤ i - table < 2 ^ root ∧ (i - table) `mod` 2 ^ ln x = R (ks ws)) then ent x (ln x) else F i)
    low nx0 (ws ++ [x]).
Proof.
  intros Hl Hd Hw Ho. pose proof (ks_nonneg ws) as Hw0.
  pose proof (word_end (ln x) (ks ws) ltac:(lia) Hd Hw) as Hend.
  apply all_decoded_snoc with F; [done|..].
  - intros q Hq. left. split; [lia|]. rewrite decide_True; [done|].
    replace (table + R q `mod` 2 ^ root - table) with (R q `mod` 2 ^ root) by lia.
    split; [apply Z.mod_pos_bound; lia|]. rewrite mod_le_pow by lia. apply in_word; [lia|done|lia|lia|done].
  - intros q y _ Hq.
    assert (¬ (0 ≤ table + R q `mod` 2 ^ root - table < 2 ^ root ∧
               (table + R q `mod` 2 ^ root - table) `mod` 2 ^ ln x = R (ks ws))) as Hn.
    { intros [_ H]. replace (table + R q `mod` 2 ^ root - table) with (R q `mod` 2 ^ root) in H by lia.
      rewrite mod_le_pow in H by lia. apply in_word in H; [lia..|done|lia|lia]. }
    intros [[Hy E]|(Hy & c & nx & E & Hc & Hnx & Hnl & Hlow & E2)]; [left|right; split; [done|]; exists c, nx].
    + by rewrite decide_False.
    + rewrite decide_False by done. split_and!; [done|lia..|done|]. rewrite decide_False; [done|].
      pose proof (sub_index_bound (R q) root c). lia.
Qed.

(** Entering a word in the current sub-table. *)
Lemma fill_sub_decoded U F curr nx0 ws x :
  root < ln x ≤ root + curr → root + curr ≤ 15 → (2 ^ (15 - ln x) | ks ws) → ks ws < 2 ^ 15 →
  2 ^ root ≤ nx0 → nx0 + 2 ^ curr ≤ U → F (table + R (ks ws) `mod` 2 ^ root) = Code curr root nx0 →
  all_decoded U F (R (ks ws) `mod` 2 ^ root) nx0 ws →
  all_decoded U (λ i, if decide (0 ≤ i - (table + nx0) < 2 ^ curr ∧ (i - (table + nx0)) `mod` 2 ^ (ln x - root) = R (ks ws) / 2 ^ root)
                    then ent x (ln x - root) else F i)
    (R (ks ws) `mod` 2 ^ root) nx0 (ws ++ [x]).
Proof.
  intros Hl Hc Hd Hw Hnx Hnl Hlink Ho. pose proof (ks_nonneg ws) as Hw0.
  pose proof (word_end (ln x) (ks ws) ltac:(lia) Hd Hw) as Hend.
  assert (∀ q, 0 ≤ R q `mod` 2 ^ root < 2 ^ root) as Hmod by (intros q; apply Z.mod_pos_bound; lia).
  apply all_decoded_snoc with F; [done|..].
  - intros q Hq. right. split; [lia|]. exists curr, nx0.
    assert (R q `mod` 2 ^ ln x = R (ks ws)) as Hq2 by (apply in_word; [lia|done|lia|lia|done]).
    assert (R q `mod` 2 ^ root = R (ks ws) `mod` 2 ^ root) as Hlow.
    { rewrite <- Hq2. by rewrite mod_le_pow by lia. }
    rewrite decide_False, Hlow by (specialize (Hmod q); lia). split_and!; [done|lia..|by left|].
    rewrite decide_True; [done|]. replace (table + nx0 + _ - _) with (R q `mod` 2 ^ (root + curr) / 2 ^ root) by lia.
    split; [apply sub_index_bound; lia|]. rewrite sub_index by lia. by rewrite Hq2.
  - intros q y _ Hq [[Hy E]|(Hy & c & nx & E & Hcy & Hnxy & Hnly & Hlow & E2)]; [left|right; split; [done|]; exists c, nx];
      (rewrite decide_False by (specialize (Hmod q); lia)); [done|].
    split_and!; [done|lia..|done|]. pose proof (sub_index_bound (R q) root c ltac:(lia) ltac:(lia)).
    rewrite decide_False; [done|]. intros [H1 H2]. destruct Hlow as [Hlow|]; [|lia].
    rewrite Hlow, Hlink in E. injection E as <- <-.
    replace (table + nx0 + _ - _) with (R q `mod` 2 ^ (root + curr) / 2 ^ root) in H2 by lia. rewrite sub_index in H2 by lia.
    assert (R q `mod` 2 ^ ln x = R (ks ws)) as H3; [|apply in_word in H3; [lia..|done|lia|lia]].
    rewrite (Z.div_mod (R q `mod` 2 ^ ln x) (2 ^ root)), H2, mod_le_pow, Hlow by lia. symmetry. apply Z.div_mod. lia.
Qed.

(** A new sub-table for the bucket that starts after all the words so far. *)
Lemma link_decoded U F low nx0 nx1 ws this :
  (2 ^ (15 - root) | ks ws) → ks ws < 2 ^ 15 → nx0 ≤ nx1 →
  (∀ y c nx, y ∈ ws → root < ln y → F (table + low) = Code c root nx → nx + 2 ^ c ≤ nx1) →
  all_decoded U F low nx0 ws →
  all_decoded U (upd F (table + R (ks ws) `mod` 2 ^ root) this) (R (ks ws) `mod` 2 ^ root) nx1 ws.
Proof.
  intros Hd Hw Hnx Hold Ho a x b E q Hq. pose proof (ks_nonneg a).
  assert (q < ks ws) as Hq2.
  { rewrite E, ks_app. unfold ks at 2. rewrite fmap_cons, ksum_cons. pose proof (ks_nonneg b). fold (ks b). lia. }
  assert (R q `mod` 2 ^ root ≠ R (ks ws) `mod` 2 ^ root) as Hne.
  { rewrite R_same by lia. destruct Hd as [c Hc]. rewrite Hc in Hq2 |- *. pose proof (word_pos root ltac:(lia)). rewrite Z.div_mul by lia.
    intros E2. pose proof (Z.mul_div_le q (2 ^ (15 - root))). nia. }
  assert (∀ q, 0 ≤ R q `mod` 2 ^ root < 2 ^ root) as Hmod by (intros q'; apply Z.mod_pos_bound; lia).
  destruct (Ho a x b E q Hq) as [[Hy E1]|(Hy & c & nx & E1 & Hc & Hnx1 & Hnl & Hl & E2)];
    [left|right; split; [done|]; exists c, nx]; rewrite upd_other by lia; [done|].
  split_and!; [done|lia..| |].
  - right. destruct Hl as [Hl|]; [|lia]. apply (Hold x); [rewrite E; apply elem_of_app; right; constructor|done|by rewrite <- Hl].
  - rewrite upd_other; [done|]. pose proof (sub_index_bound (R q) root c). specialize (Hmod (ks ws)). lia.
Qed.

(** The entries that the tables use. *)
Lemma decoded_used U U' F low nx0 ws :
  all_decoded U F low nx0 ws → nx0 ≤ U' →
  (∀ y c nx, y ∈ ws → root < ln y → F (table + low) = Code c root nx → nx + 2 ^ c ≤ U') → all_decoded U' F low nx0 ws.
Proof.
  intros Ho Hn Hl a x b E q Hq. destruct (Ho a x b E q Hq) as [H|(Hy & c & nx & E1 & Hc & Hnx1 & _ & Hlow & E2)]; [by left|right].
  split; [done|]. exists c, nx. split_and!; try done; try lia. destruct Hlow as [Hlow|]; [|lia].
  apply (Hl x); [rewrite E; apply elem_of_app; right; constructor|done|by rewrite <- Hlow].
Qed.

(** ** The loop *)

Context (ws : list Z) (n : Z) (W : Z → Z) (max limit : Z).
Context (Hws : Forall (λ s, 0 ≤ s < Z.of_nat (length lens)) ws) (Hlens : Z.of_nat (length lens) < 65536).
Context (Hsorted : sorted (ln <$> ws)) (Hrange : Forall (λ s, 1 ≤ ln s ≤ max) ws) (Hmax : max ≤ 15).
Context (Hfull : ks ws = 2 ^ 15) (Hn : Z.of_nat (length ws) ≤ n) (HW : ∀ j x, ws !! j = Some x → W (Z.of_nat j) = x).
Context (Hent : ∀ s k, s ∈ ws → 1 ≤ k ≤ 15 → entry_of type s k = Ok (ent s k)).
Context (Hlimit : ∀ a b, ws = a ++ b → Forall (λ s, ln s ≤ root) a → Forall (λ s, root < ln s) b → b ≠ [] →
                    2 ^ root + room (15 - root) (Z.of_nat (length b)) 1 ≤ limit).
(** What is before the table stays. *)
Context (F0 : Z → code).
Context (Hroom : table + limit ≤ M) (Hroom1 : 2 ^ root ≤ limit < 65536) (Hroom2 : type = LENS → limit < ENOUGH - MAXD).

(** The root table is being filled. *)
Record root_mode (done : list Z) (s : tst) : Prop := {
  r_drop : t_drop s = 0; r_low : t_low s = 2 ^ 32 - 1; r_next : t_next s = table; r_curr : t_curr s = root;
  r_done : Forall (λ s, ln s ≤ root) done }.

(** A sub-table is being filled: [a] are the words left of its bucket, which
    begins at [start], and [b] the ones after it. *)
Record sub_mode (F : Z → code) (done : list Z) (s : tst) (a b : list Z) (start : Z) : Prop := {
  s_drop : t_drop s = root;
  s_start : (2 ^ (15 - root) | start); s_ge : 0 ≤ start ≤ ks done; s_end : ks done + ks a = start + 2 ^ (15 - root);
  s_low : t_low s = R start `mod` 2 ^ root; s_link : F (table + t_low s) = Code (t_curr s) root (t_next s - table);
  s_a : Forall (λ x, root < ln x ≤ t_curr s + root) a; s_b : Forall (λ x, t_curr s + root ≤ ln x) b;
  s_curr : 1 ≤ t_curr s ≤ 15 - root; s_next : 2 ^ root ≤ t_next s - table;
  s_used : t_used s + room (15 - root) (Z.of_nat (length b)) (t_curr s) ≤ limit }.

Record common (F : Z → code) (done rem : list Z) (s : tst) : Prop := {
  c_ws : ws = done ++ rem; c_sym : t_sym s = Z.of_nat (length done); c_huff : t_huff s = R (ks done);
  c_len : head (ln <$> rem) = Some (t_len s); c_max : max ∈ ln <$> rem;
  c_count : ∃ f, t_count s = arr 16 f ∧ ∀ k, 1 ≤ k ≤ 15 → f k = cnt (ln <$> rem) k;
  c_tab : t_tab s = arr M F; c_used : t_used s = t_next s - table + 2 ^ t_curr s;
  c_decoded : all_decoded limit F (t_low s) (t_next s - table) done; c_frame : ∀ i, i < table → F i = F0 i }.

(** Between the words, before and after a sub-table is started. *)
Definition mid (F : Z → code) (done rem : list Z) (s : tst) : Prop :=
  common F done rem s ∧ (root_mode done s ∨ ∃ a b start, rem = a ++ b ∧ sub_mode F done s a b start).
Definition inv (F : Z → code) (done rem : list Z) (s : tst) : Prop :=
  common F done rem s ∧
  ((root_mode done s ∧ t_len s ≤ root) ∨ ∃ a b start, rem = a ++ b ∧ a ≠ [] ∧ sub_mode F done s a b start).

(** The words left begin where those done end. *)
Lemma rest_facts F done rem s :
  common F done rem s →
  ∃ x rem', rem = x :: rem' ∧ ln x = t_len s ∧ 1 ≤ ln x ≤ max ∧ x ∈ ws ∧ ks done + ks rem = 2 ^ 15 ∧ ks done < 2 ^ 15 ∧
    sorted (ln <$> rem) ∧ Forall (λ y, ln x ≤ ln y ≤ max) rem ∧ Forall (λ y, ln y ≤ ln x) done ∧ (2 ^ (15 - ln x) | ks done).
Proof.
  intros C. pose proof (c_ws _ _ _ _ C) as E. pose proof (c_len _ _ _ _ C) as Hl. destruct rem as [|x rem]; [done|].
  injection Hl as Hl. exists x, rem. rewrite E in Hsorted, Hrange. rewrite fmap_app in Hsorted.
  apply sorted_app in Hsorted as (S1 & S2 & S3). apply Forall_app in Hrange as [R1 R2]. inversion R2 as [|? ? Rx R3]; subst.
  assert (Forall (λ y, ln y ≤ ln x) done) as Hd.
  { apply Forall_forall. intros y Hy. apply S3; [by apply list_elem_of_fmap_2|constructor]. }
  assert (ks done + ks (x :: rem) = 2 ^ 15) as Hk by (by rewrite <- ks_app, <- E).
  split_and!; [done|done|lia|lia|rewrite E; apply elem_of_app; right; constructor|done| |done| |done|].
  - assert (0 < ks (x :: rem)); [|lia]. unfold ks. rewrite fmap_cons, ksum_cons. pose proof (word_pos (ln x) ltac:(lia)).
    pose proof (ksum_nonneg (ln <$> rem)). lia.
  - simpl in S2. inversion S2 as [|? ? _ Hx]. rewrite Forall_fmap in Hx. constructor; [lia|].
    rewrite Forall_forall in *. intros y Hy. split; [by apply Hx|by apply R3].
  - apply ksum_divide; [lia|]. by rewrite Forall_fmap.
Qed.

(** The words of the next bucket, and the depth that [grow_table] finds. *)
Lemma next_bucket F done rem s f :
  common F done rem s → (2 ^ (15 - root) | ks done) → root < t_len s →
  (∀ k, 1 ≤ k ≤ 15 → f k = cnt (ln <$> rem) k) →
  ∃ a b c, rem = a ++ b ∧ a ≠ [] ∧ ks a = 2 ^ (15 - root) ∧
    grow_table 16 (arr 16 f) root max (t_len s - root) (2 ^ (t_len s - root)) = Ok c ∧ t_len s - root ≤ c ∧ c + root ≤ max ∧
    Forall (λ x, root < ln x ≤ c + root) a ∧ Forall (λ x, c + root ≤ ln x) b ∧
    2 ^ (t_len s - root) + (c - (t_len s - root)) ≤ Z.of_nat (length a).
Proof.
  intros C Hd Hlen Hf. destruct (rest_facts _ _ _ _ C) as (x & rem' & Er & Hx & Hxr & _ & Hk & Hlt & S & Hge & _ & _).
  destruct (split_exact (ln <$> rem) (2 ^ (15 - root))) as (la & lb & E & Hka).
  - done.
  - rewrite Forall_fmap. eapply Forall_impl; [done|]. simpl. lia.
  - pose proof (word_end root (ks done) ltac:(lia) Hd Hlt). pose proof (word_pos root). unfold ks in Hk at 2. lia.
  - intros y Hy. rewrite (c_len _ _ _ _ C) in Hy. injection Hy as <-. exists (2 ^ (t_len s - root)).
    rewrite <- Z.pow_add_r by lia. f_equal. lia.
  - apply fmap_app_inv in E as (a & b & -> & -> & ->). pose proof (word_pos root ltac:(lia)).
    assert (a ≠ []) as Ha by (intros ->; simpl in Hka; lia).
    apply Forall_app in Hge as [Ga Gb]. rewrite fmap_app in S.
    destruct (grow_bucket 16 f root max (t_len s - root) (2 ^ (t_len s - root)) (ln <$> a) (ln <$> b))
      as (c & Hc & H1 & H2 & H3 & H4 & H5); try lia; try done.
    + rewrite Forall_fmap. eapply Forall_impl; [exact Ga|]. intros y Hy. unfold compose in *; cbn beta in *; lia.
    + rewrite Hka. rewrite <- Z.pow_add_r by lia. f_equal. lia.
    + intros k Hk'. rewrite Hf by lia. by rewrite fmap_app.
    + rewrite length_fmap in H5. rewrite Forall_fmap in H3. exists a, b, c. split_and!; try done.
      * apply Forall_forall. intros y Hy. rewrite Forall_forall in Ga, H3. specialize (Ga y Hy). specialize (H3 y Hy). unfold compose in *; cbn beta in *; lia.
      * apply Forall_forall. intros y Hy. apply sorted_app in S as (_ & _ & S). apply S; [done|by apply list_elem_of_fmap_2].
Qed.

Lemma open_bucket F done rem s d :
  common F done rem s → (2 ^ (15 - root) | ks done) → root < t_len s → 1 ≤ d ≤ t_len s - root →
  t_used s + room (15 - root) (Z.of_nat (length rem)) d ≤ limit → 2 ^ root ≤ t_used s → t_next s - table ≤ t_used s →
  R (ks done) `mod` 2 ^ root ≠ t_low s → t_drop s = 0 ∨ t_drop s = root → 0 ≤ t_curr s →
  (∀ y c nx, y ∈ done → root < ln y → F (table + t_low s) = Code c root nx → nx + 2 ^ c ≤ t_used s) →
  ∃ F' s', new_subtable type table max root s = Ok (s', More) ∧ inv F' done rem s'.
Proof.
  intros C Hd Hlen Hdl Hu Hu1 Hu2 Hlow Hdrop Hcurr Hold. pose proof C as [Cws Csym Chuff Clen Cmax [f [Cc Cf]] Ctab Cu Cdec Cfr].
  destruct (rest_facts _ _ _ _ C) as (x & rem' & Er & Hx & Hxr & _ & Hk & Hlt & S & Hge & _ & _).
  destruct (next_bucket _ _ _ _ f C Hd Hlen Cf) as (a & b & c & E & Ha & Hka & Hgrow & Hc1 & Hc2 & Fa & Fb & Hcost).
  pose proof (ks_nonneg done) as Hk0. pose proof (word_pos root ltac:(lia)) as Hwp.
  assert (2 ^ c + room (15 - root) (Z.of_nat (length b)) c ≤ room (15 - root) (Z.of_nat (length rem)) d) as Hpot.
  { apply room_step with (t_len s - root); [lia..|]. rewrite E, length_app. lia. }
  pose proof (room_nonneg (15 - root) (Z.of_nat (length b)) c) as Hpot0.
  assert (0 ≤ R (ks done) `mod` 2 ^ root < 2 ^ root) as Hm by (apply Z.mod_pos_bound; lia).
  unfold new_subtable. rewrite Chuff. unfold mask. rewrite land_mask by lia. rewrite decide_True by done.
  rewrite Cc, !Z.shiftl_1_l. assert ((if decide (t_drop s = 0) then root else t_drop s) = root) as ->.
  { destruct Hdrop as [-> | ->]; [by rewrite decide_True|]. by rewrite decide_False by lia. }
  rewrite Hgrow. cbn [mbind outcome_bind]. rewrite Z.shiftl_1_l.
  rewrite decide_False by (intros [Ht ?]; specialize (Hroom2 Ht); lia). rewrite Ctab, aset_arr by lia. cbn [mbind outcome_bind].
  replace (t_next s + 2 ^ t_curr s) with (table + t_used s) by lia.
  replace (table + t_used s - table) with (t_used s) by lia. assert (0 < 2 ^ c) by (apply Z.pow_pos_nonneg; lia).
  unfold u8, u16. rewrite (Z.mod_small c), (Z.mod_small root), (Z.mod_small (t_used s)) by lia.
  eexists _, _. split; [done|]. split.
  - constructor; tst; try done; [by eauto|lia| |intros i Hi; rewrite upd_other by lia; by apply Cfr].
    replace (table + t_used s - table) with (t_used s) by lia. eapply link_decoded; [..|exact Cdec]; done || lia.
  - right. exists a, b, (ks done). split_and!; [done..|]. constructor; tst; try done; try lia.
    rewrite upd_same. f_equal. lia.
Qed.

Lemma new_subtable_spec F done rem s :
  mid F done rem s → ∃ F' s', new_subtable type table max root s = Ok (s', More) ∧ inv F' done rem s'.
Proof.
  intros [C Hmode]. destruct (rest_facts _ _ _ _ C) as (x & rem' & Er & Hx & Hxr & _ & Hk & Hlt & S & Hge & Hle & Hdx).
  pose proof (c_ws _ _ _ _ C) as Cws. pose proof (c_used _ _ _ _ C) as Cu. pose proof (ks_nonneg done) as Hk0.
  pose proof (word_pos root ltac:(lia)) as Hwp.
  assert (0 ≤ R (ks done) `mod` 2 ^ root < 2 ^ root) as Hm by (apply Z.mod_pos_bound; lia).
  destruct Hmode as [Hr|(a & b & start & E & Hs)].
  - destruct (decide (t_len s ≤ root)) as [Hl|Hl].
    + exists F, s. split; [|split; [done|by left]]. unfold new_subtable. by rewrite decide_False by lia.
    + destruct Hr as [Rd Rl Rn Rc Rdone]. rewrite Rc, Rn in Cu.
      assert (2 ^ root ≤ 2 ^ 15) by (apply Z.pow_le_mono_r; lia).
      apply open_bucket with F 1; try done; try lia.
      * apply ksum_divide; [lia|]. by rewrite Forall_fmap.
      * rewrite Cu. assert (Forall (λ s, root < ln s) rem) as Hrem.
        { eapply Forall_impl; [exact Hge|]. intros y Hy. unfold compose in *; cbn beta in *; lia. }
        pose proof (Hlimit done rem Cws Rdone Hrem ltac:(by rewrite Er)). lia.
      * intros y c nx Hy Hry. rewrite Forall_forall in Rdone. specialize (Rdone y Hy). simpl in Rdone. lia.
  - destruct Hs as [Sd Ss Sg Se Sl Slink Sa Sb Sc Sn Su]. assert (0 < 2 ^ t_curr s) by (apply Z.pow_pos_nonneg; lia).
    assert (∀ q, 0 ≤ q < 2 ^ 15 → R q `mod` 2 ^ root = t_low s ↔ start ≤ q < start + 2 ^ (15 - root)) as Hbucket.
    { intros q Hq. rewrite Sl. rewrite <- in_word by (lia || done). rewrite (Z.mod_small (R start)); [done|].
      by apply R_small; [lia|]. }
    destruct a as [|y a].
    + unfold ks in Se at 2. simpl in Se. simpl in E. subst b.
      apply open_bucket with F (t_curr s); try done; try lia.
      * replace (ks done) with (start + 2 ^ (15 - root)) by lia. apply Z.divide_add_r; [done|apply Z.divide_refl].
      * rewrite Er in Sb. inversion Sb; subst. lia.
      * rewrite Er in Sb. inversion Sb; subst. lia.
      * rewrite Hbucket by lia. lia.
      * intros _ c nx _ _ El. rewrite Slink in El. injection El as <- <-. lia.
    + exists F, s. assert (y = x) as -> by (rewrite E in Er; by injection Er).
      split; [|split; [done|right; by exists (x :: a), b, start]]. unfold new_subtable.
      rewrite (c_huff _ _ _ _ C). unfold mask. rewrite land_mask by lia. rewrite decide_False; [done|].
      intros [_ Hne]. apply Hne. apply Hbucket; [lia|]. split; [lia|].
      assert (0 < ks (x :: a)); [|lia]. apply ksum_pos; [|done]. rewrite Forall_fmap. eapply Forall_impl; [exact Sa|].
      intros z Hz. unfold compose in *; cbn beta in *; lia.
Qed.

(** Entering a word. *)
Lemma fill_spec F done x rem s :
  inv F done (x :: rem) s →
  ∃ F', replicate_entry (Z.to_nat (Z.shiftl 1 (t_curr s))) (t_tab s) (t_next s + Z.shiftr (t_huff s) (t_drop s))
          (Z.shiftl 1 (t_curr s)) (Z.shiftl 1 (t_len s - t_drop s)) (ent x (t_len s - t_drop s)) = Ok (arr M F') ∧
    all_decoded limit F' (t_low s) (t_next s - table) (done ++ [x]) ∧ 1 ≤ t_len s - t_drop s ≤ 15 ∧ t_used s ≤ limit ∧
    (t_drop s = root → F' (table + t_low s) = F (table + t_low s)) ∧ (∀ i, i < table → F' i = F0 i).
Proof.
  intros [C Hmode]. destruct (rest_facts _ _ _ _ C) as (y & rem' & Er & Hx & Hxr & _ & Hk & Hlt & S & Hge & Hle & Hdx).
  injection Er as <- <-. pose proof (ks_nonneg done) as Hk0. pose proof (c_used _ _ _ _ C) as Cu.
  pose proof (R_small (ln x) (ks done) ltac:(lia) Hdx) as HR. assert (0 < 2 ^ root) by (apply Z.pow_pos_nonneg; lia).
  rewrite (c_huff _ _ _ _ C), (c_tab _ _ _ _ C), !Z.shiftl_1_l, <- Hx. pose proof (c_decoded _ _ _ _ C) as Cd. pose proof (c_frame _ _ _ _ C) as Cfr.
  destruct Hmode as [[[Rd Rl Rn Rc Rdone] Hl]|(a & b & start & E & Ha & [Sd Ss Sg Se Sl Slink Sa Sb Sc Sn Su])].
  - rewrite Rd, Rc, Rn, Z.shiftr_0_r, Z.sub_0_r in *. rewrite replicate_entry_spec; try done; try lia.
    + eexists. split_and!; [done| |lia|lia|lia|lia|intros i Hi; cbn beta; rewrite decide_False by lia; by apply Cfr].
      apply fill_root_decoded; try done; try lia.
    + exists (2 ^ (root - ln x)). rewrite <- Z.pow_add_r by lia. f_equal. lia.
    + assert (0 < 2 ^ ln x) by (apply Z.pow_pos_nonneg; lia). rewrite Z2Nat.id by lia. nia.
  - destruct a as [|y a]; [done|]. injection E as <- ->. inversion Sa as [|? ? Sx _]; subst.
    assert (0 < 2 ^ t_curr s) by (apply Z.pow_pos_nonneg; lia). pose proof (room_nonneg (15 - root) (Z.of_nat (length b)) (t_curr s)).
    assert (0 < ks (x :: a)).
    { apply ksum_pos; [|done]. rewrite Forall_fmap. eapply Forall_impl; [exact Sa|]. intros z Hz. unfold compose in *; cbn beta in *; lia. }
    assert (t_low s = R (ks done) `mod` 2 ^ root) as Hlow.
    { rewrite Sl. rewrite (proj2 (in_word root start (ks done) ltac:(lia) Ss ltac:(lia) ltac:(lia))) by lia.
      apply Z.mod_small. by apply R_small; [lia|]. }
    rewrite Sd, Z.shiftr_div_pow2 by lia.
    replace (t_next s + R (ks done) / 2 ^ root) with (table + (t_next s - table) + R (ks done) / 2 ^ root) by lia.
    assert (2 ^ ln x = 2 ^ root * 2 ^ (ln x - root)) as Ep by (rewrite <- Z.pow_add_r by lia; f_equal; lia).
    assert (0 < 2 ^ (ln x - root)) by (apply Z.pow_pos_nonneg; lia).
    rewrite replicate_entry_spec; try done; try lia.
    + eexists. split_and!; [done| |lia|lia|lia| |intros i Hi; cbn beta; rewrite decide_False by lia; by apply Cfr].
      * rewrite Hlow in Slink, Cd |- *. apply fill_sub_decoded; try done; try lia.
      * intros _. cbn beta. rewrite decide_False; [done|]. rewrite Hlow. pose proof (Z.mod_pos_bound (R (ks done)) (2 ^ root)). lia.
    + split; [apply Z.div_pos; lia|apply Z.div_lt_upper_bound; lia].
    + exists (2 ^ (t_curr s - (ln x - root))). rewrite <- Z.pow_add_r by lia. f_equal. lia.
    + rewrite Z2Nat.id by lia. nia.
Qed.

Lemma words_length ls : Forall (λ l, l ≤ 15) ls → Z.of_nat (length ls) ≤ ksum ls.
Proof. induction 1 as [|x ls Hx _ IH]; [done|]. rewrite ksum_cons. pose proof (word_pos x Hx). simpl length. lia. Qed.

(** The state after a word and before the next one. *)
Definition after (s : tst) (done : list Z) (x len : Z) (f : Z → Z) (F : Z → code) : tst :=
  Tst (R (ks (done ++ [x]))) (Z.of_nat (length (done ++ [x]))) len (t_next s) (t_curr s) (t_drop s) (t_low s) (t_used s)
    (arr 16 f) (arr M F).

Lemma process_code_eq F done x rem s :
  inv F done (x :: rem) s →
  ∃ F' f, all_decoded limit F' (t_low s) (t_next s - table) (done ++ [x]) ∧ t_used s ≤ limit ∧
    (t_drop s = root → F' (table + t_low s) = F (table + t_low s)) ∧ (∀ k, 1 ≤ k ≤ 15 → f k = cnt (ln <$> rem) k) ∧
    (∀ i, i < table → F' i = F0 i) ∧
    process_code type lens (arr n W) table max root s =
    if decide (cnt (ln <$> rem) (ln x) = 0 ∧ ln x = max) then Ok (after s done x (ln x) f F', Done)
    else len ← (if decide (cnt (ln <$> rem) (ln x) = 0) then
                  w ← aget (arr n W) (Z.of_nat (length (done ++ [x]))); aget lens w else Ok (ln x));
         new_subtable type table max root (after s done x len f F').
Proof.
  intros I. pose proof I as [C _]. destruct (rest_facts _ _ _ _ C) as (y & rem' & Er & Hx & Hxr & Hxw & Hk & Hlt & S & Hge & Hle & Hdx).
  injection Er as <- <-. destruct (fill_spec _ _ _ _ _ I) as (F' & Hfill & Hdec & Hln & Hu & Hlink & Hfr).
  pose proof C as [Cws Csym Chuff Clen Cmax [f [Cc Cf]] Ctab Cu _ _].
  assert (Z.of_nat (length ws) ≤ 2 ^ 15) as Hlw.
  { rewrite <- Hfull. rewrite <- (length_fmap ln). apply words_length. rewrite Forall_fmap. eapply Forall_impl; [exact Hrange|].
    intros z Hz. unfold compose in *; cbn beta in *; lia. }
  assert (length ws = length done + (1 + length rem))%nat as Hlw2 by (rewrite Cws, length_app; done).
  assert (f (ln x) = 1 + cnt (ln <$> rem) (ln x)) as Hfx.
  { rewrite Cf by lia. rewrite fmap_cons, cnt_cons. by rewrite decide_True. }
  pose proof (cnt_range (ln <$> rem) (ln x)) as Hcr. rewrite length_fmap in Hcr.
  exists F', (upd f (ln x) (cnt (ln <$> rem) (ln x))). split_and!; [done|done|done| |done|].
  { intros k Hk'. unfold upd. destruct (decide (k = ln x)) as [->|]; [done|]. rewrite Cf by done.
    rewrite fmap_cons, cnt_cons. rewrite decide_False by congruence. lia. }
  unfold process_code. rewrite Csym, (aget_arr n W (Z.of_nat (length done))) by lia. cbn [mbind outcome_bind].
  rewrite (HW (length done) x) by (by rewrite Cws, list_lookup_middle). rewrite Hent by done. cbn [mbind outcome_bind].
  rewrite Hfill. cbn [mbind outcome_bind]. rewrite Cc, <- Hx, (aget_arr 16 f (ln x)) by lia. cbn [mbind outcome_bind]. rewrite aset_arr by lia.
  cbn [mbind outcome_bind]. rewrite Hfx. unfold u16. rewrite Z.mod_small by lia.
  replace (1 + cnt (ln <$> rem) (ln x) - 1) with (cnt (ln <$> rem) (ln x)) by lia.
  rewrite Chuff, next_huff_R by (lia || done || (pose proof (ks_nonneg done); lia)).
  unfold after. rewrite ks_app, ks_one, length_app, Nat2Z.inj_add. done.
Qed.

Lemma process_code_last F done x s :
  inv F done [x] s →
  ∃ F' s', process_code type lens (arr n W) table max root s = Ok (s', Done) ∧ t_tab s' = arr M F' ∧ t_huff s' = 0 ∧ 1 ≤ t_len s' ∧
           t_used s' ≤ limit ∧ 2 ^ root ≤ t_used s' ∧ all_decoded (t_used s') F' (t_low s') (t_next s' - table) ws ∧
           (∀ i, i < table → F' i = F0 i).
Proof.
  intros I. destruct (process_code_eq _ _ _ _ _ I) as (F' & f & Hdec & Hu & Hlink & _ & Hfr & ->). destruct I as [C Hmode].
  pose proof (c_ws _ _ _ _ C) as E. pose proof (c_max _ _ _ _ C) as Hm. apply list_elem_of_singleton in Hm.
  rewrite decide_True by done. exists F', (after s done x (ln x) f F'). split_and!; [done|done| | |done| | |done]; simpl.
  - by rewrite <- E, Hfull.
  - destruct (rest_facts _ _ _ _ C) as (y & ? & Er & _ & Hxr & _). injection Er as <- _. lia.
  - rewrite (c_used _ _ _ _ C). destruct Hmode as [[[_ _ Rn Rc _] _]|(a & b & start & _ & _ & [])].
    + rewrite Rn, Rc. lia.
    + assert (0 < 2 ^ t_curr s) by (apply Z.pow_pos_nonneg; lia). lia.
  - rewrite E. pose proof (c_used _ _ _ _ C) as Cu. assert (0 ≤ 2 ^ t_curr s) by (apply Z.pow_nonneg; lia).
    apply decoded_used with limit; [done|lia|]. intros y c nx Hy Hry Ey.
    destruct Hmode as [[[_ _ _ _ Rdone] Hl]|(a & b & start & _ & _ & [Sd _ _ _ _ Slink _ _ _ _ _])].
    + exfalso. apply elem_of_app in Hy as [Hy|Hy%list_elem_of_singleton].
      * rewrite Forall_forall in Rdone. specialize (Rdone y Hy). cbn beta in Rdone. lia.
      * subst y. destruct (rest_facts _ _ _ _ C) as (? & ? & Er & Hx & _). injection Er as <- _. lia.
    + rewrite Hlink, Slink in Ey by done. injection Ey as <- <-. lia.
Qed.

(** The head of the words left after [x]. *)
Lemma next_length x y rem :
  sorted (ln <$> x :: y :: rem) → Forall (λ z, ln z ≤ max) (x :: y :: rem) → max ∈ ln <$> x :: y :: rem →
  max ∈ ln <$> y :: rem ∧ (cnt (ln <$> y :: rem) (ln x) ≠ 0 → ln y = ln x) ∧
  ¬ (cnt (ln <$> y :: rem) (ln x) = 0 ∧ ln x = max).
Proof.
  rewrite fmap_cons. intros S Hf Hm. inversion S as [|? ? S2 Hx]; subst. rewrite fmap_cons in *.
  inversion S2 as [|? ? S3 Hy]; subst. inversion Hx as [|? ? Hxy Hx2]; subst.
  inversion Hf as [|? ? Hf1 Hf2]; subst. inversion Hf2 as [|? ? Hf3 Hf4]; subst.
  assert (ln x = max → ln y = ln x) as Hxm by lia. split_and!.
  - apply elem_of_cons in Hm as [Hm|Hm]; [|done]. rewrite Hm, <- Hxm by done. constructor.
  - intros Hc. destruct (decide (ln y = ln x)) as [|Hne]; [done|]. exfalso. apply Hc, cnt_zero.
    intros [Hin|Hin]%elem_of_cons; [done|]. rewrite Forall_forall in Hy. specialize (Hy _ Hin). lia.
  - intros [Hc Hxe]. apply cnt_zero in Hc. apply Hc. rewrite <- Hxm by done. constructor.
Qed.

Lemma process_code_more F done x y rem s :
  inv F done (x :: y :: rem) s →
  ∃ F' s', process_code type lens (arr n W) table max root s = Ok (s', More) ∧ inv F' (done ++ [x]) (y :: rem) s'.
Proof.
  intros I. destruct (process_code_eq _ _ _ _ _ I) as (F' & f & Hdec & Hu & Hlink & Hf & Hfr & ->).
  destruct I as [C Hmode]. destruct (rest_facts _ _ _ _ C) as (? & ? & Er & Hx & Hxr & _ & Hk & Hlt & S & Hge & Hle & Hdx).
  injection Er as <- <-. destruct (next_length x y rem) as (Hmax' & Hy & Hnot); [done| |apply (c_max _ _ _ _ C)|].
  { eapply Forall_impl; [exact Hge|]. intros z Hz. unfold compose in *; cbn beta in *; lia. }
  rewrite decide_False by done.
  assert (y ∈ ws ∧ ws !! length (done ++ [x]) = Some y) as [Hyw Hyl].
  { rewrite (c_ws _ _ _ _ C). split; [apply elem_of_app; right; do 2 constructor|]. replace (done ++ x :: y :: rem) with ((done ++ [x]) ++ y :: rem).
    - by apply list_lookup_middle.
    - by rewrite <- app_assoc. }
  pose proof (proj1 (Forall_forall _ _) Hws y Hyw) as Hyr. cbn beta in Hyr. apply lookup_lt_Some in Hyl as Hyb.
  assert ((if decide (cnt (ln <$> y :: rem) (ln x) = 0) then
             w ← aget (arr n W) (Z.of_nat (length (done ++ [x]))); aget lens w else Ok (ln x)) = Ok (ln y)) as ->.
  { destruct (decide (cnt (ln <$> y :: rem) (ln x) = 0)) as [Hc|Hc]; [|by rewrite Hy].
    rewrite aget_arr by lia. cbn [mbind outcome_bind]. rewrite (HW _ y Hyl). unfold aget. rewrite decide_True by lia.
    destruct (lookup_lt_is_Some_2 lens (Z.to_nat y) ltac:(lia)) as [v Hv]. rewrite Hv. unfold ln.
    by rewrite (list_lookup_total_correct _ _ _ Hv). }
  cbn [mbind outcome_bind]. apply new_subtable_spec with F'. split.
  - constructor; unfold after; tst; try done.
    + rewrite (c_ws _ _ _ _ C). by rewrite <- app_assoc.
    + by exists f.
    + apply (c_used _ _ _ _ C).
  - assert (0 < 2 ^ (15 - ln x)) as Hpos by (apply word_pos; lia).
    destruct Hmode as [[[Rd Rl Rn Rc Rdone] Hl]|(a & b & start & E & Ha & [Sd Ss Sg Se Sl Slink Sa Sb Sc Sn Su])].
    + left. constructor; unfold after; tst; try done. apply Forall_app. split; [done|]. constructor; [lia|done].
    + right. destruct a as [|z a]; [done|]. injection E as <- E. exists a, b, start. split; [done|]. inversion Sa; subst.
      constructor; unfold after; tst; try done; rewrite ?ks_app, ?ks_one.
      * lia.
      * unfold ks in Se at 2. rewrite fmap_cons, ksum_cons in Se. fold (ks a) in Se. lia.
      * by rewrite Hlink.
Qed.

Lemma process_codes_spec fuel F done rem s :
  inv F done rem s → (length rem ≤ fuel)%nat →
  ∃ F' s', process_codes type lens (arr n W) table max root fuel s = Ok (s', true) ∧ t_tab s' = arr M F' ∧ t_huff s' = 0 ∧ 1 ≤ t_len s' ∧
           t_used s' ≤ limit ∧ 2 ^ root ≤ t_used s' ∧ all_decoded (t_used s') F' (t_low s') (t_next s' - table) ws ∧
           (∀ i, i < table → F' i = F0 i).
Proof.
  revert F done rem s. induction fuel as [|fuel IH]; intros F done rem s I Hfu.
  - destruct rem; [|simpl in Hfu; lia]. destruct I as [C _]. discriminate (c_len _ _ _ _ C).
  - cbn [process_codes]. destruct rem as [|x [|y rem]].
    + destruct I as [C _]. discriminate (c_len _ _ _ _ C).
    + destruct (process_code_last _ _ _ _ I) as (F' & s' & -> & H). by exists F', s'.
    + destruct (process_code_more _ _ _ _ _ _ I) as (F' & s' & -> & I'). cbn [mbind outcome_bind]. apply (IH _ _ _ _ I').
      simpl in *. lia.
Qed.

Lemma first_inv f min :
  head (ln <$> ws) = Some min → min ≤ root → max ∈ ln <$> ws → (∀ k, 1 ≤ k ≤ 15 → f k = cnt (ln <$> ws) k) →
  inv F0 [] ws (Tst 0 0 min table root 0 (2 ^ 32 - 1) (2 ^ root) (arr 16 f) (arr M F0)).
Proof.
  intros Hmin Hr Hm Hf. split.
  - constructor; tst; try done.
    + by exists f.
    + lia.
    + by intros [|] x b ?.
  - left. split; [|done]. by constructor.
Qed.
End tables.
