(* ===== verification/Huffcode.v ===== *)
(** * The tables decode the canonical code (usr/klibc/zlib/inftrees.c)

    The code words of RFC 1951 from the lengths of the symbols, and the
    theorem that the tables of [inflate_table] decode every word of a complete
    code in the space that the callers reserve. *)

From Stdlib Require Import Sorted.
From stdpp Require Import strings.
From S2P Require Import Prelude Klib Inftrees Huffman Hufftab.

#[local] Opaque rev.
#[local] Arguments rev : simpl never.
#[local] Arguments Z.pow : simpl never.

(** ** The canonical code *)

(** The first code word of each length: (code + bl_count[l - 1]) << 1. *)
Fixpoint first_code (lens : list Z) (l : nat) : Z :=
  match l with O => 0 | S k => 2 * (first_code lens k + if decide (k = 0%nat) then 0 else cnt lens (Z.of_nat k)) end.

(** The words of one length are numbered in the order of the symbols. *)
Definition codeword (lens : list Z) (s : Z) : Z :=
  first_code lens (Z.to_nat (ln lens s)) + cnt (take (Z.to_nat s) lens) (ln lens s).

(** The lengths in use fill the code space: the sum of 2^-l is 1. *)
Definition complete (lens : list Z) : Prop := ksum (filter (λ l, l ≠ 0) lens) = 2 ^ 15.

(** ** The symbols in order of length *)

Definition upto (lens : list Z) (m : nat) : list Z := concat (syms lens 0 <$> seqZ 1 (Z.of_nat m)).
Abbreviation canon lens := (upto lens 15).

Lemma upto_S lens m : upto lens (S m) = upto lens m ++ syms lens 0 (Z.of_nat (S m)).
Proof.
  unfold upto. replace (Z.of_nat (S m)) with (Z.of_nat m + 1) by lia. rewrite seqZ_app by lia. rewrite fmap_app, concat_app. simpl.
  rewrite app_nil_r. do 2 f_equal. lia.
Qed.

Lemma syms_lookup pre ls l k x :
  syms ls (Z.of_nat (length pre)) l !! k = Some x →
  Z.of_nat (length pre) ≤ x < Z.of_nat (length (pre ++ ls)) ∧ (pre ++ ls) !! Z.to_nat x = Some l.
Proof.
  revert pre k. induction ls as [|y ls IH]; intros pre k Hk; [done|]. cbn [syms] in Hk.
  assert (∀ k, syms ls (Z.of_nat (length pre) + 1) l !! k = Some x →
    Z.of_nat (length pre) ≤ x < Z.of_nat (length (pre ++ y :: ls)) ∧ (pre ++ y :: ls) !! Z.to_nat x = Some l) as Hr.
  { intros k' Hk'. specialize (IH (pre ++ [y]) k'). rewrite length_app, Nat2Z.inj_add, <- app_assoc in IH.
    specialize (IH Hk'). simpl in IH. destruct IH. split; [lia|done]. }
  destruct (decide (y = l)) as [->|]; [|by apply Hr in Hk].
  destruct k as [|k]; [|by apply Hr in Hk]. injection Hk as <-. rewrite Nat2Z.id, list_lookup_middle by done.
  split; [rewrite length_app; simpl; lia|done].
Qed.

Lemma syms_elem lens l x : x ∈ syms lens 0 l → 0 ≤ x < Z.of_nat (length lens) ∧ ln lens x = l.
Proof.
  intros [k Hk]%list_elem_of_lookup. destruct (syms_lookup [] lens l k x Hk) as [H1 H2]. simpl in H1, H2. split; [done|].
  unfold ln. by apply list_lookup_total_correct.
Qed.
Lemma syms_lens lens l : ln lens <$> syms lens 0 l = replicate (length (syms lens 0 l)) l.
Proof.
  apply list_eq. intros i. rewrite list_lookup_fmap. destruct (syms lens 0 l !! i) as [x|] eqn:E; simpl.
  - rewrite lookup_replicate_2 by (by eapply lookup_lt_Some). f_equal. apply syms_elem. by eapply list_elem_of_lookup_2.
  - rewrite lookup_ge_None_2; [done|]. rewrite length_replicate. by apply lookup_ge_None_1.
Qed.

(** A symbol stands after the ones before it that have the same length. *)
Lemma syms_split ls s n l :
  ls !! n = Some l → ∃ a b, syms ls s l = a ++ (s + Z.of_nat n) :: b ∧ Z.of_nat (length a) = cnt (take n ls) l.
Proof.
  revert s n. induction ls as [|y ls IH]; intros s n Hn; [done|]. destruct n as [|n]; simpl in Hn.
  - injection Hn as ->. exists [], (syms ls (s + 1) l). cbn [syms]. rewrite decide_True by done. simpl.
    split; [do 2 f_equal; lia|done].
  - destruct (IH (s + 1) n Hn) as (a & b & E & Hl). cbn [syms]. rewrite E. simpl take. rewrite cnt_cons.
    replace (s + Z.of_nat (S n)) with (s + 1 + Z.of_nat n) by lia.
    destruct (decide (y = l)); [exists (s :: a), b|exists a, b]; (split; [done|]); simpl; lia.
Qed.

Lemma upto_elem lens m x : x ∈ upto lens m → 0 ≤ x < Z.of_nat (length lens) ∧ 1 ≤ ln lens x ≤ Z.of_nat m.
Proof.
  induction m as [|m IH]; [by intros ?%elem_of_nil|]. rewrite upto_S. intros [H|H]%elem_of_app.
  - destruct (IH H). split; lia.
  - destruct (syms_elem _ _ _ H) as [H1 ->]. split; lia.
Qed.
Lemma upto_sorted lens m : sorted (ln lens <$> upto lens m).
Proof.
  induction m as [|m IH]; [constructor|]. rewrite upto_S, fmap_app, syms_lens. apply sorted_app. split_and!; [done| |].
  - generalize (length (syms lens 0 (Z.of_nat (S m)))) as k. intros k. induction k as [|k IHk]; simpl; constructor; [done|].
    apply Forall_replicate. lia.
  - intros u v (x & -> & Hx)%list_elem_of_fmap [Hv _]%elem_of_replicate. apply upto_elem in Hx as [_ Hx]. lia.
Qed.
Lemma cnt_replicate k l x : cnt (replicate k l) x = if decide (l = x) then Z.of_nat k else 0.
Proof. induction k as [|k IH]; [simpl; by case_decide|]. simpl replicate. rewrite cnt_cons, IH. case_decide; lia. Qed.
Lemma upto_cnt lens m k : 1 ≤ k ≤ Z.of_nat m → cnt (ln lens <$> upto lens m) k = cnt lens k.
Proof.
  induction m as [|m IH]; [lia|]. intros Hk. rewrite upto_S, fmap_app, cnt_app, syms_lens, cnt_replicate, syms_length.
  destruct (decide (Z.of_nat (S m) = k)) as [<-|].
  - assert (cnt (ln lens <$> upto lens m) (Z.of_nat (S m)) = 0) as ->; [|lia]. apply cnt_zero.
    intros (x & Ex & Hx)%list_elem_of_fmap. apply upto_elem in Hx as [_ Hx]. lia.
  - rewrite IH by lia. lia.
Qed.
Lemma ksum_replicate k l : ksum (replicate k l) = Z.of_nat k * 2 ^ (15 - l).
Proof. induction k as [|k IH]; [done|]. simpl replicate. rewrite ksum_cons, IH. lia. Qed.
(** The words up to a length end where the ones of the next length begin. *)
Lemma upto_ksum lens m : (m < 15)%nat → ks lens (upto lens m) = first_code lens (S m) * 2 ^ (15 - Z.of_nat (S m)).
Proof.
  induction m as [|m IH]; intros Hm; [done|]. rewrite upto_S, ks_app, IH by lia. unfold ks.
  rewrite syms_lens, ksum_replicate, syms_length. cbn [first_code]. rewrite (decide_False (P := S m = 0%nat)) by lia.
  replace (15 - Z.of_nat (S m)) with (Z.succ (15 - Z.of_nat (S (S m)))) by lia. rewrite Z.pow_succ_r by lia. lia.
Qed.

Lemma upto_prefix lens m m' : (m ≤ m')%nat → ∃ r, upto lens m' = upto lens m ++ r.
Proof.
  induction 1 as [|m' _ [r IH]]; [exists []; by rewrite app_nil_r|]. rewrite upto_S, IH, <- app_assoc. by eexists.
Qed.
Lemma canon_split lens n l :
  lens !! n = Some l → 1 ≤ l ≤ 15 →
  ∃ a b, canon lens = a ++ Z.of_nat n :: b ∧ ks lens a = codeword lens (Z.of_nat n) * 2 ^ (15 - l).
Proof.
  intros Hn Hl. destruct (syms_split lens 0 n l Hn) as (a & b & E & Ha).
  destruct (upto_prefix lens (S (Z.to_nat l - 1)) 15 ltac:(lia)) as [r ->]. rewrite upto_S.
  replace (Z.of_nat (S (Z.to_nat l - 1))) with l by lia. rewrite E. exists (upto lens (Z.to_nat l - 1) ++ a), (b ++ r).
  split; [by rewrite <- !app_assoc|]. rewrite ks_app, upto_ksum by lia. unfold codeword. rewrite Nat2Z.id.
  assert (ln lens (Z.of_nat n) = l) as -> by (unfold ln; rewrite Nat2Z.id; by apply list_lookup_total_correct).
  replace (S (Z.to_nat l - 1)) with (Z.to_nat l) by lia. rewrite Z2Nat.id by lia. unfold ks.
  assert (ln lens <$> a = replicate (length a) l) as ->; [|rewrite ksum_replicate; lia].
  pose proof (syms_lens lens l) as Hs. rewrite E, fmap_app, length_app, replicate_add in Hs.
  apply app_inj_1 in Hs as [-> _]; [done|]. by rewrite length_fmap, length_replicate.
Qed.

Lemma filter_ksum ls m :
  ksum (filter (λ l, 1 ≤ l ≤ m + 1) ls) = ksum (filter (λ l, 1 ≤ l ≤ m) ls) + (if decide (0 ≤ m) then cnt ls (m + 1) * 2 ^ (15 - (m + 1)) else 0).
Proof.
  induction ls as [|x ls IH]; [simpl; by case_decide|]. rewrite !filter_cons, cnt_cons.
  destruct (decide (x = m + 1)) as [->|]; [rewrite (decide_False (P := 1 ≤ m + 1 ≤ m)) by lia|];
    destruct (decide (0 ≤ m)); repeat case_decide; rewrite ?ksum_cons, ?IH; lia.
Qed.
Lemma upto_total lens m : ks lens (upto lens m) = ksum (filter (λ l, 1 ≤ l ≤ Z.of_nat m) lens).
Proof.
  induction m as [|m IH].
  - unfold ks. simpl. induction lens as [|x lens IHl]; [done|]. rewrite filter_cons, decide_False by lia. done.
  - rewrite upto_S, ks_app, IH. unfold ks. rewrite syms_lens, ksum_replicate, syms_length.
    replace (Z.of_nat (S m)) with (Z.of_nat m + 1) by lia. rewrite filter_ksum, decide_True by lia. done.
Qed.
Lemma filter_used lens : lengths_ok lens → filter (λ l, 1 ≤ l ≤ 15) lens = filter (λ l, l ≠ 0) lens.
Proof. induction 1 as [|x lens Hx _ IH]; [done|]. rewrite !filter_cons, IH. repeat case_decide; done || lia. Qed.
Lemma canon_total lens : lengths_ok lens → complete lens → ks lens (canon lens) = 2 ^ 15.
Proof. intros Hl Hc. rewrite upto_total. change (Z.of_nat 15) with 15. by rewrite filter_used. Qed.

(** Every number of 15 bits begins with a code word. *)
Lemma words_cover lens ws q :
  0 ≤ q < ks lens ws → ∃ a x b, ws = a ++ x :: b ∧ ks lens a ≤ q < ks lens a + 2 ^ (15 - ln lens x).
Proof.
  induction ws as [|y ws IH] using rev_ind; [unfold ks; simpl; lia|]. rewrite ks_app, ks_one. intros Hq.
  destruct (decide (q < ks lens ws)) as [Hlt|Hge].
  - destruct (IH ltac:(lia)) as (a & x & b & -> & H). exists a, x, (b ++ [y]). by rewrite <- app_assoc.
  - exists ws, y, []. split; [done|lia].
Qed.

(** ** Counts, offsets and the check of the lengths *)

(** The sum of the counts as the check doubles them. *)
Fixpoint hsum (cs : list Z) : Z := match cs with [] => 0 | c :: cs => c * 2 ^ Z.of_nat (length cs) + hsum cs end.

Lemma hsum_nonneg cs : Forall (λ c, 0 ≤ c) cs → 0 ≤ hsum cs.
Proof. induction 1 as [|c cs Hc _ IH]; [done|]. cbn [hsum]. pose proof (Z.pow_nonneg 2 (Z.of_nat (length cs))). nia. Qed.
Lemma codes_left_spec cs lft :
  Forall (λ c, 0 ≤ c) cs → 0 ≤ lft →
  codes_left cs lft =
    if decide (hsum cs ≤ lft * 2 ^ Z.of_nat (length cs)) then Some (lft * 2 ^ Z.of_nat (length cs) - hsum cs) else None.
Proof.
  intros H. revert lft. induction H as [|c cs Hc Hcs IH]; intros lft Hl; cbn [codes_left hsum length].
  - change (2 ^ Z.of_nat 0) with 1. rewrite decide_True by lia. f_equal. lia.
  - cbn zeta. assert (0 < 2 ^ Z.of_nat (length cs)) by (apply Z.pow_pos_nonneg; lia). pose proof (hsum_nonneg cs Hcs).
    replace (Z.of_nat (S (length cs))) with (Z.succ (Z.of_nat (length cs))) by lia. rewrite Z.pow_succ_r by lia.
    destruct (decide (2 * lft - c < 0)).
    + rewrite decide_False by nia. done.
    + rewrite IH by lia. set (p := 2 ^ _) in *. replace ((2 * lft - c) * p) with (lft * (2 * p) - c * p) by lia.
      repeat case_decide; try lia; [|done]. f_equal. lia.
Qed.

(** The counts of the lengths add up to the space the words take. *)
Lemma hsum_counts lens m :
  (m ≤ 15)%nat → hsum (cnt lens <$> seqZ (16 - Z.of_nat m) (Z.of_nat m)) = ksum (filter (λ l, 16 - Z.of_nat m ≤ l ≤ 15) lens).
Proof.
  induction m as [|m IH]; intros Hm.
  - simpl. induction lens as [|x lens IHl]; [done|]. rewrite filter_cons, decide_False by lia. done.
  - replace (Z.of_nat (S m)) with (Z.succ (Z.of_nat m)) by lia. rewrite seqZ_cons by lia.
    replace (Z.succ (16 - Z.succ (Z.of_nat m))) with (16 - Z.of_nat m) by lia.
    replace (Z.pred (Z.succ (Z.of_nat m))) with (Z.of_nat m) by lia. rewrite fmap_cons. cbn [hsum].
    rewrite IH, length_fmap, length_seqZ, Nat2Z.id by lia. set (k := 16 - Z.succ (Z.of_nat m)).
    replace (16 - Z.of_nat m) with (k + 1) by lia. replace (Z.of_nat m) with (15 - k) by lia.
    clear IH. assert (k ≤ 15) as Hk by lia. clearbody k. induction lens as [|x lens IHl]; [done|].
    rewrite !filter_cons, cnt_cons.
    destruct (decide (x = k)) as [->|].
    + rewrite (decide_False (P := k + 1 ≤ k ≤ 15)), (decide_True (P := k ≤ k ≤ 15)) by lia. rewrite ksum_cons, <- IHl. lia.
    + destruct (decide (k ≤ x ≤ 15)).
      * rewrite (decide_True (P := k + 1 ≤ x ≤ 15)) by lia. rewrite !ksum_cons, <- IHl. lia.
      * rewrite (decide_False (P := k + 1 ≤ x ≤ 15)) by lia. rewrite <- IHl. lia.
Qed.

(** The place of the first symbol of a length. *)
Definition place (lens : list Z) (l : Z) : Z := Z.of_nat (length (upto lens (Z.to_nat (l - 1)))).

Lemma place_next lens l : 1 ≤ l → place lens (l + 1) = place lens l + cnt lens l.
Proof.
  intros Hl. unfold place. replace (Z.to_nat (l + 1 - 1)) with (S (Z.to_nat (l - 1))) by lia.
  rewrite upto_S, length_app, Nat2Z.inj_add. f_equal. replace (Z.of_nat (S (Z.to_nat (l - 1)))) with l by lia. apply syms_length.
Qed.
Lemma place_mono lens l l' : l ≤ l' → place lens l ≤ place lens l'.
Proof.
  intros Hl. unfold place. destruct (upto_prefix lens (Z.to_nat (l - 1)) (Z.to_nat (l' - 1)) ltac:(lia)) as [r ->].
  rewrite length_app. lia.
Qed.
Lemma upto_others ls m :
  Z.of_nat (length (upto ls m)) + Z.of_nat (length (filter (λ l, ¬ 1 ≤ l ≤ Z.of_nat m) ls)) = Z.of_nat (length ls).
Proof.
  induction m as [|m IH].
  - change (upto ls 0) with (@nil Z). induction ls as [|x ls IHl]; [done|]. rewrite filter_cons, decide_True by lia.
    simpl length in *. lia.
  - rewrite upto_S, length_app. pose proof (syms_length ls 0 (Z.of_nat (S m))) as Hs.
    assert (Z.of_nat (length (filter (λ l, ¬ 1 ≤ l ≤ Z.of_nat m) ls)) =
            cnt ls (Z.of_nat (S m)) + Z.of_nat (length (filter (λ l, ¬ 1 ≤ l ≤ Z.of_nat (S m)) ls))) as Hc; [|lia].
    clear. induction ls as [|x ls IHl]; [done|]. rewrite !filter_cons, cnt_cons.
    destruct (decide (x = Z.of_nat (S m))); repeat case_decide; simpl length; lia.
Qed.
Lemma upto_length lens m : (length (upto lens m) ≤ length lens)%nat.
Proof. pose proof (upto_others lens m). lia. Qed.

Lemma offsets_spec f O i m :
  (∀ j, i ≤ j < i + Z.of_nat m → u16 (O j + f j) = O (j + 1)) → offsets (f <$> seqZ i (Z.of_nat m)) (O i) = O <$> seqZ i (Z.of_nat m).
Proof.
  revert i. induction m as [|m IH]; intros i H; [done|]. rewrite !seqZ_cons by lia. rewrite !fmap_cons. cbn [offsets].
  rewrite H by lia. replace (Z.succ i) with (i + 1) by lia. replace (Z.pred (Z.of_nat (S m))) with (Z.of_nat m) by lia.
  f_equal. apply IH. intros j Hj. apply H. lia.
Qed.

Lemma nth_arr n (f : Z → Z) k : Z.of_nat k < n → nth k (arr n f) 0 = f (Z.of_nat k).
Proof. intros Hk. rewrite nth_lookup. by rewrite arr_lookup by lia. Qed.
Lemma max_length_spec (f : Z → Z) k :
  (k ≤ 15)%nat →
  let m := max_length k (arr 16 f) in
  0 ≤ m ≤ Z.of_nat k ∧ (m ≠ 0 → f m ≠ 0) ∧ (∀ j, m < j ≤ Z.of_nat k → f j = 0).
Proof.
  induction k as [|k IH]; intros Hk; [simpl; split_and!; lia|]. cbn [max_length]. rewrite nth_arr by lia. case_decide as Hd.
  - cbn zeta. split_and!; [lia|lia|done|lia].
  - destruct (IH ltac:(lia)) as (H1 & H2 & H3). cbn zeta. split_and!; [lia|lia|done|].
    intros j Hj. destruct (decide (j = Z.of_nat (S k))) as [->|]; [done|]. apply H3. lia.
Qed.
Lemma min_length_spec (f : Z → Z) n len :
  1 ≤ len → len + Z.of_nat n ≤ 16 → (∃ j, len ≤ j < len + Z.of_nat n ∧ f j ≠ 0) →
  let m := min_length n len (arr 16 f) in len ≤ m < len + Z.of_nat n ∧ f m ≠ 0 ∧ (∀ j, len ≤ j < m → f j = 0).
Proof.
  revert len. induction n as [|n IH]; intros len Hl Hn (j & Hj & Hfj); [lia|]. cbn [min_length]. rewrite nth_arr by lia.
  rewrite Z2Nat.id by lia. case_decide as Hd; cbn zeta.
  - split_and!; [lia|lia|done|lia].
  - destruct (IH (len + 1)) as (H1 & H2 & H3); [lia|lia| |].
    + exists j. split; [|done]. destruct (decide (j = len)) as [->|]; [done|lia].
    + split_and!; [lia|lia|done|]. intros i Hi. destruct (decide (i = len)) as [->|]; [done|]. apply H3. lia.
Qed.

(** ** The space of the tables *)

(** What the callers pass (inflate.c:846, 865, 931, 940): how many symbols,
    how long a code, and the bits of the index. *)
Definition symbols (type : codetype) : Z := match type with CODES => 19 | LENS => 286 | DISTS => 30 end.
Definition longest (type : codetype) : Z := match type with CODES => 7 | _ => 15 end.
Definition index_bits (type : codetype) : Z := match type with CODES => 7 | LENS => 9 | DISTS => 6 end.
(** The entries that are enough. *)
Definition space (type : codetype) : Z := match type with CODES => 128 | LENS => 852 | DISTS => 592 end.

Lemma long_words lens r b :
  r ≤ 14 → Forall (λ s, r < ln lens s) b → ks lens b ≤ Z.of_nat (length b) * 2 ^ (14 - r).
Proof.
  intros Hr. induction 1 as [|x b Hx _ IH]; [done|]. unfold ks. rewrite fmap_cons, ksum_cons. fold (ks lens b). simpl length.
  assert (2 ^ (15 - ln lens x) ≤ 2 ^ (14 - r)) by (apply Z.pow_le_mono_r; lia). lia.
Qed.
(** One word takes at most half of the space, and two that leave some at most
    three quarters. *)
Lemma short_words lens a :
  Forall (λ s, 1 ≤ ln lens s ≤ 15) a → ks lens a < 2 ^ 15 →
  ((length a ≤ 1)%nat → ks lens a ≤ 2 ^ 14) ∧ ((length a ≤ 2)%nat → ks lens a ≤ 3 * 2 ^ 13).
Proof.
  intros Ha Hk. assert (∀ x, 1 ≤ ln lens x → 2 ^ (15 - ln lens x) ≤ 2 ^ 14) as H1 by (intros; apply Z.pow_le_mono_r; lia).
  assert (∀ x, 2 ≤ ln lens x → 2 ^ (15 - ln lens x) ≤ 2 ^ 13) as H2 by (intros; apply Z.pow_le_mono_r; lia).
  destruct a as [|x [|y [|z a]]]; [unfold ks; simpl; split; lia|..];
    inversion Ha as [|? ? Hx Ha']; subst; unfold ks in *; rewrite ?fmap_cons, ?ksum_cons in *; pose proof (H1 x ltac:(lia)).
  1: simpl; split; lia.
  2: simpl length; split; lia.
  inversion Ha' as [|? ? Hy _]; subst. simpl ksum in *. simpl length.
  pose proof (H1 y). pose proof (H2 x). pose proof (H2 y). split; [lia|]. intros _.
  destruct (decide (ln lens x = 1)) as [Ex|], (decide (ln lens y = 1)) as [Ey|]; try lia.
  rewrite Ex, Ey in Hk. lia.
Qed.

Section space.
Context (type : codetype) (lens : list Z).
Context (Hok : lengths_ok lens) (Hlong : Forall (λ l, l ≤ longest type) lens) (Hcomplete : complete lens).
Context (Hsyms : Z.of_nat (length lens) ≤ symbols type).

Lemma canon_range : Forall (λ s, 1 ≤ ln lens s ≤ 15) (canon lens).
Proof. apply Forall_forall. intros x Hx. apply upto_elem in Hx. simpl in Hx. tauto. Qed.

Lemma space_enough a b :
  canon lens = a ++ b → Forall (λ s, index_bits type < ln lens s) b → b ≠ [] →
  2 ^ index_bits type + room (15 - index_bits type) (Z.of_nat (length b)) 1 ≤ space type.
Proof.
  intros E Hb Hne. pose proof (canon_total lens Hok Hcomplete) as Ht. rewrite E, ks_app in Ht.
  pose proof canon_range as Hr. rewrite E in Hr. apply Forall_app in Hr as [Hra Hrb].
  assert (0 < ks lens b) by (apply ksum_pos; [|by destruct b]; rewrite Forall_fmap; eapply Forall_impl; [exact Hrb|];
    intros z Hz; unfold compose; cbn beta in *; lia).
  destruct (short_words lens a Hra ltac:(lia)) as [S1 S2].
  assert (index_bits type ≤ 14) as Hi by (by destruct type).
  pose proof (long_words lens (index_bits type) b Hi Hb) as HL. pose proof (upto_length lens 15) as Hlen.
  rewrite E, length_app in Hlen. destruct type; cbn [index_bits symbols space] in *.
  - destruct b as [|x b]; [done|]. inversion Hb as [|? ? Hx _]; subst. exfalso.
    destruct (upto_elem lens 15 x) as [Hx1 _]; [rewrite E; apply elem_of_app; right; constructor|].
    destruct (lookup_lt_is_Some_2 lens (Z.to_nat x) ltac:(lia)) as [v Hv]. unfold ln in Hx.
    rewrite (list_lookup_total_correct _ _ _ Hv) in Hx. pose proof (Forall_lookup_1 _ _ _ _ Hlong Hv) as Hv2. simpl in Hv2. lia.
  - assert (¬ (length a ≤ 1)%nat) by (intros Ha; specialize (S1 Ha); lia).
    enough (room (15 - 9) (Z.of_nat (length b)) 1 ≤ 340) by lia. apply room_even; [done|lia|lia].
  - assert (¬ (length a ≤ 2)%nat) by (intros Ha; specialize (S2 Ha); lia).
    enough (room (15 - 6) (Z.of_nat (length b)) 1 ≤ 528) by lia. apply room_even; [done|lia|lia].
Qed.

(** The shortest word is not longer than the index. *)
Lemma shortest m : Forall (λ s, m ≤ ln lens s) (canon lens) → m ≤ 15 → m ≤ longest type → m ≤ index_bits type.
Proof.
  intros Hm H15 Hl. destruct (decide (m ≤ index_bits type)) as [|Hn]; [done|]. exfalso.
  assert (Forall (λ s, index_bits type < ln lens s) (canon lens)) as Hf
    by (eapply Forall_impl; [exact Hm|]; intros z Hz; cbn beta in *; lia).
  pose proof (long_words lens (index_bits type) (canon lens) ltac:(by destruct type) Hf) as HL.
  rewrite (canon_total lens Hok Hcomplete) in HL. pose proof (upto_length lens 15) as Hlen.
  destruct type; cbn [index_bits symbols longest] in *; lia.
Qed.
End space.

(** ** Looking up a code *)

(** Whether an entry is the link to a sub-table (inflate.c:962, 1007; the codes
    of the lengths have no sub-tables). *)
Definition is_link (type : codetype) (op : Z) : bool :=
  match type with
  | CODES => false
  | LENS => bool_decide (op ≠ 0 ∧ Z.land op 0xf0 = 0)
  | DISTS => bool_decide (Z.land op 0xf0 = 0)
  end.

(** The entry for the bits [v] and how many of them it takes, once there are
    enough of them. *)
(* usr/klibc/zlib/inflate.c:957-972 lencode *)
Definition lookup_code (type : codetype) (tab : list code) (table bits v : Z) : outcome (Z * Z * Z) :=
  this ← aget tab (table + v `mod` 2 ^ bits);
  if is_link type (c_op this) then
    let last := this in
    this ← aget tab (table + (c_val last + Z.shiftr (v `mod` 2 ^ (c_bits last + c_op last)) (c_bits last)));
    Ok (c_op this, c_val this, c_bits last + c_bits this)
  else Ok (c_op this, c_val this, c_bits this).

(** What a symbol means: the operation and the value. *)
Definition meaning (type : codetype) (s : Z) : Z * Z :=
  match entry_of type s 0 with Ok c => (c_op c, c_val c) | _ => (0, 0) end.
Definition ent (type : codetype) (s k : Z) : code := let '(op, val) := meaning type s in Code op k val.

Lemma aget_some (l : list Z) i : 0 ≤ i < Z.of_nat (length l) → ∃ x, aget l i = Ok x ∧ x ∈ l.
Proof.
  intros Hi. unfold aget. rewrite decide_True by lia. destruct (lookup_lt_is_Some_2 l (Z.to_nat i) ltac:(lia)) as [x Hx].
  exists x. rewrite Hx. split; [done|]. by eapply list_elem_of_lookup_2.
Qed.
Lemma extra_ops : Forall (λ x, 0 ≤ x < 256 ∧ Z.land x 0xf0 ≠ 0) (lext ++ dext).
Proof. apply (bool_decide_unpack _). vm_compute. exact I. Qed.
Lemma entry_spec type s k :
  0 ≤ s < symbols type → 0 ≤ k < 256 → entry_of type s k = Ok (ent type s k) ∧ is_link type (c_op (ent type s k)) = false.
Proof.
  intros Hs Hk. pose proof extra_ops as Hx. rewrite Forall_forall in Hx.
  assert (∀ k', u8 k' = k' `mod` 256) as Hu by done. unfold ent, meaning, entry_of. destruct type; cbn [symbols] in Hs.
  - destruct (decide (s < 19)); [|lia]. cbn [c_op c_val]. rewrite Hu, Z.mod_small by lia. by split.
  - destruct (decide (s < 256)); [cbn [c_op c_val]; rewrite Hu, Z.mod_small by lia; by split|].
    destruct (decide (256 < s)); [|cbn [c_op c_val]; rewrite Hu, Z.mod_small by lia; by split].
    destruct (aget_some lext (s - 257)) as (e & -> & He); [simpl; lia|].
    destruct (aget_some lbase (s - 257)) as (b & -> & _); [simpl; lia|]. cbn [mbind outcome_bind c_op c_val].
    destruct (Hx e) as [He1 He2]; [apply elem_of_app; by left|]. rewrite !Hu, !(Z.mod_small e), Z.mod_small by lia.
    split; [done|]. simpl. apply bool_decide_eq_false. tauto.
  - destruct (decide (s < -1)), (decide (-1 < s)); try lia. rewrite Z.sub_0_r.
    destruct (aget_some dext s) as (e & -> & He); [simpl; lia|].
    destruct (aget_some dbase s) as (b & -> & _); [simpl; lia|]. cbn [mbind outcome_bind c_op c_val].
    destruct (Hx e) as [He1 He2]; [apply elem_of_app; by right|]. rewrite !Hu, !(Z.mod_small e), Z.mod_small by lia.
    split; [done|]. simpl. apply bool_decide_eq_false. tauto.
Qed.

(** ** Putting the parts together *)

(** The work area holds the symbols in order after the sort. *)
Lemma upto_work lens W m :
  (m ≤ 15)%nat → (∀ l k x, 1 ≤ l ≤ 15 → syms lens 0 l !! k = Some x → W (place lens l + Z.of_nat k) = x) →
  ∀ j x, upto lens m !! j = Some x → W (Z.of_nat j) = x.
Proof.
  intros Hm HW. induction m as [|m IH]; intros j x Hj; [done|]. rewrite upto_S in Hj. apply lookup_app_Some in Hj as [Hj|[Hj1 Hj2]].
  - apply (IH ltac:(lia) _ _ Hj).
  - rewrite <- (HW (Z.of_nat (S m)) (j - length (upto lens m))%nat x) by (done || lia). f_equal. unfold place.
    replace (Z.to_nat (Z.of_nat (S m) - 1)) with m by lia. lia.
Qed.
Lemma places_ok lens n : Z.of_nat (length lens) ≤ n → places lens (place lens) n.
Proof.
  intros Hn. split.
  - intros l Hl. rewrite <- place_next by lia. unfold place. pose proof (upto_length lens (Z.to_nat (l + 1 - 1))). lia.
  - intros l l' Hl Hl' Hlt. rewrite <- place_next by lia. apply place_mono. lia.
Qed.
Lemma sort_canon lens n W :
  lengths_ok lens → Z.of_nat (length lens) < 32768 → Z.of_nat (length lens) ≤ n →
  ∃ W', sort_symbols lens 0 (0 :: offsets (tail (arr 16 (cnt lens))) 0) (arr n W) = Ok (arr n W') ∧
        ∀ j x, canon lens !! j = Some x → W' (Z.of_nat j) = x.
Proof.
  intros Hok Hl Hn. change (tail (arr 16 (cnt lens))) with (cnt lens <$> seqZ 1 (Z.of_nat 15)).
  change 0 with (place lens 1) at 3. rewrite offsets_spec.
  2:{ intros j Hj. rewrite place_next by lia. unfold u16. rewrite Z.mod_small; [done|]. rewrite <- place_next by lia.
      unfold place. pose proof (upto_length lens (Z.to_nat (j + 1 - 1))). lia. }
  change (0 :: (place lens <$> seqZ 1 (Z.of_nat 15))) with (arr 16 (place lens)).
  destruct (sort_symbols_spec lens 0 (place lens) n (Z.of_nat (length lens)) W) as (W' & -> & H1 & _);
    [done|lia|lia|lia|lia|by apply places_ok|].
  exists W'. split; [done|]. by apply upto_work.
Qed.

Lemma count_all lens :
  lengths_ok lens → Z.of_nat (length lens) < 65536 → count_lengths lens (replicate 16 0) = Ok (arr 16 (cnt lens)).
Proof.
  intros Hok Hl. change (replicate 16 0) with (arr 16 (λ _, 0)). rewrite count_lengths_spec by (done || (intros; lia)).
  done.
Qed.

(** The check of the lengths is Kraft's sum. *)
Lemma codes_left_kraft lens :
  lengths_ok lens →
  codes_left (tail (arr 16 (cnt lens))) 1 =
    let k := ksum (filter (λ l, l ≠ 0) lens) in if decide (k ≤ 2 ^ 15) then Some (2 ^ 15 - k) else None.
Proof.
  intros Hok. change (tail (arr 16 (cnt lens))) with (cnt lens <$> seqZ (16 - Z.of_nat 15) (Z.of_nat 15)).
  rewrite codes_left_spec; [|apply Forall_fmap, Forall_forall; intros x _; apply cnt_range|lia].
  rewrite length_fmap, length_seqZ. change (Z.of_nat (Z.to_nat (Z.of_nat 15))) with 15. rewrite Z.mul_1_l.
  rewrite hsum_counts by lia. change (16 - Z.of_nat 15) with 1. by rewrite filter_used.
Qed.

Section build.
Context (type : codetype) (lens : list Z).
Context (Hok : lengths_ok lens) (Hlong : Forall (λ l, l ≤ longest type) lens) (Hcomplete : complete lens).
Context (Hsyms : Z.of_nat (length lens) ≤ symbols type).

Lemma canon_head : ∃ x r, canon lens = x :: r.
Proof.
  pose proof (canon_total lens Hok Hcomplete) as H. destruct (canon lens) as [|x r]; [by unfold ks in H|]. by exists x, r.
Qed.
Lemma canon_long : Forall (λ s, ln lens s ≤ longest type) (canon lens).
Proof.
  apply Forall_forall. intros x Hx. apply upto_elem in Hx as [Hx _].
  destruct (lookup_lt_is_Some_2 lens (Z.to_nat x) ltac:(lia)) as [v Hv]. unfold ln. rewrite (list_lookup_total_correct _ _ _ Hv).
  apply (Forall_lookup_1 _ _ _ _ Hlong Hv).
Qed.

Lemma used_canon k : 1 ≤ k ≤ 15 → cnt lens k ≠ 0 ↔ k ∈ ln lens <$> canon lens.
Proof. intros Hk. rewrite <- (upto_cnt lens 15) by (simpl; lia). rewrite cnt_zero. split; [apply dec_stable|tauto]. Qed.

(** The greatest and the least length in use. *)
Lemma max_canon :
  let max := max_length 15 (arr 16 (cnt lens)) in
  1 ≤ max ≤ 15 ∧ max ∈ ln lens <$> canon lens ∧ Forall (λ s, 1 ≤ ln lens s ≤ max) (canon lens).
Proof.
  cbn zeta. destruct (max_length_spec (cnt lens) 15 ltac:(lia)) as (H1 & H2 & H3). set (max := max_length _ _) in *.
  pose proof (canon_range lens) as Hr. rewrite Forall_forall in Hr. cbn beta in Hr.
  pose proof used_canon as Hin.
  assert (∀ x, x ∈ canon lens → ln lens x ≤ max) as Hle.
  { intros x Hx. destruct (decide (ln lens x ≤ max)) as [|Hn]; [done|]. exfalso. specialize (Hr x Hx).
    apply (Hin (ln lens x)); [lia|by apply list_elem_of_fmap_2|]. apply H3. simpl. lia. }
  destruct canon_head as (x & r & E). assert (x ∈ canon lens) as Hx by (rewrite E; constructor).
  specialize (Hr x Hx) as Hx1. specialize (Hle x Hx) as Hx2. simpl in H1. split_and!; [lia|lia| |].
  - apply Hin; [lia|]. apply H2. lia.
  - apply Forall_forall. intros y Hy. specialize (Hr y Hy). specialize (Hle y Hy). lia.
Qed.
Lemma min_canon :
  let min := min_length 15 1 (arr 16 (cnt lens)) in
  head (ln lens <$> canon lens) = Some min ∧ 1 ≤ min ≤ max_length 15 (arr 16 (cnt lens)) ∧ min ≤ index_bits type.
Proof.
  cbn zeta. destruct max_canon as (M1 & M2 & M3). set (max := max_length _ _) in *. destruct canon_head as (x & r & E).
  assert (x ∈ canon lens) as Hx by (rewrite E; constructor). rewrite Forall_forall in M3. pose proof (M3 x Hx) as Hxm. cbn beta in Hxm.
  pose proof (upto_sorted lens 15) as Hs. rewrite E, fmap_cons in Hs. apply StronglySorted_inv in Hs as [_ Hs].
  pose proof used_canon as Hin.
  assert (∀ k, k ∈ ln lens <$> canon lens → ln lens x ≤ k) as Hle.
  { intros k. rewrite E, fmap_cons. intros [->|Hk]%elem_of_cons; [done|]. rewrite Forall_forall in Hs. by apply Hs. }
  assert (ln lens x ∈ ln lens <$> canon lens) as Hlx by (by apply list_elem_of_fmap_2).
  destruct (min_length_spec (cnt lens) 15 1) as (H1 & H2 & H3); [lia|simpl; lia| |].
  { exists (ln lens x). split; [simpl; lia|]. apply Hin; [lia|done]. }
  set (min := min_length _ _ _) in *. simpl in H1.
  assert (min = ln lens x) as Em.
  { apply Hin in H2; [|lia]. apply Hle in H2. destruct (decide (ln lens x < min)) as [Hlt|]; [|lia].
    exfalso. apply (Hin (ln lens x)); [lia|done|]. apply H3. lia. }
  rewrite Em. split_and!; [by rewrite E|lia|lia|]. apply (shortest type lens Hok Hlong Hcomplete Hsyms); [|lia|].
  - apply Forall_forall. intros y Hy. apply Hle. by apply list_elem_of_fmap_2.
  - pose proof canon_long as Hl. rewrite Forall_forall in Hl. by apply Hl.
Qed.

Context (M table n : Z) (F0 : Z → code) (W0 : Z → Z).
Context (Htable : 0 ≤ table) (Hroom : table + space type ≤ M) (Hwork : Z.of_nat (length lens) ≤ n).

Lemma fill_rest_none fuel len next drop low bits tab root :
  (0 < fuel)%nat → fill_rest table root fuel 0 len next drop low bits tab = Ok tab.
Proof. by destruct fuel; [lia|]. Qed.

Lemma few_symbols : Z.of_nat (length lens) ≤ 286.
Proof. destruct type; cbn [symbols] in Hsyms; lia. Qed.

Lemma build_spec :
  ∃ F low nx0 next root work, inflate_table type lens (arr M F0) table (index_bits type) (arr n W0) = Ok (0, arr M F, next, root, work) ∧
    1 ≤ root ≤ index_bits type ∧ table + 2 ^ root ≤ next ≤ table + space type ∧
    all_decoded lens (ent type) table root (next - table) F low nx0 (canon lens) ∧ (∀ i, i < table → F i = F0 i) ∧ length work = Z.to_nat n ∧
    (type = CODES → Forall (λ s, ln lens s ≤ root) (canon lens)).
Proof.
  pose proof few_symbols as H286. destruct max_canon as (M1 & M2 & M3). destruct min_canon as (N1 & N2 & N3).
  unfold inflate_table. rewrite count_all by (done || lia). cbn [mbind outcome_bind]. set (max := max_length _ _) in *.
  rewrite (decide_False (P := max = 0)) by lia. set (min := min_length _ _ _) in *.
  rewrite codes_left_kraft by done. cbn zeta. rewrite Hcomplete, decide_True by done. rewrite decide_False by lia.
  set (root := if decide (max < index_bits type) then max else index_bits type).
  assert (min ≤ root ∧ 1 ≤ root ≤ max ∧ root ≤ index_bits type ∧ (root = max ∨ root = index_bits type)) as (R1 & R2 & R3 & R4)
    by (unfold root; case_decide; lia).
  rewrite (decide_False (P := root < min)) by lia.
  destruct (sort_canon lens n W0) as (W & -> & HW); [done|lia|lia|]. cbn [mbind outcome_bind]. rewrite Z.shiftl_1_l.
  assert (2 ^ root ≤ 2 ^ index_bits type) as Hp by (apply Z.pow_le_mono_r; lia).
  assert (2 ^ index_bits type ≤ space type) as Hp2 by (by destruct type).
  assert (type = LENS → space type < ENOUGH - MAXD) as Hfull by (by intros ->).
  rewrite decide_False by (intros [Ht ?]; specialize (Hfull Ht); lia).
  assert (Z.of_nat (length (canon lens)) ≤ Z.of_nat (length lens)) as Hcl by (pose proof (upto_length lens 15); lia).
  destruct (process_codes_spec type lens (ent type) M table root) with (ws := canon lens) (n := n) (W := W) (max := max)
    (limit := space type) (F0 := F0) (fuel := (length lens + 1)%nat) (F := F0) (done := @nil Z) (rem := canon lens)
    (s := Tst 0 0 min table root 0 (2 ^ 32 - 1) (2 ^ root) (arr 16 (cnt lens)) (arr M F0))
    as (F & s & -> & Htab & Hhuff & Hlen & Hu1 & Hu2 & Hdec & Hfr); try done; try lia.
  - apply Forall_forall. intros x Hx. by apply upto_elem in Hx as [? _].
  - apply upto_sorted.
  - by apply canon_total.
  - intros x k Hx Hk. apply entry_spec; [|lia]. apply upto_elem in Hx. lia.
  - intros a b E Ha Hb Hne. destruct R4 as [Er|Er]; [|rewrite Er in Hb |- *; by eapply space_enough]. exfalso. rewrite Er in Hb.
    destruct b as [|y b]; [done|]. inversion Hb as [|? ? Hy _]; subst. rewrite Forall_forall in M3.
    specialize (M3 y). rewrite E in M3. specialize (M3 ltac:(apply elem_of_app; right; constructor)). cbn beta in M3. lia.
  - destruct type; cbn [space] in *; lia.
  - apply first_inv; [done|lia|done|]. intros k Hk. symmetry. by apply upto_cnt.
  - cbn [mbind outcome_bind]. rewrite Hhuff, fill_rest_none by (pose proof (Z.pow_pos_nonneg 2 (t_len s)); lia).
    cbn [mbind outcome_bind]. rewrite Htab. eexists _, _, _, _, _, _. split; [done|]. split_and!; try done; try lia.
    + by replace (table + t_used s - table) with (t_used s) by lia.
    + apply arr_length.
    + intros Ht. apply Forall_forall. intros y Hy. destruct R4 as [-> | ->].
      * rewrite Forall_forall in M3. by apply M3.
      * pose proof canon_long as Hl. rewrite Forall_forall in Hl. specialize (Hl y Hy). cbn beta in Hl. by rewrite Ht in Hl |- *.
Qed.
End build.

(** ** Decoding *)

Lemma small_link c : 1 ≤ c ≤ 15 → Z.land c 0xf0 = 0.
Proof.
  intros Hc. assert (Forall (λ c, Z.land c 0xf0 = 0) (seqZ 1 15)) as H by (apply (bool_decide_unpack _); vm_compute; exact I).
  rewrite Forall_forall in H. apply H, elem_of_seqZ. lia.
Qed.

Lemma decoded_lookup type lens M table root U F low nx0 v x :
  decoded lens (ent type) table root U F low nx0 (R (v `mod` 2 ^ 15)) x →
  0 ≤ x < symbols type → 1 ≤ ln lens x ≤ 15 → 1 ≤ root ≤ 15 → 0 ≤ table → 2 ^ root ≤ U → table + U ≤ M →
  (type = CODES → ln lens x ≤ root) →
  lookup_code type (arr M F) table root v = Ok (meaning type x, ln lens x).
Proof.
  intros Hd Hx Hl Hr Ht Hs HM HC. unfold decoded in Hd. rewrite (rev_rev 15) in Hd by (apply Z.mod_pos_bound; lia).
  rewrite mod_le_pow in Hd by lia.
  pose proof (Z.mod_pos_bound v (2 ^ root) ltac:(apply Z.pow_pos_nonneg; lia)) as Hm.
  assert (∀ k, c_bits (ent type x k) = k ∧ (c_op (ent type x k), c_val (ent type x k)) = meaning type x) as He.
  { intros k. unfold ent. by destruct (meaning type x). }
  unfold lookup_code. rewrite aget_arr by lia. cbn [mbind outcome_bind].
  destruct Hd as [[Hle E]|(Hlt & c & nx & E & Hc & Hnx & Hn2 & _ & E2)]; rewrite E; [|rewrite mod_le_pow in E2 by lia].
  - destruct (entry_spec type x (ln lens x) Hx ltac:(lia)) as [_ ->]. destruct (He (ln lens x)) as [-> <-]. done.
  - assert (is_link type c = true) as Hlink.
    { destruct type; [specialize (HC eq_refl); lia|..]; apply bool_decide_eq_true; pose proof (small_link c); [split|]; lia. }
    cbn [c_op c_bits c_val]. rewrite Hlink. rewrite Z.shiftr_div_pow2 by lia.
    pose proof (sub_index_bound v root c ltac:(lia) ltac:(lia)). rewrite Z.add_assoc, aget_arr by lia. cbn [mbind outcome_bind].
    rewrite E2. destruct (He (ln lens x - root)) as [-> <-]. do 2 f_equal. lia.
Qed.

(** The bits of a code word come first bit first. *)
Definition codebits (lens : list Z) (s : Z) : Z := rev (Z.to_nat (ln lens s)) (codeword lens s).

Lemma codeword_start lens n l :
  lens !! n = Some l → 1 ≤ l ≤ 15 → R (codeword lens (Z.of_nat n) * 2 ^ (15 - l)) = codebits lens (Z.of_nat n).
Proof.
  intros Hn Hl. rewrite (R_aligned l) by (lia || apply Z.divide_factor_r). pose proof (word_pos l ltac:(lia)).
  rewrite Z.div_mul by lia. unfold codebits, ln. by rewrite Nat2Z.id, (list_lookup_total_correct _ _ _ Hn).
Qed.

Definition decodes (type : codetype) (lens : list Z) (tab : list code) (table bits : Z) : Prop :=
  ∀ n l v, lens !! n = Some l → l ≠ 0 → 0 ≤ v → v `mod` 2 ^ l = codebits lens (Z.of_nat n) →
    lookup_code type tab table bits v = Ok (meaning type (Z.of_nat n), l).

Lemma syms_NoDup ls s l : NoDup (syms ls s l).
Proof.
  assert (∀ ls s x, x ∈ syms ls s l → s ≤ x) as Hge.
  { clear. induction ls as [|y ls IH]; intros s x Hx; [by apply elem_of_nil in Hx|]. cbn [syms] in Hx.
    apply elem_of_app in Hx as [Hx|Hx]; [|apply IH in Hx; lia]. case_decide; [|by apply elem_of_nil in Hx].
    apply list_elem_of_singleton in Hx. lia. }
  revert s. induction ls as [|y ls IH]; intros s; [constructor|]. cbn [syms]. case_decide; [|apply IH].
  constructor; [|apply IH]. intros Hx%Hge. lia.
Qed.
Lemma upto_NoDup lens m : NoDup (upto lens m).
Proof.
  induction m as [|m IH]; [constructor|]. rewrite upto_S. apply NoDup_app. split_and!; [done| |apply syms_NoDup].
  intros x Hx Hs. apply upto_elem in Hx. apply syms_elem in Hs. lia.
Qed.
Lemma canon_words lens a x b :
  canon lens = a ++ x :: b → ks lens a = codeword lens x * 2 ^ (15 - ln lens x) ∧ lens !! Z.to_nat x = Some (ln lens x) ∧ 0 ≤ x ∧ 1 ≤ ln lens x ≤ 15.
Proof.
  intros E. destruct (upto_elem lens 15 x) as [Hx1 Hx2]; [rewrite E; apply elem_of_app; right; constructor|]. simpl in Hx2.
  assert (lens !! Z.to_nat x = Some (ln lens x)) as Hl.
  { destruct (lookup_lt_is_Some_2 lens (Z.to_nat x) ltac:(lia)) as [v Hv]. unfold ln. by rewrite (list_lookup_total_correct _ _ _ Hv). }
  destruct (canon_split lens (Z.to_nat x) (ln lens x) Hl Hx2) as (a' & b' & E' & Hk). rewrite Z2Nat.id in E', Hk by lia.
  assert (length a = length a') as Hlen.
  { eapply (NoDup_lookup (canon lens)); [apply upto_NoDup|rewrite E; by apply list_lookup_middle|rewrite E'; by apply list_lookup_middle]. }
  rewrite E in E'. apply app_inj_1 in E' as [-> _]; [|done]. split_and!; [done..|lia|lia|lia].
Qed.

(** A complete code has a word for all bits. *)
Lemma words_complete lens v :
  lengths_ok lens → complete lens → 0 ≤ v → ∃ n l, lens !! n = Some l ∧ l ≠ 0 ∧ v `mod` 2 ^ l = codebits lens (Z.of_nat n).
Proof.
  intros Hok Hc Hv. set (u := v `mod` 2 ^ 15). assert (0 ≤ u < 2 ^ 15) as Hu by (apply Z.mod_pos_bound; lia).
  pose proof (R_bound u) as HR. destruct (words_cover lens (canon lens) (R u)) as (a & x & b & E & Hq); [by rewrite canon_total|].
  destruct (canon_words _ _ _ _ E) as (Hk & Hl & Hx0 & Hlx). exists (Z.to_nat x), (ln lens x). split_and!; [done|lia|].
  pose proof (codeword_start lens (Z.to_nat x) (ln lens x) Hl Hlx) as Hw. rewrite <- Hw. rewrite Z2Nat.id in * by lia. rewrite <- Hk in *.
  rewrite <- (in_word (ln lens x)) in Hq; [|lia|rewrite Hk; apply Z.divide_factor_r| |done].
  - rewrite (rev_rev 15) in Hq by done. rewrite <- Hq. unfold u. by rewrite mod_le_pow by lia.
  - pose proof (ks_nonneg lens a). lia.
Qed.

(** The entries from [table] on, up to the next free one, are all that count. *)
Lemma decoded_ext type lens table root U F G low nx0 q x :
  0 ≤ root → (∀ i, table ≤ i < table + U → G i = F i) → 2 ^ root ≤ U →
  decoded lens (ent type) table root U F low nx0 q x → decoded lens (ent type) table root U G low nx0 q x.
Proof.
  intros Hr HG HU. pose proof (Z.mod_pos_bound (R q) (2 ^ root) ltac:(apply Z.pow_pos_nonneg; lia)) as Hm.
  intros [[Hl E]|(Hl & c & nx & E & Hc & Hnx & Hn2 & Hlow & E2)]; [left|right; split; [done|]; exists c, nx].
  - rewrite HG by lia. done.
  - pose proof (sub_index_bound (R q) root c ltac:(lia) ltac:(lia)). rewrite !HG by lia. done.
Qed.

Lemma table_decodes type lens M table n F0 W0 :
  lengths_ok lens → Forall (λ l, l ≤ longest type) lens → complete lens → Z.of_nat (length lens) ≤ symbols type →
  0 ≤ table → table + space type ≤ M → Z.of_nat (length lens) ≤ n →
  ∃ F next bits work, inflate_table type lens (arr M F0) table (index_bits type) (arr n W0) = Ok (0, arr M F, next, bits, work) ∧
    1 ≤ bits ≤ index_bits type ∧ table + 2 ^ bits ≤ next ≤ table + space type ∧
    (∀ G, (∀ i, table ≤ i < next → G i = F i) → decodes type lens (arr M G) table bits) ∧
    (∀ i, i < table → F i = F0 i) ∧ length work = Z.to_nat n.
Proof.
  intros Hok Hlong Hc Hs Ht HM Hn.
  destruct (build_spec type lens Hok Hlong Hc Hs M table n F0 W0 Ht HM Hn)
    as (F & low & nx0 & next & root & work & -> & Hr & Hnext & Hdec & Hfr & Hw & HC).
  exists F, next, root, work. split_and!; try done; try lia. intros G HG i l v Hi Hl0 Hv Hbits.
  pose proof (Forall_lookup_1 _ _ _ _ Hok Hi) as Hl. cbn beta in Hl.
  destruct (canon_split lens i l Hi ltac:(lia)) as (a & b & E & Hk).
  destruct (canon_words _ _ _ _ E) as (_ & Hln & _ & Hlr). rewrite Nat2Z.id, Hi in Hln. injection Hln as Hln.
  set (u := v `mod` 2 ^ 15). assert (0 ≤ u < 2 ^ 15) as Hu by (apply Z.mod_pos_bound; lia).
  apply lookup_lt_Some in Hi as Hil. assert (root ≤ 15 ∧ 2 ^ root ≤ space type) as [Hr15 Hrs].
  { assert (2 ^ root ≤ 2 ^ index_bits type) by (apply Z.pow_le_mono_r; lia). destruct type; cbn [index_bits space] in *; lia. }
  rewrite Hln. apply (decoded_lookup _ _ _ _ _ (next - table) _ low nx0); try done; try lia.
  - apply decoded_ext with F; [lia|intros j Hj; apply HG; lia|lia|]. apply (Hdec a _ b E). rewrite <- Hln. pose proof (R_bound u) as HR. pose proof (word_pos l ltac:(lia)).
    assert (2 ^ (15 - l) | ks lens a) as Hd by (rewrite Hk; apply Z.divide_factor_r).
    apply in_word; [lia|done| |done|].
    + pose proof (ks_nonneg lens a). pose proof (canon_total lens Hok Hc) as Ht'. rewrite E, ks_app in Ht'. unfold ks in Ht' at 2.
      rewrite fmap_cons, ksum_cons, <- Hln in Ht'. fold (ks lens b) in Ht'. pose proof (ks_nonneg lens b). lia.
    + rewrite (rev_rev 15) by done. unfold u. rewrite mod_le_pow by lia. rewrite Hbits, Hk. symmetry. by apply codeword_start; [|lia].
  - intros Hty. specialize (HC Hty). rewrite Forall_forall in HC. apply HC. rewrite E. apply elem_of_app. right. constructor.
Qed.

(** ** Lengths that are no code *)

Lemma inflate_table_rejects type lens tab table bits work :
  lengths_ok lens → Z.of_nat (length lens) < 65536 →
  let k := ksum (filter (λ l, l ≠ 0) lens) in
  2 ^ 15 < k ∨ (0 < k < 2 ^ 15 ∧ (type = CODES ∨ ∃ l, l ∈ lens ∧ 1 < l)) →
  inflate_table type lens tab table bits work = Ok (-1, tab, table, bits, work).
Proof.
  intros Hok Hlen k Hk. unfold inflate_table. rewrite count_all by done. cbn [mbind outcome_bind].
  destruct (max_length_spec (cnt lens) 15 ltac:(lia)) as (H1 & H2 & H3). set (max := max_length _ _) in *.
  rewrite codes_left_kraft by done. fold k. cbn zeta.
  assert (∀ l, l ∈ lens → l ≤ max) as Hmax.
  { intros l Hl. destruct (decide (l ≤ max)) as [|Hn]; [done|]. exfalso. pose proof (proj1 (Forall_forall _ _) Hok l Hl) as Hl15.
    cbn beta in Hl15. assert (cnt lens l = 0) as Hc by (apply H3; simpl; lia). by apply cnt_zero in Hc. }
  assert (max ≠ 0) as H0.
  { intros E. assert (k = 0); [|lia]. unfold k. rewrite <- filter_used by done.
    assert (filter (λ l, 1 ≤ l ≤ 15) lens = []) as ->; [|done]. rewrite E in Hmax. clear -Hmax. induction lens as [|x ls IH]; [done|].
    rewrite filter_cons, decide_False by (specialize (Hmax x ltac:(constructor)); lia). apply IH. intros l Hl. apply Hmax. by constructor. }
  rewrite (decide_False (P := max = 0)) by done. destruct Hk as [Hk|[Hk Hty]].
  - by rewrite decide_False by lia.
  - rewrite decide_True by lia. rewrite decide_True; [done|]. split; [lia|]. destruct Hty as [|(l & Hl & Hl1)]; [by left|right].
    specialize (Hmax l Hl). lia.
Qed.

(** ** The tables of a block *)

(** The index of the next entry, the tables of the lengths and literals and of
    the distances, and the bits of their indices; or the message. *)
(* usr/klibc/zlib/inflate.c:928-947 inflate_table *)
Definition code_tables (lens : list Z) (nlen : nat) (ndist : nat) (codes : list code) (work : list Z) :
    outcome (string + (list code * Z * Z * Z * Z)) :=
  '(ret, codes, next, lenbits, work) ← inflate_table LENS (take nlen lens) codes 0 9 work;
  if decide (ret ≠ 0) then Ok (inl "invalid literal/lengths set"%string)
  else
    let distcode := next in
    '(ret, codes, next, distbits, work) ← inflate_table DISTS (take ndist (drop nlen lens)) codes distcode 6 work;
    if decide (ret ≠ 0) then Ok (inl "invalid distances set"%string)
    else Ok (inr (codes, lenbits, distcode, distbits, next)).

#[local] Instance code_inhabited : Inhabited code := populate (Code 0 0 0).

(** C29: For the lengths of a block that make two complete codes of at most 286
    and 30 symbols the tables are built, in 852 and 592 of the [ENOUGH]
    entries; they decode the code words of RFC 1951: whatever bits follow a
    word, looking it up gives the meaning of its symbol and the length of the
    word; and all bits begin with a word. *)
Theorem code_tables_decode lens nlen ndist codes work :
  let ll := take nlen lens in
  let dl := take ndist (drop nlen lens) in
  lengths_ok lens → (nlen ≤ 286)%nat → (ndist ≤ 30)%nat → complete ll → complete dl →
  Z.of_nat (length codes) = ENOUGH → (288 ≤ length work)%nat →
  ∃ codes' lenbits distcode distbits next,
    code_tables lens nlen ndist codes work = Ok (inr (codes', lenbits, distcode, distbits, next)) ∧
    distcode ≤ 852 ∧ next ≤ distcode + 592 ∧
    decodes LENS ll codes' 0 lenbits ∧ decodes DISTS dl codes' distcode distbits ∧
    ∀ ls v, ls = ll ∨ ls = dl → 0 ≤ v → ∃ n l, ls !! n = Some l ∧ l ≠ 0 ∧ v `mod` 2 ^ l = codebits ls (Z.of_nat n).
Proof.
  intros ll dl Hok Hnl Hnd Hcl Hcd Hcodes Hwork.
  assert (lengths_ok ll ∧ lengths_ok dl) as [Hll Hdl] by (split; [by apply Forall_take|by apply Forall_take, Forall_drop]).
  assert (length ll ≤ 286 ∧ length dl ≤ 30)%nat as [Hl1 Hl2] by (unfold ll, dl; rewrite !length_take; lia).
  assert (∀ ls ty, ty ≠ CODES → lengths_ok ls → Forall (λ l, l ≤ longest ty) ls) as Hlong.
  { intros ls ty Hty H. eapply Forall_impl; [exact H|]. intros z Hz. cbn beta in *. destruct ty; [done|cbn [longest]; lia..]. }
  unfold code_tables. fold ll dl.
  rewrite (arr_of codes), Hcodes, (arr_of work).
  destruct (table_decodes LENS ll ENOUGH 0 (Z.of_nat (length work)) (λ i, codes !!! Z.to_nat i)
    (λ i, work !!! Z.to_nat i)) as (F & next & bits & work' & Et & Hb & Hn & Hd & _ & Hw); try done; try (cbn [symbols]; lia).
  { by apply Hlong. }
  cbn [index_bits] in Et. rewrite Et. cbn [mbind outcome_bind]. rewrite decide_False by (by intros []). cbn [space] in Hn. rewrite (arr_of work'), Hw.
  destruct (table_decodes DISTS dl ENOUGH next (Z.of_nat (Z.to_nat (Z.of_nat (length work)))) F (λ i, work' !!! Z.to_nat i))
    as (F' & next' & bits' & work'' & Et' & Hb' & Hn' & Hd' & Hfr' & _); try done; try (cbn [symbols]; lia).
  { by apply Hlong. }
  { unfold ENOUGH. cbn [space]. lia. }
  cbn [index_bits] in Et'. rewrite Et'. cbn [mbind outcome_bind]. rewrite decide_False by (by intros []). cbn [space] in Hn'.
  eexists _, _, _, _, _. split; [done|]. split_and!; [lia|lia| | |].
  - apply Hd. intros i Hi. apply Hfr'. lia.
  - by apply Hd'.
  - intros ls v [-> | ->] Hv; by apply words_complete.
Qed.

(** Lengths that need all of the space. *)
Definition worst_lens : list Z :=
  [1; 2; 3] ++ replicate 117 10 ++ [11] ++ replicate 17 12 ++ replicate 17 13 ++ [14] ++ replicate 130 15.
Definition worst_dists : list Z :=
  [1; 2; 3; 4; 7] ++ replicate 9 8 ++ replicate 9 9 ++ [10; 11; 12; 13; 14; 15; 15].

Lemma code_tables_decode_witness :
  let lens := worst_lens ++ worst_dists in
  ∃ codes' lenbits distcode distbits next,
    code_tables lens 286 30 (blank_tab 2048) (replicate 288 0) = Ok (inr (codes', lenbits, distcode, distbits, next)) ∧
    decodes LENS worst_lens codes' 0 lenbits ∧ decodes DISTS worst_dists codes' distcode distbits.
Proof.
  cbn zeta. destruct (code_tables_decode (worst_lens ++ worst_dists) 286 30 (blank_tab 2048) (replicate 288 0))
    as (c & lb & dc & db & nx & E & _ & _ & H1 & H2 & _).
  - apply (bool_decide_unpack _). vm_compute. exact I.
  - lia.
  - lia.
  - vm_compute. reflexivity.
  - vm_compute. reflexivity.
  - vm_compute. reflexivity.
  - rewrite length_replicate. lia.
  - exists c, lb, dc, db, nx. split; [exact E|]. split; [exact H1|exact H2].
Defined.

(** The bounds are exact: 852 and 592 entries are needed. *)
Example worst_space :
  (λ x, match x with Ok (inr (_, lenbits, distcode, distbits, next)) => Some (lenbits, distcode, distbits, next - distcode) | _ => None end)
    (code_tables (worst_lens ++ worst_dists) 286 30 (blank_tab 2048) (replicate 288 0)) = Some (9, 852, 6, 592).
Proof. vm_compute. reflexivity. Qed.
